(* ===== verification/_CoqProject ===== *)
-Q . S2P
Prelude.v
Std.v
Ip.v
Env.v
Objects.v
Sim.v
Errors.v
Ownership.v
Alpn.v
Suites.v
Loaders.v
LoaderProps.v
ServerConfig.v
ClientConfig.v
ConfigProps.v
ClientProps.v
Builders.v
Session.v
RecordIo.v
RecordSpec.v
CryptoInfo.v
Install.v
Stream.v
Wakeups.v
StreamSpec.v
StreamProps.v
Portable.v
Delivery.v
Endpoint.v
Ffi.v
EndpointProps.v
Futures.v
HyperFutures.v
Hyper.v
EndToEnd.v
Conformance.v
Lifecycle.v
Examples.v
Mains.v
Testing.v
Hkdf.v
Handles.v
Regressions.v
Accessors.v
TestsIo.v
TestsKtls.v
TestsConfig.v
TestsError.v
