(* ===== verification/Prelude.v ===== *)
(** * tokio-aws-lc: a verification library

    tokio-aws-lc is a TLS stream for tokio on top of AWS-LC (BoringSSL's API),
    with offload of the record layer to Linux kernel TLS.  This library models
    the crate's own logic and proves what makes it correct.

    ** The program and its parts

    - [src/config/]: builders turn settings, PEM or DER material into an
      [SSL_CTX] ([server.rs], [client.rs], [der.rs], [cipher_suite.rs],
      [named_group.rs], and the ALPN wire format in [mod.rs]).
    - [src/acceptor.rs], [src/connector.rs]: set up an [SSL] on a connected
      socket, drive its handshake, and hand out a [TlsStream]; [src/hyper.rs]
      puts adapters for hyper's server and client on top.
    - [src/stream.rs]: the stream.  Its polls run on one of two data paths:
      [SSL_read]/[SSL_write] in userspace, or plain socket calls once the kernel
      encrypts.
    - [src/ktls/]: decides whether a session can be offloaded ([cipher.rs]),
      derives the kernel's key structures from it ([derive.rs],
      [crypto_info.rs]), installs them ([mod.rs]), and reads and writes records
      with their types in ancillary data ([io.rs]).
    - [src/session.rs], [src/error.rs], [src/ffi.rs]: views of the negotiated
      session, errors and the AWS-LC error queue, owning handles.

    The configuration is shared by the endpoints; an endpoint calls the
    handshake driver and then [try_auto_install_ktls], which decides the data
    path of the stream for good; the stream calls the record reader on the
    kernel path.

    ** The model

    Code is a function in the monad [M] of this file: a state, which is the
    object a method mutates and the world outside the crate, and an [outcome]
    that is a result, a panic, or a loop that ran out of fuel.  Results, polls
    and errors are values, as in Rust.  Integers are [Z]; casts and [try_from]
    are written out where the source has them, bytes are [Byte.byte].

    What the crate calls and does not contain (AWS-LC, libc's socket calls,
    tokio's readiness) is a parameter: classes of operations over a type [W] of
    worlds, in [Env] and [Objects].  What the crate relies on is stated in
    separate classes of laws, which follow the documentation: the error queue is
    a queue, [SSL_write] takes its whole buffer or must be repeated with it,
    [try_io] clears the readiness it found to be stale, a successful setter of a
    context changes that setting, [SSL_CTX_add0_chain_cert] takes over the
    reference on success only.  Laws about an AWS-LC object ask for a reference
    to it, so a proof has to show that no object is used after it was freed.
    [Sim] is a concrete world that satisfies every law; the witnesses run the
    code in it.

    - [Prelude]: the types, the monad, partial ([wp]) and total ([twp]) weakest
      preconditions, budgets for loops, bytes and words.
    - [Std]: [io::Error] and its kinds, UTF-8, integer conversions; [Ip]: the
      address parser behind [str::parse::<IpAddr>].
    - [Env]: sockets, readiness, the error queue, the established session, key
      derivation, and the [View] of a connection: what was accepted for sending,
      received, closed, and told to the kernel.  [Objects]: contexts,
      certificates, keys, BIOs and sessions, with the ghost state of references
      and settings.  [Sim]: the concrete world.
    - [Errors] ([error.rs]), [Ownership] (scopes that drop a handle, setters),
      [Alpn] ([config/mod.rs] and [alpn_select_cb]), [Suites]
      ([cipher_suite.rs], [named_group.rs], [ktls/cipher.rs]).
    - [Loaders], [LoaderProps] ([der.rs] and the loaders of both builders),
      [ServerConfig], [ConfigProps] ([server.rs]), [ClientConfig], [ClientProps]
      ([client.rs]), [Builders] (chains of setters on either builder).
    - [Session] ([session.rs]), [RecordIo], [RecordSpec] ([ktls/io.rs] and its
      specification), [CryptoInfo] ([crypto_info.rs], [derive.rs] and
      [derive_crypto_info]), [Install] ([ktls/mod.rs]).
    - [Stream], [StreamSpec], [StreamProps] ([stream.rs]); [Wakeups]: the shared
      waker of [stream.rs] against a reactor on another thread, as a step
      relation, and [Conformance]: the polls of [Stream] as runs of it;
      [Delivery]: what a pair of streams delivers; [Portable]: targets
      other than Linux, the host probe and [ktls_eligibility].
    - [Endpoint], [EndpointProps] ([acceptor.rs], [connector.rs]); [Hyper]
      ([hyper.rs], over hyper-util's connector as a parameter); [EndToEnd]: whole
      sessions.  [Futures], [HyperFutures]: [accept], [connect] and the call of the
      HTTPS connector as futures that an executor polls and may drop.
    - [Ffi]: cloning and dropping of contexts, sessions, streams and shared
      configurations ([ffi.rs], and the [Arc]s of acceptor and connector);
      [Lifecycle]: programs that use them in any order, as a step relation.
    - [Handles]: the owning wrappers of [ffi.rs] with their constructors and
      drops, and its unit tests.  [Accessors]: what a user reads back from streams,
      session views and hyper adapters, with the unit tests of [hyper.rs].
    - [Examples]: the echo server and the HTTPS client of [examples/], over an
      interface for tokio's extension methods; [Mains]: the main functions of the
      three examples, over an interface for files, listeners and connections.
    - [Testing], [TestsIo], [TestsKtls], [TestsConfig], [TestsError]: the unit
      tests of the crate, function by function, as programs of the model; [Hkdf]:
      an executable SHA-2, HMAC and HKDF-Expand for their known answers.
      [Regressions]: the writer's helpers of [tests/stream_regressions.rs].

    ** What the theorems show

    - Reception on the kernel path refines a specification over the sequence of
      [recvmsg] results: bytes are delivered in order, end of stream needs an
      authenticated [close_notify], a control record never passes for data, a
      terminal outcome is final, and a poll makes at most [IO_BUDGET] (32)
      calls.
    - The write path is a queue, over any interleaving of reads, writes, flushes
      and shutdowns: exactly the bytes reported as accepted are handed on, in
      order and once; the first failure is final; [close_notify] goes out at
      most once and after everything else; and a stuck flush does not keep a read
      from data.
    - No wakeup is lost: in every interleaving of the two halves' polls with the
      reactor's thread and the network, a half that sleeps for a direction of the
      socket is woken once that direction can make progress.  And the polls of
      the code follow that protocol: whenever one of them returns [Pending], its
      half is registered and will be woken.
    - End to end, from [accept] and [connect] over any polls on either data path:
      what one side reads is a prefix of what the other was told is accepted, and
      all of it when it sees the end of the stream.  The echo server gives back
      what it got, and the HTTPS client succeeds only with a whole response.  The
      main functions of the servers give every accepted socket to one task and
      keep one count of the shared configuration for each.
    - Kernel TLS is all or nothing: a stream is on the kernel path only if the
      kernel accepted both directions, and on the libssl path only if it
      accepted neither; the keys are those of the key schedule, and what one end
      installs for transmission the other installs for reception.
    - A configuration that is built is exactly what was asked for, setting by
      setting, with verification on unless it was switched off; loaders accept
      whole inputs only; building and dropping leaks nothing on any path; and
      every builder that a chain of setters can make is well formed.
    - Shared objects are released once and not too early: in any order of
      building, cloning, sharing, accepting and dropping, each drop gives back
      exactly the references of its handle, the ALPN list of a context is there as
      long as a handshake can ask for it, and nothing is left behind at the end.
      The tests of the owning wrappers hold in every world that satisfies the
      laws, with any number of rounds.
    - A client authenticates the name it was given, IP literals against IP names
      and without SNI; an endpoint that fails has released session and socket.
    - Handshakes are safe to cancel: the futures of [accept], of [connect] and of a
      call of the HTTPS connector, dropped after any number of polls, give back
      exactly what they own, and a poll of them returns, with its waker registered
      if it is pending.  With readiness futures that are always ready they are the
      resolved functions of [Endpoint].
    - ALPN encoding and decoding are inverse, decoding is total on hostile
      input, and the server's callback implements server preference.
    - The model agrees with the crate's own unit tests: they pass when they are run
      on it, among them the known answers of HKDF-Expand-Label and every
      malformed record of [io.rs].  What the stream regressions assert of a stalled
      writer and of a repeated shutdown holds in every world.

    ** Fuel and bounds

    The loops of [ktls/io.rs] have the constant bound of the source and recurse
    on it.  The loops of [stream.rs] have none: they take fuel, and the theorems
    [poll_*_total] show that more fuel than the readiness budget of the world
    ([ReadyBudget]: tokio's cooperative budget) is enough.  The handshake driver
    waits for the peer as often as the library asks; its theorem relates fuel to
    the number of waits, and the endpoints are shown to wait for nothing else.  One
    poll of a handshake future needs two units for each readiness event it can see
    ([answers] of [ReadyFutureLaws]) and two more.
    PEM loops get one unit more than the length of the text, since every
    certificate takes a byte of it; ALPN and UTF-8 decoding get the length of
    their input for the same reason.  The layouts of [cmsghdr] and of the kernel
    structures are those of 64-bit little-endian Linux.

    ** What is not modelled

    The executor is not: a poll is one call of the poll function, interleavings are
    sequences of polls, and an [await] is its resolved result everywhere but in
    [Futures] and [HyperFutures].  Only [Wakeups]
    and [Conformance] look inside a poll, of the libssl path, where the reactor and
    the network run concurrently with the calls of the poll; the calls of the
    shared waker may happen at any time in [Wakeups], and between the polls in
    [Conformance].  That TLS carries records in order is the hypothesis [carries]
    of the end-to-end theorems.
    Memory safety of the FFI calls is the contract of the laws, not a theorem about
    pointers; a box that would be freed twice ends the model's program with a
    panic, so that theorems exclude it.  The material of the tests is a parameter
    of them: they run with the simulated library, whose certificates and keys are
    toys.  Not modelled are [Send] and the derived traits, what the examples
    print, the unit tests that read PEM files and the raw TCP exchange of the one
    that needs the kernel, and the rest of the integration tests and the
    benchmarks, which run over real sockets and have no logic of the crate in
    them. *)

From Stdlib Require Export Strings.Byte.
From stdpp Require Export gmap gmultiset prelude strings pretty.

(** ** Result, poll and outcome types *)

(** Rust's [Result<A, E>]. *)
Inductive result (A E : Type) : Type :=
| Ok (a : A)
| Err (e : E).
Arguments Ok {_ _} _.
Arguments Err {_ _} _.

(** Rust's [std::task::Poll<A>]. *)
Inductive poll (A : Type) : Type :=
| Ready (a : A)
| Pending.
Arguments Ready {_} _.
Arguments Pending {_}.

(** The outcome of running a function: it returns, it panics
    ([expect], [assert!], a slice index out of range), or the fuel given to
    one of its unbounded loops runs out. *)
Inductive outcome (A : Type) : Type :=
| Done (a : A)
| Panic (msg : string)
| OutOfFuel.
Arguments Done {_} _.
Arguments Panic {_} _.
Arguments OutOfFuel {_}.

#[export] Instance result_eq_dec {A E} `{EqDecision A, EqDecision E} :
  EqDecision (result A E).
Proof. solve_decision. Defined.

#[export] Instance poll_eq_dec {A} `{EqDecision A} : EqDecision (poll A).
Proof. solve_decision. Defined.

#[export] Instance byte_eq_dec : EqDecision byte := Byte.byte_eq_dec.

Definition is_ok {A E} (r : result A E) : bool :=
  match r with Ok _ => true | Err _ => false end.

Definition map_err {A E E'} (f : E → E') (r : result A E) : result A E' :=
  match r with Ok a => Ok a | Err e => Err (f e) end.

Definition result_map {A B E} (f : A → B) (r : result A E) : result B E :=
  match r with Ok a => Ok (f a) | Err e => Err e end.

Definition ok_or {A E} (o : option A) (e : E) : result A E :=
  match o with Some a => Ok a | None => Err e end.

(** ** The state monad of the development

    A Rust function that mutates a state [S] (its [&mut self], and the world
    outside the crate) and returns an [A]. *)

Definition M (S A : Type) : Type := S → outcome (A * S).

#[export] Instance M_ret {S} : MRet (M S) := λ A a s, Done (a, s).

#[export] Instance M_bind {S} : MBind (M S) := λ A B k m s,
  match m s with
  | Done (a, s') => k a s'
  | Panic msg => Panic msg
  | OutOfFuel => OutOfFuel
  end.

Definition panic {S A} (msg : string) : M S A := λ _, Panic msg.
Definition out_of_fuel {S A} : M S A := λ _, OutOfFuel.
Definition get_state {S} : M S S := λ s, Done (s, s).
Definition put_state {S} (s : S) : M S unit := λ _, Done (tt, s).
Definition modify {S} (f : S → S) : M S unit := λ s, Done (tt, f s).
Definition gets {S A} (f : S → A) : M S A := λ s, Done (f s, s).

(** A call to code outside the crate: a total function on the world. *)
Definition ext {W A} (f : W → A * W) : M W A := λ w, Done (f w).

(** Methods run on a pair of the object and the world. *)
Definition lift {T W A} (m : M W A) : M (T * W) A := λ s,
  match m s.2 with
  | Done (a, w) => Done (a, (s.1, w))
  | Panic msg => Panic msg
  | OutOfFuel => OutOfFuel
  end.

Definition self {T W} : M (T * W) T := λ s, Done (s.1, s).
Definition set_self {T W} (t : T) : M (T * W) unit := λ s, Done (tt, (t, s.2)).
Definition modify_self {T W} (f : T → T) : M (T * W) unit :=
  λ s, Done (tt, (f s.1, s.2)).

Declare Scope rust_scope.
Delimit Scope rust_scope with rust.

(** [let* x := m in k] is sequencing, [let? x := m in k] the [?] operator,
    [ready! x := m in k] the [ready!] macro and [ready? x := m in k] the
    combination [ready!(m)?]. *)
Notation "'let*' x ':=' m 'in' k" := (mbind (λ x, k) m)
  (at level 10, x pattern, m at level 200, k at level 200) : rust_scope.
Notation "'do*' m ';' k" := (mbind (λ _, k) m)
  (at level 10, m at level 100, k at level 200) : rust_scope.
Notation "'let?' x ':=' m 'in' k" :=
  (mbind (λ r, match r with Ok x => k | Err e => mret (Err e) end) m)
  (at level 10, x pattern, m at level 200, k at level 200) : rust_scope.
Notation "'ready!' x ':=' m 'in' k" :=
  (mbind (λ r, match r with Ready x => k | Pending => mret Pending end) m)
  (at level 10, x pattern, m at level 200, k at level 200) : rust_scope.
Notation "'ready?' x ':=' m 'in' k" :=
  (mbind (λ r, match r with
               | Ready (Ok x) => k
               | Ready (Err e) => mret (Ready (Err e))
               | Pending => mret Pending
               end) m)
  (at level 10, x pattern, m at level 200, k at level 200) : rust_scope.

Open Scope rust_scope.

(** ** Weakest preconditions

    [wp m Q s]: running [m] from [s] does not panic and, unless a loop runs
    out of fuel, ends in a value and a state that satisfy [Q].  Termination
    is stated separately, as [m s = Done _]. *)

Definition wp {S A} (m : M S A) (Q : A → S → Prop) (s : S) : Prop :=
  match m s with
  | Done (a, s') => Q a s'
  | Panic _ => False
  | OutOfFuel => True
  end.

Create HintDb wp.

Section wp.
Context {S : Type}.
Implicit Types s : S.

Lemma wp_ret {A} (a : A) (Q : A → S → Prop) s : Q a s → wp (mret a) Q s.
Proof. done. Qed.

Lemma wp_bind {A B} (m : M S A) (k : A → M S B) (Q : B → S → Prop) s :
  wp m (λ a, wp (k a) Q) s → wp (m ≫= k) Q s.
Proof. unfold wp, mbind, M_bind. by destruct (m s) as [[]| |]. Qed.

Lemma wp_bind_inv {A B} (m : M S A) (k : A → M S B) (Q : B → S → Prop) s :
  wp (m ≫= k) Q s → wp m (λ a, wp (k a) Q) s.
Proof. unfold wp, mbind, M_bind. by destruct (m s) as [[]| |]. Qed.

Lemma wp_mono {A} (m : M S A) (P Q : A → S → Prop) s :
  wp m P s → (∀ a s', P a s' → Q a s') → wp m Q s.
Proof. unfold wp. destruct (m s) as [[]| |]; auto. Qed.

Lemma wp_and {A} (m : M S A) (P Q : A → S → Prop) s :
  wp m P s → wp m Q s → wp m (λ a s', P a s' ∧ Q a s') s.
Proof. unfold wp. destruct (m s) as [[]| |]; auto. Qed.

Lemma wp_gets {A} (f : S → A) (Q : A → S → Prop) s : Q (f s) s → wp (gets f) Q s.
Proof. done. Qed.

Lemma wp_modify (f : S → S) (Q : unit → S → Prop) s : Q tt (f s) → wp (modify f) Q s.
Proof. done. Qed.

Lemma wp_get_state (Q : S → S → Prop) s : Q s s → wp get_state Q s.
Proof. done. Qed.

Lemma wp_put_state s' (Q : unit → S → Prop) s : Q tt s' → wp (put_state s') Q s.
Proof. done. Qed.

Lemma wp_ext {A} (f : S → A * S) (Q : A → S → Prop) s :
  (∀ a s', f s = (a, s') → Q a s') → wp (ext f) Q s.
Proof. unfold wp, ext. destruct (f s); auto. Qed.

Lemma wp_out_of_fuel {A} (Q : A → S → Prop) s : wp out_of_fuel Q s.
Proof. done. Qed.

(** What a [wp] fact says about a run that returns. *)
Lemma wp_done {A} (m : M S A) (Q : A → S → Prop) s a s' :
  wp m Q s → m s = Done (a, s') → Q a s'.
Proof. unfold wp. by intros H E; rewrite E in H. Qed.

(** A sequence returns through a result of its first part. *)
Lemma bind_done {A B} (m : M S A) (k : A → M S B) s b s' :
  (m ≫= k) s = Done (b, s') → ∃ a s1, m s = Done (a, s1) ∧ k a s1 = Done (b, s').
Proof. unfold mbind, M_bind. destruct (m s) as [[a s1]| |]; [|done..]. by exists a, s1. Qed.

Lemma wp_no_panic {A} (m : M S A) (Q : A → S → Prop) s msg :
  wp m Q s → m s ≠ Panic msg.
Proof. unfold wp. by intros H E; rewrite E in H. Qed.

Lemma wp_intro {A} (m : M S A) (Q : A → S → Prop) s :
  (∀ msg, m s ≠ Panic msg) → (∀ a s', m s = Done (a, s') → Q a s') → wp m Q s.
Proof. unfold wp. destruct (m s) as [[]| |]; naive_solver. Qed.

#[global] Instance wp_proper {A} (m : M S A) :
  Proper (pointwise_relation A (pointwise_relation S impl) ==> eq ==> impl) (wp m).
Proof. intros P Q HPQ s ? <- HP. eapply wp_mono; [exact HP|]. intros; by apply HPQ. Qed.
End wp.

Section wp_self.
Context {T W : Type}.
Implicit Types s : T * W.

Lemma wp_self (Q : T → T * W → Prop) s : Q s.1 s → wp self Q s.
Proof. done. Qed.

Lemma wp_set_self t (Q : unit → T * W → Prop) s : Q tt (t, s.2) → wp (set_self t) Q s.
Proof. done. Qed.

Lemma wp_modify_self (f : T → T) (Q : unit → T * W → Prop) s :
  Q tt (f s.1, s.2) → wp (modify_self f) Q s.
Proof. done. Qed.

Lemma wp_lift {A} (m : M W A) (Q : A → T * W → Prop) s :
  wp m (λ a w, Q a (s.1, w)) s.2 → wp (lift m) Q s.
Proof. unfold wp, lift. by destruct (m s.2) as [[]| |]. Qed.

Lemma lift_done {A} (m : M W A) (s s' : T * W) a :
  lift m s = Done (a, s') → ∃ w', m s.2 = Done (a, w') ∧ s' = (s.1, w').
Proof. unfold lift. destruct (m s.2) as [[a' w']| |]; [|done..]. intros [= -> <-]. by exists w'. Qed.
End wp_self.

#[export] Hint Resolve wp_ret wp_gets wp_modify wp_self wp_set_self wp_modify_self
  wp_out_of_fuel : wp.

(** One step of symbolic execution in a [wp] goal. *)
Ltac wp_step :=
  lazymatch goal with
  | |- wp (mret _) _ _ => apply wp_ret
  | |- wp (mbind _ _) _ _ => apply wp_bind
  | |- wp (gets _) _ _ => apply wp_gets
  | |- wp (modify _) _ _ => apply wp_modify
  | |- wp get_state _ _ => apply wp_get_state
  | |- wp (put_state _) _ _ => apply wp_put_state
  | |- wp self _ _ => apply wp_self
  | |- wp (set_self _) _ _ => apply wp_set_self
  | |- wp (modify_self _) _ _ => apply wp_modify_self
  | |- wp (lift _) _ _ => apply wp_lift
  | |- wp out_of_fuel _ _ => exact I
  | |- wp (ext _) _ _ => apply wp_ext; intros ? ? ?
  | |- wp (if ?b then _ else _) _ _ => destruct b eqn:?
  | |- wp (match ?x with _ => _ end) _ _ => destruct x eqn:?
  end.

(** ** Bytes and machine words *)

(** [z as u8]. *)
Definition u8 (z : Z) : byte :=
  default Byte.x00 (Byte.of_N (Z.to_N (z mod 256))).

(** A byte as an integer ([b as usize], [u32::from(b)]). *)
Definition byte_Z (b : byte) : Z := Z.of_N (Byte.to_N b).

Lemma byte_Z_range b : (0 ≤ byte_Z b < 256)%Z.
Proof. unfold byte_Z. pose proof (Byte.to_N_bounded b). lia. Qed.

Lemma byte_Z_u8 z : byte_Z (u8 z) = (z mod 256)%Z.
Proof.
  unfold u8, byte_Z. pose proof (Z.mod_pos_bound z 256 ltac:(lia)).
  destruct (Byte.of_N (Z.to_N (z mod 256))) eqn:E; simpl.
  - apply Byte.to_of_N in E. rewrite E. lia.
  - apply Byte.of_N_None_iff in E. lia.
Qed.

Lemma u8_byte_Z b : u8 (byte_Z b) = b.
Proof.
  unfold u8, byte_Z. pose proof (Byte.to_N_bounded b).
  rewrite Z.mod_small by lia. rewrite N2Z.id, Byte.of_to_N. done.
Qed.

Lemma byte_Z_inj b1 b2 : byte_Z b1 = byte_Z b2 → b1 = b2.
Proof. intros H. by rewrite <- (u8_byte_Z b1), H, u8_byte_Z. Qed.

(** [to_be_bytes] of an unsigned integer of [n] bytes. *)
Fixpoint to_be_bytes (n : nat) (z : Z) : list byte :=
  match n with
  | O => []
  | S n' => u8 (Z.shiftr z (8 * Z.of_nat n')) :: to_be_bytes n' z
  end.

(** [from_be_bytes]. *)
Fixpoint from_be_bytes (bs : list byte) : Z :=
  match bs with
  | [] => 0
  | b :: bs' => Z.shiftl (byte_Z b) (8 * Z.of_nat (length bs')) + from_be_bytes bs'
  end.

Lemma length_to_be_bytes n z : length (to_be_bytes n z) = n.
Proof. induction n; simpl; auto. Qed.

Lemma from_to_be_bytes n z :
  from_be_bytes (to_be_bytes n z) = (z mod 2 ^ (8 * Z.of_nat n))%Z.
Proof.
  induction n as [|n IH]; [by rewrite Z.mod_1_r|].
  cbn [to_be_bytes from_be_bytes]. rewrite length_to_be_bytes, IH, byte_Z_u8.
  rewrite Z.shiftl_mul_pow2, Z.shiftr_div_pow2 by lia.
  replace (8 * Z.of_nat (S n))%Z with (8 * Z.of_nat n + 8)%Z by lia.
  rewrite Z.pow_add_r by lia. change (2 ^ 8)%Z with 256%Z.
  rewrite Z.rem_mul_r by lia. ring.
Qed.

Lemma to_be_bytes_inj n z1 z2 :
  (0 ≤ z1 < 2 ^ (8 * Z.of_nat n))%Z → (0 ≤ z2 < 2 ^ (8 * Z.of_nat n))%Z →
  to_be_bytes n z1 = to_be_bytes n z2 → z1 = z2.
Proof.
  intros H1 H2 E%(f_equal from_be_bytes). rewrite !from_to_be_bytes in E.
  by rewrite !Z.mod_small in E by lia.
Qed.

(** Byte strings and character strings. *)
Abbreviation bytes_of := String.list_byte_of_string (only parsing).
Abbreviation str_of := String.string_of_list_byte (only parsing).

(** A method that only touches the object. *)
Definition on_self {T W A} (m : M T A) : M (T * W) A := λ s,
  match m s.1 with
  | Done (a, t) => Done (a, (t, s.2))
  | Panic msg => Panic msg
  | OutOfFuel => OutOfFuel
  end.

Lemma wp_on_self {T W A} (m : M T A) (Q : A → T * W → Prop) s :
  wp m (λ a t, Q a (t, s.2)) s.1 → wp (on_self m) Q s.
Proof. unfold wp, on_self. by destruct (m s.1) as [[]| |]. Qed.

Lemma wp_panic {S A} msg (Q : A → S → Prop) s : False → wp (panic msg) Q s.
Proof. done. Qed.

(** ** Functions without an unbounded loop

    [returns m]: no run of [m] ends for want of fuel.  With a [wp] fact this
    gives a result for every start state. *)
Definition returns {S A} (m : M S A) : Prop := ∀ s, m s ≠ OutOfFuel.

Lemma wp_returns {S A} (m : M S A) (Q : A → S → Prop) s :
  returns m → wp m Q s → ∃ a s', m s = Done (a, s') ∧ Q a s'.
Proof.
  unfold returns, wp. intros Hr. specialize (Hr s). destruct (m s) as [[]| |]; naive_solver.
Qed.

Section returns.
Context {S : Type}.

Lemma returns_ret {A} (a : A) : returns (mret a : M S A).
Proof. done. Qed.

Lemma returns_bind {A B} (m : M S A) (k : A → M S B) :
  returns m → (∀ a, returns (k a)) → returns (m ≫= k).
Proof.
  unfold returns, mbind, M_bind. intros Hm Hk s. specialize (Hm s).
  destruct (m s) as [[]| |]; [apply Hk|done..].
Qed.

Lemma returns_panic {A} msg : returns (panic msg : M S A).
Proof. done. Qed.

Lemma returns_get_state : returns (get_state : M S S).
Proof. done. Qed.

Lemma returns_put_state s : returns (put_state s : M S unit).
Proof. done. Qed.

Lemma returns_modify f : returns (modify f : M S unit).
Proof. done. Qed.

Lemma returns_gets {A} (f : S → A) : returns (gets f).
Proof. done. Qed.

Lemma returns_ext {A} (f : S → A * S) : returns (ext f).
Proof. done. Qed.
End returns.

Section returns_self.
Context {T W : Type}.

Lemma returns_self : returns (self : M (T * W) T).
Proof. done. Qed.

Lemma returns_set_self t : returns (set_self t : M (T * W) unit).
Proof. done. Qed.

Lemma returns_modify_self f : returns (modify_self f : M (T * W) unit).
Proof. done. Qed.

Lemma returns_lift {A} (m : M W A) : returns m → returns (lift m : M (T * W) A).
Proof. unfold returns, lift. intros Hm s. specialize (Hm s.2). by destruct (m s.2) as [[]| |]. Qed.

Lemma returns_on_self {A} (m : M T A) : returns m → returns (on_self m : M (T * W) A).
Proof.
  unfold returns, on_self. intros Hm s. specialize (Hm s.1). by destruct (m s.1) as [[]| |].
Qed.
End returns_self.

Create HintDb returns.
#[export] Hint Resolve returns_ret returns_bind returns_panic returns_get_state
  returns_put_state returns_modify returns_gets returns_ext returns_self returns_set_self
  returns_modify_self returns_lift returns_on_self : returns.

(** Discharge a [returns] goal by walking through the function. *)
Ltac returns_tac :=
  repeat lazymatch goal with
  | |- ∀ _, _ => intros ?
  | |- returns (mbind _ _) => apply returns_bind
  | |- returns (match ?x with _ => _ end) => destruct x
  | |- returns (let _ := _ in _) => cbv zeta
  | |- returns (lift _) => apply returns_lift
  | |- returns (on_self _) => apply returns_on_self
  | |- returns _ => solve [auto with returns]
  end.

(** ** Functions that leave part of the state alone *)
Definition preserves {S A V} (f : S → V) (m : M S A) : Prop :=
  ∀ s a s', m s = Done (a, s') → f s' = f s.

Section preserves.
Context {S V : Type} (f : S → V).

Lemma preserves_ret {A} (a : A) : preserves f (mret a : M S A).
Proof. by intros s ? ? [= _ <-]. Qed.

Lemma preserves_bind {A B} (m : M S A) (k : A → M S B) :
  preserves f m → (∀ a, preserves f (k a)) → preserves f (m ≫= k).
Proof.
  unfold mbind, M_bind. intros Hm Hk s b s' E.
  destruct (m s) as [[a s1]| |] eqn:Em; try done.
  etrans; [by eapply Hk|by eapply Hm].
Qed.

Lemma preserves_panic {A} msg : preserves f (panic msg : M S A).
Proof. by intros s ? ? ?. Qed.

Lemma preserves_gets {A} (g : S → A) : preserves f (gets g).
Proof. by intros s ? ? [= _ <-]. Qed.

Lemma preserves_modify g : (∀ s, f (g s) = f s) → preserves f (modify g).
Proof. intros Hg s ? ? [= _ <-]. apply Hg. Qed.

Lemma preserves_ext {A} (g : S → A * S) : (∀ s, f (g s).2 = f s) → preserves f (ext g).
Proof. intros Hg s a s' [= E]. specialize (Hg s). by rewrite E in Hg. Qed.

Lemma wp_preserves {A} (m : M S A) (Q : A → S → Prop) s :
  preserves f m → wp m Q s → wp m (λ a s', Q a s' ∧ f s' = f s) s.
Proof.
  intros Hp. unfold wp. destruct (m s) as [[a s']| |] eqn:E; [|done..].
  intros HQ. split; [done|]. by eapply Hp.
Qed.
End preserves.

Section preserves_self.
Context {T W V : Type} (f : W → V).

Lemma preserves_lift {A} (m : M W A) : preserves f m → preserves (λ s : T * W, f s.2) (lift m).
Proof.
  intros Hm s a s'. unfold lift. destruct (m s.2) as [[a' w]| |] eqn:E; [|done..].
  intros [= <- <-]. by eapply Hm.
Qed.

Lemma preserves_self : preserves (λ s : T * W, f s.2) self.
Proof. by intros s ? ? [= _ <-]. Qed.

Lemma preserves_modify_self h : preserves (λ s : T * W, f s.2) (modify_self h).
Proof. by intros s ? ? [= _ <-]. Qed.
End preserves_self.

(** The part of the object that a method leaves alone. *)
Section preserves_fst.
Context {T W V : Type} (g : T → V).

Lemma preserves_lift_fst {A} (m : M W A) : preserves (λ s : T * W, g s.1) (lift m).
Proof. intros s a s'. unfold lift. by destruct (m s.2) as [[]| |]; intros; simplify_eq. Qed.

Lemma preserves_self_fst : preserves (λ s : T * W, g s.1) self.
Proof. by intros s ? ? [= _ <-]. Qed.

Lemma preserves_modify_fst h :
  (∀ t, g (h t) = g t) → preserves (λ s : T * W, g s.1) (modify_self h).
Proof. intros Hh s ? ? [= _ <-]. apply Hh. Qed.
End preserves_fst.

Create HintDb preserves.
#[export] Hint Resolve preserves_ret preserves_panic preserves_gets preserves_self
  preserves_modify_self preserves_lift_fst preserves_self_fst preserves_modify_fst : preserves.

Ltac preserves_tac :=
  repeat lazymatch goal with
  | |- ∀ _, _ => intros ?
  | |- preserves _ (mbind _ _) => apply preserves_bind
  | |- preserves _ (match ?x with _ => _ end) => destruct x
  | |- preserves _ (let _ := _ in _) => cbv zeta
  | |- preserves _ (lift _) => first [apply preserves_lift_fst | apply preserves_lift]
  | |- preserves _ _ => solve [auto with preserves]
  end.

(** ** Loops that use up a budget

    [within f n m]: from a state with at most [n] units of the budget [f], [m]
    does not run out of fuel, and gives no unit back. *)
Definition within {S A} (f : S → nat) (n : nat) (m : M S A) : Prop := ∀ s,
  f s ≤ n →
  match m s with
  | Done (_, s') => f s' ≤ f s
  | Panic _ => True
  | OutOfFuel => False
  end.

(** A wait that takes a unit when it succeeds. *)
Definition spends {S A E} (f : S → nat) (m : M S (poll (result A E))) : Prop := ∀ s,
  match m s with
  | Done (Ready (Ok _), s') => f s' < f s
  | Done (_, s') => f s' ≤ f s
  | Panic _ => True
  | OutOfFuel => False
  end.

Section within.
Context {S : Type} (f : S → nat).

Lemma within_ret {A} n (a : A) : within f n (mret a).
Proof. intros s _. apply Nat.le_refl. Qed.

Lemma within_panic {A} n msg : within f n (panic msg : M S A).
Proof. done. Qed.

Lemma within_gets {A} n (g : S → A) : within f n (gets g).
Proof. intros s _. apply Nat.le_refl. Qed.

Lemma within_modify n g : (∀ s, f (g s) ≤ f s) → within f n (modify g).
Proof. intros Hg s _. apply Hg. Qed.

Lemma within_ext {A} n (g : S → A * S) : (∀ s, f (g s).2 ≤ f s) → within f n (ext g).
Proof. intros Hg s _. unfold ext. specialize (Hg s). by destruct (g s). Qed.

Lemma within_bind {A B} n (m : M S A) (k : A → M S B) :
  within f n m → (∀ a, within f n (k a)) → within f n (m ≫= k).
Proof.
  intros Hm Hk s Hs. unfold mbind, M_bind. specialize (Hm s Hs).
  destruct (m s) as [[a s']| |]; [|done..]. specialize (Hk a s' ltac:(lia)).
  destruct (k a s') as [[]| |]; [lia|done..].
Qed.

(** The step of an induction on the budget. *)
Lemma within_spend {A E B} n (m : M S (poll (result A E))) (k : poll (result A E) → M S B) :
  spends f m →
  (∀ a n', n = Datatypes.S n' → within f n' (k (Ready (Ok a)))) →
  (∀ e, within f n (k (Ready (Err e)))) → within f n (k Pending) →
  within f n (m ≫= k).
Proof.
  intros Hm Hok Herr Hpe s Hs. unfold mbind, M_bind. specialize (Hm s).
  destruct (m s) as [[[[a|e]|] s']| |]; [| | |done..].
  - destruct n as [|n']; [lia|]. specialize (Hok a n' eq_refl s' ltac:(lia)).
    destruct (k _ s') as [[]| |]; [lia|done..].
  - specialize (Herr e s' ltac:(lia)). destruct (k _ s') as [[]| |]; [lia|done..].
  - specialize (Hpe s' ltac:(lia)). destruct (k _ s') as [[]| |]; [lia|done..].
Qed.

Lemma within_then {A B} n (m : M S A) (k : A → M S B) s :
  within f n m → f s ≤ n → (∀ a s', f s' ≤ n → k a s' ≠ OutOfFuel) → (m ≫= k) s ≠ OutOfFuel.
Proof.
  intros Hm Hs Hk. unfold mbind, M_bind. specialize (Hm s Hs).
  destruct (m s) as [[a s']| |]; [|done..]. apply Hk. lia.
Qed.

Lemma within_not_out {A} n (m : M S A) s : within f n m → f s ≤ n → m s ≠ OutOfFuel.
Proof. intros Hm Hs E. specialize (Hm s Hs). by rewrite E in Hm. Qed.
End within.

Lemma within_lift {T W A} (f : W → nat) n (m : M W A) :
  within f n m → within (λ s : T * W, f s.2) n (lift m).
Proof.
  intros Hm s Hs. unfold lift. specialize (Hm s.2 Hs). by destruct (m s.2) as [[]| |].
Qed.

Lemma within_self {T W} (f : W → nat) n : within (λ s : T * W, f s.2) n self.
Proof. intros s _. apply Nat.le_refl. Qed.

Lemma within_set_self {T W} (f : W → nat) n t : within (λ s : T * W, f s.2) n (set_self t).
Proof. intros s _. apply Nat.le_refl. Qed.

Lemma within_modify_self {T W} (f : W → nat) n g :
  within (λ s : T * W, f s.2) n (modify_self g).
Proof. intros s _. apply Nat.le_refl. Qed.

Create HintDb within.
#[export] Hint Resolve within_ret within_panic within_gets within_self within_set_self
  within_modify_self within_lift : within.

Ltac within_tac :=
  repeat lazymatch goal with
  | |- ∀ _, _ => intros ?
  | |- within _ _ (mbind _ _) => apply within_bind
  | |- within _ _ (match ?x with _ => _ end) => destruct x
  | |- within _ _ (let _ := _ in _) => cbv zeta
  | |- within _ _ (lift _) => apply within_lift
  | |- within _ _ _ => solve [auto with within]
  end.

(** ** Total weakest preconditions

    [twp m Q s]: running [m] from [s] returns, and the value and the state it
    returns satisfy [Q]. *)

Definition twp {S A} (m : M S A) (Q : A → S → Prop) (s : S) : Prop :=
  match m s with
  | Done (a, s') => Q a s'
  | Panic _ | OutOfFuel => False
  end.

Section twp.
Context {S : Type}.
Implicit Types s : S.

Lemma twp_ret {A} (a : A) (Q : A → S → Prop) s : Q a s → twp (mret a) Q s.
Proof. done. Qed.

Lemma twp_bind {A B} (m : M S A) (k : A → M S B) (Q : B → S → Prop) s :
  twp m (λ a, twp (k a) Q) s → twp (m ≫= k) Q s.
Proof. unfold twp, mbind, M_bind. by destruct (m s) as [[]| |]. Qed.

Lemma twp_mono {A} (m : M S A) (P Q : A → S → Prop) s :
  twp m P s → (∀ a s', P a s' → Q a s') → twp m Q s.
Proof. unfold twp. destruct (m s) as [[]| |]; auto. Qed.

Lemma twp_gets {A} (f : S → A) (Q : A → S → Prop) s : Q (f s) s → twp (gets f) Q s.
Proof. done. Qed.

Lemma twp_modify (f : S → S) (Q : unit → S → Prop) s : Q tt (f s) → twp (modify f) Q s.
Proof. done. Qed.

Lemma twp_ext {A} (f : S → A * S) (Q : A → S → Prop) s :
  (∀ a s', f s = (a, s') → Q a s') → twp (ext f) Q s.
Proof. unfold twp, ext. destruct (f s); auto. Qed.

Lemma twp_done {A} (m : M S A) (Q : A → S → Prop) s :
  twp m Q s ↔ ∃ a s', m s = Done (a, s') ∧ Q a s'.
Proof.
  unfold twp. destruct (m s) as [[a s']| |].
  - split; [by exists a, s'|]. by intros (? & ? & [= <- <-] & ?).
  - split; [done|]. by intros (? & ? & ? & ?).
  - split; [done|]. by intros (? & ? & ? & ?).
Qed.

Lemma twp_wp {A} (m : M S A) (Q : A → S → Prop) s : returns m → wp m Q s → twp m Q s.
Proof. intros Hr Hw. by apply twp_done, wp_returns. Qed.
End twp.

Section twp_self.
Context {T W : Type}.
Implicit Types s : T * W.

Lemma twp_self (Q : T → T * W → Prop) s : Q s.1 s → twp self Q s.
Proof. done. Qed.

Lemma twp_set_self t (Q : unit → T * W → Prop) s : Q tt (t, s.2) → twp (set_self t) Q s.
Proof. done. Qed.

Lemma twp_modify_self (f : T → T) (Q : unit → T * W → Prop) s :
  Q tt (f s.1, s.2) → twp (modify_self f) Q s.
Proof. done. Qed.

Lemma twp_lift {A} (m : M W A) (Q : A → T * W → Prop) s :
  twp m (λ a w, Q a (s.1, w)) s.2 → twp (lift m) Q s.
Proof. unfold twp, lift. by destruct (m s.2) as [[]| |]. Qed.
End twp_self.

(** One step of symbolic execution in a [twp] goal. *)
Ltac twp_step :=
  lazymatch goal with
  | |- twp (mret _) _ _ => apply twp_ret
  | |- twp (mbind _ _) _ _ => apply twp_bind
  | |- twp (gets _) _ _ => apply twp_gets
  | |- twp (modify _) _ _ => apply twp_modify
  | |- twp self _ _ => apply twp_self
  | |- twp (set_self _) _ _ => apply twp_set_self
  | |- twp (modify_self _) _ _ => apply twp_modify_self
  | |- twp (lift _) _ _ => apply twp_lift
  | |- twp (ext _) _ _ => let E := fresh "Hcall" in apply twp_ext; intros ? ? E
  | |- twp (if ?b then _ else _) _ _ => destruct b eqn:?
  | |- twp (match ?x with _ => _ end) _ _ => destruct x eqn:?
  end.
