(* ===== verification/Std.v ===== *)
(** * The parts of Rust's standard library the crate relies on

    [std::io::Error] with its kinds, the Linux errno table, [CStr] and
    [String::from_utf8_lossy], and the integer conversions [try_from]. *)

From S2P Require Import Prelude.

Local Open Scope Z_scope.

(** ** [std::io::ErrorKind] *)

Inductive ErrorKind : Type :=
| NotFound | PermissionDenied | ConnectionRefused | ConnectionReset
| HostUnreachable | NetworkUnreachable | ConnectionAborted | NotConnected
| AddrInUse | AddrNotAvailable | NetworkDown | BrokenPipe | AlreadyExists
| WouldBlock | InvalidInput | InvalidData | TimedOut | WriteZero
| ResourceBusy | Deadlock | Interrupted | Unsupported | UnexpectedEof
| OutOfMemory | Other | Uncategorized.

#[export] Instance ErrorKind_eq_dec : EqDecision ErrorKind.
Proof. solve_decision. Defined.

(** The text [Display] prints for a bare kind. *)
Definition kind_description (k : ErrorKind) : string :=
  match k with
  | NotFound => "entity not found"
  | PermissionDenied => "permission denied"
  | ConnectionRefused => "connection refused"
  | ConnectionReset => "connection reset"
  | HostUnreachable => "host unreachable"
  | NetworkUnreachable => "network unreachable"
  | ConnectionAborted => "connection aborted"
  | NotConnected => "not connected"
  | AddrInUse => "address in use"
  | AddrNotAvailable => "address not available"
  | NetworkDown => "network down"
  | BrokenPipe => "broken pipe"
  | AlreadyExists => "entity already exists"
  | WouldBlock => "operation would block"
  | InvalidInput => "invalid input parameter"
  | InvalidData => "invalid data"
  | TimedOut => "timed out"
  | WriteZero => "write zero"
  | ResourceBusy => "resource busy"
  | Deadlock => "deadlock"
  | Interrupted => "operation interrupted"
  | Unsupported => "unsupported"
  | UnexpectedEof => "unexpected end of file"
  | OutOfMemory => "out of memory"
  | Other => "other error"
  | Uncategorized => "uncategorized error"
  end.

(** Linux error numbers. *)
Definition EPERM : Z := 1.
Definition ENOENT : Z := 2.
Definition EINTR : Z := 4.
Definition EAGAIN : Z := 11.
Definition ENOMEM : Z := 12.
Definition EACCES : Z := 13.
Definition EBUSY : Z := 16.
Definition EEXIST : Z := 17.
Definition EINVAL : Z := 22.
Definition EPIPE : Z := 32.
Definition EDEADLK : Z := 35.
Definition ENOSYS : Z := 38.
Definition EBADMSG : Z := 74.
Definition ENOPROTOOPT : Z := 92.
Definition EOPNOTSUPP : Z := 95.
Definition EADDRINUSE : Z := 98.
Definition EADDRNOTAVAIL : Z := 99.
Definition ENETDOWN : Z := 100.
Definition ENETUNREACH : Z := 101.
Definition ECONNABORTED : Z := 103.
Definition ECONNRESET : Z := 104.
Definition EISCONN : Z := 106.
Definition ENOTCONN : Z := 107.
Definition ETIMEDOUT : Z := 110.
Definition ECONNREFUSED : Z := 111.
Definition EHOSTUNREACH : Z := 113.

(** [sys::decode_error_kind] on Linux, for the kinds above; the file-system
    kinds, which no socket call returns, are left uncategorized. *)
Definition decode_error_kind (errno : Z) : ErrorKind :=
  if errno =? ENOENT then NotFound
  else if (errno =? EPERM) || (errno =? EACCES) then PermissionDenied
  else if errno =? ECONNREFUSED then ConnectionRefused
  else if errno =? ECONNRESET then ConnectionReset
  else if errno =? EHOSTUNREACH then HostUnreachable
  else if errno =? ENETUNREACH then NetworkUnreachable
  else if errno =? ECONNABORTED then ConnectionAborted
  else if errno =? ENOTCONN then NotConnected
  else if errno =? EADDRINUSE then AddrInUse
  else if errno =? EADDRNOTAVAIL then AddrNotAvailable
  else if errno =? ENETDOWN then NetworkDown
  else if errno =? EPIPE then BrokenPipe
  else if errno =? EEXIST then AlreadyExists
  else if errno =? EAGAIN then WouldBlock
  else if errno =? EINVAL then InvalidInput
  else if errno =? ETIMEDOUT then TimedOut
  else if errno =? EBUSY then ResourceBusy
  else if errno =? EDEADLK then Deadlock
  else if errno =? EINTR then Interrupted
  else if (errno =? ENOSYS) || (errno =? EOPNOTSUPP) then Unsupported
  else if errno =? ENOMEM then OutOfMemory
  else Uncategorized.

(** ** [std::io::Error]

    The three representations: an operating-system error, a bare kind, and a
    kind with a message. *)
Inductive io_error : Type :=
| Os (errno : Z)
| Simple (kind : ErrorKind)
| Custom (kind : ErrorKind) (msg : string).

#[export] Instance io_error_eq_dec : EqDecision io_error.
Proof. solve_decision. Defined.

Abbreviation io_result A := (result A io_error).

Definition kind (e : io_error) : ErrorKind :=
  match e with
  | Os errno => decode_error_kind errno
  | Simple k => k
  | Custom k _ => k
  end.

Definition raw_os_error (e : io_error) : option Z :=
  match e with Os errno => Some errno | _ => None end.

(** [strerror(3)], the only part of [Display] that leaves the program. *)
Class Strerror : Type := strerror : Z → string.

(** [Display for io::Error]. *)
Definition io_to_string `{Strerror} (e : io_error) : string :=
  match e with
  | Os errno => strerror errno +:+ " (os error " +:+ pretty errno +:+ ")"
  | Simple k => kind_description k
  | Custom _ msg => msg
  end.

Definition is_kind (k : ErrorKind) (e : io_error) : bool := bool_decide (kind e = k).

(** What a caller can observe of an error that it may not move: its errno, or
    else its kind and its text. *)
Definition same_error `{Strerror} (e e' : io_error) : Prop :=
  raw_os_error e = raw_os_error e' ∧ kind e = kind e' ∧ io_to_string e = io_to_string e'.

#[export] Instance same_error_equiv `{Strerror} : Equivalence same_error.
Proof.
  split.
  - by intros e.
  - by intros e e' (?&?&?).
  - intros e1 e2 e3 (?&?&?) (?&?&?). repeat split; congruence.
Qed.

(** ** Integer conversions *)

Definition c_int_max : Z := 2 ^ 31 - 1.
Definition c_long_max : Z := 2 ^ 63 - 1.
Definition u8_max : Z := 255.
Definition u16_max : Z := 65535.
Definition u32_max : Z := 2 ^ 32 - 1.

(** [T::try_from(n)] for an unsigned [n] and a type of maximum [max]. *)
Definition try_from_max (max n : Z) : option Z := if n <=? max then Some n else None.

(** [u32::try_from(n)] for a signed [n]. *)
Definition try_from_i32_u32 (n : Z) : option Z :=
  if (0 <=? n) && (n <=? u32_max) then Some n else None.

(** The length of a slice, a [usize]. *)
Definition len {A} (l : list A) : Z := Z.of_nat (length l).

Lemma len_nonneg {A} (l : list A) : 0 ≤ len l.
Proof. unfold len. lia. Qed.

Lemma len_app {A} (l k : list A) : len (l ++ k) = len l + len k.
Proof. unfold len. rewrite length_app. lia. Qed.

Lemma len_zero {A} (l : list A) : len l = 0 ↔ l = [].
Proof. unfold len. destruct l; simpl; split; try done; lia. Qed.

(** [Vec::is_empty], [slice::is_empty]. *)
Definition is_empty {A} (l : list A) : bool := match l with [] => true | _ => false end.

Lemma is_empty_true {A} (l : list A) : is_empty l = true ↔ l = [].
Proof. by destruct l. Qed.

Lemma is_empty_false {A} (l : list A) : is_empty l = false ↔ l ≠ [].
Proof. by destruct l. Qed.

(** [&s[..n]] with [n] in range. *)
Definition prefix {A} (n : Z) (l : list A) : list A := take (Z.to_nat n) l.

Lemma len_prefix {A} n (l : list A) : 0 ≤ n ≤ len l → len (prefix n l) = n.
Proof. unfold len, prefix. rewrite length_take. lia. Qed.

Lemma prefix_all {A} n (l : list A) : len l ≤ n → prefix n l = l.
Proof. unfold len, prefix. intros. apply take_ge. lia. Qed.

(** A zeroed buffer of [n] bytes after a call stored [bytes] at its start. *)
Definition buffer (n : Z) (bytes : list byte) : list byte :=
  prefix n (bytes ++ repeat x00 (Z.to_nat n)).

Lemma len_buffer n bytes : 0 ≤ n → len (buffer n bytes) = n.
Proof.
  intros Hn. unfold buffer. apply len_prefix. rewrite len_app. unfold len at 2.
  rewrite repeat_length. pose proof (len_nonneg bytes). lia.
Qed.

(** [Option<u8>] under [{:?}]. *)
Definition debug_option_u8 (o : option byte) : string :=
  match o with
  | None => "None"
  | Some b => "Some(" +:+ pretty (byte_Z b) +:+ ")"
  end.

(** [bool] under [{}]. *)
Definition display_bool (b : bool) : string := if b then "true" else "false".

(** ** [CStr] and lossy UTF-8 *)

(** [CStr::from_bytes_until_nul]: the bytes before the first NUL. *)
Fixpoint from_bytes_until_nul (bs : list byte) : option (list byte) :=
  match bs with
  | [] => None
  | b :: bs' =>
      if bool_decide (b = x00) then Some []
      else option_map (cons b) (from_bytes_until_nul bs')
  end.

(** [CString::new]: fails on an interior NUL. *)
Definition cstring_new (bs : list byte) : option (list byte) :=
  if existsb (λ b, bool_decide (b = x00)) bs then None else Some bs.

Definition in_range (lo hi : Z) (b : byte) : bool :=
  (lo <=? byte_Z b) && (byte_Z b <=? hi).

Definition is_cont (b : byte) : bool := in_range 128 191 b.

(** The replacement character U+FFFD. *)
Definition replacement : list byte := [xef; xbf; xbd].

(** The second byte a multi-byte sequence admits after its first byte. *)
Definition second_ok (b0 b1 : byte) : bool :=
  let z := byte_Z b0 in
  if z =? 224 then in_range 160 191 b1
  else if z =? 237 then in_range 128 159 b1
  else if z =? 240 then in_range 144 191 b1
  else if z =? 244 then in_range 128 143 b1
  else is_cont b1.

(** One step of [String::from_utf8_lossy]: what to emit and how many bytes the
    (valid or maximal invalid) sequence at the head takes. *)
Definition lossy_step (bs : list byte) : list byte * nat :=
  match bs with
  | [] => ([], O)
  | b0 :: bs1 =>
      if in_range 0 127 b0 then ([b0], 1%nat)
      else if in_range 194 223 b0 then
        match bs1 with
        | b1 :: _ => if is_cont b1 then ([b0; b1], 2%nat) else (replacement, 1%nat)
        | [] => (replacement, 1%nat)
        end
      else if in_range 224 239 b0 then
        match bs1 with
        | b1 :: bs2 =>
            if second_ok b0 b1 then
              match bs2 with
              | b2 :: _ =>
                  if is_cont b2 then ([b0; b1; b2], 3%nat) else (replacement, 2%nat)
              | [] => (replacement, 2%nat)
              end
            else (replacement, 1%nat)
        | [] => (replacement, 1%nat)
        end
      else if in_range 240 244 b0 then
        match bs1 with
        | b1 :: bs2 =>
            if second_ok b0 b1 then
              match bs2 with
              | b2 :: bs3 =>
                  if is_cont b2 then
                    match bs3 with
                    | b3 :: _ =>
                        if is_cont b3 then ([b0; b1; b2; b3], 4%nat)
                        else (replacement, 3%nat)
                    | [] => (replacement, 3%nat)
                    end
                  else (replacement, 2%nat)
              | [] => (replacement, 2%nat)
              end
            else (replacement, 1%nat)
        | [] => (replacement, 1%nat)
        end
      else (replacement, 1%nat)
  end.

Fixpoint lossy_go (fuel : nat) (bs : list byte) : list byte :=
  match fuel, bs with
  | S fuel', _ :: _ =>
      let '(out, n) := lossy_step bs in out ++ lossy_go fuel' (drop n bs)
  | _, _ => []
  end.

(** [String::from_utf8_lossy]; every step takes at least one byte, so the
    length of the input is enough fuel. *)
Definition from_utf8_lossy (bs : list byte) : string := str_of (lossy_go (length bs) bs).

#[global] Arguments from_utf8_lossy : simpl never.

(** [str::from_utf8]: the bytes themselves if every sequence is valid, that is,
    if no step of the lossy conversion replaces one. *)
Fixpoint utf8_go (fuel : nat) (bs : list byte) : bool :=
  match fuel, bs with
  | S fuel', _ :: _ =>
      let '(out, n) := lossy_step bs in
      bool_decide (out = take n bs) && utf8_go fuel' (drop n bs)
  | _, _ => true
  end.

Definition from_utf8 (bs : list byte) : option (list byte) :=
  if utf8_go (length bs) bs then Some bs else None.

Definition is_ascii (b : byte) : bool := in_range 0 127 b.

Lemma lossy_go_ascii bs : forallb is_ascii bs = true → lossy_go (length bs) bs = bs.
Proof.
  induction bs as [|b bs IH]; [done|]. simpl. intros [Hb Hbs]%andb_prop.
  unfold is_ascii in Hb. rewrite Hb. simpl. by rewrite drop_0, IH.
Qed.

Lemma from_utf8_lossy_ascii bs :
  forallb is_ascii bs = true → from_utf8_lossy bs = str_of bs.
Proof. intros H. unfold from_utf8_lossy. by rewrite lossy_go_ascii. Qed.
