(* ===== verification/Ip.v ===== *)
(** * [IpAddr::from_str]

    The address parser of Rust's standard library ([core::net::parser]), which
    decides whether a server name is an IP literal.  A reader returns what it
    read and the input behind it; on [None] the input is as before
    ([read_atomically]). *)

From S2P Require Import Prelude Std.

Local Open Scope Z_scope.

Definition Reader (A : Type) : Type := list byte → option (A * list byte).

(** [char::to_digit] *)
Definition to_digit (radix : Z) (b : byte) : option Z :=
  let z := byte_Z b in
  let d := if in_range 48 57 b then z - 48
           else if in_range 97 102 b then z - 87
           else if in_range 65 70 b then z - 55
           else radix in
  if d <? radix then Some d else None.

(** The digits at the head of the input: their value, their number, and the rest;
    [None] if there are more than [max_digits]. *)
Fixpoint read_digits (radix max_digits count acc : Z) (s : list byte) : option (Z * Z * list byte) :=
  match s with
  | b :: s' =>
      match to_digit radix b with
      | Some d =>
          if max_digits <? count + 1 then None
          else read_digits radix max_digits (count + 1) (acc * radix + d) s'
      | None => Some (acc, count, s)
      end
  | [] => Some (acc, count, s)
  end.

Definition read_number (radix max_digits max : Z) (allow_zero_prefix : bool) : Reader Z := λ s,
  let has_leading_zero := match s with b :: _ => bool_decide (b = x30) | [] => false end in
  match read_digits radix max_digits 0 0 s with
  | None => None
  | Some (result, digit_count, rest) =>
      if digit_count =? 0 then None
      else if negb allow_zero_prefix && has_leading_zero && (1 <? digit_count) then None
      else if result <=? max then Some (result, rest)
      else None
  end.

Definition read_given_char (c : byte) : Reader unit := λ s,
  match s with
  | b :: s' => if bool_decide (b = c) then Some (tt, s') else None
  | [] => None
  end.

Definition read_separator {A} (sep : byte) (index : nat) (inner : Reader A) : Reader A := λ s,
  match index with
  | O => inner s
  | S _ =>
      match read_given_char sep s with
      | Some (_, s') => inner s'
      | None => None
      end
  end.

(** The remaining octets, from index [i]. *)
Fixpoint read_octets (k i : nat) : Reader (list Z) := λ s,
  match k with
  | O => Some ([], s)
  | S k' =>
      match read_separator x2e i (read_number 10 3 255 false) s with
      | None => None
      | Some (o, s') =>
          match read_octets k' (S i) s' with
          | None => None
          | Some (os, s'') => Some (o :: os, s'')
          end
      end
  end.

Definition read_ipv4_addr : Reader (list Z) := read_octets 4 0.

(** [read_groups] with [k] groups left from index [i]: the groups, whether an
    embedded IPv4 address ended them, and the rest. *)
Fixpoint read_groups (k i : nat) (s : list byte) : list Z * bool * list byte :=
  match k with
  | O => ([], false, s)
  | S k' =>
      let ipv4 := match k' with O => None | S _ => read_separator x3a i read_ipv4_addr s end in
      match ipv4 with
      | Some ([one; two; three; four], s') =>
          ([one * 256 + two; three * 256 + four], true, s')
      | _ =>
          match read_separator x3a i (read_number 16 4 65535 true) s with
          | Some (g, s') =>
              let '(gs, v4, s'') := read_groups k' (S i) s' in (g :: gs, v4, s'')
          | None => ([], false, s)
          end
      end
  end.

Definition read_ipv6_addr : Reader (list Z) := λ s,
  let '(head, head_ipv4, s1) := read_groups 8 0 s in
  if (length head =? 8)%nat then Some (head, s1)
  else if head_ipv4 then None
  else
    match read_given_char x3a s1 with
    | None => None
    | Some (_, s2) =>
        match read_given_char x3a s2 with
        | None => None
        | Some (_, s3) =>
            let '(tail, _, s4) := read_groups (8 - (length head + 1)) 0 s3 in
            Some (head ++ repeat 0 (8 - length head - length tail) ++ tail, s4)
        end
    end.

Inductive IpAddr : Type := V4 (octets : list Z) | V6 (segments : list Z).

Definition read_ip_addr : Reader IpAddr := λ s,
  match read_ipv4_addr s with
  | Some (o, s') => Some (V4 o, s')
  | None =>
      match read_ipv6_addr s with
      | Some (g, s') => Some (V6 g, s')
      | None => None
      end
  end.

(** [str::parse::<IpAddr>]: the whole input must be read. *)
Definition parse_ip (s : list byte) : option IpAddr :=
  match read_ip_addr s with
  | Some (ip, []) => Some ip
  | _ => None
  end.

(** ** What parses as an address *)

(** The characters of an address. *)
Definition ip_char (b : byte) : bool :=
  bool_decide (b = x2e) || bool_decide (b = x3a) || bool_decide (is_Some (to_digit 16 b)).

(** A reader takes only such characters. *)
Definition reads_ip_chars {A} (r : Reader A) : Prop := ∀ s a s',
  r s = Some (a, s') → ∃ taken, s = taken ++ s' ∧ Forall (λ b, ip_char b = true) taken.

Lemma to_digit_ip_char radix b d : radix ≤ 16 → to_digit radix b = Some d → ip_char b = true.
Proof.
  intros Hr Hd. unfold ip_char. apply orb_true_iff. right. apply bool_decide_eq_true.
  revert Hd. unfold to_digit, in_range. pose proof (byte_Z_range b).
  repeat match goal with |- context [?x <=? ?y] => destruct (Z.leb_spec x y) end; simpl;
    repeat match goal with |- context [?x <? ?y] => destruct (Z.ltb_spec x y) end; intros; try done; lia.
Qed.

Lemma reads_ip_chars_trans {A B} (r : Reader A) (r' : A → Reader B) s a s1 b s2 :
  reads_ip_chars r → reads_ip_chars (r' a) → r s = Some (a, s1) → r' a s1 = Some (b, s2) →
  ∃ taken, s = taken ++ s2 ∧ Forall (λ b, ip_char b = true) taken.
Proof.
  intros Hr Hr' (t1 & -> & H1)%Hr (t2 & -> & H2)%Hr'. exists (t1 ++ t2).
  split; [by rewrite app_assoc|]. by apply Forall_app.
Qed.

Lemma read_digits_chars radix max_digits s : radix ≤ 16 → ∀ count acc v n rest,
  read_digits radix max_digits count acc s = Some (v, n, rest) →
  ∃ taken, s = taken ++ rest ∧ Forall (λ b, ip_char b = true) taken.
Proof.
  intros Hr. induction s as [|b s IH]; intros count acc v n rest; cbn [read_digits].
  { intros [= <- <- <-]. by exists []. }
  destruct (to_digit radix b) as [d|] eqn:Ed.
  - destruct (max_digits <? count + 1); [done|]. intros (taken & -> & Ht)%IH.
    exists (b :: taken). split; [done|]. constructor; [|done]. by eapply to_digit_ip_char.
  - intros [= <- <- <-]. by exists [].
Qed.

Lemma read_number_chars radix max_digits max z :
  radix ≤ 16 → reads_ip_chars (read_number radix max_digits max z).
Proof.
  intros Hr s a s'. unfold read_number.
  destruct (read_digits radix max_digits 0 0 s) as [[[v n] rest]|] eqn:E; [|done].
  destruct (n =? 0); [done|]. destruct (_ && _); [done|]. destruct (v <=? max); [|done].
  intros [= <- <-]. by eapply read_digits_chars.
Qed.

Lemma read_given_char_chars c : ip_char c = true → reads_ip_chars (read_given_char c).
Proof.
  intros Hc [|b s] a s'; [done|]. cbn. case_bool_decide as E; [|done]. intros [= <- <-]. subst b.
  exists [c]. split; [done|]. by repeat constructor.
Qed.

Lemma read_separator_chars {A} sep i (r : Reader A) :
  ip_char sep = true → reads_ip_chars r → reads_ip_chars (read_separator sep i r).
Proof.
  intros Hs Hr s a s'. destruct i as [|i]; [apply Hr|]. cbn.
  destruct (read_given_char sep s) as [[[] s1]|] eqn:E; [|done]. intros Hr'.
  by eapply (reads_ip_chars_trans (read_given_char sep) (λ _, r)); [apply read_given_char_chars|..].
Qed.

Lemma read_octets_chars k i : reads_ip_chars (read_octets k i).
Proof.
  revert i. induction k as [|k IH]; intros i s a s'; cbn [read_octets].
  { intros [= <- <-]. by exists []. }
  destruct (read_separator x2e i _ s) as [[o s1]|] eqn:E; [|done].
  destruct (read_octets k (S i) s1) as [[os s2]|] eqn:E2; [|done]. intros [= <- <-].
  eapply (reads_ip_chars_trans _ (λ _, read_octets k (S i))); [|by apply IH|exact E|exact E2].
  by apply read_separator_chars, read_number_chars.
Qed.

Lemma read_groups_chars k i s gs v4 s' :
  read_groups k i s = (gs, v4, s') →
  ∃ taken, s = taken ++ s' ∧ Forall (λ b, ip_char b = true) taken.
Proof.
  revert i s gs v4 s'. induction k as [|k IH]; intros i s gs v4 s'; cbn [read_groups].
  { intros [= <- <- <-]. by exists []. }
  set (ipv4 := match k with O => None | S _ => _ end).
  assert (match read_separator x3a i (read_number 16 4 65535 true) s with
          | Some (g, s') => let '(gs, v4, s'') := read_groups k (S i) s' in (g :: gs, v4, s'')
          | None => ([], false, s)
          end = (gs, v4, s') → ∃ taken, s = taken ++ s' ∧ Forall (λ b, ip_char b = true) taken) as Hg.
  { destruct (read_separator x3a i (read_number 16 4 65535 true) s) as [[g s1]|] eqn:E;
      [|intros [= <- <- <-]; by exists []].
    destruct (read_groups k (S i) s1) as [[gs1 v41] s2] eqn:E2. intros [= <- <- <-].
    apply IH in E2 as (t2 & -> & Ht2).
    apply read_separator_chars in E as (t1 & -> & Ht1); [|done|by apply read_number_chars].
    exists (t1 ++ t2). split; [by rewrite app_assoc|]. by apply Forall_app. }
  destruct ipv4 as [[[|o1 [|o2 [|o3 [|o4 [|]]]]] s1]|] eqn:E4; try exact Hg.
  intros [= <- <- <-]. unfold ipv4 in E4. destruct k; [done|].
  apply read_separator_chars in E4; [done|done|apply read_octets_chars].
Qed.

Lemma read_ipv6_chars : reads_ip_chars read_ipv6_addr.
Proof.
  intros s a s'. unfold read_ipv6_addr.
  destruct (read_groups 8 0 s) as [[head v4] s1] eqn:E1. apply read_groups_chars in E1 as (t1 & -> & H1).
  destruct (length head =? 8)%nat; [intros [= <- <-]; by exists t1|]. destruct v4; [done|].
  destruct (read_given_char x3a s1) as [[[] s2]|] eqn:E2; [|done].
  destruct (read_given_char x3a s2) as [[[] s3]|] eqn:E3; [|done].
  destruct (read_groups _ 0 s3) as [[tail v4'] s4] eqn:E4. intros [= <- <-].
  apply read_given_char_chars in E2 as (t2 & -> & H2); [|done].
  apply read_given_char_chars in E3 as (t3 & -> & H3); [|done].
  apply read_groups_chars in E4 as (t4 & -> & H4).
  exists (t1 ++ t2 ++ t3 ++ t4). split; [by rewrite <- !app_assoc|]. by rewrite !Forall_app.
Qed.

(** Only hexadecimal digits, dots and colons occur in what parses as an address:
    a name with any other character is not taken for one. *)
Lemma parse_ip_chars s ip : parse_ip s = Some ip → Forall (λ b, ip_char b = true) s.
Proof.
  unfold parse_ip, read_ip_addr. destruct (read_ipv4_addr s) as [[o s1]|] eqn:E4.
  - apply read_octets_chars in E4 as (t & -> & Ht). destruct s1; [|done]. intros _.
    by rewrite app_nil_r.
  - destruct (read_ipv6_addr s) as [[g s1]|] eqn:E6; [|done].
    apply read_ipv6_chars in E6 as (t & -> & Ht). destruct s1; [|done]. intros _.
    by rewrite app_nil_r.
Qed.

(** ** Dotted quads *)

Definition decimal (n : nat) : list byte := bytes_of (pretty n).

(** A decimal number up to 255 is read back, and reading stops behind it. *)
Definition octet_ok (n : nat) : bool :=
  match decimal n with
  | b :: ds =>
      forallb (λ b, bool_decide (is_Some (to_digit 10 b))) (b :: ds) &&
      (length ds <=? 2)%nat && (negb (bool_decide (b = x30)) || is_empty ds) &&
      (foldl (λ acc b, acc * 10 + default 0 (to_digit 10 b)) 0 (b :: ds) =? Z.of_nat n)
  | [] => false
  end.

Lemma octets_ok : forallb octet_ok (seq 0 256) = true.
Proof. vm_compute. reflexivity. Qed.

(** The input is at its end or continues with something that is no digit. *)
Definition no_digit (s : list byte) : Prop :=
  match s with b :: _ => to_digit 10 b = None | [] => True end.

Lemma read_digits_all max ds rest : no_digit rest → ∀ count acc,
  forallb (λ b, bool_decide (is_Some (to_digit 10 b))) ds = true → count + len ds ≤ max →
  read_digits 10 max count acc (ds ++ rest) =
    Some (foldl (λ acc b, acc * 10 + default 0 (to_digit 10 b)) acc ds, count + len ds, rest).
Proof.
  intros Hr. induction ds as [|b ds IH]; intros count acc Hd Hl.
  - rewrite Z.add_0_r. destruct rest as [|b rest]; [done|]. cbn [app read_digits foldl].
    by rewrite Hr.
  - apply andb_prop in Hd as [Hb%bool_decide_eq_true Hd]. unfold len in *. cbn [length] in *.
    cbn [app read_digits foldl]. destruct (to_digit 10 b) as [d|]; [|by destruct Hb].
    destruct (Z.ltb_spec max (count + 1)); [lia|]. rewrite IH by (done || lia).
    cbn [default from_option id]. do 2 f_equal. f_equal. lia.
Qed.

Lemma read_octet n rest :
  (n < 256)%nat → no_digit rest →
  read_number 10 3 255 false (decimal n ++ rest) = Some (Z.of_nat n, rest).
Proof.
  intros Hn Hr. assert (octet_ok n = true) as Hok.
  { pose proof octets_ok as Ha. rewrite forallb_forall in Ha. apply Ha. apply in_seq. lia. }
  unfold octet_ok in Hok. destruct (decimal n) as [|b ds]; [done|].
  apply andb_prop in Hok as [Hok Hv%Z.eqb_eq]. apply andb_prop in Hok as [Hok Hz].
  apply andb_prop in Hok as [Hd Hl%Nat.leb_le].
  unfold read_number. rewrite (read_digits_all 3 (b :: ds) rest Hr 0 0 Hd)
    by (unfold len; simpl; lia).
  rewrite Hv. assert (len (b :: ds) = 1 + len ds) as -> by (unfold len; simpl; lia).
  pose proof (len_nonneg ds). destruct (Z.eqb_spec (0 + (1 + len ds)) 0); [lia|].
  cbn [app]. destruct (Z.leb_spec (Z.of_nat n) 255); [|lia].
  destruct (bool_decide (b = x30)); cbn in Hz |- *; [|done].
  apply is_empty_true in Hz as ->. by cbn.
Qed.

Lemma read_separator_0 {A} sep (r : Reader A) s : read_separator sep 0 r s = r s.
Proof. done. Qed.

Lemma read_separator_dot {A} i (r : Reader A) s : read_separator x2e (S i) r (x2e :: s) = r s.
Proof. done. Qed.

Definition dotted_quad (a b c d : nat) : list byte :=
  decimal a ++ x2e :: decimal b ++ x2e :: decimal c ++ x2e :: decimal d.

(** Every dotted quad is recognised as the address it denotes. *)
Lemma parse_dotted_quad a b c d :
  (a < 256)%nat → (b < 256)%nat → (c < 256)%nat → (d < 256)%nat →
  parse_ip (dotted_quad a b c d) = Some (V4 [Z.of_nat a; Z.of_nat b; Z.of_nat c; Z.of_nat d]).
Proof.
  intros Ha Hb Hc Hd. unfold parse_ip, read_ip_addr, read_ipv4_addr, dotted_quad.
  rewrite <- (app_nil_r (decimal d)). cbn [read_octets].
  rewrite read_separator_0, read_octet by done. rewrite read_separator_dot, read_octet by done.
  rewrite read_separator_dot, read_octet by done. by rewrite read_separator_dot, read_octet by done.
Qed.

(** ** Some addresses and names *)

Example ip_loopback : parse_ip (bytes_of "::1") = Some (V6 [0; 0; 0; 0; 0; 0; 0; 1]).
Proof. reflexivity. Qed.
Example ip_documentation :
  parse_ip (bytes_of "2001:db8::1") = Some (V6 [0x2001; 0xdb8; 0; 0; 0; 0; 0; 1]).
Proof. reflexivity. Qed.
Example ip_mapped :
  parse_ip (bytes_of "::ffff:10.0.0.5") = Some (V6 [0; 0; 0; 0; 0; 0xffff; 0xa00; 5]).
Proof. reflexivity. Qed.
Example ip_not :
  Forall (λ s, parse_ip s = None)
    [bytes_of "example.com"; bytes_of "256.0.0.1"; bytes_of "01.2.3.4"; bytes_of "1.2.3";
     bytes_of "1::2::3"; bytes_of "[::1]"; bytes_of "::1%eth0"; bytes_of "1:2:3:4:5:6:7"; []].
Proof. by repeat constructor. Qed.
