(* ===== verification/Env.v ===== *)
(** * The world outside the crate

    What the crate calls and does not contain: AWS-LC ([libssl] and
    [libcrypto], through [aws-lc-sys]), the Linux socket calls it makes
    through [libc], and the readiness interface of [tokio::net::TcpStream].
    Each is a class of operations on a type [W] of worlds; a definition of the
    model takes the classes it calls as arguments.  What the crate relies on
    is stated in separate classes of laws. *)

From S2P Require Import Prelude Std.

Local Open Scope Z_scope.

(** ** Constants of the AWS-LC headers *)

Class AwsLcConsts : Type := {
  SSL_ERROR_SSL : Z;
  SSL_ERROR_WANT_READ : Z;
  SSL_ERROR_WANT_WRITE : Z;
  SSL_ERROR_SYSCALL : Z;
  SSL_ERROR_ZERO_RETURN : Z;
  ERR_LIB_SSL : Z;
  ERR_LIB_PEM : Z;
  PEM_R_NO_START_LINE : Z;
  TLS1_2_VERSION : Z;
  TLS1_3_VERSION : Z;
  SSL_OP_NO_TICKET : Z;
  SSL_OP_NO_TLSv1_2 : Z;
  SSL_OP_NO_TLSv1_3 : Z;
  SSL_VERIFY_NONE : Z;
  SSL_VERIFY_PEER : Z;
  SSL_VERIFY_FAIL_IF_NO_PEER_CERT : Z;
  SSL_TLSEXT_ERR_OK : Z;
  SSL_TLSEXT_ERR_ALERT_FATAL : Z;
  SSL_FILETYPE_PEM : Z;
  BIO_NOCLOSE : Z;
  SSL_MODE_ACCEPT_MOVING_WRITE_BUFFER : Z;
  NID_X25519 : Z;
  NID_X9_62_prime256v1 : Z;
  NID_secp384r1 : Z;
  NID_secp521r1 : Z;
  NID_X25519MLKEM768 : Z;
  NID_SecP256r1MLKEM768 : Z;
  NID_SecP384r1MLKEM1024 : Z;
}.

(** Facts about the constants: the protocol versions are the wire values, the
    [SSL_get_error] codes differ, the option flags are distinct bits of a [u32],
    and the mode flag fits in one. *)
Class AwsLcConstsOk `{AwsLcConsts} : Prop := {
  tls1_2_version : TLS1_2_VERSION = 0x0303;
  tls1_3_version : TLS1_3_VERSION = 0x0304;
  ssl_errors_distinct :
    NoDup [SSL_ERROR_SSL; SSL_ERROR_WANT_READ; SSL_ERROR_WANT_WRITE;
           SSL_ERROR_SYSCALL; SSL_ERROR_ZERO_RETURN];
  err_libs_distinct : ERR_LIB_SSL ≠ ERR_LIB_PEM;
  options_u32 :
    Forall (λ o, 0 ≤ o ≤ u32_max) [SSL_OP_NO_TICKET; SSL_OP_NO_TLSv1_2; SSL_OP_NO_TLSv1_3];
  options_nonzero :
    Forall (λ o, o ≠ 0) [SSL_OP_NO_TICKET; SSL_OP_NO_TLSv1_2; SSL_OP_NO_TLSv1_3];
  options_disjoint :
    Z.land SSL_OP_NO_TICKET SSL_OP_NO_TLSv1_2 = 0 ∧
    Z.land SSL_OP_NO_TICKET SSL_OP_NO_TLSv1_3 = 0 ∧
    Z.land SSL_OP_NO_TLSv1_2 SSL_OP_NO_TLSv1_3 = 0;
  moving_mode_u32 : 0 ≤ SSL_MODE_ACCEPT_MOVING_WRITE_BUFFER ≤ u32_max;
  verify_distinct : SSL_VERIFY_NONE ≠ SSL_VERIFY_PEER;
  tlsext_distinct : SSL_TLSEXT_ERR_OK ≠ SSL_TLSEXT_ERR_ALERT_FATAL;
}.

(** ** The thread's error queue ([libcrypto]) *)

Class ErrQueue (W : Type) : Type := {
  ERR_get_error : W → Z * W;
  ERR_peek_error : W → Z;
  ERR_peek_last_error : W → Z;
  ERR_clear_error : W → W;
  (** The buffer of [len] bytes after the call. *)
  ERR_error_string_n : Z → Z → W → list byte;
}.

(** The documented behaviour of the queue: packed non-zero codes, oldest
    first; [ERR_get_error] pops the oldest, the peeks leave it alone. *)
Class ErrQueueLaws (W : Type) `{ErrQueue W} : Type := {
  queue : W → list Z;
  queue_nonzero w : Forall (λ c, c ≠ 0) (queue w);
  ERR_get_error_spec w :
    (ERR_get_error w).1 = default 0 (head (queue w)) ∧
    queue (ERR_get_error w).2 = tail (queue w);
  ERR_peek_error_spec w : ERR_peek_error w = default 0 (head (queue w));
  ERR_peek_last_error_spec w : ERR_peek_last_error w = default 0 (last (queue w));
  ERR_clear_error_spec w : queue (ERR_clear_error w) = [];
}.

(** ** Wakers and readiness ([tokio]) *)

(** The waker of a task, or the one built from a stream's shared
    [Arc<IoWaiters>]. *)
Inductive Waker : Type :=
| TaskWaker (task : nat)
| SharedWaker.

#[export] Instance Waker_eq_dec : EqDecision Waker.
Proof. solve_decision. Defined.

Inductive Interest : Type := READABLE | WRITABLE.

#[export] Instance Interest_eq_dec : EqDecision Interest.
Proof. solve_decision. Defined.

Class TokioTcp (W : Type) : Type := {
  poll_read_ready : Waker → W → poll (io_result unit) * W;
  poll_write_ready : Waker → W → poll (io_result unit) * W;
  try_io : ∀ {A}, Interest → M W (io_result A) → M W (io_result A);
  try_write : list byte → W → io_result Z * W;
  tcp_poll_shutdown : Waker → W → poll (io_result unit) * W;
  (** [readable().await] and [writable().await], once they resolve. *)
  readable : W → io_result unit * W;
  writable : W → io_result unit * W;
  (** [Waker::wake] of a task. *)
  wake : Waker → W → W;
}.

(** [try_io] as documented: the closure runs only if the cached readiness is
    set, and a [WouldBlock] it returns clears the readiness. *)
Class TryIoLaws (W : Type) `{TokioTcp W} : Type := {
  io_ready : Interest → W → bool;
  clear_ready : Interest → W → W;
  try_io_spec {A} i (f : M W (io_result A)) w :
    try_io i f w =
      if io_ready i w then
        match f w with
        | Done (Err e, w') =>
            Done (Err e, if is_kind WouldBlock e then clear_ready i w' else w')
        | o => o
        end
      else Done (Err (Simple WouldBlock), w);
}.

(** ** [libssl] on an established or handshaking session *)

Class LibSsl (W : Type) : Type := {
  (** Return value; the bytes are those at the pointer. *)
  SSL_write : list byte → W → Z * W;
  (** Return value and the bytes stored at the pointer. *)
  SSL_read : Z → W → (Z * list byte) * W;
  SSL_get_error : Z → W → Z;
  SSL_shutdown : W → Z * W;
  SSL_do_handshake : W → Z * W;
  SSL_has_pending : W → Z;
  SSL_pending : W → Z;
}.

(** ** Read-only views of a negotiated session ([libssl]) *)

Class SslSession (W : Type) : Type := {
  SSL_version : W → Z;
  (** A borrowed [SSL_CIPHER], or null. *)
  SSL_get_current_cipher : W → option nat;
  SSL_CIPHER_get_protocol_id : nat → W → Z;
  (** NUL-terminated strings, without their NUL; [None] is null. *)
  SSL_CIPHER_get_name : nat → W → option (list byte);
  SSL_get_version : W → option (list byte);
  SSL_get_servername : W → option (list byte);
  (** The selected protocol; [None] is a null pointer. *)
  SSL_get0_alpn_selected : W → option (list byte);
  SSL_is_server : W → Z;
  SSL_get_write_sequence : W → Z;
  SSL_get_read_sequence : W → Z;
  (** Return code, the 48-byte buffer after the call and the length stored. *)
  SSL_get_write_traffic_secret : W → Z * list byte * Z;
  SSL_get_read_traffic_secret : W → Z * list byte * Z;
  (** Return code and the buffer of the requested length after the call. *)
  SSL_generate_key_block : Z → W → Z * list byte;
}.

(** ** Key derivation and exporter ([libcrypto], [libssl]) *)

Inductive EvpMd : Type := EVP_sha256 | EVP_sha384.

Class Kdf (W : Type) : Type := {
  (** Output length, digest, secret, info: return code and the bytes stored. *)
  HKDF_expand : Z → EvpMd → list byte → list byte → W → (Z * list byte) * W;
  (** Output length, label, context pointer, context length, [use_context]. *)
  SSL_export_keying_material :
    Z → list byte → option (list byte) → Z → Z → W → (Z * list byte) * W;
}.

(** [HKDF_expand] is a function of its arguments: what it stores on success does
    not depend on anything else. *)
Class KdfLaws (W : Type) `{Kdf W} : Type := {
  hkdf : Z → EvpMd → list byte → list byte → list byte;
  HKDF_expand_spec n md secret info w out w' :
    HKDF_expand n md secret info w = ((1, out), w') → out = hkdf n md secret info;
}.

(** ** Socket calls ([libc]) on the connection's descriptor *)

(** [struct cmsghdr] and the padded payload behind it. *)
Record Control : Type := {
  cmsg_len : Z;
  cmsg_level : Z;
  cmsg_type : Z;
  ctl_payload : list byte;
}.

(** What [recvmsg(2)] leaves behind: its return value, the bytes it stored at
    the start of the destination, the two ancillary slots, and the updated
    [msg_controllen] and [msg_flags]. *)
Record RecvRet : Type := {
  rr_n : Z;
  rr_bytes : list byte;
  rr_control : Control * Control;
  rr_controllen : Z;
  rr_flags : Z;
}.

Class Syscalls (W : Type) : Type := {
  (** [errno] of the last failed call ([io::Error::last_os_error]). *)
  errno : W → Z;
  (** Destination length, ancillary capacity, flags. *)
  recvmsg : Z → Z → Z → W → RecvRet * W;
  (** Payload, ancillary message, ancillary length, flags. *)
  sendmsg : list byte → Control → Z → Z → W → Z * W;
  (** Level, option name, option value. *)
  setsockopt : Z → Z → list byte → W → Z * W;
}.

(** ** What an observer sees of the connection

    The part of the world that the properties talk about: what [SSL_write]
    accepted, the buffer it must be retried with, what went to the socket
    directly, what [recvmsg] returned, how often [close_notify] went out, which
    tasks were woken, which socket options were set, what [SSL_read] delivered
    and whether it reported the peer's [close_notify]. *)

(** One [recvmsg] call: its destination length, what it left behind and the
    errno after it. *)
Record RxEntry : Type := { re_cap : Z; re_ret : RecvRet; re_errno : Z }.

Record View : Type := {
  v_sent : list byte;
  v_blocked : option (list byte);
  v_raw : list byte;
  v_rx : list RxEntry;
  v_closes : nat;
  v_woken : list Waker;
  v_opts : list (Z * Z * list byte * Z);
  v_read : list byte;
  v_zero : bool;
}.

Definition v_with_write (sent : list byte) (blocked : option (list byte)) (v : View) : View :=
  {| v_sent := sent; v_blocked := blocked; v_raw := v_raw v; v_rx := v_rx v;
     v_closes := v_closes v; v_woken := v_woken v; v_opts := v_opts v;
     v_read := v_read v; v_zero := v_zero v |}.
Definition v_add_raw (bytes : list byte) (v : View) : View :=
  {| v_sent := v_sent v; v_blocked := v_blocked v; v_raw := v_raw v ++ bytes; v_rx := v_rx v;
     v_closes := v_closes v; v_woken := v_woken v; v_opts := v_opts v;
     v_read := v_read v; v_zero := v_zero v |}.
Definition v_add_rx (e : RxEntry) (v : View) : View :=
  {| v_sent := v_sent v; v_blocked := v_blocked v; v_raw := v_raw v; v_rx := v_rx v ++ [e];
     v_closes := v_closes v; v_woken := v_woken v; v_opts := v_opts v;
     v_read := v_read v; v_zero := v_zero v |}.
Definition v_add_close (n : nat) (v : View) : View :=
  {| v_sent := v_sent v; v_blocked := v_blocked v; v_raw := v_raw v; v_rx := v_rx v;
     v_closes := v_closes v + n; v_woken := v_woken v; v_opts := v_opts v;
     v_read := v_read v; v_zero := v_zero v |}.
Definition v_add_woken (wk : Waker) (v : View) : View :=
  {| v_sent := v_sent v; v_blocked := v_blocked v; v_raw := v_raw v; v_rx := v_rx v;
     v_closes := v_closes v; v_woken := v_woken v ++ [wk]; v_opts := v_opts v;
     v_read := v_read v; v_zero := v_zero v |}.
Definition v_add_opt (o : Z * Z * list byte * Z) (v : View) : View :=
  {| v_sent := v_sent v; v_blocked := v_blocked v; v_raw := v_raw v; v_rx := v_rx v;
     v_closes := v_closes v; v_woken := v_woken v; v_opts := v_opts v ++ [o];
     v_read := v_read v; v_zero := v_zero v |}.
Definition v_add_read (bytes : list byte) (v : View) : View :=
  {| v_sent := v_sent v; v_blocked := v_blocked v; v_raw := v_raw v; v_rx := v_rx v;
     v_closes := v_closes v; v_woken := v_woken v; v_opts := v_opts v;
     v_read := v_read v ++ bytes; v_zero := v_zero v |}.
Definition v_set_zero (v : View) : View :=
  {| v_sent := v_sent v; v_blocked := v_blocked v; v_raw := v_raw v; v_rx := v_rx v;
     v_closes := v_closes v; v_woken := v_woken v; v_opts := v_opts v;
     v_read := v_read v; v_zero := true |}.

(** The receive side of the view. *)
Definition rx_view (v : View) : list RxEntry * list byte * bool := (v_rx v, v_read v, v_zero v).

(** [SSL_get_error] asks for the operation to be retried. *)
Definition wants_io `{AwsLcConsts} (code : Z) : bool :=
  (code =? SSL_ERROR_WANT_READ) || (code =? SSL_ERROR_WANT_WRITE).

(** How each call shows in the view.  [SSL_write] without partial-write mode
    accepts its whole buffer or nothing, and a blocked call must be repeated
    with the same bytes, at any address once [SSL_MODE_ACCEPT_MOVING_WRITE_BUFFER]
    is set; the law says nothing about a call that breaks this.  [SSL_read]
    stores what it returns at the start of its buffer. *)
Class NetView (W : Type)
    `{AwsLcConsts, ErrQueue W, TokioTcp W, !TryIoLaws W, LibSsl W, Syscalls W} : Type := {
  view : W → View;
  view_get_error w : view (ERR_get_error w).2 = view w;
  view_clear_error w : view (ERR_clear_error w) = view w;
  view_poll_read_ready wk w : view (poll_read_ready wk w).2 = view w;
  view_poll_write_ready wk w : view (poll_write_ready wk w).2 = view w;
  view_clear_ready i w : view (clear_ready i w) = view w;
  view_readable w : view (readable w).2 = view w;
  view_writable w : view (writable w).2 = view w;
  view_tcp_poll_shutdown wk w : view (tcp_poll_shutdown wk w).2 = view w;
  view_wake wk w : view (wake wk w) = v_add_woken wk (view w);
  view_try_write bytes w r w' :
    try_write bytes w = (r, w') →
    match r with
    | Ok n => 0 ≤ n ≤ len bytes ∧ view w' = v_add_raw (prefix n bytes) (view w)
    | Err _ => view w' = view w
    end;
  view_SSL_write bytes w n w' :
    SSL_write bytes w = (n, w') →
    v_blocked (view w) = None ∨ v_blocked (view w) = Some bytes →
    if 0 <? n then
      n = len bytes ∧ view w' = v_with_write (v_sent (view w) ++ bytes) None (view w)
    else
      view w' = v_with_write (v_sent (view w))
                  (if wants_io (SSL_get_error n w') then Some bytes else v_blocked (view w))
                  (view w);
  view_SSL_read cap w n bs w' :
    SSL_read cap w = ((n, bs), w') →
    view w' =
      if 0 <? n then v_add_read (prefix n (buffer cap bs)) (view w)
      else if SSL_get_error n w' =? SSL_ERROR_ZERO_RETURN then v_set_zero (view w)
      else view w;
  view_SSL_do_handshake w : view (SSL_do_handshake w).2 = view w;
  view_SSL_shutdown w r w' :
    SSL_shutdown w = (r, w') → view w' = v_add_close (if 0 <=? r then 1 else 0) (view w);
  view_recvmsg cap ctl fl w :
    view (recvmsg cap ctl fl w).2 =
      v_add_rx {| re_cap := cap; re_ret := (recvmsg cap ctl fl w).1;
                  re_errno := errno (recvmsg cap ctl fl w).2 |} (view w);
  view_sendmsg bytes c n fl w r w' :
    sendmsg bytes c n fl w = (r, w') →
    view w' = v_add_close (if r =? len bytes then 1 else 0) (view w);
  view_setsockopt l o v w r w' :
    setsockopt l o v w = (r, w') → view w' = v_add_opt (l, o, v, r) (view w);
}.

(** [SSL_read] returns at most the capacity it was given. *)
Class SslReadLaws (W : Type) `{LibSsl W} : Prop := {
  SSL_read_bound cap w n bs w' : SSL_read cap w = ((n, bs), w') → 0 ≤ cap → n ≤ cap;
}.

(** A bound on the readiness polls that can still succeed while the task is
    polled (tokio's cooperative budget is such a bound: every successful
    [poll_read_ready] or [poll_write_ready] takes a unit and no call of the
    crate gives one back), plus the interruptions that [try_write] can still
    report. *)
Class ReadyBudget (W : Type)
    `{ErrQueue W, TokioTcp W, !TryIoLaws W, LibSsl W} : Type := {
  budget : W → nat;
  budget_get_error w : (budget (ERR_get_error w).2 ≤ budget w)%nat;
  budget_clear_error w : (budget (ERR_clear_error w) ≤ budget w)%nat;
  budget_wake wk w : (budget (wake wk w) ≤ budget w)%nat;
  budget_SSL_write bs w : (budget (SSL_write bs w).2 ≤ budget w)%nat;
  budget_SSL_read cap w : (budget (SSL_read cap w).2 ≤ budget w)%nat;
  budget_SSL_shutdown w : (budget (SSL_shutdown w).2 ≤ budget w)%nat;
  budget_clear_ready i w : (budget (clear_ready i w) ≤ budget w)%nat;
  budget_try_write bs w r w' :
    try_write bs w = (r, w') →
    (budget w' + match r with
                 | Err e => if is_kind Interrupted e then 1 else 0
                 | Ok _ => 0
                 end ≤ budget w)%nat;
  budget_poll_read_ready wk w r w' :
    poll_read_ready wk w = (r, w') →
    (budget w' + match r with Ready (Ok _) => 1 | _ => 0 end ≤ budget w)%nat;
  budget_poll_write_ready wk w r w' :
    poll_write_ready wk w = (r, w') →
    (budget w' + match r with Ready (Ok _) => 1 | _ => 0 end ≤ budget w)%nat;
}.

(** Key derivation does not touch the connection. *)
Class KdfView (W : Type) `{NetView W, Kdf W} : Prop := {
  view_HKDF_expand n md secret info w : view (HKDF_expand n md secret info w).2 = view w;
}.
