(* ===== verification/Objects.v ===== *)
(** * AWS-LC objects: contexts, certificates, keys, BIOs and sessions

    The part of AWS-LC that the configuration builders and the endpoints call:
    allocation and release of reference-counted objects, the PEM and DER
    readers, and the setters of an [SSL_CTX] and an [SSL].  Objects are named
    by a number that is not used again after the object is gone.

    The laws describe the calls by their effect on a ghost state: which
    references the crate holds, what each context and session is configured
    with, and what is left to read in each BIO.  A law about an object asks
    that the crate holds a reference to it, so that nothing can be proved about
    a use after a free. *)

From S2P Require Import Prelude Std Env.

Local Open Scope Z_scope.

(** ** The calls *)

(** Setters that the cipher-suite and named-group lists are applied with. *)
Class LibSslCtx (W : Type) : Type := {
  SSL_CTX_set_options : nat → Z → W → W;
  SSL_CTX_set_cipher_list : nat → list byte → W → Z * W;
  SSL_CTX_set_ciphersuites : nat → list byte → W → Z * W;
  SSL_CTX_set1_groups : nat → list Z → W → Z * W;
}.

(** The rest of what the builders call.  A pointer result is an [option]; null
    is [None]. *)
Class LibCrypto (W : Type) : Type := {
  (** [SSL_CTX_new] of [TLS_server_method] ([true]) or [TLS_client_method]. *)
  SSL_CTX_new : bool → W → option nat * W;
  (** The pointers that libssl passes to the [ex_data] free function of the
      crate, one for a context that is destroyed and none otherwise. *)
  SSL_CTX_free : nat → W → list (option nat) * W;
  BIO_new_mem_buf : list byte → W → option nat * W;
  BIO_free : nat → W → W;
  PEM_read_bio_X509_AUX : nat → W → option nat * W;
  PEM_read_bio_X509 : nat → W → option nat * W;
  PEM_read_bio_PrivateKey : nat → W → option nat * W;
  (** The object and how far the input pointer was advanced. *)
  d2i_X509 : list byte → Z → W → (option nat * Z) * W;
  d2i_AutoPrivateKey : list byte → Z → W → (option nat * Z) * W;
  X509_free : nat → W → W;
  EVP_PKEY_free : nat → W → W;
  SSL_CTX_use_certificate : nat → nat → W → Z * W;
  SSL_CTX_use_PrivateKey : nat → nat → W → Z * W;
  SSL_CTX_use_certificate_chain_file : nat → list byte → W → Z * W;
  SSL_CTX_use_PrivateKey_file : nat → list byte → Z → W → Z * W;
  SSL_CTX_check_private_key : nat → W → Z * W;
  SSL_CTX_clear_chain_certs : nat → W → Z * W;
  SSL_CTX_add0_chain_cert : nat → nat → W → Z * W;
  (** A borrowed [X509_STORE] of the context. *)
  SSL_CTX_get_cert_store : nat → W → option nat;
  X509_STORE_add_cert : nat → nat → W → Z * W;
  SSL_CTX_set_default_verify_paths : nat → W → Z * W;
  SSL_CTX_set_verify : nat → Z → W → W;
  SSL_CTX_set_min_proto_version : nat → Z → W → Z * W;
  SSL_CTX_set_max_proto_version : nat → Z → W → Z * W;
  SSL_CTX_set_num_tickets : nat → Z → W → Z * W;
  (** 0 is success. *)
  SSL_CTX_set_alpn_protos : nat → list byte → W → Z * W;
  SSL_CTX_get_ex_new_index : W → Z * W;
  SSL_CTX_set_ex_data : nat → Z → nat → W → Z * W;
  SSL_CTX_get_ex_data : nat → Z → W → option nat;
  (** Registers the crate's [alpn_select_cb]. *)
  SSL_CTX_set_alpn_select_cb : nat → W → W;
}.

(** What the endpoints call to set up a session, and the accessors of the peer's
    certificate, which read the established session of the connection. *)
Class LibSslConn (W : Type) : Type := {
  SSL_new : nat → W → option nat * W;
  SSL_free : nat → W → W;
  (** Descriptor and close flag. *)
  BIO_new_socket : nat → Z → W → option nat * W;
  (** Session, read BIO, write BIO. *)
  SSL_set_bio : nat → nat → nat → W → W;
  SSL_set_accept_state : nat → W → W;
  SSL_set_connect_state : nat → W → W;
  SSL_set_mode : nat → Z → W → W;
  (** A borrowed [X509_VERIFY_PARAM] of the session. *)
  SSL_get0_param : nat → W → option nat;
  X509_VERIFY_PARAM_set1_ip_asc : nat → list byte → W → Z * W;
  SSL_set_tlsext_host_name : nat → list byte → W → Z * W;
  SSL_set1_host : nat → list byte → W → Z * W;
  (** [close(2)] of a descriptor ([Drop for TcpStream]). *)
  close_fd : nat → W → W;
  SSL_get_peer_certificate : W → option nat * W;
  (** The length of the encoding, and the bytes stored if there is a buffer. *)
  i2d_X509 : nat → bool → W → (Z * list byte) * W;
}.

(** ** The ghost state *)

(** A reference the crate owns; the last kind is a socket descriptor. *)
Inductive Obj : Type := OBio (b : nat) | OX509 (x : nat) | OPkey (k : nat) | OCtx (c : nat)
  | OSsl (s : nat) | OFd (fd : nat).

#[export] Instance Obj_eq_dec : EqDecision Obj.
Proof. solve_decision. Defined.

#[export] Instance Obj_countable : Countable Obj.
Proof.
  refine (inj_countable'
    (λ o, match o with
          | OBio n => (0%nat, n) | OX509 n => (1%nat, n) | OPkey n => (2%nat, n)
          | OCtx n => (3%nat, n) | OSsl n => (4%nat, n) | OFd n => (5%nat, n)
          end)
    (λ p, match p with
          | (0%nat, n) => OBio n | (1%nat, n) => OX509 n | (2%nat, n) => OPkey n
          | (3%nat, n) => OCtx n | (4%nat, n) => OSsl n | (_, n) => OFd n
          end) _).
  by intros [].
Defined.

(** Where a context's certificate chain and key come from: encodings of the
    leaf and the chain behind it, or a file libssl reads itself. *)
Inductive CertSource : Type :=
| NoCert
| Certs (leaf : list byte) (chain : list (list byte))
| CertFile (path : list byte).

Inductive KeySource : Type :=
| NoKey
| Key (der : list byte)
| KeyFile (path : list byte) (type : Z).

(** What a context is configured with. *)
Record CtxState : Type := {
  cs_server : bool;
  cs_options : Z;
  cs_cipher_list : option (list byte);
  cs_ciphersuites : option (list byte);
  cs_groups : option (list Z);
  cs_cert : CertSource;
  cs_key : KeySource;
  cs_anchors : list (list byte);
  cs_system_roots : bool;
  cs_verify : Z;
  cs_min_version : Z;
  cs_max_version : Z;
  cs_num_tickets : Z;
  cs_alpn_protos : option (list byte);
  cs_ex_data : option (Z * nat);
  cs_alpn_cb : bool;
}.

Definition cs_on_options (f : Z → Z) (s : CtxState) : CtxState :=
  {| cs_server := cs_server s; cs_options := f (cs_options s);
     cs_cipher_list := cs_cipher_list s; cs_ciphersuites := cs_ciphersuites s;
     cs_groups := cs_groups s; cs_cert := cs_cert s; cs_key := cs_key s;
     cs_anchors := cs_anchors s; cs_system_roots := cs_system_roots s;
     cs_verify := cs_verify s; cs_min_version := cs_min_version s;
     cs_max_version := cs_max_version s; cs_num_tickets := cs_num_tickets s;
     cs_alpn_protos := cs_alpn_protos s; cs_ex_data := cs_ex_data s;
     cs_alpn_cb := cs_alpn_cb s |}.
Definition cs_on_cipher_list (f : option (list byte) → option (list byte)) (s : CtxState) : CtxState :=
  {| cs_server := cs_server s; cs_options := cs_options s;
     cs_cipher_list := f (cs_cipher_list s); cs_ciphersuites := cs_ciphersuites s;
     cs_groups := cs_groups s; cs_cert := cs_cert s; cs_key := cs_key s;
     cs_anchors := cs_anchors s; cs_system_roots := cs_system_roots s;
     cs_verify := cs_verify s; cs_min_version := cs_min_version s;
     cs_max_version := cs_max_version s; cs_num_tickets := cs_num_tickets s;
     cs_alpn_protos := cs_alpn_protos s; cs_ex_data := cs_ex_data s;
     cs_alpn_cb := cs_alpn_cb s |}.
Definition cs_on_ciphersuites (f : option (list byte) → option (list byte)) (s : CtxState) : CtxState :=
  {| cs_server := cs_server s; cs_options := cs_options s; cs_cipher_list := cs_cipher_list s;
     cs_ciphersuites := f (cs_ciphersuites s); cs_groups := cs_groups s; cs_cert := cs_cert s;
     cs_key := cs_key s; cs_anchors := cs_anchors s; cs_system_roots := cs_system_roots s;
     cs_verify := cs_verify s; cs_min_version := cs_min_version s;
     cs_max_version := cs_max_version s; cs_num_tickets := cs_num_tickets s;
     cs_alpn_protos := cs_alpn_protos s; cs_ex_data := cs_ex_data s;
     cs_alpn_cb := cs_alpn_cb s |}.
Definition cs_on_groups (f : option (list Z) → option (list Z)) (s : CtxState) : CtxState :=
  {| cs_server := cs_server s; cs_options := cs_options s; cs_cipher_list := cs_cipher_list s;
     cs_ciphersuites := cs_ciphersuites s; cs_groups := f (cs_groups s); cs_cert := cs_cert s;
     cs_key := cs_key s; cs_anchors := cs_anchors s; cs_system_roots := cs_system_roots s;
     cs_verify := cs_verify s; cs_min_version := cs_min_version s;
     cs_max_version := cs_max_version s; cs_num_tickets := cs_num_tickets s;
     cs_alpn_protos := cs_alpn_protos s; cs_ex_data := cs_ex_data s;
     cs_alpn_cb := cs_alpn_cb s |}.
Definition cs_on_cert (f : CertSource → CertSource) (s : CtxState) : CtxState :=
  {| cs_server := cs_server s; cs_options := cs_options s; cs_cipher_list := cs_cipher_list s;
     cs_ciphersuites := cs_ciphersuites s; cs_groups := cs_groups s; cs_cert := f (cs_cert s);
     cs_key := cs_key s; cs_anchors := cs_anchors s; cs_system_roots := cs_system_roots s;
     cs_verify := cs_verify s; cs_min_version := cs_min_version s;
     cs_max_version := cs_max_version s; cs_num_tickets := cs_num_tickets s;
     cs_alpn_protos := cs_alpn_protos s; cs_ex_data := cs_ex_data s;
     cs_alpn_cb := cs_alpn_cb s |}.
Definition cs_on_key (f : KeySource → KeySource) (s : CtxState) : CtxState :=
  {| cs_server := cs_server s; cs_options := cs_options s; cs_cipher_list := cs_cipher_list s;
     cs_ciphersuites := cs_ciphersuites s; cs_groups := cs_groups s; cs_cert := cs_cert s;
     cs_key := f (cs_key s); cs_anchors := cs_anchors s; cs_system_roots := cs_system_roots s;
     cs_verify := cs_verify s; cs_min_version := cs_min_version s;
     cs_max_version := cs_max_version s; cs_num_tickets := cs_num_tickets s;
     cs_alpn_protos := cs_alpn_protos s; cs_ex_data := cs_ex_data s;
     cs_alpn_cb := cs_alpn_cb s |}.
Definition cs_on_anchors (f : list (list byte) → list (list byte)) (s : CtxState) : CtxState :=
  {| cs_server := cs_server s; cs_options := cs_options s; cs_cipher_list := cs_cipher_list s;
     cs_ciphersuites := cs_ciphersuites s; cs_groups := cs_groups s; cs_cert := cs_cert s;
     cs_key := cs_key s; cs_anchors := f (cs_anchors s); cs_system_roots := cs_system_roots s;
     cs_verify := cs_verify s; cs_min_version := cs_min_version s;
     cs_max_version := cs_max_version s; cs_num_tickets := cs_num_tickets s;
     cs_alpn_protos := cs_alpn_protos s; cs_ex_data := cs_ex_data s;
     cs_alpn_cb := cs_alpn_cb s |}.
Definition cs_on_system_roots (f : bool → bool) (s : CtxState) : CtxState :=
  {| cs_server := cs_server s; cs_options := cs_options s; cs_cipher_list := cs_cipher_list s;
     cs_ciphersuites := cs_ciphersuites s; cs_groups := cs_groups s; cs_cert := cs_cert s;
     cs_key := cs_key s; cs_anchors := cs_anchors s; cs_system_roots := f (cs_system_roots s);
     cs_verify := cs_verify s; cs_min_version := cs_min_version s;
     cs_max_version := cs_max_version s; cs_num_tickets := cs_num_tickets s;
     cs_alpn_protos := cs_alpn_protos s; cs_ex_data := cs_ex_data s;
     cs_alpn_cb := cs_alpn_cb s |}.
Definition cs_on_verify (f : Z → Z) (s : CtxState) : CtxState :=
  {| cs_server := cs_server s; cs_options := cs_options s; cs_cipher_list := cs_cipher_list s;
     cs_ciphersuites := cs_ciphersuites s; cs_groups := cs_groups s; cs_cert := cs_cert s;
     cs_key := cs_key s; cs_anchors := cs_anchors s; cs_system_roots := cs_system_roots s;
     cs_verify := f (cs_verify s); cs_min_version := cs_min_version s;
     cs_max_version := cs_max_version s; cs_num_tickets := cs_num_tickets s;
     cs_alpn_protos := cs_alpn_protos s; cs_ex_data := cs_ex_data s;
     cs_alpn_cb := cs_alpn_cb s |}.
Definition cs_on_min_version (f : Z → Z) (s : CtxState) : CtxState :=
  {| cs_server := cs_server s; cs_options := cs_options s; cs_cipher_list := cs_cipher_list s;
     cs_ciphersuites := cs_ciphersuites s; cs_groups := cs_groups s; cs_cert := cs_cert s;
     cs_key := cs_key s; cs_anchors := cs_anchors s; cs_system_roots := cs_system_roots s;
     cs_verify := cs_verify s; cs_min_version := f (cs_min_version s);
     cs_max_version := cs_max_version s; cs_num_tickets := cs_num_tickets s;
     cs_alpn_protos := cs_alpn_protos s; cs_ex_data := cs_ex_data s;
     cs_alpn_cb := cs_alpn_cb s |}.
Definition cs_on_max_version (f : Z → Z) (s : CtxState) : CtxState :=
  {| cs_server := cs_server s; cs_options := cs_options s; cs_cipher_list := cs_cipher_list s;
     cs_ciphersuites := cs_ciphersuites s; cs_groups := cs_groups s; cs_cert := cs_cert s;
     cs_key := cs_key s; cs_anchors := cs_anchors s; cs_system_roots := cs_system_roots s;
     cs_verify := cs_verify s; cs_min_version := cs_min_version s;
     cs_max_version := f (cs_max_version s); cs_num_tickets := cs_num_tickets s;
     cs_alpn_protos := cs_alpn_protos s; cs_ex_data := cs_ex_data s;
     cs_alpn_cb := cs_alpn_cb s |}.
Definition cs_on_num_tickets (f : Z → Z) (s : CtxState) : CtxState :=
  {| cs_server := cs_server s; cs_options := cs_options s; cs_cipher_list := cs_cipher_list s;
     cs_ciphersuites := cs_ciphersuites s; cs_groups := cs_groups s; cs_cert := cs_cert s;
     cs_key := cs_key s; cs_anchors := cs_anchors s; cs_system_roots := cs_system_roots s;
     cs_verify := cs_verify s; cs_min_version := cs_min_version s;
     cs_max_version := cs_max_version s; cs_num_tickets := f (cs_num_tickets s);
     cs_alpn_protos := cs_alpn_protos s; cs_ex_data := cs_ex_data s;
     cs_alpn_cb := cs_alpn_cb s |}.
Definition cs_on_alpn_protos (f : option (list byte) → option (list byte)) (s : CtxState) : CtxState :=
  {| cs_server := cs_server s; cs_options := cs_options s; cs_cipher_list := cs_cipher_list s;
     cs_ciphersuites := cs_ciphersuites s; cs_groups := cs_groups s; cs_cert := cs_cert s;
     cs_key := cs_key s; cs_anchors := cs_anchors s; cs_system_roots := cs_system_roots s;
     cs_verify := cs_verify s; cs_min_version := cs_min_version s;
     cs_max_version := cs_max_version s; cs_num_tickets := cs_num_tickets s;
     cs_alpn_protos := f (cs_alpn_protos s); cs_ex_data := cs_ex_data s;
     cs_alpn_cb := cs_alpn_cb s |}.
Definition cs_on_ex_data (f : option (Z * nat) → option (Z * nat)) (s : CtxState) : CtxState :=
  {| cs_server := cs_server s; cs_options := cs_options s; cs_cipher_list := cs_cipher_list s;
     cs_ciphersuites := cs_ciphersuites s; cs_groups := cs_groups s; cs_cert := cs_cert s;
     cs_key := cs_key s; cs_anchors := cs_anchors s; cs_system_roots := cs_system_roots s;
     cs_verify := cs_verify s; cs_min_version := cs_min_version s;
     cs_max_version := cs_max_version s; cs_num_tickets := cs_num_tickets s;
     cs_alpn_protos := cs_alpn_protos s; cs_ex_data := f (cs_ex_data s);
     cs_alpn_cb := cs_alpn_cb s |}.
Definition cs_on_alpn_cb (f : bool → bool) (s : CtxState) : CtxState :=
  {| cs_server := cs_server s; cs_options := cs_options s; cs_cipher_list := cs_cipher_list s;
     cs_ciphersuites := cs_ciphersuites s; cs_groups := cs_groups s; cs_cert := cs_cert s;
     cs_key := cs_key s; cs_anchors := cs_anchors s; cs_system_roots := cs_system_roots s;
     cs_verify := cs_verify s; cs_min_version := cs_min_version s;
     cs_max_version := cs_max_version s; cs_num_tickets := cs_num_tickets s;
     cs_alpn_protos := cs_alpn_protos s; cs_ex_data := cs_ex_data s;
     cs_alpn_cb := f (cs_alpn_cb s) |}.

(** [SSL_CTX_use_certificate] replaces the leaf and keeps the chain behind it. *)
Definition set_leaf (der : list byte) (s : CertSource) : CertSource :=
  Certs der (match s with Certs _ chain => chain | _ => [] end).
Definition clear_chain (s : CertSource) : CertSource :=
  match s with Certs leaf _ => Certs leaf [] | _ => s end.
Definition push_chain (der : list byte) (s : CertSource) : CertSource :=
  match s with Certs leaf chain => Certs leaf (chain ++ [der]) | _ => s end.

(** What a session is set up with: its context, the descriptor of its BIO, its
    role ([true] is the accepting one), the name it sends as SNI, the names the
    peer's certificate is checked against, and its mode flags. *)
Record SslState : Type := {
  ss_ctx : nat;
  ss_fd : option nat;
  ss_accept : option bool;
  ss_sni : option (list byte);
  ss_host : option (list byte);
  ss_ip : option (list byte);
  ss_mode : Z;
}.

Definition ssl_new_state (ctx : nat) : SslState :=
  {| ss_ctx := ctx; ss_fd := None; ss_accept := None; ss_sni := None; ss_host := None;
     ss_ip := None; ss_mode := 0 |}.
Definition ss_set_fd (fd : nat) (s : SslState) : SslState :=
  {| ss_ctx := ss_ctx s; ss_fd := Some fd; ss_accept := ss_accept s; ss_sni := ss_sni s;
     ss_host := ss_host s; ss_ip := ss_ip s; ss_mode := ss_mode s |}.
Definition ss_set_accept (b : bool) (s : SslState) : SslState :=
  {| ss_ctx := ss_ctx s; ss_fd := ss_fd s; ss_accept := Some b; ss_sni := ss_sni s;
     ss_host := ss_host s; ss_ip := ss_ip s; ss_mode := ss_mode s |}.
Definition ss_set_sni (name : list byte) (s : SslState) : SslState :=
  {| ss_ctx := ss_ctx s; ss_fd := ss_fd s; ss_accept := ss_accept s; ss_sni := Some name;
     ss_host := ss_host s; ss_ip := ss_ip s; ss_mode := ss_mode s |}.
Definition ss_set_host (name : list byte) (s : SslState) : SslState :=
  {| ss_ctx := ss_ctx s; ss_fd := ss_fd s; ss_accept := ss_accept s; ss_sni := ss_sni s;
     ss_host := Some name; ss_ip := ss_ip s; ss_mode := ss_mode s |}.
Definition ss_set_ip (name : list byte) (s : SslState) : SslState :=
  {| ss_ctx := ss_ctx s; ss_fd := ss_fd s; ss_accept := ss_accept s; ss_sni := ss_sni s;
     ss_host := ss_host s; ss_ip := Some name; ss_mode := ss_mode s |}.
Definition ss_or_mode (m : Z) (s : SslState) : SslState :=
  {| ss_ctx := ss_ctx s; ss_fd := ss_fd s; ss_accept := ss_accept s; ss_sni := ss_sni s;
     ss_host := ss_host s; ss_ip := ss_ip s; ss_mode := Z.lor (ss_mode s) m |}.

Record Ghost : Type := {
  g_refs : gmultiset Obj;
  g_ctx : gmap nat CtxState;
  g_bio : gmap nat (list byte);
  g_ssl : gmap nat SslState;
}.

Definition g_on_refs (f : gmultiset Obj → gmultiset Obj) (g : Ghost) : Ghost :=
  {| g_refs := f (g_refs g); g_ctx := g_ctx g; g_bio := g_bio g; g_ssl := g_ssl g |}.
Definition g_on_ctx (f : gmap nat CtxState → gmap nat CtxState) (g : Ghost) : Ghost :=
  {| g_refs := g_refs g; g_ctx := f (g_ctx g); g_bio := g_bio g; g_ssl := g_ssl g |}.
Definition g_on_bio (f : gmap nat (list byte) → gmap nat (list byte)) (g : Ghost) : Ghost :=
  {| g_refs := g_refs g; g_ctx := g_ctx g; g_bio := f (g_bio g); g_ssl := g_ssl g |}.
Definition g_on_ssl (f : gmap nat SslState → gmap nat SslState) (g : Ghost) : Ghost :=
  {| g_refs := g_refs g; g_ctx := g_ctx g; g_bio := g_bio g; g_ssl := f (g_ssl g) |}.

(** The crate receives or gives up one reference. *)
Definition g_take (o : Obj) : Ghost → Ghost := g_on_refs (λ m, m ⊎ {[+ o +]}).
Definition g_drop (o : Obj) : Ghost → Ghost := g_on_refs (λ m, m ∖ {[+ o +]}).

(** A setter of context [c]: on success it changes the context by [f]; a failed
    setter may change the settings of that context in any way, except for the
    application's own data, and touches nothing else. *)
Definition sets (c : nat) (f : CtxState → CtxState) (ok : bool) (g g' : Ghost) : Prop :=
  ∃ f', (if ok then f' = f else ∀ s, cs_ex_data (f' s) = cs_ex_data s) ∧
    g' = g_on_ctx (alter f' c) g.

(** A context is kept alive by the crate's references and by its sessions. *)
Definition ctx_alive (c : nat) (g : Ghost) : Prop :=
  OCtx c ∈ g_refs g ∨ map_Exists (λ _ s, ss_ctx s = c) (g_ssl g).

(** The crate holds the only reference to a context. *)
Definition sole_owner (c : nat) (g : Ghost) : Prop :=
  multiplicity (OCtx c) (g_refs g) = 1%nat ∧ map_Forall (λ _ s, ss_ctx s ≠ c) (g_ssl g).

(** ** The laws *)

Class LibSslCtxLaws (W : Type) `{ErrQueue W, LibSslCtx W} : Type := {
  ghost : W → Ghost;
  ghost_get_error w : ghost (ERR_get_error w).2 = ghost w;
  ghost_clear_error w : ghost (ERR_clear_error w) = ghost w;
  set_options_spec c m w :
    OCtx c ∈ g_refs (ghost w) →
    sets c (cs_on_options (λ o, Z.lor o m)) true (ghost w) (ghost (SSL_CTX_set_options c m w));
  set_cipher_list_spec c l w r w' :
    SSL_CTX_set_cipher_list c l w = (r, w') → OCtx c ∈ g_refs (ghost w) →
    sets c (cs_on_cipher_list (λ _, Some l)) (r =? 1) (ghost w) (ghost w');
  set_ciphersuites_spec c l w r w' :
    SSL_CTX_set_ciphersuites c l w = (r, w') → OCtx c ∈ g_refs (ghost w) →
    sets c (cs_on_ciphersuites (λ _, Some l)) (r =? 1) (ghost w) (ghost w');
  set1_groups_spec c l w r w' :
    SSL_CTX_set1_groups c l w = (r, w') → OCtx c ∈ g_refs (ghost w) →
    sets c (cs_on_groups (λ _, Some l)) (r =? 1) (ghost w) (ghost w');
}.

(** A packed code that marks the end of a PEM bundle. *)
Definition is_no_start_line `{AwsLcConsts} (packed : Z) : Prop :=
  Z.land (Z.shiftr packed 24) 0xff = ERR_LIB_PEM ∧ Z.land packed 0xfff = PEM_R_NO_START_LINE.

(** [x509_der] and [pkey_der] are the encodings of the objects, [store_ctx] is the
    context a trust store belongs to.  [pem_cert aux]
    is the first certificate of a PEM text with the text behind it (with [aux],
    also a trusted certificate), [pem_key] the first private key, and [pem_end]
    says that a text holds no further PEM block.  A PEM reader that fails queues
    an error, and the newest one is [PEM_R_NO_START_LINE] only at the end of the
    text.  A DER reader takes its object from the start of the input. *)
Class LibCryptoLaws (W : Type)
    `{AwsLcConsts, ErrQueue W, !ErrQueueLaws W, LibSslCtx W, !LibSslCtxLaws W, LibCrypto W} : Type := {
  ctx_init : bool → CtxState;
  x509_der : nat → list byte;
  pkey_der : nat → list byte;
  pem_cert : bool → list byte → option (list byte * list byte);
  pem_key : list byte → option (list byte);
  pem_end : list byte → Prop;
  store_ctx : nat → nat;
  ctx_init_ex server : cs_ex_data (ctx_init server) = None;
  ctx_new_spec server w r w' :
    SSL_CTX_new server w = (r, w') →
    match r with
    | None => ghost w' = ghost w
    | Some c =>
        (OCtx c ∉ g_refs (ghost w)) ∧ map_Forall (λ _ s, ss_ctx s ≠ c) (g_ssl (ghost w)) ∧
        ghost w' = g_on_ctx <[c := ctx_init server]> (g_take (OCtx c) (ghost w))
    end;
  ctx_free_spec c w ptrs w' :
    SSL_CTX_free c w = (ptrs, w') → OCtx c ∈ g_refs (ghost w) →
    ghost w' = g_drop (OCtx c) (ghost w) ∧
    (sole_owner c (ghost w) →
     ptrs = [(g_ctx (ghost w) !! c) ≫= (λ s, snd <$> cs_ex_data s)]);
  bio_new_spec text w r w' :
    BIO_new_mem_buf text w = (r, w') →
    ghost w' = match r with
               | None => ghost w
               | Some b => g_on_bio <[b := text]> (g_take (OBio b) (ghost w))
               end;
  bio_free_spec b w :
    OBio b ∈ g_refs (ghost w) → ghost (BIO_free b w) = g_drop (OBio b) (ghost w);
  pem_x509_spec (aux : bool) b w r w' text :
    (if aux then PEM_read_bio_X509_AUX b w else PEM_read_bio_X509 b w) = (r, w') →
    OBio b ∈ g_refs (ghost w) → g_bio (ghost w) !! b = Some text →
    match r with
    | Some x => ∃ rest,
        pem_cert aux text = Some (x509_der x, rest) ∧ (length rest < length text)%nat ∧
        ghost w' = g_on_bio <[b := rest]> (g_take (OX509 x) (ghost w))
    | None => ∃ rest e,
        ghost w' = g_on_bio <[b := rest]> (ghost w) ∧ last (queue w') = Some e ∧
        (is_no_start_line e → pem_end text)
    end;
  pem_pkey_spec b w r w' text :
    PEM_read_bio_PrivateKey b w = (r, w') →
    OBio b ∈ g_refs (ghost w) → g_bio (ghost w) !! b = Some text →
    ∃ rest, match r with
    | Some k => pem_key text = Some (pkey_der k) ∧
        ghost w' = g_on_bio <[b := rest]> (g_take (OPkey k) (ghost w))
    | None => ghost w' = g_on_bio <[b := rest]> (ghost w)
    end;
  d2i_x509_spec der w r n w' :
    d2i_X509 der (len der) w = ((r, n), w') →
    match r with
    | Some x => 0 ≤ n ≤ len der ∧ x509_der x = prefix n der ∧
        ghost w' = g_take (OX509 x) (ghost w)
    | None => ghost w' = ghost w
    end;
  d2i_pkey_spec der w r n w' :
    d2i_AutoPrivateKey der (len der) w = ((r, n), w') →
    match r with
    | Some k => 0 ≤ n ≤ len der ∧ pkey_der k = prefix n der ∧
        ghost w' = g_take (OPkey k) (ghost w)
    | None => ghost w' = ghost w
    end;
  x509_free_spec x w :
    OX509 x ∈ g_refs (ghost w) → ghost (X509_free x w) = g_drop (OX509 x) (ghost w);
  pkey_free_spec k w :
    OPkey k ∈ g_refs (ghost w) → ghost (EVP_PKEY_free k w) = g_drop (OPkey k) (ghost w);
  use_certificate_spec c x w r w' :
    SSL_CTX_use_certificate c x w = (r, w') →
    OCtx c ∈ g_refs (ghost w) → OX509 x ∈ g_refs (ghost w) →
    sets c (cs_on_cert (set_leaf (x509_der x))) (r =? 1) (ghost w) (ghost w');
  use_pkey_spec c k w r w' :
    SSL_CTX_use_PrivateKey c k w = (r, w') →
    OCtx c ∈ g_refs (ghost w) → OPkey k ∈ g_refs (ghost w) →
    sets c (cs_on_key (λ _, Key (pkey_der k))) (r =? 1) (ghost w) (ghost w');
  use_chain_file_spec c path w r w' :
    SSL_CTX_use_certificate_chain_file c path w = (r, w') → OCtx c ∈ g_refs (ghost w) →
    sets c (cs_on_cert (λ _, CertFile path)) (r =? 1) (ghost w) (ghost w');
  use_key_file_spec c path ty w r w' :
    SSL_CTX_use_PrivateKey_file c path ty w = (r, w') → OCtx c ∈ g_refs (ghost w) →
    sets c (cs_on_key (λ _, KeyFile path ty)) (r =? 1) (ghost w) (ghost w');
  check_key_spec c w r w' :
    SSL_CTX_check_private_key c w = (r, w') → OCtx c ∈ g_refs (ghost w) → ghost w' = ghost w;
  clear_chain_spec c w r w' :
    SSL_CTX_clear_chain_certs c w = (r, w') → OCtx c ∈ g_refs (ghost w) →
    sets c (cs_on_cert clear_chain) true (ghost w) (ghost w');
  (** The context takes over the reference, but only on success. *)
  add0_chain_spec c x w r w' :
    SSL_CTX_add0_chain_cert c x w = (r, w') →
    OCtx c ∈ g_refs (ghost w) → OX509 x ∈ g_refs (ghost w) →
    sets c (cs_on_cert (push_chain (x509_der x))) (r =? 1)
      (if r =? 1 then g_drop (OX509 x) (ghost w) else ghost w) (ghost w');
  get_store_spec c w store : SSL_CTX_get_cert_store c w = Some store → store_ctx store = c;
  store_add_spec c store x w r w' :
    X509_STORE_add_cert store x w = (r, w') → store_ctx store = c →
    OCtx c ∈ g_refs (ghost w) → OX509 x ∈ g_refs (ghost w) →
    sets c (cs_on_anchors (λ a, a ++ [x509_der x])) (r =? 1) (ghost w) (ghost w');
  default_paths_spec c w r w' :
    SSL_CTX_set_default_verify_paths c w = (r, w') → OCtx c ∈ g_refs (ghost w) →
    sets c (cs_on_system_roots (λ _, true)) (r =? 1) (ghost w) (ghost w');
  set_verify_spec c flags w :
    OCtx c ∈ g_refs (ghost w) →
    sets c (cs_on_verify (λ _, flags)) true (ghost w) (ghost (SSL_CTX_set_verify c flags w));
  set_min_spec c v w r w' :
    SSL_CTX_set_min_proto_version c v w = (r, w') → OCtx c ∈ g_refs (ghost w) →
    sets c (cs_on_min_version (λ _, v)) (r =? 1) (ghost w) (ghost w');
  set_max_spec c v w r w' :
    SSL_CTX_set_max_proto_version c v w = (r, w') → OCtx c ∈ g_refs (ghost w) →
    sets c (cs_on_max_version (λ _, v)) (r =? 1) (ghost w) (ghost w');
  set_tickets_spec c n w r w' :
    SSL_CTX_set_num_tickets c n w = (r, w') → OCtx c ∈ g_refs (ghost w) →
    sets c (cs_on_num_tickets (λ _, n)) true (ghost w) (ghost w');
  set_alpn_protos_spec c wire w r w' :
    SSL_CTX_set_alpn_protos c wire w = (r, w') → OCtx c ∈ g_refs (ghost w) →
    sets c (cs_on_alpn_protos (λ _, Some wire)) (r =? 0) (ghost w) (ghost w');
  ex_new_index_spec w r w' :
    SSL_CTX_get_ex_new_index w = (r, w') → ghost w' = ghost w;
  set_ex_data_spec c i p w r w' :
    SSL_CTX_set_ex_data c i p w = (r, w') → OCtx c ∈ g_refs (ghost w) →
    if r =? 1 then sets c (cs_on_ex_data (λ _, Some (i, p))) true (ghost w) (ghost w')
    else ghost w' = ghost w;
  get_ex_data_spec c i w s :
    g_ctx (ghost w) !! c = Some s →
    SSL_CTX_get_ex_data c i w =
      match cs_ex_data s with Some (j, p) => if i =? j then Some p else None | None => None end;
  set_alpn_cb_spec c w :
    OCtx c ∈ g_refs (ghost w) →
    sets c (cs_on_alpn_cb (λ _, true)) true (ghost w) (ghost (SSL_CTX_set_alpn_select_cb c w));
}.

(** Indices for application data are not exhausted. *)
Class ExIndexAllocates (W : Type) `{LibCrypto W} : Prop := {
  ex_new_index_nonneg w : 0 ≤ (SSL_CTX_get_ex_new_index w).1;
}.

(** A setter of a session: a failed one may have changed that session. *)
Definition ssl_sets (s : nat) (f : SslState → SslState) (ok : bool) (g g' : Ghost) : Prop :=
  ∃ f', (if ok then f' = f else True) ∧ g' = g_on_ssl (alter f' s) g.

(** [SSL_set_bio] with one BIO for both directions takes over one reference to
    it; freeing a session frees its BIO.  [bio_fd] is the descriptor of a socket
    BIO and [param_ssl] the session a verification parameter belongs to. *)
Class LibSslConnLaws (W : Type)
    `{AwsLcConsts, ErrQueue W, LibSslCtx W, !LibSslCtxLaws W, LibSslConn W} : Type := {
  bio_fd : nat → nat;
  param_ssl : nat → nat;
  ssl_new_spec c w r w' :
    SSL_new c w = (r, w') → OCtx c ∈ g_refs (ghost w) →
    match r with
    | None => ghost w' = ghost w
    | Some s => (OSsl s ∉ g_refs (ghost w)) ∧ g_ssl (ghost w) !! s = None ∧
        ghost w' = g_on_ssl <[s := ssl_new_state c]> (g_take (OSsl s) (ghost w))
    end;
  ssl_free_spec s w :
    OSsl s ∈ g_refs (ghost w) →
    ghost (SSL_free s w) = g_on_ssl (delete s) (g_drop (OSsl s) (ghost w));
  bio_new_socket_spec fd w r w' :
    BIO_new_socket fd BIO_NOCLOSE w = (r, w') →
    match r with
    | None => ghost w' = ghost w
    | Some b => bio_fd b = fd ∧ ghost w' = g_take (OBio b) (ghost w)
    end;
  set_bio_spec s b w :
    OSsl s ∈ g_refs (ghost w) → OBio b ∈ g_refs (ghost w) →
    ghost (SSL_set_bio s b b w) =
      g_on_ssl (alter (ss_set_fd (bio_fd b)) s) (g_drop (OBio b) (ghost w));
  set_accept_state_spec s w :
    OSsl s ∈ g_refs (ghost w) →
    ghost (SSL_set_accept_state s w) = g_on_ssl (alter (ss_set_accept true) s) (ghost w);
  set_connect_state_spec s w :
    OSsl s ∈ g_refs (ghost w) →
    ghost (SSL_set_connect_state s w) = g_on_ssl (alter (ss_set_accept false) s) (ghost w);
  set_mode_spec s m w :
    OSsl s ∈ g_refs (ghost w) →
    ghost (SSL_set_mode s m w) = g_on_ssl (alter (ss_or_mode m) s) (ghost w);
  get0_param_spec s w p : SSL_get0_param s w = Some p → param_ssl p = s;
  set1_ip_spec s p name w r w' :
    X509_VERIFY_PARAM_set1_ip_asc p name w = (r, w') → param_ssl p = s →
    OSsl s ∈ g_refs (ghost w) → ssl_sets s (ss_set_ip name) (r =? 1) (ghost w) (ghost w');
  set_host_name_spec s name w r w' :
    SSL_set_tlsext_host_name s name w = (r, w') →
    OSsl s ∈ g_refs (ghost w) → ssl_sets s (ss_set_sni name) (r =? 1) (ghost w) (ghost w');
  set1_host_spec s name w r w' :
    SSL_set1_host s name w = (r, w') →
    OSsl s ∈ g_refs (ghost w) → ssl_sets s (ss_set_host name) (r =? 1) (ghost w) (ghost w');
  close_fd_spec fd w :
    OFd fd ∈ g_refs (ghost w) → ghost (close_fd fd w) = g_drop (OFd fd) (ghost w);
}.

(** The peer's certificate: [SSL_get_peer_certificate] returns a new reference,
    and [i2d_X509] fails or stores the encoding. *)
Class PeerCertLaws (W : Type)
    `{AwsLcConsts, ErrQueue W, !ErrQueueLaws W, LibSslCtx W, !LibSslCtxLaws W, LibCrypto W,
      !LibCryptoLaws W, LibSslConn W} : Prop := {
  peer_cert_spec w r w' :
    SSL_get_peer_certificate w = (r, w') →
    ghost w' = match r with Some x => g_take (OX509 x) (ghost w) | None => ghost w end;
  i2d_spec x out w n bs w' :
    i2d_X509 x out w = ((n, bs), w') → OX509 x ∈ g_refs (ghost w) →
    ghost w' = ghost w ∧ (n ≤ 0 ∨ n = len (x509_der x) ∧ (out = true → bs = x509_der x));
}.

(** The calls on an established or handshaking session leave the crate's
    references and configurations alone. *)
Class ConnGhost (W : Type)
    `{ErrQueue W, LibSslCtx W, !LibSslCtxLaws W, TokioTcp W, !TryIoLaws W, LibSsl W, Syscalls W,
      Kdf W} : Prop := {
  ghost_do_handshake w : ghost (SSL_do_handshake w).2 = ghost w;
  ghost_readable w : ghost (readable w).2 = ghost w;
  ghost_writable w : ghost (writable w).2 = ghost w;
  ghost_clear_ready i w : ghost (clear_ready i w) = ghost w;
  ghost_HKDF_expand n md secret info w : ghost (HKDF_expand n md secret info w).2 = ghost w;
  ghost_setsockopt l o v w : ghost (setsockopt l o v w).2 = ghost w;
}.

(** The calls that set up a session do not show on the connection. *)
Class SetupView (W : Type) `{NetView W, LibSslConn W} : Prop := {
  view_SSL_new c w : view (SSL_new c w).2 = view w;
  view_BIO_new_socket fd fl w : view (BIO_new_socket fd fl w).2 = view w;
  view_SSL_set_bio s b b' w : view (SSL_set_bio s b b' w) = view w;
  view_SSL_set_accept_state s w : view (SSL_set_accept_state s w) = view w;
  view_SSL_set_connect_state s w : view (SSL_set_connect_state s w) = view w;
  view_SSL_set_mode s m w : view (SSL_set_mode s m w) = view w;
  view_set1_ip p name w : view (X509_VERIFY_PARAM_set1_ip_asc p name w).2 = view w;
  view_set_host_name s name w : view (SSL_set_tlsext_host_name s name w).2 = view w;
  view_set1_host s name w : view (SSL_set1_host s name w).2 = view w;
}.
