(* ===== verification/Sim.v ===== *)
(** * A concrete world that replays a script

    One instance of every class of [Env], with its laws: each call consumes the
    next event of a script if that event is meant for it, and returns what a
    stalled connection returns otherwise.  The witnesses of the development run
    the modelled code in this world. *)

From S2P Require Import Prelude Std Env Objects.

Local Open Scope Z_scope.

#[export] Instance sim_strerror : Strerror := λ _, "error"%string.

(** The values of the AWS-LC headers. *)
#[export] Instance sim_consts : AwsLcConsts := {|
  SSL_ERROR_SSL := 1; SSL_ERROR_WANT_READ := 2; SSL_ERROR_WANT_WRITE := 3;
  SSL_ERROR_SYSCALL := 5; SSL_ERROR_ZERO_RETURN := 6;
  ERR_LIB_SSL := 16; ERR_LIB_PEM := 9; PEM_R_NO_START_LINE := 110;
  TLS1_2_VERSION := 0x0303; TLS1_3_VERSION := 0x0304;
  SSL_OP_NO_TICKET := 0x4000; SSL_OP_NO_TLSv1_2 := 0x08000000;
  SSL_OP_NO_TLSv1_3 := 0x20000000;
  SSL_VERIFY_NONE := 0; SSL_VERIFY_PEER := 1; SSL_VERIFY_FAIL_IF_NO_PEER_CERT := 2;
  SSL_TLSEXT_ERR_OK := 0; SSL_TLSEXT_ERR_ALERT_FATAL := 2; SSL_FILETYPE_PEM := 1; BIO_NOCLOSE := 0;
  SSL_MODE_ACCEPT_MOVING_WRITE_BUFFER := 2;
  NID_X25519 := 948; NID_X9_62_prime256v1 := 415; NID_secp384r1 := 715;
  NID_secp521r1 := 716; NID_X25519MLKEM768 := 991; NID_SecP256r1MLKEM768 := 992;
  NID_SecP384r1MLKEM1024 := 994 |}.

#[export] Instance sim_consts_ok : AwsLcConstsOk.
Proof.
  split; try done; try (by apply (bool_decide_unpack _)).
Qed.

(** A context as [SSL_CTX_new] returns it. *)
Definition ctx0 (server : bool) : CtxState :=
  {| cs_server := server; cs_options := 0; cs_cipher_list := None; cs_ciphersuites := None;
     cs_groups := None; cs_cert := NoCert; cs_key := NoKey; cs_anchors := [];
     cs_system_roots := false; cs_verify := 0; cs_min_version := 0x0303; cs_max_version := 0x0304;
     cs_num_tickets := 2; cs_alpn_protos := None; cs_ex_data := None; cs_alpn_cb := false |}.

Inductive Event : Type :=
| EvReady (p : poll (io_result unit))
| EvWrite (code : option Z) (errs : list Z)
| EvRead (r : list byte + Z)
| EvShutdown (r code : Z)
| EvHandshake (r code : Z)
| EvRecv (ret : RecvRet) (errno : Z)
| EvSend (r errno : Z)
| EvTcpWrite (r : io_result Z)
| EvOpt (r errno : Z)
(** The next call of a builder or an endpoint fails and queues errors. *)
| EvFail (errs : list Z).

Record Session : Type := {
  se_version : Z;
  se_cipher : option Z;
  se_server : bool;
  se_secret : bool → list byte;
  se_key_block : list byte;
  se_seq : bool → Z;
  se_pending : Z;
}.

Record Sim : Type := {
  w_view : View;
  w_script : list Event;
  w_errs : list Z;
  w_code : Z;
  w_errno : Z;
  w_ready : bool * bool;
  w_ghost : Ghost;
  w_next : nat;
  w_sess : Session;
}.

Definition with_script (s : list Event) (w : Sim) : Sim :=
  {| w_view := w_view w; w_script := s; w_errs := w_errs w; w_code := w_code w;
     w_errno := w_errno w; w_ready := w_ready w; w_ghost := w_ghost w;
     w_next := w_next w; w_sess := w_sess w |}.
Definition with_view (f : View → View) (w : Sim) : Sim :=
  {| w_view := f (w_view w); w_script := w_script w; w_errs := w_errs w; w_code := w_code w;
     w_errno := w_errno w; w_ready := w_ready w; w_ghost := w_ghost w;
     w_next := w_next w; w_sess := w_sess w |}.
Definition with_errs (f : list Z → list Z) (w : Sim) : Sim :=
  {| w_view := w_view w; w_script := w_script w; w_errs := f (w_errs w); w_code := w_code w;
     w_errno := w_errno w; w_ready := w_ready w; w_ghost := w_ghost w;
     w_next := w_next w; w_sess := w_sess w |}.
Definition with_code (c e : Z) (w : Sim) : Sim :=
  {| w_view := w_view w; w_script := w_script w; w_errs := w_errs w; w_code := c;
     w_errno := e; w_ready := w_ready w; w_ghost := w_ghost w;
     w_next := w_next w; w_sess := w_sess w |}.
Definition with_ready (r : bool * bool) (w : Sim) : Sim :=
  {| w_view := w_view w; w_script := w_script w; w_errs := w_errs w; w_code := w_code w;
     w_errno := w_errno w; w_ready := r; w_ghost := w_ghost w;
     w_next := w_next w; w_sess := w_sess w |}.
Definition with_ghost (f : Ghost → Ghost) (w : Sim) : Sim :=
  {| w_view := w_view w; w_script := w_script w; w_errs := w_errs w; w_code := w_code w;
     w_errno := w_errno w; w_ready := w_ready w; w_ghost := f (w_ghost w);
     w_next := S (w_next w); w_sess := w_sess w |}.

Definition next {A} (dflt : A * Sim) (pick : Event → option (Sim → A * Sim)) (w : Sim) : A * Sim :=
  match w_script w with
  | ev :: script =>
      match pick ev with
      | Some f => f (with_script script w)
      | None => dflt
      end
  | [] => dflt
  end.

Definition live_errs (w : Sim) : list Z := filter (λ c, c ≠ 0) (w_errs w).

#[export] Instance sim_err : ErrQueue Sim := {|
  ERR_get_error w := (default 0 (head (live_errs w)), with_errs (λ _, tail (live_errs w)) w);
  ERR_peek_error w := default 0 (head (live_errs w));
  ERR_peek_last_error w := default 0 (last (live_errs w));
  ERR_clear_error w := with_errs (λ _, []) w;
  ERR_error_string_n code n w := bytes_of "error:" ++ [x00] |}.

#[export] Instance sim_tcp : TokioTcp Sim := {|
  poll_read_ready wk w :=
    next (Pending, w)
      (λ ev, match ev with
             | EvReady p => Some (λ w, (p, with_ready (true, w.(w_ready).2) w))
             | _ => None
             end) w;
  poll_write_ready wk w :=
    next (Pending, w)
      (λ ev, match ev with
             | EvReady p => Some (λ w, (p, with_ready (w.(w_ready).1, true) w))
             | _ => None
             end) w;
  try_io A i f w :=
    if (match i with READABLE => (w_ready w).1 | WRITABLE => (w_ready w).2 end) then
      match f w with
      | Done (Err e, w') =>
          Done (Err e,
            if is_kind WouldBlock e then
              with_ready (match i with READABLE => (false, (w_ready w').2)
                                     | WRITABLE => ((w_ready w').1, false) end) w'
            else w')
      | o => o
      end
    else Done (Err (Simple WouldBlock), w);
  try_write bytes w :=
    next (Err (Simple WouldBlock), w)
      (λ ev, match ev with
             | EvTcpWrite (Ok n) =>
                 let n := Z.max 0 (Z.min n (len bytes)) in
                 Some (λ w, (Ok n, with_view (v_add_raw (prefix n bytes)) w))
             | EvTcpWrite (Err e) => Some (λ w, (Err e, w))
             | _ => None
             end) w;
  tcp_poll_shutdown wk w := (Ready (Ok tt), w);
  readable w :=
    next (Err (Simple NotConnected), w)
      (λ ev, match ev with
             | EvReady (Ready p) => Some (λ w, (p, with_ready (true, (w_ready w).2) w))
             | _ => None
             end) w;
  writable w :=
    next (Err (Simple NotConnected), w)
      (λ ev, match ev with
             | EvReady (Ready p) => Some (λ w, (p, with_ready ((w_ready w).1, true) w))
             | _ => None
             end) w;
  wake wk w := with_view (v_add_woken wk) w |}.

#[export] Instance sim_ssl : LibSsl Sim := {|
  SSL_write bytes w :=
    let stall (code : Z) (errs : list Z) (w : Sim) : Z * Sim :=
      let w := with_code code (w_errno w) (with_errs (λ q, q ++ errs) w) in
      (-1, with_view (λ v, v_with_write (v_sent v)
                             (if wants_io code then Some bytes else v_blocked v) v) w) in
    if is_empty bytes then stall SSL_ERROR_SSL [] w
    else
      next (stall SSL_ERROR_WANT_WRITE [] w)
        (λ ev, match ev with
               | EvWrite None _ =>
                   Some (λ w, (len bytes,
                               with_view (λ v, v_with_write (v_sent v ++ bytes) None v) w))
               | EvWrite (Some code) errs => Some (stall code errs)
               | _ => None
               end) w;
  SSL_read cap w :=
    let none (code : Z) (w : Sim) : (Z * list byte) * Sim :=
      ((-1, []), with_view (λ v, if code =? SSL_ERROR_ZERO_RETURN then v_set_zero v else v)
                   (with_code code (w_errno w) w)) in
    next (none SSL_ERROR_WANT_READ w)
      (λ ev, match ev with
             | EvRead (inl bs) =>
                 let n := Z.min cap (len bs) in
                 Some (λ w, if 0 <? n then
                              ((n, bs), with_view (v_add_read (prefix n (buffer cap bs))) w)
                            else none SSL_ERROR_WANT_READ w)
             | EvRead (inr code) => Some (none code)
             | _ => None
             end) w;
  SSL_get_error n w := if 0 <? n then 0 else w_code w;
  SSL_shutdown w :=
    next (-1, with_view (v_add_close 0) (with_code SSL_ERROR_WANT_WRITE (w_errno w) w))
      (λ ev, match ev with
             | EvShutdown r code =>
                 Some (λ w, (r, with_view (v_add_close (if 0 <=? r then 1 else 0))
                                  (with_code code (w_errno w) w)))
             | _ => None
             end) w;
  SSL_do_handshake w :=
    next (-1, with_code SSL_ERROR_SSL (w_errno w) w)
      (λ ev, match ev with
             | EvHandshake r code => Some (λ w, (r, with_code code (w_errno w) w))
             | _ => None
             end) w;
  SSL_has_pending w := if 0 <? se_pending (w_sess w) then 1 else 0;
  SSL_pending w := se_pending (w_sess w) |}.

Definition stalled_recv : RecvRet :=
  let c := {| cmsg_len := 0; cmsg_level := 0; cmsg_type := 0; ctl_payload := [] |} in
  {| rr_n := -1; rr_bytes := []; rr_control := (c, c); rr_controllen := 0; rr_flags := 0 |}.

Definition sim_recvd (cap : Z) (ret : RecvRet) (e : Z) (w : Sim) : RecvRet * Sim :=
  (ret, with_view (v_add_rx {| re_cap := cap; re_ret := ret; re_errno := e |})
          (with_code (w_code w) e w)).

#[export] Instance sim_sys : Syscalls Sim := {|
  errno := w_errno;
  recvmsg cap ctl fl w :=
    next (sim_recvd cap stalled_recv EAGAIN w)
      (λ ev, match ev with
             | EvRecv ret e => Some (sim_recvd cap ret e)
             | _ => None
             end) w;
  sendmsg bytes c n fl w :=
    let sent (r e : Z) (w : Sim) : Z * Sim :=
      (r, with_view (v_add_close (if r =? len bytes then 1 else 0)) (with_code (w_code w) e w)) in
    next (sent (-1) EAGAIN w)
      (λ ev, match ev with EvSend r e => Some (sent r e) | _ => None end) w;
  setsockopt l o v w :=
    let done (r e : Z) (w : Sim) : Z * Sim :=
      (r, with_view (v_add_opt (l, o, v, r)) (with_code (w_code w) e w)) in
    next (done 0 0 w)
      (λ ev, match ev with EvOpt r e => Some (done r e) | _ => None end) w |}.

(** A call that succeeds unless the script says otherwise. *)
Definition attempt {A} (failure : A) (good : Sim → A * Sim) (w : Sim) : A * Sim :=
  next (good w)
    (λ ev, match ev with
           | EvFail errs => Some (λ w, (failure, with_errs (λ q, q ++ errs) w))
           | _ => None
           end) w.

Definition sim_set (good bad : Z) (c : nat) (f : CtxState → CtxState) : Sim → Z * Sim :=
  attempt bad (λ w, (good, with_ghost (g_on_ctx (alter f c)) w)).

#[export] Instance sim_ctx : LibSslCtx Sim := {|
  SSL_CTX_set_options c m :=
    with_ghost (g_on_ctx (alter (cs_on_options (λ o, Z.lor o m)) c));
  SSL_CTX_set_cipher_list c l := sim_set 1 0 c (cs_on_cipher_list (λ _, Some l));
  SSL_CTX_set_ciphersuites c l := sim_set 1 0 c (cs_on_ciphersuites (λ _, Some l));
  SSL_CTX_set1_groups c g := sim_set 1 0 c (cs_on_groups (λ _, Some g)) |}.

(** Toy encodings: a certificate is [30 b], a private key [31 b], and a PEM text
    is the concatenation of such blocks. *)
Definition toy_obj (tag : byte) (n : nat) : list byte := [tag; u8 (Z.of_nat n)].

Definition toy_next (tag : byte) (text : list byte) : option (nat * list byte) :=
  match text with
  | t :: b :: rest =>
      if bool_decide (t = tag) then Some (Z.to_nat (byte_Z b), rest) else None
  | _ => None
  end.

Definition sim_pem_x509 (b : nat) : Sim → option nat * Sim := λ w,
  let text := default [] (g_bio (w_ghost w) !! b) in
  match toy_next x30 text with
  | Some (x, rest) =>
      (Some x, with_ghost (λ g, g_on_bio <[b := rest]> (g_take (OX509 x) g)) w)
  | None =>
      (None, with_errs (λ q, q ++ [if is_empty text then Z.shiftl 9 24 + 110 else Z.shiftl 9 24 + 100])
               (with_ghost (g_on_bio <[b := text]>) w))
  end.

Definition sim_d2i (tag : byte) (obj : nat → Obj) (der : list byte) : Sim → (option nat * Z) * Sim :=
  λ w, match toy_next tag der with
       | Some (x, rest) => ((Some x, 2), with_ghost (g_take (obj x)) w)
       | None => ((None, 0), with_errs (λ q, q ++ [Z.shiftl 11 24 + 1]) w)
       end.

#[export] Instance sim_crypto : LibCrypto Sim := {|
  SSL_CTX_new server :=
    attempt None (λ w,
      let c := w_next w in
      if decide ((OCtx c ∉ g_refs (w_ghost w)) ∧ map_Forall (λ _ s, ss_ctx s ≠ c) (g_ssl (w_ghost w)))
      then (Some c, with_ghost (λ g, g_on_ctx <[c := ctx0 server]> (g_take (OCtx c) g)) w)
      else (None, w));
  SSL_CTX_free c w :=
    (if decide (sole_owner c (w_ghost w))
     then [(g_ctx (w_ghost w) !! c) ≫= (λ s, snd <$> cs_ex_data s)] else [],
     with_ghost (g_drop (OCtx c)) w);
  BIO_new_mem_buf text :=
    attempt None (λ w, (Some (w_next w),
                        with_ghost (λ g, g_on_bio <[w_next w := text]> (g_take (OBio (w_next w)) g)) w));
  BIO_free b := with_ghost (g_drop (OBio b));
  PEM_read_bio_X509_AUX := sim_pem_x509;
  PEM_read_bio_X509 := sim_pem_x509;
  PEM_read_bio_PrivateKey b w :=
    let text := default [] (g_bio (w_ghost w) !! b) in
    match toy_next x31 text with
    | Some (k, rest) => (Some k, with_ghost (λ g, g_on_bio <[b := rest]> (g_take (OPkey k) g)) w)
    | None => (None, with_errs (λ q, q ++ [Z.shiftl 9 24 + 100])
                       (with_ghost (g_on_bio <[b := text]>) w))
    end;
  d2i_X509 der _ := sim_d2i x30 OX509 der;
  d2i_AutoPrivateKey der _ := sim_d2i x31 OPkey der;
  X509_free x := with_ghost (g_drop (OX509 x));
  EVP_PKEY_free k := with_ghost (g_drop (OPkey k));
  SSL_CTX_use_certificate c x := sim_set 1 0 c (cs_on_cert (set_leaf (toy_obj x30 x)));
  SSL_CTX_use_PrivateKey c k := sim_set 1 0 c (cs_on_key (λ _, Key (toy_obj x31 k)));
  SSL_CTX_use_certificate_chain_file c path := sim_set 1 0 c (cs_on_cert (λ _, CertFile path));
  SSL_CTX_use_PrivateKey_file c path ty := sim_set 1 0 c (cs_on_key (λ _, KeyFile path ty));
  SSL_CTX_check_private_key c := attempt 0 (λ w, (1, w));
  SSL_CTX_clear_chain_certs c w := (1, with_ghost (g_on_ctx (alter (cs_on_cert clear_chain) c)) w);
  SSL_CTX_add0_chain_cert c x :=
    attempt 0 (λ w, (1, with_ghost (λ g, g_on_ctx (alter (cs_on_cert (push_chain (toy_obj x30 x))) c)
                                           (g_drop (OX509 x) g)) w));
  SSL_CTX_get_cert_store c w := Some c;
  X509_STORE_add_cert c x := sim_set 1 0 c (cs_on_anchors (λ a, a ++ [toy_obj x30 x]));
  SSL_CTX_set_default_verify_paths c := sim_set 1 0 c (cs_on_system_roots (λ _, true));
  SSL_CTX_set_verify c flags := with_ghost (g_on_ctx (alter (cs_on_verify (λ _, flags)) c));
  SSL_CTX_set_min_proto_version c v := sim_set 1 0 c (cs_on_min_version (λ _, v));
  SSL_CTX_set_max_proto_version c v := sim_set 1 0 c (cs_on_max_version (λ _, v));
  SSL_CTX_set_num_tickets c n w := (1, with_ghost (g_on_ctx (alter (cs_on_num_tickets (λ _, n)) c)) w);
  SSL_CTX_set_alpn_protos c wire := sim_set 0 1 c (cs_on_alpn_protos (λ _, Some wire));
  SSL_CTX_get_ex_new_index w := (Z.of_nat (w_next w), with_ghost id w);
  SSL_CTX_set_ex_data c i p := sim_set 1 0 c (cs_on_ex_data (λ _, Some (i, p)));
  SSL_CTX_get_ex_data c i w :=
    match g_ctx (w_ghost w) !! c with
    | Some s => match cs_ex_data s with
                | Some (j, p) => if i =? j then Some p else None
                | None => None
                end
    | None => None
    end;
  SSL_CTX_set_alpn_select_cb c := with_ghost (g_on_ctx (alter (cs_on_alpn_cb (λ _, true)) c)) |}.

Definition sim_ssl_set (s : nat) (f : SslState → SslState) : Sim → Z * Sim :=
  attempt 0 (λ w, (1, with_ghost (g_on_ssl (alter f s)) w)).

(** The name of a socket BIO is its descriptor; the peer presents certificate 9. *)
#[export] Instance sim_conn : LibSslConn Sim := {|
  SSL_new c :=
    attempt None (λ w,
      let s := w_next w in
      if decide ((OSsl s ∉ g_refs (w_ghost w)) ∧ g_ssl (w_ghost w) !! s = None)
      then (Some s, with_ghost (λ g, g_on_ssl <[s := ssl_new_state c]> (g_take (OSsl s) g)) w)
      else (None, w));
  SSL_free s := with_ghost (λ g, g_on_ssl (delete s) (g_drop (OSsl s) g));
  BIO_new_socket fd _ := attempt None (λ w, (Some fd, with_ghost (g_take (OBio fd)) w));
  SSL_set_bio s b _ :=
    with_ghost (λ g, g_on_ssl (alter (ss_set_fd b) s) (g_drop (OBio b) g));
  SSL_set_accept_state s := with_ghost (g_on_ssl (alter (ss_set_accept true) s));
  SSL_set_connect_state s := with_ghost (g_on_ssl (alter (ss_set_accept false) s));
  SSL_set_mode s m := with_ghost (g_on_ssl (alter (ss_or_mode m) s));
  SSL_get0_param s w := Some s;
  X509_VERIFY_PARAM_set1_ip_asc p name := sim_ssl_set p (ss_set_ip name);
  SSL_set_tlsext_host_name s name := sim_ssl_set s (ss_set_sni name);
  SSL_set1_host s name := sim_ssl_set s (ss_set_host name);
  close_fd fd := with_ghost (g_drop (OFd fd));
  SSL_get_peer_certificate := attempt None (λ w, (Some 9%nat, with_ghost (g_take (OX509 9)) w));
  i2d_X509 x out :=
    attempt (-1, []) (λ w, ((2, if out then toy_obj x30 x else []), w)) |}.

#[export] Instance sim_session : SslSession Sim := {|
  SSL_version w := se_version (w_sess w);
  SSL_get_current_cipher w := match se_cipher (w_sess w) with Some _ => Some 0%nat | None => None end;
  SSL_CIPHER_get_protocol_id _ w := default 0 (se_cipher (w_sess w));
  SSL_CIPHER_get_name _ w := Some (bytes_of "CIPHER");
  SSL_get_version w := Some (bytes_of "TLSv1.3");
  SSL_get_servername w := None;
  SSL_get0_alpn_selected w := None;
  SSL_is_server w := if se_server (w_sess w) then 1 else 0;
  SSL_get_write_sequence w := se_seq (w_sess w) true;
  SSL_get_read_sequence w := se_seq (w_sess w) false;
  SSL_get_write_traffic_secret w :=
    let s := se_secret (w_sess w) true in (1, s ++ repeat x00 (48 - length s), len s);
  SSL_get_read_traffic_secret w :=
    let s := se_secret (w_sess w) false in (1, s ++ repeat x00 (48 - length s), len s);
  SSL_generate_key_block n w := (1, se_key_block (w_sess w)) |}.

(** A toy key derivation: any function of the arguments will do. *)
Definition sim_hkdf (n : Z) (md : EvpMd) (secret info : list byte) : list byte :=
  prefix n (secret ++ info ++ repeat x2a (Z.to_nat n)).

#[export] Instance sim_kdf : Kdf Sim := {|
  HKDF_expand n md secret info w := ((1, sim_hkdf n md secret info), w);
  SSL_export_keying_material n label c clen use w := ((1, prefix n label), w) |}.

#[export] Instance sim_kdf_laws : KdfLaws Sim.
Proof. refine {| hkdf := sim_hkdf |}. intros. by simplify_eq/=. Defined.

(** ** The laws *)

Ltac sim_solve :=
  simpl in *; unfold next in *; simpl in *;
  repeat (match goal with
          | H : context [match w_script ?w with _ => _ end] |- _ =>
              let E := fresh "E" in destruct (w_script w) as [|[]] eqn:E
          | |- context [match w_script ?w with _ => _ end] =>
              let E := fresh "E" in destruct (w_script w) as [|[]] eqn:E
          | H : context [match ?x with _ => _ end] |- _ => is_var x; destruct x
          | |- context [match ?x with _ => _ end] => is_var x; destruct x
          end; simpl in * ); simplify_eq/=; try done; try lia.

#[export] Instance sim_err_laws : ErrQueueLaws Sim.
Proof.
  refine {| queue := live_errs |}; intros w; try done.
  - unfold live_errs. apply Forall_forall. by intros c [? _]%list_elem_of_filter.
  - split; [done|]. change (filter (λ c, c ≠ 0) (tail (live_errs w)) = tail (live_errs w)).
    assert (Forall (λ c, c ≠ 0) (tail (live_errs w))) as Hf.
    { unfold live_errs. apply Forall_tail, Forall_forall. by intros c [? _]%list_elem_of_filter. }
    revert Hf. generalize (tail (live_errs w)). intros l.
    induction 1 as [|c l Hc _ IH]; [done|]. by rewrite filter_cons_True, IH.
Defined.

#[export] Instance sim_try_io : TryIoLaws Sim.
Proof.
  refine {| io_ready i w := match i with READABLE => (w_ready w).1 | WRITABLE => (w_ready w).2 end;
            clear_ready i w :=
              with_ready (match i with READABLE => (false, (w_ready w).2)
                                     | WRITABLE => ((w_ready w).1, false) end) w |}.
  intros A i f w. simpl. destruct i; simpl; destruct (w_ready w) as [[] []]; simpl;
    by destruct (f w) as [[[] ?]| |].
Defined.

Lemma sim_attempt {A} (failure : A) good w r :
  attempt failure good w = r →
  (∃ errs script, r = (failure, with_errs (λ q, q ++ errs) (with_script script w))) ∨ r = good w.
Proof.
  unfold attempt, next. destruct (w_script w) as [|[] script]; intros <-; eauto.
Qed.

Lemma sim_set_sets good bad c f w r w' :
  good ≠ bad → sim_set good bad c f w = (r, w') → sets c f (r =? good) (w_ghost w) (w_ghost w').
Proof.
  intros Hne [(errs & script & [= -> ->])|[= -> ->]]%sim_attempt.
  - exists id. destruct (Z.eqb_spec bad good); [done|]. split; [done|].
    destruct w as [? ? ? ? ? ? [? m ? ?]]. unfold g_on_ctx. simpl. f_equal.
    by rewrite alter_id.
  - exists f. by rewrite Z.eqb_refl.
Qed.

#[export] Instance sim_ctx_laws : LibSslCtxLaws Sim.
Proof.
  refine {| ghost := w_ghost |}; intros; try done; try (by eexists).
  all: by eapply (sim_set_sets 1 0).
Defined.

Lemma toy_next_spec tag text x rest :
  toy_next tag text = Some (x, rest) → text = toy_obj tag x ++ rest.
Proof.
  unfold toy_next, toy_obj. destruct text as [|t [|b text]]; [done..|].
  case_bool_decide as E; [|done]. intros [= <- <-]. subst t. pose proof (byte_Z_range b).
  rewrite Z2Nat.id by lia. by rewrite u8_byte_Z.
Qed.

Lemma live_errs_snoc w e :
  e ≠ 0 → last (live_errs (with_errs (λ q, q ++ [e]) w)) = Some e.
Proof.
  intros He. unfold live_errs. simpl. rewrite filter_app, filter_cons_True by done.
  apply last_snoc.
Qed.

Lemma sim_pem_x509_spec b w r w' text :
  sim_pem_x509 b w = (r, w') → g_bio (w_ghost w) !! b = Some text →
  match r with
  | Some x => ∃ rest,
      (λ '(x, rest), (toy_obj x30 x, rest)) <$> toy_next x30 text = Some (toy_obj x30 x, rest) ∧
      (length rest < length text)%nat ∧
      w_ghost w' = g_on_bio <[b := rest]> (g_take (OX509 x) (w_ghost w))
  | None => ∃ rest e,
      w_ghost w' = g_on_bio <[b := rest]> (w_ghost w) ∧ last (live_errs w') = Some e ∧
      (is_no_start_line e → text = [])
  end.
Proof.
  unfold sim_pem_x509. intros E Hb. rewrite Hb in E. cbn [default from_option id] in E.
  destruct (toy_next x30 text) as [[x rest]|] eqn:Ex; injection E as <- <-.
  - exists rest. split_and!; [done| |done]. apply toy_next_spec in Ex as ->. simpl. lia.
  - exists text. eexists. split_and!; [done|by apply live_errs_snoc; destruct text|].
    destruct text; [done|]. by intros [_ ?].
Qed.

Lemma sim_d2i_spec tag obj der w r n w' :
  sim_d2i tag obj der w = ((r, n), w') →
  match r with
  | Some x => 0 ≤ n ≤ len der ∧ toy_obj tag x = prefix n der ∧ w_ghost w' = g_take (obj x) (w_ghost w)
  | None => w_ghost w' = w_ghost w
  end.
Proof.
  unfold sim_d2i. destruct (toy_next tag der) as [[x rest]|] eqn:Ex; intros [= <- <- <-]; [|done].
  apply toy_next_spec in Ex as ->. unfold len. rewrite length_app. split; [simpl; lia|done].
Qed.

#[export] Instance sim_crypto_laws : LibCryptoLaws Sim.
Proof.
  refine {| ctx_init := ctx0; x509_der := toy_obj x30; pkey_der := toy_obj x31;
            pem_cert _ text := (λ '(x, rest), (toy_obj x30 x, rest)) <$> toy_next x30 text;
            pem_key text := toy_obj x31 ∘ fst <$> toy_next x31 text;
            pem_end text := text = []; store_ctx := id |}; intros; try done; try (by eexists).
  all: try (by eapply (sim_set_sets 1 0)).
  all: try (by eapply (sim_set_sets 0 1)).
  all: try (by eapply sim_d2i_spec).
  - apply sim_attempt in H as [(?&?&[= -> ->])|H]; [done|].
    cbv zeta in H. case_decide as Hd; [destruct Hd|]; by simplify_eq.
  - simplify_eq/=. split; [done|]. intros. by rewrite decide_True.
  - by apply sim_attempt in H as [(?&?&[= -> ->])|[= -> ->]].
  - eapply sim_pem_x509_spec; [by destruct aux|done].
  - simpl in H. change (g_bio (w_ghost w) !! b = Some text) in H1. rewrite H1 in H. simpl in H.
    destruct (toy_next x31 text) as [[k rest]|]; simplify_eq/=;
      [by exists rest|by exists text].
  - by apply sim_attempt in H as [(?&?&[= -> ->])|[= -> ->]].
  - simplify_eq/=. by eexists.
  - apply sim_attempt in H as [(?&?&[= -> ->])|[= -> ->]]; simpl; [|by eexists].
    exists id. split; [done|]. destruct w as [? ? ? ? ? ? [? m ? ?]]. unfold g_on_ctx. simpl. f_equal.
    by rewrite alter_id.
  - by simplify_eq/=.
  - subst c. by eapply (sim_set_sets 1 0).
  - simplify_eq/=. by eexists.
  - by simplify_eq/=.
  - apply sim_attempt in H as [(?&?&[= -> ->])|[= -> ->]]; simpl; [done|by eexists].
  - simpl. change (g_ctx (w_ghost w) !! c = Some s) in H. by rewrite H.
Defined.

Lemma sim_ssl_sets s f w r w' :
  sim_ssl_set s f w = (r, w') → ssl_sets s f (r =? 1) (w_ghost w) (w_ghost w').
Proof.
  intros [(?&?&[= -> ->])|[= -> ->]]%sim_attempt; [|by exists f].
  exists id. split; [done|]. destruct w as [? ? ? ? ? ? [? ? ? m]]. unfold g_on_ssl. simpl.
  by rewrite alter_id.
Qed.

#[export] Instance sim_conn_laws : LibSslConnLaws Sim.
Proof.
  refine {| bio_fd := id; param_ssl := id |}; intros; try done; try (by eapply sim_ssl_sets).
  - apply sim_attempt in H as [(?&?&[= -> ->])|H]; [done|].
    cbv zeta in H. case_decide as Hd; [destruct Hd|]; by simplify_eq.
  - by apply sim_attempt in H as [(?&?&[= -> ->])|[= -> ->]].
  - by simplify_eq/=.
  - subst s. by eapply sim_ssl_sets.
Defined.

#[export] Instance sim_peer_cert : PeerCertLaws Sim.
Proof.
  split; intros.
  - by apply sim_attempt in H as [(?&?&[= -> ->])|[= -> ->]].
  - apply sim_attempt in H as [(?&?&[= -> -> ->])|[= -> -> ->]]; (split; [done|]); [by left|].
    right. split; [done|]. by intros ->.
Qed.

#[export] Instance sim_ex_index : ExIndexAllocates Sim.
Proof. split. intros w. simpl. lia. Qed.

#[export] Instance sim_view : NetView Sim.
Proof.
  refine {| view := w_view |}; intros; try done; try (by sim_solve).
  - pose proof (len_nonneg bytes). revert H. sim_solve; intros H; simplify_eq/=; try done.
    all: split; [lia|done].
  - revert H. destruct bytes as [|b bytes]; sim_solve; intros H; simplify_eq/=; try done.
    all: try (match goal with |- context [if ?c then _ else _] => destruct c end; done).
  - simpl in H. unfold next in H. destruct (w_script w) as [|[| |[]| | | | | | |]] eqn:Es; simplify_eq/=; try done.
    destruct (0 <? Z.min cap (len l)) eqn:En; simplify_eq/=; [by rewrite En|done].
Defined.

#[export] Instance sim_ssl_read : SslReadLaws Sim.
Proof.
  split. intros cap w n bs w' H Hc. simpl in H. unfold next in H.
  destruct (w_script w) as [|[| |[]| | | | | | |]]; simplify_eq/=; try lia.
  destruct (0 <? Z.min cap (len l)); simplify_eq/=; lia.
Qed.

(** A call takes at most one event from the script, and exactly one unless it
    behaves as on a stalled connection. *)
Lemma next_script {A} (dflt r : A * Sim) pick w :
  next dflt pick w = r →
  (∀ ev f w, pick ev = Some f → w_script (f w).2 = w_script w) →
  r = dflt ∨ (length (w_script r.2) < length (w_script w))%nat.
Proof.
  intros <- Hp. unfold next. destruct (w_script w) as [|ev s] eqn:E; [auto|].
  destruct (pick ev) eqn:Ep; [|auto]. rewrite (Hp ev) by done. simpl. lia.
Qed.

Lemma next_script_le {A} (dflt : A * Sim) pick w :
  w_script dflt.2 = w_script w →
  (∀ ev f w, pick ev = Some f → w_script (f w).2 = w_script w) →
  (length (w_script (next dflt pick w).2) ≤ length (w_script w))%nat.
Proof.
  intros Hd Hp. destruct (next_script dflt _ pick w eq_refl Hp) as [->|]; [by rewrite Hd|lia].
Qed.

#[export] Instance sim_budget : ReadyBudget Sim.
Proof.
  refine {| budget w := length (w_script w) |}; intros; try done.
  - simpl. destruct bs; [done|]. apply next_script_le; [done|].
    by intros [|[]| | | | | | | |] f w' [= <-].
  - apply next_script_le; [done|].
    intros [| |[]| | | | | | |] f w' [= <-]; [by destruct (0 <? _)|done].
  - apply next_script_le; [done|]. by intros [] f w' [= <-].
  - apply next_script in H as [[= -> ->]|Hl]; [simpl; lia| |].
    + destruct r; [|destruct (is_kind _ _)]; simpl in Hl; lia.
    + by intros [| | | | | | |[]| |] f w0 [= <-].
  - apply next_script in H as [[= -> ->]|Hl]; [simpl; lia| |].
    + destruct r as [[]|]; simpl in Hl; lia.
    + by intros [] f w0 [= <-].
  - apply next_script in H as [[= -> ->]|Hl]; [simpl; lia| |].
    + destruct r as [[]|]; simpl in Hl; lia.
    + by intros [] f w0 [= <-].
Defined.

(** A fresh connection, ready in both directions, with a script. *)
Definition view0 : View :=
  {| v_sent := []; v_blocked := None; v_raw := []; v_rx := []; v_closes := 0; v_woken := [];
     v_opts := []; v_read := []; v_zero := false |}.

Definition session0 : Session :=
  {| se_version := 0x0304; se_cipher := Some 0x1301; se_server := true;
     se_secret := λ _, repeat x0b 32; se_key_block := []; se_seq := λ _, 0; se_pending := 0 |}.

Definition sim0 (script : list Event) : Sim :=
  {| w_view := view0; w_script := script; w_errs := []; w_code := 0; w_errno := 0;
     w_ready := (true, true);
     w_ghost := {| g_refs := {[+ OCtx 0 +]}; g_ctx := {[ 0%nat := ctx0 true ]}; g_bio := ∅;
                   g_ssl := ∅ |};
     w_next := 1;
     w_sess := session0 |}.

(** A record of type [t] as [recvmsg] returns it. *)
Definition recvd (t : byte) (bytes : list byte) : Event :=
  let c0 := {| cmsg_len := 0; cmsg_level := 0; cmsg_type := 0; ctl_payload := [] |} in
  EvRecv {| rr_n := len bytes; rr_bytes := bytes;
            rr_control := ({| cmsg_len := 17; cmsg_level := 282; cmsg_type := 2;
                              ctl_payload := [t] |}, c0);
            rr_controllen := 24; rr_flags := 0x80 |} 0.

#[export] Instance sim_kdf_view : KdfView Sim.
Proof. by split. Qed.

#[export] Instance sim_conn_ghost : ConnGhost Sim.
Proof. split; intros; try done; simpl; unfold next; repeat case_match; by simplify_eq. Qed.

#[export] Instance sim_setup_view : SetupView Sim.
Proof.
  split; intros; try done; simpl; unfold sim_ssl_set, attempt, next;
    repeat case_match; by simplify_eq.
Qed.
