(* ===== verification/Errors.v ===== *)
(** * error.rs: the crate's error type and the AWS-LC error queue *)

From S2P Require Import Prelude Std Env Sim.

Local Open Scope Z_scope.

(** ** The error types *)

Inductive KtlsError : Type :=
| KUnsupported
| IneligibleCipher (tls_version cipher : string)
| BufferedPlaintext (n : Z)
| TlsUlpUnavailable (e : io_error)
| SocketUnattachable (e : io_error)
| CryptoUnavailable (e : io_error)
| SetSockOpt (e : io_error).

Inductive Error : Type :=
| Init (m : string)
| Handshake (m : string)
| Io (e : io_error)
| Ktls (e : KtlsError).

(** [error::Result]. *)
Abbreviation Result A := (result A Error).

Section display.
Context `{Strerror}.

Definition fmt_KtlsError (k : KtlsError) : string :=
  match k with
  | KUnsupported => "kTLS is not supported on this platform"
  | IneligibleCipher tls_version cipher =>
      "negotiated session is not kTLS-eligible (" +:+ tls_version +:+ " / "
        +:+ cipher +:+ ")"
  | BufferedPlaintext n =>
      "libssl has " +:+ pretty n +:+
        " bytes of buffered plaintext; kTLS install would lose them"
  | TlsUlpUnavailable e =>
      "kernel `tls` ULP unavailable (" +:+ io_to_string e +:+
        "); load it with `modprobe tls` or ensure the host kernel was built with CONFIG_TLS"
  | SocketUnattachable e =>
      "kernel rejected TCP_ULP attach on this socket (" +:+ io_to_string e +:+
        "); typically a transient race with TCP teardown"
  | CryptoUnavailable e =>
      "kernel rejected kTLS RX crypto configuration (" +:+ io_to_string e +:+
        "); neither direction is active, so userspace AEAD fallback is safe"
  | SetSockOpt e =>
      "setsockopt failed: " +:+ io_to_string e +:+
        "; kTLS installation is unrecoverable (possibly partially active); close the connection"
  end.

Definition fmt_Error (e : Error) : string :=
  match e with
  | Init m => "tls init: " +:+ m
  | Handshake m => "tls handshake: " +:+ m
  | Io e => "tls io: " +:+ io_to_string e
  | Ktls k => "ktls: " +:+ fmt_KtlsError k
  end.
End display.

(** [std::error::Error::source]: the wrapped error, of one of two types. *)
Definition KtlsError_source (k : KtlsError) : option io_error :=
  match k with
  | SetSockOpt e | TlsUlpUnavailable e | SocketUnattachable e | CryptoUnavailable e => Some e
  | KUnsupported | IneligibleCipher _ _ | BufferedPlaintext _ => None
  end.

Definition Error_source (e : Error) : option (io_error + KtlsError) :=
  match e with
  | Io e => Some (inl e)
  | Ktls k => Some (inr k)
  | Init _ | Handshake _ => None
  end.

(** [impl From<io::Error> for Error]. *)
Definition Error_from_io (e : io_error) : Error := Io e.

(** ** The error queue *)

Section queue_ops.
Context {W : Type} `{AwsLcConsts, ErrQueue W}.

Definition format_and_clear (code : Z) : M W string :=
  let* buf := gets (ERR_error_string_n code 256) in
  do* modify ERR_clear_error ;
  let cstr := default (bytes_of "(malformed error string)") (from_bytes_until_nul buf) in
  mret (from_utf8_lossy cstr).

Definition last_error : M W string :=
  let* code := ext ERR_get_error in
  if code =? 0 then mret "(no error queued)"%string
  else format_and_clear code.

(** The library in the top byte and the reason in the low 12 bits of a packed
    code. *)
Definition err_lib (packed : Z) : Z := Z.land (Z.shiftr packed 24) 0xff.
Definition err_reason (packed : Z) : Z := Z.land packed 0xfff.

Definition pem_eof_or_err (label : string) : M W (Result unit) :=
  let* packed := gets ERR_peek_last_error in
  if packed =? 0 then mret (Ok tt)
  else
    let lib := err_lib packed in
    let reason := err_reason packed in
    if (lib =? ERR_LIB_PEM) && (reason =? PEM_R_NO_START_LINE) then
      do* modify ERR_clear_error ;
      mret (Ok tt)
    else
      let* detail := format_and_clear packed in
      mret (Err (Init (label +:+ ": " +:+ detail))).
End queue_ops.

(** The text of one queue entry, as [format_and_clear] renders it. *)
Definition err_text {W} `{ErrQueue W} (code : Z) (w : W) : string :=
  from_utf8_lossy
    (default (bytes_of "(malformed error string)")
       (from_bytes_until_nul (ERR_error_string_n code 256 w))).

#[global] Arguments format_and_clear : simpl never.
#[global] Arguments err_text : simpl never.
#[global] Arguments err_lib : simpl never.
#[global] Arguments err_reason : simpl never.

(** ** What the queue operations guarantee *)

Section queue_wp.
Context {W : Type} `{ErrQueue W}.

Lemma format_and_clear_done code (w : W) :
  format_and_clear code w = Done (err_text code w, ERR_clear_error w).
Proof. reflexivity. Qed.

(** [last_error] does not panic, whatever the queue holds. *)
Lemma wp_last_error (Q : string → W → Prop) w :
  (∀ text, Q text (ERR_get_error w).2) →
  (∀ text, Q text (ERR_clear_error (ERR_get_error w).2)) → wp last_error Q w.
Proof.
  intros HQ HQ'. unfold last_error. wp_step. wp_step. rewrite H0 in HQ, HQ'.
  wp_step; [by wp_step|]. unfold wp. rewrite format_and_clear_done. apply HQ'.
Qed.
End queue_wp.

Section queue_facts.
Context {W : Type} `{AwsLcConsts, ErrQueueLaws W}.
Implicit Types w : W.

Lemma queue_head_nonzero w : default 0 (head (queue w)) = 0 ↔ queue w = [].
Proof.
  pose proof (queue_nonzero w) as Hz.
  destruct (queue w); simpl; [done|]. apply Forall_cons in Hz as [? _]. naive_solver.
Qed.

Lemma queue_last_nonzero w : default 0 (last (queue w)) = 0 ↔ queue w = [].
Proof.
  pose proof (queue_nonzero w) as Hz.
  destruct (last (queue w)) as [c|] eqn:E.
  - apply last_Some_elem_of in E as Hc. rewrite Forall_forall in Hz. simpl.
    split; [by intros ->; destruct (Hz 0)|]. by intros Hq; rewrite Hq in E.
  - apply last_None in E. naive_solver.
Qed.

Lemma last_error_run w :
  ∃ text w', last_error w = Done (text, w') ∧
    queue w' = [] ∧
    text = match queue w with
           | [] => "(no error queued)"%string
           | c :: _ => err_text c (ERR_get_error w).2
           end.
Proof.
  destruct (ERR_get_error_spec w) as (Hc & Hq).
  unfold last_error, mbind, M_bind, ext.
  destruct (ERR_get_error w) as [c w1]. simpl in *. subst c.
  destruct (queue w) as [|c q] eqn:Eq; simpl in *.
  - eexists _, _. split; [reflexivity|]. by rewrite Hq.
  - assert (c ≠ 0) as Hnz.
    { pose proof (queue_nonzero w) as Hz. rewrite Eq in Hz. by apply Forall_cons in Hz as [? _]. }
    rewrite (proj2 (Z.eqb_neq c 0) Hnz).
    pose proof (ERR_clear_error_spec w1) as Hcl.
    rewrite format_and_clear_done. eexists _, _. split; [done|]. by rewrite Hcl.
Qed.

(** [last_error] always returns, reports the oldest queued error (or the
    sentinel, exactly when nothing was queued) and leaves the queue empty, so
    that no stale entry reaches the next failing call. *)
Theorem last_error_drains w :
  ∃ text w', last_error w = Done (text, w') ∧
    queue w' = [] ∧
    text = match queue w with
           | [] => "(no error queued)"%string
           | c :: _ => err_text c (ERR_get_error w).2
           end.
Proof. apply last_error_run. Qed.

(** After a PEM reader returned null, [pem_eof_or_err] accepts the end of
    the bundle exactly when no error is queued or the newest entry is
    [(ERR_LIB_PEM, PEM_R_NO_START_LINE)]; every other newest entry is returned
    as an error that renders that same entry, and the queue is empty
    afterwards in all cases. *)
Theorem pem_eof_or_err_classifies label w :
  ∃ r w', pem_eof_or_err label w = Done (r, w') ∧ queue w' = [] ∧
    match last (queue w) with
    | None => r = Ok tt
    | Some c =>
        if decide (err_lib c = ERR_LIB_PEM ∧ err_reason c = PEM_R_NO_START_LINE)
        then r = Ok tt
        else r = Err (Init (label +:+ ": " +:+ err_text c w))
    end.
Proof.
  unfold pem_eof_or_err, mbind, M_bind, gets. rewrite ERR_peek_last_error_spec.
  pose proof (ERR_clear_error_spec w) as Hcl.
  destruct (last (queue w)) as [c|] eqn:E; cbn [default from_option id].
  - assert (c ≠ 0) as Hnz.
    { intros ->. pose proof (proj1 (queue_last_nonzero w)) as Hl. rewrite E in Hl.
      by rewrite (Hl eq_refl) in E. }
    rewrite (proj2 (Z.eqb_neq c 0) Hnz).
    destruct (decide _) as [[Hl Hr]|Hn].
    + rewrite Hl, Hr, !Z.eqb_refl. eexists _, _. by split.
    + destruct (_ && _) eqn:Eb.
      { apply andb_prop in Eb as [?%Z.eqb_eq ?%Z.eqb_eq]. naive_solver. }
      rewrite format_and_clear_done. eexists _, _. split; [done|]. by split.
  - apply last_None in E. eexists _, _. split; [reflexivity|]. by split.
Qed.
End queue_facts.

Lemma last_error_drains_witness :
  ∃ text w', last_error (with_errs (λ _, [7; 8]) (sim0 [])) = Done (text, w') ∧ queue w' = [] ∧
    text = "error:"%string.
Proof.
  destruct (last_error_drains (with_errs (λ _, [7; 8]) (sim0 []))) as (text & w' & E & Hq & Ht).
  exists text, w'. split; [exact E|]. split; [exact Hq|]. rewrite Ht. reflexivity.
Defined.

(** A truncated base64 block behind an earlier certificate is not an end of
    bundle. *)
Lemma pem_eof_or_err_classifies_witness :
  ∃ w', pem_eof_or_err "cert" (with_errs (λ _, [Z.shiftl 9 24 + 110; Z.shiftl 9 24 + 100]) (sim0 []))
        = Done (Err (Init "cert: error:"), w') ∧ queue w' = [].
Proof.
  destruct (pem_eof_or_err_classifies "cert"
    (with_errs (λ _, [Z.shiftl 9 24 + 110; Z.shiftl 9 24 + 100]) (sim0 []))) as (r & w' & E & Hq & Hr).
  exists w'. split; [|exact Hq]. rewrite E. f_equal. f_equal. vm_compute in Hr. exact Hr.
Defined.
