(* ===== verification/Ownership.v ===== *)
(** * References, scopes and context setters

    The Rust idioms by which the crate releases AWS-LC objects, and the
    lemmas about the ghost state of [Objects] that the builders and the
    endpoints share. *)

From S2P Require Import Prelude Std Env Objects Sim Errors.

Local Open Scope Z_scope.

(** ** Scopes *)

Section scopes.
Context {S : Type}.

(** A guard that is dropped at the end of its scope, however it is left. *)
Definition guarded {A} (drop : M S unit) (body : M S A) : M S A :=
  let* r := body in
  do* drop ;
  mret r.

(** A value that is moved into the result on success and dropped on an early
    return. *)
Definition or_drop {A E} (drop : M S unit) (body : M S (result A E)) : M S (result A E) :=
  let* r := body in
  match r with
  | Ok a => mret (Ok a)
  | Err e =>
      do* drop ;
      mret (Err e)
  end.
End scopes.

(** [return Err(Error::Init(format!("{label}: {}", last_error())))] *)
Definition init_error {W A} `{ErrQueue W} (label : string) : M W (Result A) :=
  let* detail := last_error in
  mret (Err (Init (label +:+ ": " +:+ detail))).

(** [if ok != good { return Err(..) }] around a setter. *)
Definition setter {W} `{ErrQueue W} (good : Z) (call : W → Z * W) (label : string) :
    M W (Result unit) :=
  let* ok := ext call in
  if negb (ok =? good) then init_error label else mret (Ok tt).

(** ** The ghost state *)

(** A change that leaves the application data of a context alone. *)
Definition keeps_ex (f : CtxState → CtxState) : Prop := ∀ s, cs_ex_data (f s) = cs_ex_data s.

Section sets.
Implicit Types g : Ghost.

Lemma g_on_ctx_comp f1 f2 g : g_on_ctx f1 (g_on_ctx f2 g) = g_on_ctx (f1 ∘ f2) g.
Proof. done. Qed.

Lemma sets_refs c f b g g' :
  sets c f b g g' → g_refs g' = g_refs g ∧ g_bio g' = g_bio g ∧ g_ssl g' = g_ssl g.
Proof. by intros (f' & _ & ->). Qed.

Lemma sets_id c g : sets c id true g g.
Proof.
  exists id. split; [done|]. destruct g as [? m ? ?]. unfold g_on_ctx. simpl. by rewrite alter_id.
Qed.

(** A failure without an effect. *)
Lemma sets_noop c f g : sets c f false g g.
Proof. exists id. split; [done|]. destruct (sets_id c g) as (f' & <- & ?). done. Qed.

Lemma sets_trans c f h b g g1 g2 :
  sets c f true g g1 → sets c h b g1 g2 → (b = true ∨ keeps_ex f) → sets c (h ∘ f) b g g2.
Proof.
  intros (f1 & -> & ->) (h1 & Hh & ->) Hb. exists (h1 ∘ f). split.
  - destruct b; [by subst|]. destruct Hb as [|Hf]; [done|]. intros s. simpl. by rewrite Hh, Hf.
  - unfold g_on_ctx. simpl. f_equal.
    apply map_eq. intros i. rewrite !lookup_alter. destruct (decide (c = i)); [|done].
    rewrite decide_True by done. by destruct (g_ctx g !! c).
Qed.

Lemma sets_ext c f h b g g' : (∀ s, f s = h s) → sets c f b g g' → sets c h b g g'.
Proof.
  intros Hfh (f' & Hf & ->). destruct b; [|by exists f']. subst f'. exists h. split; [done|].
  unfold g_on_ctx. f_equal. by apply alter_ext.
Qed.

Lemma sets_lookup c f g g' s :
  sets c f true g g' → g_ctx g !! c = Some s → g_ctx g' !! c = Some (f s).
Proof. intros (f' & -> & ->) Hs. simpl. by rewrite lookup_alter_eq, Hs. Qed.

Lemma sets_frame c f b g g' c' : sets c f b g g' → c' ≠ c → g_ctx g' !! c' = g_ctx g !! c'.
Proof. intros (f' & _ & ->) Hne. simpl. by rewrite lookup_alter_ne. Qed.
End sets.

Section ghost_wp.
Context {W : Type} `{ErrQueue W, LibSslCtx W, !LibSslCtxLaws W}.

Lemma twp_last_error (Q : string → W → Prop) w :
  (∀ text w', ghost w' = ghost w → Q text w') → twp last_error Q w.
Proof.
  intros HQ. apply twp_wp.
  - unfold last_error, format_and_clear. returns_tac.
  - apply wp_last_error; intros text; apply HQ; by rewrite ?ghost_clear_error, ghost_get_error.
Qed.

Lemma twp_init_error {A} label (Q : Result A → W → Prop) w :
  (∀ m w', ghost w' = ghost w → Q (Err (Init m)) w') → twp (init_error label) Q w.
Proof.
  intros HQ. unfold init_error. twp_step. apply twp_last_error. intros. twp_step. by apply HQ.
Qed.

Lemma twp_setter c f good call label (Q : Result unit → W → Prop) w :
  (∀ r w', call w = (r, w') → sets c f (r =? good) (ghost w) (ghost w')) →
  (∀ r w', sets c f (is_ok r) (ghost w) (ghost w') → Q r w') →
  twp (setter good call label) Q w.
Proof.
  intros Hc HQ. unfold setter. twp_step. twp_step. apply Hc in Hcall.
  destruct (a =? good); simpl.
  - twp_step. by apply HQ.
  - apply twp_init_error. intros m w' Hg. apply HQ. simpl. by rewrite Hg.
Qed.
End ghost_wp.

(** ** Loading into a context

    Like [sets], but what is left in the BIOs is not tracked. *)
Definition loads (c : nat) (f : CtxState → CtxState) (ok : bool) (g g' : Ghost) : Prop :=
  ∃ f' bios, (if ok then f' = f else keeps_ex f') ∧
    g' = g_on_bio (λ _, bios) (g_on_ctx (alter f' c) g).

Lemma g_eta_bio g : g_on_bio (λ _, g_bio g) g = g.
Proof. by destruct g. Qed.

Lemma g_drop_take o g : g_drop o (g_take o g) = g.
Proof.
  destruct g as [m ? ? ?]. unfold g_drop, g_take, g_on_refs. simpl. f_equal. multiset_solver.
Qed.

Lemma g_take_elem o g : o ∈ g_refs (g_take o g).
Proof. simpl. multiset_solver. Qed.

Lemma g_take_elem_of o o' g : o ∈ g_refs g → o ∈ g_refs (g_take o' g).
Proof. simpl. multiset_solver. Qed.

Create HintDb ghost.
#[export] Hint Resolve g_take_elem g_take_elem_of : ghost.

Section loads.
Implicit Types g : Ghost.

Lemma sets_loads c f b g g' : sets c f b g g' → loads c f b g g'.
Proof. intros (f' & Hf & ->). exists f', (g_bio g). split; [done|]. by destruct g. Qed.

Lemma loads_refs c f b g g' : loads c f b g g' → g_refs g' = g_refs g ∧ g_ssl g' = g_ssl g.
Proof. by intros (f' & bios & _ & ->). Qed.

Lemma loads_elem c f b g g' o : loads c f b g g' → o ∈ g_refs g → o ∈ g_refs g'.
Proof. by intros [-> _]%loads_refs. Qed.

Lemma loads_id c g : loads c id true g g.
Proof. apply sets_loads, sets_id. Qed.

(** An operation that failed without an effect. *)
Lemma loads_err c f g bios : loads c f false g (g_on_bio (λ _, bios) g).
Proof.
  exists id, bios. split; [done|]. destruct g as [? m ? ?]. unfold g_on_ctx, g_on_bio. simpl.
  by rewrite alter_id.
Qed.

Lemma loads_trans c f h b g g1 g2 :
  loads c f true g g1 → loads c h b g1 g2 → (b = true ∨ keeps_ex f) → loads c (h ∘ f) b g g2.
Proof.
  intros (f1 & bios & -> & ->) (h1 & bios2 & Hh & ->) Hb.
  assert (sets c (h ∘ f) b g (g_on_ctx (alter h1 c) (g_on_ctx (alter f c) g))) as (f' & Hf' & Heq).
  { eapply sets_trans; [by exists f|by exists h1|done]. }
  exists f', bios2. split; [done|]. by rewrite <- Heq.
Qed.

Lemma loads_ext c f h b g g' : (∀ s, f s = h s) → loads c f b g g' → loads c h b g g'.
Proof.
  intros Hfh (f' & bios & Hf & ->). destruct b; [|by exists f', bios]. subst f'.
  exists h, bios. split; [done|]. unfold g_on_ctx. simpl. do 2 f_equal. by apply alter_ext.
Qed.

(** A reference that the operation takes over and releases again. *)
Lemma loads_drop c f b o g g' : loads c f b (g_take o g) g' → loads c f b g (g_drop o g').
Proof.
  intros (f' & bios & Hf & ->). exists f', bios. split; [done|].
  change (g_on_bio (λ _, bios) (g_on_ctx (alter f' c) (g_drop o (g_take o g)))
          = g_on_bio (λ _, bios) (g_on_ctx (alter f' c) g)).
  by rewrite g_drop_take.
Qed.

Lemma sets_drop c f b o g g' : sets c f b (g_take o g) g' → sets c f b g (g_drop o g').
Proof.
  intros (f' & Hf & ->). exists f'. split; [done|].
  change (g_on_ctx (alter f' c) (g_drop o (g_take o g)) = g_on_ctx (alter f' c) g).
  by rewrite g_drop_take.
Qed.

Lemma sets_elem c f b g g' o : sets c f b g g' → o ∈ g_refs g → o ∈ g_refs g'.
Proof. by intros [-> _]%sets_refs. Qed.

(** A failed step after a successful one. *)
Lemma sets_fail c f h b g g' : sets c f b g g' → b = false → sets c h false g g'.
Proof. intros (f' & Hf & ->) ->. by exists f'. Qed.

Lemma loads_fail c f h b g g' : loads c f b g g' → b = false → loads c h false g g'.
Proof. intros (f' & bios & Hf & ->) ->. by exists f', bios. Qed.

Lemma loads_bio c f b g g' bios : loads c f b (g_on_bio bios g) g' → loads c f b g g'.
Proof. intros (f' & bios' & Hf & ->). by exists f', bios'. Qed.

Lemma loads_bio_r c f b g g' bios : loads c f b g g' → loads c f b g (g_on_bio bios g').
Proof. intros (f' & bios' & Hf & ->). by exists f', (bios bios'). Qed.

(** A success whose result is then rejected. *)
Lemma loads_noop c f h g g' : loads c f true g g' → keeps_ex f → loads c h false g g'.
Proof. intros (f' & bios & -> & ->) Hf. by exists f, bios. Qed.

Lemma loads_lookup c f g g' s :
  loads c f true g g' → g_ctx g !! c = Some s → g_ctx g' !! c = Some (f s).
Proof. intros (f' & bios & -> & ->) Hs. simpl. by rewrite lookup_alter_eq, Hs. Qed.

Lemma loads_frame c f b g g' c' : loads c f b g g' → c' ≠ c → g_ctx g' !! c' = g_ctx g !! c'.
Proof. intros (f' & bios & _ & ->) Hne. simpl. by rewrite lookup_alter_ne. Qed.

Lemma loads_ex_data c f b g g' s :
  loads c f b g g' → keeps_ex f → g_ctx g !! c = Some s →
  ∃ s', g_ctx g' !! c = Some s' ∧ cs_ex_data s' = cs_ex_data s.
Proof.
  intros (f' & bios & Hf & ->) Hk Hs. simpl. rewrite lookup_alter_eq, Hs. simpl.
  eexists. split; [done|]. destruct b; [by subst|]. by apply Hf.
Qed.
End loads.

(** ** New contexts *)

(** The crate has allocated the context [c] and owns it alone. *)
Definition owns_new (c : nat) (g g' : Ghost) : Prop :=
  g_refs g' = g_refs g ⊎ {[+ OCtx c +]} ∧ g_ssl g' = g_ssl g ∧
  (∀ c', c' ≠ c → g_ctx g' !! c' = g_ctx g !! c') ∧ sole_owner c g'.

Lemma owns_new_elem c g g' : owns_new c g g' → OCtx c ∈ g_refs g'.
Proof. intros [-> _]. multiset_solver. Qed.

Lemma owns_new_loads c f b g g1 g2 : owns_new c g g1 → loads c f b g1 g2 → owns_new c g g2.
Proof.
  intros (Hr & Hs & Hf & Hm & Ho) Hl. destruct (loads_refs _ _ _ _ _ Hl) as [Hr2 Hs2].
  split_and!.
  - by rewrite Hr2.
  - by rewrite Hs2.
  - intros c' Hne. rewrite <- Hf by done. by eapply loads_frame.
  - split; [by rewrite Hr2|by rewrite Hs2].
Qed.

Lemma owns_new_dead c g g' : owns_new c g g' → ¬ ctx_alive c g.
Proof.
  intros (Hr & Hs & _ & Hm & Hf) [Hc|(s & st & Hst & He)].
  - rewrite Hr, multiplicity_disj_union, multiplicity_singleton_eq in Hm.
    rewrite elem_of_multiplicity in Hc. lia.
  - rewrite Hs in Hf. by apply (Hf s st).
Qed.

Lemma owns_new_drop c g g' : owns_new c g g' → g_refs (g_drop (OCtx c) g') = g_refs g.
Proof. intros [Hr _]. simpl. rewrite Hr. multiset_solver. Qed.
