(* ===== verification/Alpn.v ===== *)
(** * config/mod.rs: protocol versions and the ALPN wire format, and the
    server's ALPN selection callback of config/server.rs *)

From S2P Require Import Prelude Std Env.

Local Open Scope Z_scope.

(** ** [ProtocolVersion] *)

Inductive ProtocolVersion : Type := Tls12 | Tls13.

#[export] Instance ProtocolVersion_eq_dec : EqDecision ProtocolVersion.
Proof. solve_decision. Defined.

(** [ProtocolVersion::raw]; [None] is the panic of [expect]. *)
Definition ProtocolVersion_raw `{AwsLcConsts} (v : ProtocolVersion) : option Z :=
  try_from_max u16_max
    (match v with Tls12 => TLS1_2_VERSION | Tls13 => TLS1_3_VERSION end).

(** ** The wire format: [<len><bytes>] repeated *)

Inductive AlpnEncodeError : Type := Empty | TooLong.

Definition fmt_AlpnEncodeError (e : AlpnEncodeError) : string :=
  match e with
  | Empty => "ALPN protocol identifier must be non-empty"
  | TooLong => "ALPN protocol identifier exceeds 255 bytes"
  end.

(** The loop of [encode_alpn_wire], with the bytes written so far. *)
Fixpoint encode_alpn_loop (out : list byte) (protos : list (list byte)) :
    result (list byte) AlpnEncodeError :=
  match protos with
  | [] => Ok out
  | p :: protos' =>
      if is_empty p then Err Empty
      else
        match try_from_max u8_max (len p) with
        | None => Err TooLong
        | Some n => encode_alpn_loop (out ++ [u8 n] ++ p) protos'
        end
  end.

Definition encode_alpn_wire (protos : list (list byte)) :
    result (list byte) AlpnEncodeError := encode_alpn_loop [] protos.

(** One call of the iterator's closure: the item and the buffer it leaves. *)
Definition alpn_next (buf : list byte) : option (list byte * list byte) :=
  match buf with
  | [] => None
  | b :: tl =>
      let n := byte_Z b in
      if len buf <? 1 + n then None
      else Some (take (Z.to_nat n) tl, drop (Z.to_nat n) tl)
  end.

Fixpoint iter_alpn_fuel (fuel : nat) (buf : list byte) : list (list byte) :=
  match fuel with
  | O => []
  | S fuel' =>
      match alpn_next buf with
      | None => []
      | Some (proto, rest) => proto :: iter_alpn_fuel fuel' rest
      end
  end.

(** The items [iter_alpn_wire] yields.  Every item takes its length byte out of
    the buffer, so the buffer's length bounds their number. *)
Definition iter_alpn_wire (buf : list byte) : list (list byte) :=
  iter_alpn_fuel (length buf) buf.

(** ** The selection callback

    [ctx] is what [SSL_get_SSL_CTX] returns and [ex_data] what
    [SSL_CTX_get_ex_data] returns for the ALPN slot ([None] is null).  The
    result is the return code and, on success, the bytes [*out] points at with
    the value stored in [*out_len]. *)
Section select.
Context `{AwsLcConsts} {Ctx : Type}.

Definition alpn_match (server_proto : list byte) (client : list (list byte)) : bool :=
  existsb (λ client_proto, bool_decide (server_proto = client_proto)) client.

Fixpoint alpn_select_loop (server client : list (list byte)) :
    Z * option (list byte * byte) :=
  match server with
  | [] => (SSL_TLSEXT_ERR_ALERT_FATAL, None)
  | server_proto :: server' =>
      if alpn_match server_proto client
      then (SSL_TLSEXT_ERR_OK, Some (server_proto, u8 (len server_proto)))
      else alpn_select_loop server' client
  end.

Definition alpn_select_cb (ctx : option Ctx) (ex_data : Ctx → option (list byte))
    (client_wire : list byte) : Z * option (list byte * byte) :=
  match ctx with
  | None => (SSL_TLSEXT_ERR_ALERT_FATAL, None)
  | Some ctx =>
      match ex_data ctx with
      | None => (SSL_TLSEXT_ERR_ALERT_FATAL, None)
      | Some server_wire =>
          alpn_select_loop (iter_alpn_wire server_wire) (iter_alpn_wire client_wire)
      end
  end.
End select.

(** ** Facts about the wire format *)

(** The encoding of one protocol, and when it is valid. *)
Definition enc1 (p : list byte) : list byte := u8 (len p) :: p.
Definition alpn_valid (p : list byte) : Prop := 1 ≤ len p ≤ 255.

#[export] Instance alpn_valid_dec p : Decision (alpn_valid p).
Proof. unfold alpn_valid. apply _. Defined.

Lemma alpn_next_enc1 p rest :
  len p ≤ 255 → alpn_next (enc1 p ++ rest) = Some (p, rest).
Proof.
  intros Hp. pose proof (len_nonneg p). unfold alpn_next, enc1. simpl.
  rewrite byte_Z_u8, Z.mod_small by lia.
  destruct (Z.ltb_spec (len (u8 (len p) :: p ++ rest)) (1 + len p)) as [Hlt|_].
  { unfold len in Hlt. simpl in Hlt. rewrite length_app in Hlt. lia. }
  unfold len. rewrite Nat2Z.id, take_app_length, drop_app_length. done.
Qed.

Lemma alpn_next_shape buf p rest :
  alpn_next buf = Some (p, rest) → buf = enc1 p ++ rest ∧ len p ≤ 255.
Proof.
  unfold alpn_next. destruct buf as [|b tl]; [done|].
  destruct (Z.ltb_spec (len (b :: tl)) (1 + byte_Z b)) as [|Hge]; [done|].
  intros [= <- <-]. pose proof (byte_Z_range b).
  assert (len (take (Z.to_nat (byte_Z b)) tl) = byte_Z b) as Hl.
  { unfold len in *. rewrite length_take. simpl in Hge. lia. }
  unfold enc1. rewrite Hl, u8_byte_Z. simpl. rewrite take_drop. split; [done|lia].
Qed.

Lemma alpn_next_shorter buf p rest :
  alpn_next buf = Some (p, rest) → (length rest < length buf)%nat.
Proof. intros [-> _]%alpn_next_shape. unfold enc1. simpl. rewrite length_app. lia. Qed.

Lemma iter_alpn_fuel_enough n m buf :
  (length buf ≤ n)%nat → (length buf ≤ m)%nat → iter_alpn_fuel n buf = iter_alpn_fuel m buf.
Proof.
  revert m buf. induction n as [|n IH]; intros m buf Hn Hm.
  - destruct buf; simpl in Hn; [|lia]. by destruct m.
  - destruct m as [|m]; [destruct buf; simpl in *; [done|lia]|].
    simpl. destruct (alpn_next buf) as [[p rest]|] eqn:E; [|done].
    apply alpn_next_shorter in E. f_equal. apply IH; lia.
Qed.

(** The iterator's defining equation. *)
Lemma iter_alpn_wire_unfold buf :
  iter_alpn_wire buf =
    match alpn_next buf with
    | None => []
    | Some (p, rest) => p :: iter_alpn_wire rest
    end.
Proof.
  unfold iter_alpn_wire. destruct buf as [|b tl]; [done|].
  change (length (b :: tl)) with (S (length tl)). cbn [iter_alpn_fuel].
  destruct (alpn_next (b :: tl)) as [[p rest]|] eqn:E; [|done].
  apply alpn_next_shorter in E. simpl in E. f_equal. apply iter_alpn_fuel_enough; lia.
Qed.

Lemma iter_alpn_wire_app protos rest :
  Forall (λ p, len p ≤ 255) protos →
  iter_alpn_wire (concat (enc1 <$> protos) ++ rest) = protos ++ iter_alpn_wire rest.
Proof.
  induction 1 as [|p protos Hp _ IH]; [done|].
  rewrite fmap_cons, iter_alpn_wire_unfold. cbn [concat]. rewrite <- app_assoc.
  rewrite alpn_next_enc1 by done. by rewrite IH.
Qed.

Lemma encode_alpn_loop_ok out protos :
  Forall alpn_valid protos → encode_alpn_loop out protos = Ok (out ++ concat (enc1 <$> protos)).
Proof.
  intros Hv. revert out. induction Hv as [|p protos [Hp1 Hp2] _ IH]; intros out; simpl.
  - by rewrite app_nil_r.
  - destruct p as [|b p]; [by unfold len in Hp1|]. unfold try_from_max, u8_max. cbn [is_empty].
    destruct (Z.leb_spec (len (b :: p)) 255); [|lia].
    rewrite IH. unfold enc1. by rewrite <- !app_assoc.
Qed.

Lemma encode_alpn_loop_err out protos pre p suf :
  protos = pre ++ p :: suf → Forall alpn_valid pre → ¬ alpn_valid p →
  encode_alpn_loop out protos = Err (if is_empty p then Empty else TooLong).
Proof.
  intros -> Hv Hp. revert out. induction Hv as [|q pre [Hq1 Hq2] _ IH]; intros out; simpl.
  - destruct p as [|b p]; [done|]. unfold try_from_max, u8_max. cbn [is_empty].
    destruct (Z.leb_spec (len (b :: p)) 255); [|done].
    destruct Hp. split; [unfold len; simpl; lia|done].
  - destruct q as [|b q]; [by unfold len in Hq1|]. unfold try_from_max, u8_max. cbn [is_empty].
    destruct (Z.leb_spec (len (b :: q)) 255); [|lia]. by rewrite IH.
Qed.

(** The first invalid protocol of a list, if there is one. *)
Lemma alpn_valid_split protos :
  Forall alpn_valid protos ∨
  ∃ pre p suf, protos = pre ++ p :: suf ∧ Forall alpn_valid pre ∧ ¬ alpn_valid p.
Proof.
  induction protos as [|p protos IH]; [by left|].
  destruct (decide (alpn_valid p)) as [Hp|Hp]; [|by right; exists [], p, protos].
  destruct IH as [?|(pre&q&suf&->&?&?)]; [by left; constructor|].
  right. exists (p :: pre), q, suf. split; [done|]. by split; [constructor|].
Qed.

(** ** Properties *)

Lemma iter_alpn_wire_encoded_app protos wire rest :
  encode_alpn_wire protos = Ok wire →
  iter_alpn_wire (wire ++ rest) = protos ++ iter_alpn_wire rest.
Proof.
  intros Henc. destruct (alpn_valid_split protos) as [Hv|(pre&p&suf&Hs&Hv&Hp)].
  - unfold encode_alpn_wire in Henc. rewrite encode_alpn_loop_ok in Henc by done.
    injection Henc as <-. apply iter_alpn_wire_app.
    eapply Forall_impl; [exact Hv|]. by intros ? [].
  - unfold encode_alpn_wire in Henc. by erewrite encode_alpn_loop_err in Henc by done.
Qed.

Lemma iter_alpn_wire_encoded protos wire :
  encode_alpn_wire protos = Ok wire → iter_alpn_wire wire = protos.
Proof.
  intros Henc. rewrite <- (app_nil_r wire). rewrite (iter_alpn_wire_encoded_app _ _ _ Henc).
  apply app_nil_r.
Qed.

(** C39. ALPN round trip: whatever [encode_alpn_wire] accepts, the iterator
    decodes to the same list of protocols, also when other bytes follow the
    encoding in the buffer. *)
Theorem alpn_roundtrip protos wire rest :
  encode_alpn_wire protos = Ok wire →
  iter_alpn_wire (wire ++ rest) = protos ++ iter_alpn_wire rest.
Proof. apply iter_alpn_wire_encoded_app. Qed.

Lemma alpn_roundtrip_witness :
  iter_alpn_wire ((x02 :: bytes_of "h2" ++ x08 :: bytes_of "http/1.1") ++ [x05; x61])
  = [bytes_of "h2"; bytes_of "http/1.1"] ++ iter_alpn_wire [x05; x61].
Proof.
  apply (alpn_roundtrip [bytes_of "h2"; bytes_of "http/1.1"]). vm_compute. reflexivity.
Defined.

(** [encode_alpn_wire] accepts a list exactly when every protocol has
    between 1 and 255 bytes; otherwise the error is that of the first protocol
    that violates the bound, [Empty] or [TooLong]. *)
Theorem encode_alpn_wire_total protos :
  match encode_alpn_wire protos with
  | Ok wire => Forall alpn_valid protos ∧ wire = concat (enc1 <$> protos)
  | Err e => ∃ pre p suf, protos = pre ++ p :: suf ∧ Forall alpn_valid pre ∧
      match e with Empty => p = [] | TooLong => 255 < len p end
  end.
Proof.
  unfold encode_alpn_wire. destruct (alpn_valid_split protos) as [Hv|(pre&p&suf&Hs&Hv&Hp)].
  - by rewrite encode_alpn_loop_ok.
  - erewrite encode_alpn_loop_err by done. destruct p as [|b p]; simpl.
    + by eexists _, _, _.
    + eexists _, _, _. split_and!; [done|done|]. unfold alpn_valid in Hp.
      assert (1 ≤ len (b :: p)) by (unfold len; simpl; lia). lia.
Qed.

Lemma iter_alpn_wire_split buf :
  ∃ rest, buf = concat (enc1 <$> iter_alpn_wire buf) ++ rest ∧
    alpn_next rest = None ∧ Forall (λ p, len p ≤ 255) (iter_alpn_wire buf).
Proof.
  remember (length buf) as n eqn:En. revert buf En.
  induction n as [n IH] using lt_wf_ind. intros buf ->.
  rewrite iter_alpn_wire_unfold. destruct (alpn_next buf) as [[p tl]|] eqn:E.
  - destruct (IH (length tl)) with (buf := tl) as (rest & Htl & Hn & Hb);
      [by eapply alpn_next_shorter|done|].
    apply alpn_next_shape in E as [-> Hp]. exists rest. split_and!; [|done|by constructor].
    rewrite fmap_cons. cbn [concat]. rewrite <- app_assoc. by rewrite <- Htl.
  - exists buf. by split_and!.
Qed.


Lemma alpn_select_loop_find `{AwsLcConsts} (server client : list (list byte)) :
  alpn_select_loop server client =
    match list_find (λ p, p ∈ client) server with
    | Some (_, p) => (SSL_TLSEXT_ERR_OK, Some (p, u8 (len p)))
    | None => (SSL_TLSEXT_ERR_ALERT_FATAL, None)
    end.
Proof.
  induction server as [|p server IH]; [done|].
  cbn [alpn_select_loop list_find]. rewrite IH. clear IH.
  destruct (alpn_match p client) eqn:E; unfold alpn_match in E.
  - apply existsb_exists in E as (q & Hq & ->%bool_decide_eq_true).
    apply list_elem_of_In in Hq. by rewrite decide_True.
  - rewrite decide_False.
    + by destruct (list_find _ server) as [[]|].
    + intros Hp%list_elem_of_In. apply not_true_iff_false in E. destruct E.
      apply existsb_exists. exists p. by rewrite bool_decide_eq_true.
Qed.

(** The selection callback implements server preference: with a configured
    list it selects the first protocol of the server's list that the client
    also offers; with no overlap (or no context or list) it returns the fatal
    alert and writes nothing.  The length it stores next to a selected protocol
    is the protocol's length: the [as u8] cast loses nothing. *)
Theorem alpn_select_server_preference `{AwsLcConsts} {Ctx} (ctx : option Ctx) ex_data client :
  alpn_select_cb ctx ex_data client =
    match ctx ≫= ex_data with
    | None => (SSL_TLSEXT_ERR_ALERT_FATAL, None)
    | Some server =>
        match list_find (λ p, p ∈ iter_alpn_wire client) (iter_alpn_wire server) with
        | Some (_, p) => (SSL_TLSEXT_ERR_OK, Some (p, u8 (len p)))
        | None => (SSL_TLSEXT_ERR_ALERT_FATAL, None)
        end
    end ∧
  if (alpn_select_cb ctx ex_data client).2 is Some (p, n) then byte_Z n = len p else True.
Proof.
  unfold alpn_select_cb. destruct ctx as [ctx|]; [|done]. simpl.
  destruct (ex_data ctx) as [server|]; [|done]. rewrite alpn_select_loop_find.
  split; [done|].
  destruct (list_find _ (iter_alpn_wire server)) as [[i p]|] eqn:E; [|done].
  simpl. apply list_find_Some in E as (Hp & _ & _).
  destruct (iter_alpn_wire_split server) as (_ & _ & _ & Hb).
  rewrite Forall_lookup in Hb. apply Hb in Hp. pose proof (len_nonneg p).
  rewrite byte_Z_u8, Z.mod_small; lia.
Qed.
