(* ===== verification/Suites.v ===== *)
(** * config/cipher_suite.rs, config/named_group.rs and ktls/cipher.rs

    The typed cipher-suite and named-group constants, their application to an
    [SSL_CTX], and the identification of the suites the kernel can offload. *)

From S2P Require Import Prelude Std Env Objects Sim Errors Ownership Alpn.

Local Open Scope Z_scope.

(** ** Cipher suites *)

Record CipherSuite : Type := {
  iana_name : string;
  openssl_name : string;
  iana_id : Z;
  version : ProtocolVersion;
}.

Definition TLS13_AES_128_GCM_SHA256 : CipherSuite := {|
  iana_name := "TLS_AES_128_GCM_SHA256"; openssl_name := "TLS_AES_128_GCM_SHA256";
  iana_id := 0x1301; version := Tls13 |}.

Definition TLS13_AES_256_GCM_SHA384 : CipherSuite := {|
  iana_name := "TLS_AES_256_GCM_SHA384"; openssl_name := "TLS_AES_256_GCM_SHA384";
  iana_id := 0x1302; version := Tls13 |}.

Definition TLS13_CHACHA20_POLY1305_SHA256 : CipherSuite := {|
  iana_name := "TLS_CHACHA20_POLY1305_SHA256"; openssl_name := "TLS_CHACHA20_POLY1305_SHA256";
  iana_id := 0x1303; version := Tls13 |}.

Definition TLS_ECDHE_ECDSA_WITH_AES_128_GCM_SHA256 : CipherSuite := {|
  iana_name := "TLS_ECDHE_ECDSA_WITH_AES_128_GCM_SHA256";
  openssl_name := "ECDHE-ECDSA-AES128-GCM-SHA256"; iana_id := 0xC02B; version := Tls12 |}.

Definition TLS_ECDHE_ECDSA_WITH_AES_256_GCM_SHA384 : CipherSuite := {|
  iana_name := "TLS_ECDHE_ECDSA_WITH_AES_256_GCM_SHA384";
  openssl_name := "ECDHE-ECDSA-AES256-GCM-SHA384"; iana_id := 0xC02C; version := Tls12 |}.

Definition TLS_ECDHE_ECDSA_WITH_CHACHA20_POLY1305_SHA256 : CipherSuite := {|
  iana_name := "TLS_ECDHE_ECDSA_WITH_CHACHA20_POLY1305_SHA256";
  openssl_name := "ECDHE-ECDSA-CHACHA20-POLY1305"; iana_id := 0xCCA9; version := Tls12 |}.

Definition TLS_ECDHE_RSA_WITH_AES_128_GCM_SHA256 : CipherSuite := {|
  iana_name := "TLS_ECDHE_RSA_WITH_AES_128_GCM_SHA256";
  openssl_name := "ECDHE-RSA-AES128-GCM-SHA256"; iana_id := 0xC02F; version := Tls12 |}.

Definition TLS_ECDHE_RSA_WITH_AES_256_GCM_SHA384 : CipherSuite := {|
  iana_name := "TLS_ECDHE_RSA_WITH_AES_256_GCM_SHA384";
  openssl_name := "ECDHE-RSA-AES256-GCM-SHA384"; iana_id := 0xC030; version := Tls12 |}.

Definition TLS_ECDHE_RSA_WITH_CHACHA20_POLY1305_SHA256 : CipherSuite := {|
  iana_name := "TLS_ECDHE_RSA_WITH_CHACHA20_POLY1305_SHA256";
  openssl_name := "ECDHE-RSA-CHACHA20-POLY1305"; iana_id := 0xCCA8; version := Tls12 |}.

Definition ALL_CIPHER_SUITES : list CipherSuite := [
  TLS13_AES_128_GCM_SHA256;
  TLS13_AES_256_GCM_SHA384;
  TLS13_CHACHA20_POLY1305_SHA256;
  TLS_ECDHE_ECDSA_WITH_AES_128_GCM_SHA256;
  TLS_ECDHE_ECDSA_WITH_AES_256_GCM_SHA384;
  TLS_ECDHE_ECDSA_WITH_CHACHA20_POLY1305_SHA256;
  TLS_ECDHE_RSA_WITH_AES_128_GCM_SHA256;
  TLS_ECDHE_RSA_WITH_AES_256_GCM_SHA384;
  TLS_ECDHE_RSA_WITH_CHACHA20_POLY1305_SHA256 ].

Definition DEFAULT_CIPHER_SUITES : list CipherSuite := ALL_CIPHER_SUITES.

#[export] Instance CipherSuite_eq_dec : EqDecision CipherSuite.
Proof. solve_decision. Defined.

(** [String::is_empty] *)
Definition str_is_empty (s : string) : bool :=
  match s with EmptyString => true | _ => false end.

(** [if !target.is_empty() { target.push(':') }; target.push_str(name)] *)
Definition push_name (target name : string) : string :=
  if str_is_empty target then target +:+ name else target +:+ ":" +:+ name.

Fixpoint split_loop (tls12 tls13 : string) (suites : list CipherSuite) : string * string :=
  match suites with
  | [] => (tls12, tls13)
  | s :: suites' =>
      match version s with
      | Tls12 => split_loop (push_name tls12 (openssl_name s)) tls13 suites'
      | Tls13 => split_loop tls12 (push_name tls13 (openssl_name s)) suites'
      end
  end.

Definition split_for_aws_lc (suites : list CipherSuite) : option string * option string :=
  let '(tls12, tls13) := split_loop "" "" suites in
  (if str_is_empty tls12 then None else Some tls12,
   if str_is_empty tls13 then None else Some tls13).

Section apply_suites.
Context {W : Type} `{AwsLcConsts, ErrQueue W, LibSslCtx W}.

(** [if let Some(list) = ... { CString::new(list).expect(..); call(ctx, list) }] *)
Definition set_list (call : list byte → W → Z * W) (name : string)
    (list : option string) : M W (Result unit) :=
  match list with
  | None => mret (Ok tt)
  | Some list =>
      match cstring_new (bytes_of list) with
      | None => panic "cipher-suite names contain no NUL bytes"
      | Some c => setter 1 (call c) name
      end
  end.

Definition apply_suites_to_ctx (ctx : nat) (suites : list CipherSuite) : M W (Result unit) :=
  if is_empty suites then mret (Ok tt)
  else
    let '(tls12, tls13) := split_for_aws_lc suites in
    let disabled_versions := 0 in
    let disabled_versions :=
      match tls12 with
      | Some _ => disabled_versions
      | None => Z.lor disabled_versions SSL_OP_NO_TLSv1_2
      end in
    let disabled_versions :=
      match tls13 with
      | Some _ => disabled_versions
      | None => Z.lor disabled_versions SSL_OP_NO_TLSv1_3
      end in
    if negb ((0 <=? disabled_versions) && (disabled_versions <=? u32_max)) then
      panic "AWS-LC protocol option bits fit in u32"
    else
      do* modify (SSL_CTX_set_options ctx disabled_versions) ;
      let? _ := set_list (SSL_CTX_set_cipher_list ctx) "SSL_CTX_set_cipher_list" tls12 in
      let? _ := set_list (SSL_CTX_set_ciphersuites ctx) "SSL_CTX_set_ciphersuites" tls13 in
      mret (Ok tt).
End apply_suites.

(** ** Named groups *)

Inductive NamedGroup : Type :=
| X25519 | Secp256r1 | Secp384r1 | Secp521r1
| X25519MLKEM768 | SecP256r1MLKEM768 | SecP384r1MLKEM1024.

Definition nid `{AwsLcConsts} (g : NamedGroup) : Z :=
  match g with
  | X25519 => NID_X25519
  | Secp256r1 => NID_X9_62_prime256v1
  | Secp384r1 => NID_secp384r1
  | Secp521r1 => NID_secp521r1
  | X25519MLKEM768 => NID_X25519MLKEM768
  | SecP256r1MLKEM768 => NID_SecP256r1MLKEM768
  | SecP384r1MLKEM1024 => NID_SecP384r1MLKEM1024
  end.

Definition apply_groups_to_ctx {W} `{AwsLcConsts, ErrQueue W, LibSslCtx W}
    (ctx : nat) (groups : list NamedGroup) : M W (Result unit) :=
  if is_empty groups then panic "caller must guard against empty list"
  else
    let nids := nid <$> groups in
    setter 1 (SSL_CTX_set1_groups ctx nids) "SSL_CTX_set1_groups".

(** ** Suites the kernel can offload *)

Inductive KtlsCipher : Type :=
| Tls13Aes128Gcm | Tls13Aes256Gcm | Tls13Chacha20Poly1305
| Tls12Aes128Gcm | Tls12Aes256Gcm | Tls12Chacha20Poly1305.

#[export] Instance KtlsCipher_eq_dec : EqDecision KtlsCipher.
Proof. solve_decision. Defined.

Section ktls_cipher.
Context `{AwsLcConsts}.

Definition from_ids (tls_version cipher_id : Z) : option KtlsCipher :=
  if tls_version =? TLS1_3_VERSION then
    if cipher_id =? 0x1301 then Some Tls13Aes128Gcm
    else if cipher_id =? 0x1302 then Some Tls13Aes256Gcm
    else if cipher_id =? 0x1303 then Some Tls13Chacha20Poly1305
    else None
  else if tls_version =? TLS1_2_VERSION then
    if (cipher_id =? 0xC02B) || (cipher_id =? 0xC02F) then Some Tls12Aes128Gcm
    else if (cipher_id =? 0xC02C) || (cipher_id =? 0xC030) then Some Tls12Aes256Gcm
    else if (cipher_id =? 0xCCA9) || (cipher_id =? 0xCCA8) then Some Tls12Chacha20Poly1305
    else None
  else None.

Definition detect {W} `{SslSession W} (w : W) : option KtlsCipher :=
  let version := SSL_version w in
  match SSL_get_current_cipher w with
  | None => None
  | Some cipher => from_ids version (SSL_CIPHER_get_protocol_id cipher w)
  end.
End ktls_cipher.

(** ** The colon-separated lists *)

(** The cipher-list names of the suites of one version, in order. *)
Definition names_of (v : ProtocolVersion) (suites : list CipherSuite) : list string :=
  openssl_name <$> filter (λ s, version s = v) suites.

Lemma split_loop_fold t12 t13 suites :
  split_loop t12 t13 suites =
    (foldl push_name t12 (names_of Tls12 suites), foldl push_name t13 (names_of Tls13 suites)).
Proof.
  revert t12 t13. induction suites as [|s suites IH]; intros t12 t13; [done|].
  unfold names_of in *. simpl. rewrite !filter_cons.
  destruct (version s) eqn:E; simpl; rewrite IH; done.
Qed.

Lemma str_is_empty_false s : s ≠ "" → str_is_empty s = false.
Proof. by destruct s. Qed.

Lemma push_name_nonempty t n : n ≠ "" → push_name t n ≠ "".
Proof. unfold push_name. destruct t; simpl; [done|]. by destruct n. Qed.

Lemma str_app_assoc (a b c : string) : (a +:+ b) +:+ c = a +:+ (b +:+ c).
Proof.
  induction a as [|x a IH]; [done|].
  change (String x ((a +:+ b) +:+ c) = String x (a +:+ (b +:+ c))). by f_equal.
Qed.

Lemma foldl_push_name_acc acc n names :
  acc ≠ "" → foldl push_name acc (n :: names) = acc +:+ ":" +:+ String.concat ":" (n :: names).
Proof.
  revert acc n. induction names as [|m names IH]; intros acc n Hacc.
  - simpl. unfold push_name. by rewrite str_is_empty_false.
  - change (foldl push_name (push_name acc n) (m :: names)
            = acc +:+ ":" +:+ (n +:+ ":" +:+ String.concat ":" (m :: names))).
    assert (push_name acc n = acc +:+ ":" +:+ n) as Hp
      by (unfold push_name; by rewrite str_is_empty_false).
    rewrite IH; rewrite Hp.
    + by rewrite !str_app_assoc.
    + by destruct acc.
Qed.

Lemma foldl_push_name names :
  Forall (λ n, n ≠ "") names → foldl push_name "" names = String.concat ":" names.
Proof.
  destruct 1 as [|n names Hn _]; [done|]. cbn [foldl].
  change (push_name "" n) with n. destruct names as [|m names]; [done|].
  by rewrite foldl_push_name_acc.
Qed.

Lemma concat_colon_nonempty n names : n ≠ "" → String.concat ":" (n :: names) ≠ "".
Proof. destruct names; simpl; [done|]. by destruct n. Qed.

(** [split_for_aws_lc] on the crate's own suites. *)
Definition joined (names : list string) : option string :=
  match names with [] => None | _ => Some (String.concat ":" names) end.

Lemma joined_spec names :
  Forall (λ n, n ≠ "") names →
  (if str_is_empty (foldl push_name "" names) then None else Some (foldl push_name "" names))
  = joined names.
Proof.
  intros Hn. rewrite foldl_push_name by done. destruct Hn as [|n names Hn _]; [done|].
  by rewrite str_is_empty_false by by apply concat_colon_nonempty.
Qed.

Lemma names_of_Forall (P : string → Prop) v suites :
  suites ⊆ ALL_CIPHER_SUITES → Forall (λ s, P (openssl_name s)) ALL_CIPHER_SUITES →
  Forall P (names_of v suites).
Proof.
  intros Hs Hall. unfold names_of. apply Forall_fmap.
  rewrite Forall_forall in Hall |- *. intros s [_ Hin]%list_elem_of_filter. by apply Hall, Hs.
Qed.

Lemma names_nonempty v suites :
  suites ⊆ ALL_CIPHER_SUITES → Forall (λ n, n ≠ "") (names_of v suites).
Proof. intros Hs. apply names_of_Forall; [done|]. by repeat constructor. Qed.

Lemma split_for_aws_lc_joined suites :
  suites ⊆ ALL_CIPHER_SUITES →
  split_for_aws_lc suites = (joined (names_of Tls12 suites), joined (names_of Tls13 suites)).
Proof.
  intros Hs. unfold split_for_aws_lc. rewrite split_loop_fold.
  by rewrite !joined_spec by by apply names_nonempty.
Qed.

(** The names hold no NUL, so [CString::new] never fails. *)
Definition nul_free (s : string) : bool :=
  negb (existsb (λ b, bool_decide (b = x00)) (bytes_of s)).

Lemma bytes_of_app s t : bytes_of (s +:+ t) = bytes_of s ++ bytes_of t.
Proof.
  unfold String.list_byte_of_string. rewrite <- map_app. f_equal.
  induction s as [|a s IH]; [done|].
  change (a :: String.list_ascii_of_string (s +:+ t)
          = a :: (String.list_ascii_of_string s ++ String.list_ascii_of_string t)).
  by f_equal.
Qed.

Lemma nul_free_app s t : nul_free s = true → nul_free t = true → nul_free (s +:+ t) = true.
Proof.
  unfold nul_free. rewrite bytes_of_app, existsb_app, negb_orb. by intros -> ->.
Qed.

Lemma nul_free_concat names :
  Forall (λ n, nul_free n = true) names → nul_free (String.concat ":" names) = true.
Proof.
  induction 1 as [|n names Hn Hns IH]; [done|].
  destruct names as [|m names]; [done|].
  change (nul_free (n +:+ (":" +:+ String.concat ":" (m :: names))) = true).
  apply nul_free_app; [done|]. by apply nul_free_app.
Qed.

Lemma names_nul_free v suites :
  suites ⊆ ALL_CIPHER_SUITES → Forall (λ n, nul_free n = true) (names_of v suites).
Proof. intros Hs. apply names_of_Forall; [done|]. by repeat constructor. Qed.

Lemma cstring_new_nul_free s : nul_free s = true → cstring_new (bytes_of s) = Some (bytes_of s).
Proof. unfold nul_free, cstring_new. by destruct (existsb _ _). Qed.

(** ** Properties *)

Section suite_facts.
Context {W : Type} `{AwsLcConsts, !AwsLcConstsOk, ErrQueue W, LibSslCtx W, !LibSslCtxLaws W}.

(** The option bits [apply_suites_to_ctx] adds. *)
Definition disabled_mask (suites : list CipherSuite) : Z :=
  Z.lor (if decide (names_of Tls12 suites = []) then SSL_OP_NO_TLSv1_2 else 0)
        (if decide (names_of Tls13 suites = []) then SSL_OP_NO_TLSv1_3 else 0).

(** What a successful application changes in the context. *)
Definition set_opt {A} (o : option A) (old : option A) : option A :=
  match o with Some a => Some a | None => old end.

Definition allowlist (suites : list CipherSuite) (s : CtxState) : CtxState :=
  cs_on_ciphersuites (set_opt (bytes_of <$> joined (names_of Tls13 suites)))
    (cs_on_cipher_list (set_opt (bytes_of <$> joined (names_of Tls12 suites)))
      (cs_on_options (λ o, Z.lor o (disabled_mask suites)) s)).

Lemma twp_set_list c on call name names (Q : Result unit → W → Prop) w :
  Forall (λ n, nul_free n = true) names →
  (∀ s, on None s = s) →
  (∀ l r w', call l w = (r, w') → sets c (on (Some l)) (r =? 1) (ghost w) (ghost w')) →
  (∀ r w', sets c (on (bytes_of <$> joined names)) (is_ok r) (ghost w) (ghost w') → Q r w') →
  twp (set_list call name (joined names)) Q w.
Proof.
  intros Hn Hnone Hc HQ. unfold set_list, joined in *. destruct names as [|n names].
  { apply twp_ret, HQ. simpl. eapply sets_ext; [|apply sets_id]. by intros s; rewrite Hnone. }
  rewrite cstring_new_nul_free by by apply nul_free_concat.
  eapply twp_setter; [by apply Hc|done].
Qed.

Lemma set_opt_None_eta s :
  cs_on_cipher_list (set_opt None) s = s ∧ cs_on_ciphersuites (set_opt None) s = s.
Proof. by destruct s. Qed.

Lemma mask_u32 suites : 0 ≤ disabled_mask suites ≤ u32_max.
Proof.
  pose proof options_u32 as Ho. rewrite !Forall_cons in Ho. destruct Ho as (_ & H12 & H13 & _).
  unfold disabled_mask, u32_max in *.
  assert (∀ a b, 0 ≤ a ≤ 2 ^ 32 - 1 → 0 ≤ b ≤ 2 ^ 32 - 1 → 0 ≤ Z.lor a b ≤ 2 ^ 32 - 1) as Hlor.
  { intros a b Ha Hb. split; [apply Z.lor_nonneg; lia|].
    destruct (decide (Z.lor a b = 0)) as [->|]; [lia|].
    assert (Z.log2 (Z.lor a b) < 32) as Hl; [|apply Z.log2_lt_pow2 in Hl].
    - rewrite Z.log2_lor by lia. apply Z.max_lub_lt.
      + destruct (decide (a = 0)) as [->|]; [done|]. apply Z.log2_lt_pow2; lia.
      + destruct (decide (b = 0)) as [->|]; [done|]. apply Z.log2_lt_pow2; lia.
    - lia.
    - assert (0 ≤ Z.lor a b) by (apply Z.lor_nonneg; lia). lia. }
  apply Hlor; case_decide; lia.
Qed.

Lemma twp_apply_suites ctx suites w :
  suites ≠ [] → suites ⊆ ALL_CIPHER_SUITES → OCtx ctx ∈ g_refs (ghost w) →
  twp (apply_suites_to_ctx ctx suites)
    (λ r w', sets ctx (allowlist suites) (is_ok r) (ghost w) (ghost w')) w.
Proof.
  intros Hne Hs Hc. unfold apply_suites_to_ctx.
  destruct (is_empty suites) eqn:E; [by apply is_empty_true in E|].
  rewrite split_for_aws_lc_joined by done. cbv zeta.
  set (mask := match joined (names_of Tls13 suites) with Some _ => _ | None => _ end).
  assert (mask = disabled_mask suites) as ->.
  { unfold mask, disabled_mask, joined. rewrite !Z.lor_0_l.
    destruct (names_of Tls12 suites), (names_of Tls13 suites); simpl; try done.
    by rewrite Z.lor_0_r. }
  pose proof (mask_u32 suites) as Hm.
  destruct (Z.leb_spec 0 (disabled_mask suites)); [|lia].
  destruct (Z.leb_spec (disabled_mask suites) u32_max); [|lia]. cbn [andb negb].
  do 3 twp_step. pose proof (set_options_spec ctx (disabled_mask suites) w Hc) as Ho.
  destruct (sets_refs _ _ _ _ _ Ho) as (Hr & _).
  apply (twp_set_list ctx (λ l, cs_on_cipher_list (set_opt l)));
    [by apply names_nul_free|by intros; apply set_opt_None_eta| |].
  { intros l r w' Hl. eapply set_cipher_list_spec; [done|]. by rewrite Hr. }
  intros r w1 Hs1. eapply sets_trans in Hs1; [|exact Ho|by right].
  destruct r as [[]|e]; [|twp_step; by destruct Hs1 as (f & Hf & ->); exists f].
  destruct (sets_refs _ _ _ _ _ Hs1) as (Hr1 & _). twp_step.
  apply (twp_set_list ctx (λ l, cs_on_ciphersuites (set_opt l)));
    [by apply names_nul_free|by intros; apply set_opt_None_eta| |].
  { intros l r w' Hl. eapply set_ciphersuites_spec; [done|]. by rewrite Hr1. }
  intros r w2 Hs2. eapply sets_trans in Hs2; [|exact Hs1|by right].
  by destruct r as [[]|e]; twp_step.
Qed.

(** C38. Applying a non-empty list of the crate's suites to a live context always
    returns, and on success the context enforces it as an allowlist for both
    protocol versions: a version with no listed suite is switched off by its
    option bit, the other version gets exactly the colon-joined names in the
    caller's order, every other setting is as before, and so is every other
    context.  An error leaves the application data of the context alone and
    loses no reference. *)
Theorem apply_suites_allowlist ctx suites w :
  suites ≠ [] → suites ⊆ ALL_CIPHER_SUITES → OCtx ctx ∈ g_refs (ghost w) →
  twp (apply_suites_to_ctx ctx suites)
    (λ r w', sets ctx (allowlist suites) (is_ok r) (ghost w) (ghost w')) w.
Proof. apply twp_apply_suites. Qed.

Lemma twp_apply_groups ctx groups w :
  groups ≠ [] → OCtx ctx ∈ g_refs (ghost w) →
  twp (apply_groups_to_ctx ctx groups)
    (λ r w', sets ctx (cs_on_groups (λ _, Some (nid <$> groups))) (is_ok r) (ghost w) (ghost w')) w.
Proof.
  intros Hne Hc. unfold apply_groups_to_ctx. destruct groups as [|g groups]; [done|]. cbn [is_empty].
  eapply twp_setter; [|done]. intros. by eapply set1_groups_spec.
Qed.

(** The suites the kernel offload accepts are exactly the crate's cipher
    suites: a negotiated (version, id) pair is recognised if and only if it is
    that of a suite in [ALL_CIPHER_SUITES]. *)
Theorem from_ids_is_all_suites v id :
  is_Some (from_ids v id) ↔
  ∃ s, s ∈ ALL_CIPHER_SUITES ∧ ProtocolVersion_raw (version s) = Some v ∧ iana_id s = id.
Proof.
  unfold from_ids, ProtocolVersion_raw. rewrite tls1_2_version, tls1_3_version.
  split.
  - destruct (Z.eqb_spec v 0x0304) as [->|]; [|destruct (Z.eqb_spec v 0x0303) as [->|]; [|by intros []]].
    all: repeat match goal with
         | |- context [?a =? ?b] => destruct (Z.eqb_spec a b) as [->|]; simpl
         end; try (by intros []); intros _.
    all: first
      [ by exists TLS13_AES_128_GCM_SHA256; repeat constructor
      | by exists TLS13_AES_256_GCM_SHA384; repeat constructor
      | by exists TLS13_CHACHA20_POLY1305_SHA256; repeat constructor
      | by exists TLS_ECDHE_ECDSA_WITH_AES_128_GCM_SHA256; repeat constructor
      | by exists TLS_ECDHE_ECDSA_WITH_AES_256_GCM_SHA384; repeat constructor
      | by exists TLS_ECDHE_ECDSA_WITH_CHACHA20_POLY1305_SHA256; repeat constructor
      | by exists TLS_ECDHE_RSA_WITH_AES_128_GCM_SHA256; repeat constructor
      | by exists TLS_ECDHE_RSA_WITH_AES_256_GCM_SHA384; repeat constructor
      | by exists TLS_ECDHE_RSA_WITH_CHACHA20_POLY1305_SHA256; repeat constructor ].
  - intros (s & Hs & Hv & <-). apply list_elem_of_In in Hs. cbn [In ALL_CIPHER_SUITES] in Hs.
    destruct_or! Hs; try done; subst s; vm_compute in Hv; injection Hv as <-; eexists; reflexivity.
Qed.
End suite_facts.

(** An allowlist with no TLS 1.2 suite switches TLS 1.2 off. *)
Lemma apply_suites_allowlist_witness :
  twp (apply_suites_to_ctx 0%nat [TLS13_AES_128_GCM_SHA256])
    (λ r w', r = Ok tt ∧ cs_options <$> g_ctx (w_ghost w') !! 0%nat = Some 0x08000000) (sim0 []).
Proof.
  pose proof (apply_suites_allowlist 0%nat [TLS13_AES_128_GCM_SHA256] (sim0 [])) as H.
  apply twp_done in H as (r & w' & E & Hs).
  - apply twp_done. exists r, w'. split; [exact E|]. vm_compute in E. injection E as <- <-.
    split; reflexivity.
  - done.
  - intros s ->%list_elem_of_singleton. by repeat constructor.
  - by apply gmultiset_elem_of_singleton.
Defined.

Lemma from_ids_is_all_suites_witness : is_Some (from_ids 0x0303 0xC02F).
Proof.
  apply from_ids_is_all_suites. exists TLS_ECDHE_RSA_WITH_AES_128_GCM_SHA256.
  by repeat constructor.
Defined.
