(* ===== verification/Loaders.v ===== *)
(** * config/der.rs and the certificate and key loaders

    The DER parsers, and the functions of config/server.rs and config/client.rs
    that read certificates, private keys and trust anchors into a context.
    Server and client have a loader of each kind that differ in the texts of
    their errors; each pair is one definition over those texts. *)

From S2P Require Import Prelude Std Env Objects Sim Errors Ownership.

Local Open Scope Z_scope.

(** ** config/der.rs *)

Section der.
Context {W : Type} `{ErrQueue W, LibCrypto W}.

Definition parse_x509 (der : list byte) : M W (Result nat) :=
  if is_empty der then mret (Err (Init "DER-encoded certificate must not be empty"))
  else
    match try_from_max c_long_max (len der) with
    | None =>
        mret (Err (Init "DER-encoded certificate exceeds the maximum supported length"))
    | Some n =>
        let* (cert, advanced) := ext (d2i_X509 der n) in
        match cert with
        | None => init_error "d2i_X509"
        | Some cert =>
            if negb (advanced =? len der) then
              do* modify (X509_free cert) ;
              mret (Err (Init "DER-encoded certificate contains trailing data"))
            else mret (Ok cert)
        end
    end.

Definition parse_private_key (der : list byte) : M W (Result nat) :=
  if is_empty der then mret (Err (Init "DER-encoded private key must not be empty"))
  else
    match try_from_max c_long_max (len der) with
    | None =>
        mret (Err (Init "DER-encoded private key exceeds the maximum supported length"))
    | Some n =>
        let* (key, advanced) := ext (d2i_AutoPrivateKey der n) in
        match key with
        | None => init_error "d2i_AutoPrivateKey"
        | Some key =>
            if negb (advanced =? len der) then
              do* modify (EVP_PKEY_free key) ;
              mret (Err (Init "DER-encoded private key contains trailing data"))
            else mret (Ok key)
        end
    end.
End der.

(** ** PEM loaders *)

(** The texts of a chain loader's errors. *)
Record ChainLabels : Type := {
  cl_bio : string;
  cl_leaf : string;
  cl_use : string;
  cl_read : string;
  cl_add : string;
}.

(** Of a private-key loader. *)
Record KeyLabels : Type := {
  kl_bio : string;
  kl_read : string;
  kl_use : string;
}.

(** Of a loader of trust anchors. *)
Record AnchorLabels : Type := {
  al_bio : string;
  al_read : string;
  al_add : string;
  al_none : string;
}.

Section pem.
Context {W : Type} `{AwsLcConsts, ErrQueue W, LibCrypto W}.

Fixpoint chain_pem_loop (fuel : nat) (lb : ChainLabels) (ctx bio : nat) : M W (Result unit) :=
  match fuel with
  | O => out_of_fuel
  | S fuel' =>
      let* extra := ext (PEM_read_bio_X509 bio) in
      match extra with
      | None => pem_eof_or_err (cl_read lb)
      | Some extra =>
          let* ok := ext (SSL_CTX_add0_chain_cert ctx extra) in
          if negb (ok =? 1) then
            do* modify (X509_free extra) ;
            init_error (cl_add lb)
          else chain_pem_loop fuel' lb ctx bio
      end
  end.

(** Every certificate read takes at least a byte of the text, so one more than
    its length is enough fuel. *)
Definition cert_chain_pem (lb : ChainLabels) (ctx : nat) (pem : list byte) : M W (Result unit) :=
  let* bio := ext (BIO_new_mem_buf pem) in
  match bio with
  | None => init_error (cl_bio lb)
  | Some bio =>
      guarded (modify (BIO_free bio))
        (let* leaf := ext (PEM_read_bio_X509_AUX bio) in
         match leaf with
         | None => init_error (cl_leaf lb)
         | Some leaf =>
             let* ok := ext (SSL_CTX_use_certificate ctx leaf) in
             do* modify (X509_free leaf) ;
             if negb (ok =? 1) then init_error (cl_use lb)
             else
               let* _ := ext (SSL_CTX_clear_chain_certs ctx) in
               chain_pem_loop (S (length pem)) lb ctx bio
         end)
  end.

Definition private_key_pem (lb : KeyLabels) (ctx : nat) (pem : list byte) : M W (Result unit) :=
  let* bio := ext (BIO_new_mem_buf pem) in
  match bio with
  | None => init_error (kl_bio lb)
  | Some bio =>
      guarded (modify (BIO_free bio))
        (let* key := ext (PEM_read_bio_PrivateKey bio) in
         match key with
         | None => init_error (kl_read lb)
         | Some key =>
             let* ok := ext (SSL_CTX_use_PrivateKey ctx key) in
             do* modify (EVP_PKEY_free key) ;
             if negb (ok =? 1) then init_error (kl_use lb) else mret (Ok tt)
         end)
  end.

(** The loop returns the number of certificates added. *)
Fixpoint anchors_pem_loop (fuel : nat) (lb : AnchorLabels) (store bio : nat) (added : Z) :
    M W (Result Z) :=
  match fuel with
  | O => out_of_fuel
  | S fuel' =>
      let* cert := ext (PEM_read_bio_X509 bio) in
      match cert with
      | None =>
          let? _ := pem_eof_or_err (al_read lb) in
          mret (Ok added)
      | Some cert =>
          let* ok := ext (X509_STORE_add_cert store cert) in
          do* modify (X509_free cert) ;
          if negb (ok =? 1) then init_error (al_add lb)
          else anchors_pem_loop fuel' lb store bio (added + 1)
      end
  end.

Definition anchors_pem (lb : AnchorLabels) (ctx : nat) (pem : list byte) : M W (Result unit) :=
  let* bio := ext (BIO_new_mem_buf pem) in
  match bio with
  | None => init_error (al_bio lb)
  | Some bio =>
      guarded (modify (BIO_free bio))
        (let* store := gets (SSL_CTX_get_cert_store ctx) in
         match store with
         | None => mret (Err (Init "SSL_CTX_get_cert_store returned null"))
         | Some store =>
             let? added := anchors_pem_loop (S (length pem)) lb store bio 0 in
             if added =? 0 then mret (Err (Init (al_none lb))) else mret (Ok tt)
         end)
  end.
End pem.

(** ** DER loaders *)

Record DerLabels : Type := {
  dl_empty : string;
  dl_use : string;
  dl_add : string;
}.

Section der_loaders.
Context {W : Type} `{ErrQueue W, LibCrypto W}.

Fixpoint chain_der_loop (lb : DerLabels) (ctx : nat) (rest : list (list byte)) : M W (Result unit) :=
  match rest with
  | [] => mret (Ok tt)
  | extra_der :: rest' =>
      let? extra := parse_x509 extra_der in
      let* ok := ext (SSL_CTX_add0_chain_cert ctx extra) in
      if negb (ok =? 1) then
        do* modify (X509_free extra) ;
        init_error (dl_add lb)
      else chain_der_loop lb ctx rest'
  end.

Definition cert_chain_der (lb : DerLabels) (ctx : nat) (certs : list (list byte)) :
    M W (Result unit) :=
  match certs with
  | [] => mret (Err (Init (dl_empty lb)))
  | leaf_der :: rest =>
      let? leaf := parse_x509 leaf_der in
      let* ok := ext (SSL_CTX_use_certificate ctx leaf) in
      do* modify (X509_free leaf) ;
      if negb (ok =? 1) then init_error (dl_use lb)
      else
        let* _ := ext (SSL_CTX_clear_chain_certs ctx) in
        chain_der_loop lb ctx rest
  end.

Definition private_key_der (label : string) (ctx : nat) (der : list byte) : M W (Result unit) :=
  let? key := parse_private_key der in
  let* ok := ext (SSL_CTX_use_PrivateKey ctx key) in
  do* modify (EVP_PKEY_free key) ;
  if negb (ok =? 1) then init_error label else mret (Ok tt).

Fixpoint anchors_der_loop (store : nat) (certs : list (list byte)) : M W (Result unit) :=
  match certs with
  | [] => mret (Ok tt)
  | der :: certs' =>
      let? cert := parse_x509 der in
      let* ok := ext (X509_STORE_add_cert store cert) in
      do* modify (X509_free cert) ;
      if negb (ok =? 1) then init_error "X509_STORE_add_cert (DER)"
      else anchors_der_loop store certs'
  end.

Definition load_trust_anchors_der (ctx : nat) (certs : list (list byte)) : M W (Result unit) :=
  if is_empty certs then
    mret (Err (Init "DER trust-anchor list must contain at least one certificate"))
  else
    let* store := gets (SSL_CTX_get_cert_store ctx) in
    match store with
    | None => mret (Err (Init "SSL_CTX_get_cert_store returned null"))
    | Some store => anchors_der_loop store certs
    end.
End der_loaders.

(** ** The loaders of the server and of the client *)

Section instances.
Context {W : Type} `{AwsLcConsts, ErrQueue W, LibCrypto W}.

Definition load_cert_chain_pem : nat → list byte → M W (Result unit) := cert_chain_pem {|
  cl_bio := "BIO_new_mem_buf for cert chain"; cl_leaf := "PEM_read_bio_X509_AUX (leaf)";
  cl_use := "SSL_CTX_use_certificate"; cl_read := "PEM_read_bio_X509 (server chain)";
  cl_add := "SSL_CTX_add0_chain_cert" |}.

Definition load_client_cert_chain_pem : nat → list byte → M W (Result unit) := cert_chain_pem {|
  cl_bio := "BIO_new_mem_buf for client cert chain";
  cl_leaf := "PEM_read_bio_X509_AUX (client leaf)"; cl_use := "SSL_CTX_use_certificate (client)";
  cl_read := "PEM_read_bio_X509 (client chain)"; cl_add := "SSL_CTX_add0_chain_cert (client)" |}.

Definition load_private_key_pem : nat → list byte → M W (Result unit) := private_key_pem {|
  kl_bio := "BIO_new_mem_buf for private key"; kl_read := "PEM_read_bio_PrivateKey";
  kl_use := "SSL_CTX_use_PrivateKey" |}.

Definition load_client_private_key_pem : nat → list byte → M W (Result unit) := private_key_pem {|
  kl_bio := "BIO_new_mem_buf for client private key"; kl_read := "PEM_read_bio_PrivateKey (client)";
  kl_use := "SSL_CTX_use_PrivateKey (client)" |}.

Definition load_client_ca_roots_pem : nat → list byte → M W (Result unit) := anchors_pem {|
  al_bio := "BIO_new_mem_buf for client CA roots";
  al_read := "PEM_read_bio_X509 (client CA roots)"; al_add := "X509_STORE_add_cert (client CA)";
  al_none := "no certificates found in client CA roots PEM" |}.

Definition load_trust_anchors_pem : nat → list byte → M W (Result unit) := anchors_pem {|
  al_bio := "BIO_new_mem_buf for trust anchors"; al_read := "PEM_read_bio_X509 (trust anchors)";
  al_add := "X509_STORE_add_cert"; al_none := "no certificates found in supplied trust-anchor PEM" |}.

Definition load_cert_chain_der : nat → list (list byte) → M W (Result unit) := cert_chain_der {|
  dl_empty := "DER certificate chain must contain at least the leaf certificate";
  dl_use := "SSL_CTX_use_certificate (DER leaf)"; dl_add := "SSL_CTX_add0_chain_cert (DER)" |}.

Definition load_client_cert_chain_der : nat → list (list byte) → M W (Result unit) :=
  cert_chain_der {|
    dl_empty := "DER client certificate chain must contain at least the leaf certificate";
    dl_use := "SSL_CTX_use_certificate (client DER leaf)";
    dl_add := "SSL_CTX_add0_chain_cert (client DER)" |}.

Definition load_private_key_der : nat → list byte → M W (Result unit) :=
  private_key_der "SSL_CTX_use_PrivateKey (DER)".

Definition load_client_private_key_der : nat → list byte → M W (Result unit) :=
  private_key_der "SSL_CTX_use_PrivateKey (client DER)".
End instances.
