(* ===== verification/LoaderProps.v ===== *)
(** * What the loaders guarantee

    Every loader returns, releases what it allocated on every path, and on
    success leaves exactly the objects of its input in the context. *)

From S2P Require Import Prelude Std Env Objects Sim Errors Ownership Loaders.

Local Open Scope Z_scope.

Section props.
Context {W : Type} `{AwsLcConsts, ErrQueue W, !ErrQueueLaws W, LibSslCtx W, !LibSslCtxLaws W,
  LibCrypto W, !LibCryptoLaws W}.
Implicit Types (w : W) (c : nat).

(** ** The DER parsers *)

Lemma try_from_max_spec max n m : try_from_max max n = m → m = Some n ∧ n ≤ max ∨ m = None ∧ max < n.
Proof. unfold try_from_max. destruct (Z.leb_spec n max); intros <-; auto. Qed.

(** How a parser that returns an object of encoding [enc] treats its input. *)
Definition parses (call : W → (option nat * Z) * W) (obj : nat → Obj) (enc : nat → list byte)
    (der : list byte) (w : W) (r : Result nat) (w' : W) : Prop :=
  match r with
  | Ok x => call w = ((Some x, len der), w') ∧ enc x = der ∧ ghost w' = g_take (obj x) (ghost w)
  | Err _ => ghost w' = ghost w ∧
      (der = [] ∨ c_long_max < len der ∨ (call w).1.1 = None ∨ (call w).1.2 ≠ len der)
  end.

Lemma twp_parse_x509 der w :
  twp (parse_x509 der) (parses (d2i_X509 der (len der)) OX509 x509_der der w) w.
Proof.
  unfold parse_x509. destruct (is_empty der) eqn:Ee.
  { apply is_empty_true in Ee. twp_step. by split; [|left]. }
  destruct (try_from_max _ _) eqn:El; apply try_from_max_spec in El as [[El Hl]|[El Hl]]; try done;
    [injection El as ->|twp_step; by split; [|right; left]].
  twp_step. twp_step. destruct a as [[x|] n].
  - pose proof (d2i_x509_spec _ _ _ _ _ Hcall) as (Hn & Hx & Hg).
    destruct (Z.eqb_spec n (len der)) as [->|Hne]; cbn [negb].
    + twp_step. split_and!; [done| |done]. by rewrite Hx, prefix_all.
    + twp_step. twp_step. twp_step. split.
      * rewrite x509_free_spec, Hg, g_drop_take; [done|]. rewrite Hg. apply g_take_elem.
      * rewrite Hcall. by right; right; right.
  - pose proof (d2i_x509_spec _ _ _ _ _ Hcall) as Hg.
    apply twp_init_error. intros m w' Hg'. split; [by rewrite Hg', Hg|].
    rewrite Hcall. by right; right; left.
Qed.

Lemma twp_parse_private_key der w :
  twp (parse_private_key der) (parses (d2i_AutoPrivateKey der (len der)) OPkey pkey_der der w) w.
Proof.
  unfold parse_private_key. destruct (is_empty der) eqn:Ee.
  { apply is_empty_true in Ee. twp_step. by split; [|left]. }
  destruct (try_from_max _ _) eqn:El; apply try_from_max_spec in El as [[El Hl]|[El Hl]]; try done;
    [injection El as ->|twp_step; by split; [|right; left]].
  twp_step. twp_step. destruct a as [[x|] n].
  - pose proof (d2i_pkey_spec _ _ _ _ _ Hcall) as (Hn & Hx & Hg).
    destruct (Z.eqb_spec n (len der)) as [->|Hne]; cbn [negb].
    + twp_step. split_and!; [done| |done]. by rewrite Hx, prefix_all.
    + twp_step. twp_step. twp_step. split.
      * rewrite pkey_free_spec, Hg, g_drop_take; [done|]. rewrite Hg. apply g_take_elem.
      * rewrite Hcall. by right; right; right.
  - pose proof (d2i_pkey_spec _ _ _ _ _ Hcall) as Hg.
    apply twp_init_error. intros m w' Hg'. split; [by rewrite Hg', Hg|].
    rewrite Hcall. by right; right; left.
Qed.

(** ** Steps that hand a certificate to a context *)

(** [m] behaves like a setter of [c] that runs while the crate holds [o], and
    releases [o] in the end. *)
Lemma twp_use_leaf {A} c x (label : string) (k : M W (Result A)) (Q : Result A → W → Prop) g w :
  ghost w = g_take (OX509 x) g → OCtx c ∈ g_refs g →
  (∀ e w', sets c id false g (ghost w') → Q (Err e) w') →
  (∀ w', sets c (cs_on_cert (clear_chain ∘ set_leaf (x509_der x))) true g (ghost w') → twp k Q w') →
  twp (let* ok := ext (SSL_CTX_use_certificate c x) in
       do* modify (X509_free x) ;
       if negb (ok =? 1) then init_error label
       else let* _ := ext (SSL_CTX_clear_chain_certs c) in k) Q w.
Proof.
  intros Hg Hc Herr Hk. twp_step. twp_step. twp_step. twp_step.
  apply use_certificate_spec in Hcall as Hs; [|rewrite Hg; auto with ghost..].
  assert (OX509 x ∈ g_refs (ghost s')) as Hx by (eapply sets_elem; [done|]; rewrite Hg; auto with ghost).
  rewrite Hg in Hs. apply sets_drop in Hs. rewrite <- (x509_free_spec x s' Hx) in Hs.
  destruct (a =? 1); cbn [negb].
  - twp_step. twp_step. eapply clear_chain_spec in Hcall0; [|by eapply sets_elem].
    apply Hk. eapply sets_ext; [|by eapply sets_trans; [exact Hs|done|left]]. done.
  - apply twp_init_error. intros m w' Hg'. apply Herr. rewrite Hg'. by eapply sets_fail.
Qed.

Lemma twp_add_chain {A} c x (label : string) (k : M W (Result A)) (Q : Result A → W → Prop) g w :
  ghost w = g_take (OX509 x) g → OCtx c ∈ g_refs g →
  (∀ e w', sets c id false g (ghost w') → Q (Err e) w') →
  (∀ w', sets c (cs_on_cert (push_chain (x509_der x))) true g (ghost w') → twp k Q w') →
  twp (let* ok := ext (SSL_CTX_add0_chain_cert c x) in
       if negb (ok =? 1) then do* modify (X509_free x) ; init_error label else k) Q w.
Proof.
  intros Hg Hc Herr Hk. twp_step. twp_step.
  apply add0_chain_spec in Hcall as Hs; [|rewrite Hg; auto with ghost..].
  destruct (a =? 1); cbn [negb].
  - apply Hk. by rewrite Hg, g_drop_take in Hs.
  - twp_step. twp_step. apply twp_init_error. intros m w' Hg'. apply Herr.
    assert (OX509 x ∈ g_refs (ghost s')) as Hx by (eapply sets_elem; [done|]; rewrite Hg; auto with ghost).
    rewrite Hg in Hs. apply sets_drop in Hs. rewrite <- (x509_free_spec x s' Hx), <- Hg' in Hs.
    by eapply sets_fail.
Qed.

Lemma twp_use_key c x (label : string) (Q : Result unit → W → Prop) g w :
  ghost w = g_take (OPkey x) g → OCtx c ∈ g_refs g →
  (∀ r w', sets c (cs_on_key (λ _, Key (pkey_der x))) (is_ok r) g (ghost w') → Q r w') →
  twp (let* ok := ext (SSL_CTX_use_PrivateKey c x) in
       do* modify (EVP_PKEY_free x) ;
       if negb (ok =? 1) then init_error label else mret (Ok tt)) Q w.
Proof.
  intros Hg Hc HQ. twp_step. twp_step. twp_step. twp_step.
  apply use_pkey_spec in Hcall as Hs; [|rewrite Hg; auto with ghost..].
  assert (OPkey x ∈ g_refs (ghost s')) as Hx by (eapply sets_elem; [done|]; rewrite Hg; auto with ghost).
  rewrite Hg in Hs. apply sets_drop in Hs. rewrite <- (pkey_free_spec x s' Hx) in Hs.
  destruct (a =? 1); cbn [negb].
  - twp_step. by apply HQ.
  - apply twp_init_error. intros m w' Hg'. apply HQ. by rewrite Hg'.
Qed.

Lemma twp_add_anchor {A} c store x (label : string) (k : M W (Result A))
    (Q : Result A → W → Prop) g w :
  ghost w = g_take (OX509 x) g → OCtx c ∈ g_refs g → store_ctx store = c →
  (∀ e w', sets c id false g (ghost w') → Q (Err e) w') →
  (∀ w', sets c (cs_on_anchors (λ a, a ++ [x509_der x])) true g (ghost w') → twp k Q w') →
  twp (let* ok := ext (X509_STORE_add_cert store x) in
       do* modify (X509_free x) ;
       if negb (ok =? 1) then init_error label else k) Q w.
Proof.
  intros Hg Hc Hst Herr Hk. twp_step. twp_step. twp_step. twp_step.
  apply (store_add_spec c) in Hcall as Hs; [|done|rewrite Hg; auto with ghost..].
  assert (OX509 x ∈ g_refs (ghost s')) as Hx by (eapply sets_elem; [done|]; rewrite Hg; auto with ghost).
  rewrite Hg in Hs. apply sets_drop in Hs. rewrite <- (x509_free_spec x s' Hx) in Hs.
  destruct (a =? 1); cbn [negb].
  - by apply Hk.
  - apply twp_init_error. intros m w' Hg'. apply Herr. rewrite Hg'. by eapply sets_fail.
Qed.

(** ** The DER loaders *)

Definition push_all (ds : list (list byte)) (s : CertSource) : CertSource :=
  foldl (λ s d, push_chain d s) s ds.

Lemma push_all_certs leaf chain ds : push_all ds (Certs leaf chain) = Certs leaf (chain ++ ds).
Proof.
  revert chain. induction ds as [|d ds IH]; intros chain; simpl; [by rewrite app_nil_r|].
  change (push_all ds (Certs leaf (chain ++ [d])) = Certs leaf (chain ++ d :: ds)).
  by rewrite IH, <- app_assoc.
Qed.

Lemma twp_chain_der_loop lb c rest w :
  OCtx c ∈ g_refs (ghost w) →
  twp (chain_der_loop lb c rest)
    (λ r w', sets c (cs_on_cert (push_all rest)) (is_ok r) (ghost w) (ghost w')) w.
Proof.
  revert w. induction rest as [|der rest IH]; intros w Hc; cbn [chain_der_loop].
  { twp_step. eapply sets_ext; [|apply sets_id]. by intros []. }
  twp_step. eapply twp_mono; [apply twp_parse_x509|]. intros [x|e] w1; cbn beta iota.
  - intros (_ & Hx & Hg). apply (twp_add_chain c x _ _ _ (ghost w)); [done..| |].
    + intros e w' Hs. by eapply sets_fail.
    + rewrite Hx. intros w2 Hs. eapply twp_mono; [apply IH; by eapply sets_elem|].
      intros r w3 Hs2. eapply sets_ext; [|eapply sets_trans; [exact Hs|exact Hs2|by right]]. done.
  - intros [Hg _]. twp_step. rewrite Hg. apply sets_noop.
Qed.

(** The encodings a DER chain puts into a context. *)
Definition der_chain (certs : list (list byte)) : CertSource :=
  match certs with [] => NoCert | leaf :: rest => Certs leaf rest end.

Lemma twp_cert_chain_der lb c certs w :
  OCtx c ∈ g_refs (ghost w) →
  twp (cert_chain_der lb c certs)
    (λ r w', sets c (cs_on_cert (λ _, der_chain certs)) (is_ok r) (ghost w) (ghost w') ∧
             (r = Ok tt → certs ≠ [])) w.
Proof.
  intros Hc. unfold cert_chain_der. destruct certs as [|leaf rest].
  { twp_step. split; [|done]. apply sets_noop. }
  twp_step. eapply twp_mono; [apply twp_parse_x509|]. intros [x|e] w1; cbn beta iota.
  - intros (_ & Hx & Hg). apply (twp_use_leaf c x _ _ _ (ghost w)); [done..| |].
    + intros e w' Hs. split; [|done]. by eapply sets_fail.
    + rewrite Hx. intros w2 Hs. eapply twp_mono; [apply twp_chain_der_loop; by eapply sets_elem|].
      intros r w3 Hs2. split; [|done].
      eapply sets_ext; [|eapply sets_trans; [exact Hs|exact Hs2|by right]].
      intros s. unfold compose, cs_on_cert. simpl. by rewrite push_all_certs.
  - intros [Hg _]. twp_step. rewrite Hg. split; [|done]. apply sets_noop.
Qed.

Lemma twp_private_key_der label c der w :
  OCtx c ∈ g_refs (ghost w) →
  twp (private_key_der label c der)
    (λ r w', sets c (cs_on_key (λ _, Key der)) (is_ok r) (ghost w) (ghost w')) w.
Proof.
  intros Hc. unfold private_key_der.
  twp_step. eapply twp_mono; [apply twp_parse_private_key|]. intros [x|e] w1; cbn beta iota.
  - intros (_ & Hx & Hg). apply (twp_use_key c x _ _ (ghost w)); [done..|]. by rewrite Hx.
  - intros [Hg _]. twp_step. rewrite Hg. apply sets_noop.
Qed.

Lemma twp_anchors_der_loop c store certs w :
  OCtx c ∈ g_refs (ghost w) → store_ctx store = c →
  twp (anchors_der_loop store certs)
    (λ r w', sets c (cs_on_anchors (λ a, a ++ certs)) (is_ok r) (ghost w) (ghost w')) w.
Proof.
  intros Hc Hst. revert w Hc. induction certs as [|der certs IH]; intros w Hc; cbn [anchors_der_loop].
  { twp_step. eapply sets_ext; [|apply sets_id]. intros []. unfold cs_on_anchors. simpl.
    by rewrite app_nil_r. }
  twp_step. eapply twp_mono; [apply twp_parse_x509|]. intros [x|e] w1; cbn beta iota.
  - intros (_ & Hx & Hg). apply (twp_add_anchor c store x _ _ _ (ghost w)); [done..| |].
    + intros e w' Hs. by eapply sets_fail.
    + rewrite Hx. intros w2 Hs. eapply twp_mono; [apply IH; by eapply sets_elem|].
      intros r w3 Hs2. eapply sets_ext; [|eapply sets_trans; [exact Hs|exact Hs2|by right]].
      intros s. unfold compose, cs_on_anchors. simpl. by rewrite <- app_assoc.
  - intros [Hg _]. twp_step. rewrite Hg. apply sets_noop.
Qed.

Lemma twp_load_trust_anchors_der c certs w :
  OCtx c ∈ g_refs (ghost w) →
  twp (load_trust_anchors_der c certs)
    (λ r w', sets c (cs_on_anchors (λ a, a ++ certs)) (is_ok r) (ghost w) (ghost w') ∧
             (r = Ok tt → certs ≠ [])) w.
Proof.
  intros Hc. unfold load_trust_anchors_der. destruct certs as [|der certs].
  { simpl. twp_step. split; [|done]. apply sets_noop. }
  cbn [is_empty]. twp_step. twp_step. destruct (SSL_CTX_get_cert_store c w) as [store|] eqn:Es.
  - eapply twp_mono; [apply (twp_anchors_der_loop c); [done|by eapply get_store_spec]|].
    intros r w' Hs. by split.
  - twp_step. split; [|done]. apply sets_noop.
Qed.

(** ** The PEM loaders *)

(** A PEM text that holds the given certificates and nothing after them. *)
Inductive pem_bundle : list byte → list (list byte) → Prop :=
| bundle_end text : pem_end text → pem_bundle text []
| bundle_cert text der rest ders :
    pem_cert false text = Some (der, rest) → pem_bundle rest ders → pem_bundle text (der :: ders).

(** A certificate chain: the first certificate may be a trusted one. *)
Definition pem_chain (text leaf : list byte) (chain : list (list byte)) : Prop :=
  ∃ rest, pem_cert true text = Some (leaf, rest) ∧ pem_bundle rest chain.

Lemma twp_pem_eof label e w :
  last (queue w) = Some e →
  twp (pem_eof_or_err label) (λ r w', ghost w' = ghost w ∧ (is_ok r = true → is_no_start_line e)) w.
Proof.
  intros He. unfold pem_eof_or_err. twp_step. twp_step. rewrite ERR_peek_last_error_spec, He.
  cbn [default from_option id]. destruct (Z.eqb_spec e 0) as [->|Hnz].
  { pose proof (proj1 (queue_last_nonzero w)) as Hl. rewrite He in Hl.
    by rewrite (Hl eq_refl) in He. }
  destruct (_ && _) eqn:Eb.
  - do 3 twp_step. rewrite ghost_clear_error. split; [done|].
    by apply andb_prop in Eb as [?%Z.eqb_eq ?%Z.eqb_eq].
  - twp_step. unfold twp at 1. rewrite format_and_clear_done. twp_step.
    by rewrite ghost_clear_error.
Qed.

(** The result of reading one certificate, as a step of a loop. *)
Lemma twp_read_cert {A} (aux : bool) b text (k : option nat → M W A) (Q : A → W → Prop) w :
  OBio b ∈ g_refs (ghost w) → g_bio (ghost w) !! b = Some text →
  (∀ x rest w', pem_cert aux text = Some (x509_der x, rest) → (length rest < length text)%nat →
     ghost w' = g_take (OX509 x) (g_on_bio <[b := rest]> (ghost w)) → twp (k (Some x)) Q w') →
  (∀ rest e w', ghost w' = g_on_bio <[b := rest]> (ghost w) → last (queue w') = Some e →
     (is_no_start_line e → pem_end text) → twp (k None) Q w') →
  twp (let* x := ext (if aux then PEM_read_bio_X509_AUX b else PEM_read_bio_X509 b) in k x) Q w.
Proof.
  intros Hb Ht Hsome Hnone. twp_step. twp_step.
  pose proof (pem_x509_spec aux b w a s' text) as Hspec.
  assert ((if aux then PEM_read_bio_X509_AUX b w else PEM_read_bio_X509 b w) = (a, s')) as Hc
    by (by destruct aux).
  specialize (Hspec Hc Hb Ht). destruct a as [x|].
  - destruct Hspec as (rest & Hp & Hl & Hg). by eapply Hsome.
  - destruct Hspec as (rest & e & Hg & Hq & He). by eapply Hnone.
Qed.

Lemma twp_chain_pem_loop lb c b fuel text w :
  OCtx c ∈ g_refs (ghost w) → OBio b ∈ g_refs (ghost w) → g_bio (ghost w) !! b = Some text →
  (length text < fuel)%nat →
  twp (chain_pem_loop fuel lb c b)
    (λ r w', ∃ ders, loads c (cs_on_cert (push_all ders)) (is_ok r) (ghost w) (ghost w') ∧
                     (is_ok r = true → pem_bundle text ders)) w.
Proof.
  revert text w. induction fuel as [|fuel IH]; intros text w Hc Hb Ht Hf; [lia|].
  cbn [chain_pem_loop]. apply (twp_read_cert false b text); [done..| |].
  - intros x rest w1 Hp Hl Hg.
    apply (twp_add_chain c x _ _ _ (g_on_bio <[b := rest]> (ghost w))); [done..| |].
    + intros e w2 Hs. exists []. split; [|done].
      by eapply loads_fail; [eapply loads_bio, sets_loads|].
    + intros w2 Hs. destruct (sets_refs _ _ _ _ _ Hs) as (Hr & Hbio & _).
      eapply twp_mono; [apply (IH rest)|].
      * by rewrite Hr.
      * by rewrite Hr.
      * rewrite Hbio. simpl. by rewrite lookup_insert_eq.
      * lia.
      * intros r w3 (ders & Hd & Hok). exists (x509_der x :: ders). split.
        -- apply sets_loads, loads_bio in Hs.
           eapply loads_ext; [|eapply loads_trans; [exact Hs|exact Hd|by right]]. done.
        -- intros Hr3. by eapply bundle_cert; [|apply Hok].
  - intros rest e w1 Hg Hq He. eapply twp_mono; [by apply twp_pem_eof|].
    intros r w2 [Hg2 Hr]. exists []. rewrite Hg2, Hg. split.
    + apply loads_bio_r. destruct r; [|apply sets_loads, sets_noop].
      eapply loads_ext; [|apply loads_id]. by intros [].
    + intros Hok. by apply bundle_end, He, Hr.
Qed.

(** A loader that opens a BIO for its own use: the BIO is released whatever the
    body does. *)
Lemma twp_with_bio c (label : string) (body : nat → M W (Result unit)) pem
    (P : Result unit → (CtxState → CtxState) → Prop) w :
  OCtx c ∈ g_refs (ghost w) →
  (∀ m f, P (Err m) f) →
  (∀ b w1, OCtx c ∈ g_refs (ghost w1) → OBio b ∈ g_refs (ghost w1) →
     g_bio (ghost w1) !! b = Some pem →
     twp (body b) (λ r w', ∃ f, loads c f (is_ok r) (ghost w1) (ghost w') ∧ P r f) w1) →
  twp (let* bio := ext (BIO_new_mem_buf pem) in
       match bio with
       | None => init_error label
       | Some bio => guarded (modify (BIO_free bio)) (body bio)
       end)
    (λ r w', ∃ f, loads c f (is_ok r) (ghost w) (ghost w') ∧ P r f) w.
Proof.
  intros Hc HP Hbody. twp_step. twp_step. apply bio_new_spec in Hcall. destruct a as [b|].
  - assert (OBio b ∈ g_refs (ghost s')) as Hb by (rewrite Hcall; apply g_take_elem).
    unfold guarded. twp_step. eapply twp_mono; [apply Hbody|].
    + rewrite Hcall. by apply g_take_elem_of.
    + done.
    + rewrite Hcall. simpl. by rewrite lookup_insert_eq.
    + intros r w2 (f & Hl & Hp). do 3 twp_step. exists f. split; [|done].
      rewrite bio_free_spec by by eapply loads_elem. apply loads_drop.
      rewrite Hcall in Hl. by apply loads_bio in Hl.
  - apply twp_init_error. intros m w' Hg. exists id. split; [|done].
    rewrite Hg, Hcall. apply sets_loads, sets_noop.
Qed.

Lemma twp_cert_chain_pem lb c pem w :
  OCtx c ∈ g_refs (ghost w) →
  twp (cert_chain_pem lb c pem)
    (λ r w', ∃ f, loads c f (is_ok r) (ghost w) (ghost w') ∧
       (is_ok r = true → ∃ leaf chain, pem_chain pem leaf chain ∧
          f = cs_on_cert (λ _, Certs leaf chain))) w.
Proof.
  intros Hc. unfold cert_chain_pem. apply twp_with_bio; [done..|].
  intros b w1 Hc1 Hb1 Ht1. apply (twp_read_cert true b pem); [done..| |].
  - intros x rest w2 Hp Hl Hg.
    apply (twp_use_leaf c x _ _ _ (g_on_bio <[b := rest]> (ghost w1))); [done..| |].
    + intros e w3 Hs. exists id. split; [|done]. by eapply loads_bio, sets_loads.
    + intros w3 Hs. destruct (sets_refs _ _ _ _ _ Hs) as (Hr & Hbio & _).
      eapply twp_mono; [apply (twp_chain_pem_loop _ _ _ _ rest)|].
      * by rewrite Hr.
      * by rewrite Hr.
      * rewrite Hbio. simpl. by rewrite lookup_insert_eq.
      * lia.
      * intros r w4 (ders & Hd & Hok). apply sets_loads, loads_bio in Hs.
        exists (cs_on_cert (λ _, Certs (x509_der x) ders)). split.
        -- eapply loads_ext; [|eapply loads_trans; [exact Hs|exact Hd|by right]].
           intros s. unfold compose, cs_on_cert. simpl. by rewrite push_all_certs.
        -- intros Hr4. exists (x509_der x), ders. split; [|done]. exists rest. by split; [|apply Hok].
  - intros rest e w2 Hg _ _. apply twp_init_error. intros m w3 Hg'. exists id. split; [|done].
    rewrite Hg', Hg. apply loads_bio_r, sets_loads, sets_noop.
Qed.

Lemma twp_private_key_pem lb c pem w :
  OCtx c ∈ g_refs (ghost w) →
  twp (private_key_pem lb c pem)
    (λ r w', ∃ f, loads c f (is_ok r) (ghost w) (ghost w') ∧
       (is_ok r = true → ∃ key, pem_key pem = Some key ∧ f = cs_on_key (λ _, Key key))) w.
Proof.
  intros Hc. unfold private_key_pem. apply twp_with_bio; [done..|].
  intros b w1 Hc1 Hb1 Ht1. twp_step. twp_step.
  destruct (pem_pkey_spec _ _ _ _ _ Hcall Hb1 Ht1) as (rest & Hspec). destruct a as [k|].
  - destruct Hspec as [Hk Hg].
    apply (twp_use_key c k _ _ (g_on_bio <[b := rest]> (ghost w1))); [done..|].
    intros r w2 Hs. exists (cs_on_key (λ _, Key (pkey_der k))).
    split; [by eapply loads_bio, sets_loads|by eexists].
  - apply twp_init_error. intros m w2 Hg. exists id. split; [|done].
    rewrite Hg, Hspec. apply loads_bio_r, sets_loads, sets_noop.
Qed.

Lemma twp_anchors_pem_loop lb c store b fuel text added w :
  store_ctx store = c → OCtx c ∈ g_refs (ghost w) → OBio b ∈ g_refs (ghost w) →
  g_bio (ghost w) !! b = Some text → (length text < fuel)%nat →
  twp (anchors_pem_loop fuel lb store b added)
    (λ r w', ∃ ders, loads c (cs_on_anchors (λ a, a ++ ders)) (is_ok r) (ghost w) (ghost w') ∧
                     (∀ n, r = Ok n → pem_bundle text ders ∧ n = added + len ders)) w.
Proof.
  intros Hst. revert text added w.
  induction fuel as [|fuel IH]; intros text added w Hc Hb Ht Hf; [lia|].
  cbn [anchors_pem_loop]. apply (twp_read_cert false b text); [done..| |].
  - intros x rest w1 Hp Hl Hg.
    apply (twp_add_anchor c store x _ _ _ (g_on_bio <[b := rest]> (ghost w))); [done..| |].
    + intros e w2 Hs. exists []. split; [|done].
      by eapply loads_fail; [eapply loads_bio, sets_loads|].
    + intros w2 Hs. destruct (sets_refs _ _ _ _ _ Hs) as (Hr & Hbio & _).
      eapply twp_mono; [apply (IH rest)|].
      * by rewrite Hr.
      * by rewrite Hr.
      * rewrite Hbio. simpl. by rewrite lookup_insert_eq.
      * lia.
      * intros r w3 (ders & Hd & Hok). exists (x509_der x :: ders). split.
        -- apply sets_loads, loads_bio in Hs.
           eapply loads_ext; [|eapply loads_trans; [exact Hs|exact Hd|by right]].
           intros s. unfold compose, cs_on_anchors. simpl. by rewrite <- app_assoc.
        -- intros n [Hb' ->]%Hok. split; [by eapply bundle_cert|]. unfold len. simpl. lia.
  - intros rest e w1 Hg Hq He. twp_step. eapply twp_mono; [by apply twp_pem_eof|].
    intros [[]|m] w2 [Hg2 Hr]; twp_step; exists []; rewrite Hg2, Hg.
    + split.
      * apply loads_bio_r. eapply loads_ext; [|apply loads_id]. intros []. unfold cs_on_anchors.
        simpl. by rewrite app_nil_r.
      * intros n [= <-]. split; [by apply bundle_end, He, Hr|]. unfold len. simpl. lia.
    + split; [|done]. apply loads_bio_r, sets_loads, sets_noop.
Qed.

Lemma twp_anchors_pem lb c pem w :
  OCtx c ∈ g_refs (ghost w) →
  twp (anchors_pem lb c pem)
    (λ r w', ∃ f, loads c f (is_ok r) (ghost w) (ghost w') ∧
       (is_ok r = true → ∃ ders, pem_bundle pem ders ∧ ders ≠ [] ∧
          f = cs_on_anchors (λ a, a ++ ders))) w.
Proof.
  intros Hc. unfold anchors_pem. apply twp_with_bio; [done..|].
  intros b w1 Hc1 Hb1 Ht1. twp_step. twp_step.
  destruct (SSL_CTX_get_cert_store c w1) as [store|] eqn:Es.
  - twp_step. eapply twp_mono;
      [apply (twp_anchors_pem_loop _ c); [by eapply get_store_spec|done..|lia]|].
    intros [n|m] w2 (ders & Hd & Hok); [|twp_step; by eexists].
    destruct (Hok n eq_refl) as [Hbun ->]. destruct (Z.eqb_spec (0 + len ders) 0) as [E|E]; twp_step.
    + assert (ders = []) as -> by (apply len_zero; lia). exists id. split; [|done].
      by eapply loads_noop.
    + eexists. split; [done|]. intros _. exists ders. split_and!; [done| |done]. by intros ->.
  - twp_step. exists id. split; [|done]. apply sets_loads, sets_noop.
Qed.

(** ** Claims *)

(** A DER input is accepted exactly when it is non-empty, within the length
    the library can be told, and one object from its first to its last byte; the
    caller then owns that object.  Every rejected input (trailing bytes, a
    second object behind the first, truncation) leaves no object behind. *)
Theorem der_parsers_exact der w :
  twp (parse_x509 der) (parses (d2i_X509 der (len der)) OX509 x509_der der w) w ∧
  twp (parse_private_key der)
    (parses (d2i_AutoPrivateKey der (len der)) OPkey pkey_der der w) w.
Proof. split; [apply twp_parse_x509|apply twp_parse_private_key]. Qed.

(** Loading a PEM certificate chain always returns, releases its BIO and every
    certificate it does not hand over, and on success the whole text was a leaf
    followed by the chain that the context now presents, in order: a corrupt
    block behind a valid certificate is an error and not an end of the bundle. *)
Theorem cert_chain_pem_complete lb c pem w :
  OCtx c ∈ g_refs (ghost w) →
  twp (cert_chain_pem lb c pem)
    (λ r w', g_refs (ghost w') = g_refs (ghost w) ∧
       (is_ok r = true → ∃ leaf chain, pem_chain pem leaf chain ∧
          loads c (cs_on_cert (λ _, Certs leaf chain)) true (ghost w) (ghost w'))) w.
Proof.
  intros Hc. eapply twp_mono; [by apply twp_cert_chain_pem|].
  intros r w' (f & Hl & Hf). split; [by destruct (loads_refs _ _ _ _ _ Hl)|].
  intros Hr. rewrite Hr in Hl. destruct (Hf Hr) as (leaf & chain & Hp & ->). by exists leaf, chain.
Qed.
End props.

Lemma der_parsers_exact_witness :
  twp (parse_x509 [x30; x05; x30; x06]) (λ r w', is_ok r = false ∧ ghost w' = ghost (sim0 [])) (sim0 []).
Proof.
  destruct (der_parsers_exact [x30; x05; x30; x06] (sim0 [])) as [H _].
  apply twp_done in H as (r & w' & E & Hp). apply twp_done. exists r, w'. split; [exact E|].
  destruct r as [x|e]; [vm_compute in E; discriminate|]. by destruct Hp.
Defined.

(** A bundle whose second block is corrupt. *)
Lemma cert_chain_pem_complete_witness :
  twp (load_cert_chain_pem 0 [x30; x01; x30; x02; x2d; x2d])
    (λ r w', is_ok r = false ∧ g_refs (ghost w') = g_refs (ghost (sim0 []))) (sim0 []).
Proof.
  pose proof (cert_chain_pem_complete
    {| cl_bio := "BIO_new_mem_buf for cert chain"; cl_leaf := "PEM_read_bio_X509_AUX (leaf)";
       cl_use := "SSL_CTX_use_certificate"; cl_read := "PEM_read_bio_X509 (server chain)";
       cl_add := "SSL_CTX_add0_chain_cert" |} 0 [x30; x01; x30; x02; x2d; x2d] (sim0 [])) as H.
  apply twp_done in H as (r & w' & E & Hr & _); [|by apply gmultiset_elem_of_singleton].
  apply twp_done. exists r, w'. split; [exact E|]. split; [|exact Hr].
  vm_compute in E. by injection E as <- _.
Defined.
