(* ===== verification/ServerConfig.v ===== *)
(** * config/server.rs: the server configuration builder

    The builder with its setters, the three ways to load the identity, the
    application of the settings to the context, and the ALPN list that the
    context carries as application data. *)

From S2P Require Import Prelude Std Env Objects Errors Ownership Alpn Suites Loaders.

Local Open Scope Z_scope.

(** ** The process

    The parts of the program's own memory that outlive a call: the static
    [OnceLock] with the index of the ALPN slot, and the boxes that were turned
    into raw pointers. *)
Record Proc : Type := {
  alpn_idx : option Z;
  next_box : nat;
  boxes : gmap nat (list byte);
}.

Section process.
Context {W : Type} `{ErrQueue W, LibCrypto W}.

(** [Box::into_raw(Box::new(wire))] *)
Definition box_new (wire : list byte) : M (Proc * W) nat :=
  let* p := self in
  do* set_self {| alpn_idx := alpn_idx p; next_box := S (next_box p);
                  boxes := <[next_box p := wire]> (boxes p) |} ;
  mret (next_box p).

(** [drop(Box::from_raw(raw))].  Freeing a box twice is undefined; here it ends the
    program. *)
Definition box_drop (raw : nat) : M (Proc * W) unit :=
  let* p := self in
  match boxes p !! raw with
  | None => panic "double free"
  | Some _ =>
      set_self {| alpn_idx := alpn_idx p; next_box := next_box p; boxes := delete raw (boxes p) |}
  end.

Definition alpn_ex_index : M (Proc * W) Z :=
  let* p := self in
  match alpn_idx p with
  | Some idx => mret idx
  | None =>
      let* idx := lift (ext SSL_CTX_get_ex_new_index) in
      if negb (0 <=? idx) then panic "SSL_CTX_get_ex_new_index failed"
      else
        do* modify_self (λ p, {| alpn_idx := Some idx; next_box := next_box p; boxes := boxes p |}) ;
        mret idx
  end.

Definition install_alpn_wire (ctx : nat) (wire : list byte) : M (Proc * W) (Result unit) :=
  let* raw := box_new wire in
  let* idx := alpn_ex_index in
  let* ok := lift (ext (SSL_CTX_set_ex_data ctx idx raw)) in
  if negb (ok =? 1) then
    do* box_drop raw ;
    lift (init_error "SSL_CTX_set_ex_data (ALPN)")
  else mret (Ok tt).

Definition alpn_ex_free (ptr : option nat) : M (Proc * W) unit :=
  match ptr with
  | None => mret tt
  | Some raw => box_drop raw
  end.

(** The callbacks that libssl makes while it destroys a context. *)
Definition ex_free_all (ptrs : list (option nat)) : M (Proc * W) unit :=
  foldr (λ ptr k, do* alpn_ex_free ptr ; k) (mret tt) ptrs.

(** [Drop for SslCtx] *)
Definition drop_ctx (ctx : nat) : M (Proc * W) unit :=
  let* ptrs := lift (ext (SSL_CTX_free ctx)) in
  ex_free_all ptrs.
End process.

(** ** Versions *)

Definition raw_or_panic {S} `{AwsLcConsts} (v : ProtocolVersion) : M S Z :=
  match ProtocolVersion_raw v with
  | Some z => mret z
  | None => panic "AWS-LC TLS*_VERSION constants fit in u16"
  end.

(** The version bounds, as both builders apply them. *)
Definition version_bounds {W} `{AwsLcConsts, ErrQueue W, LibCrypto W}
    (min_version max_version : option ProtocolVersion) (ctx : nat) : M W (Result unit) :=
  let* min_v := raw_or_panic (default Tls12 min_version) in
  let* max_v := raw_or_panic (default Tls13 max_version) in
  let? _ := setter 1 (SSL_CTX_set_min_proto_version ctx min_v) "SSL_CTX_set_min_proto_version" in
  setter 1 (SSL_CTX_set_max_proto_version ctx max_v) "SSL_CTX_set_max_proto_version".

(** The optional overrides, as both builders apply them. *)
Definition overrides {W} `{AwsLcConsts, ErrQueue W, LibSslCtx W}
    (suites : option (list CipherSuite)) (groups : option (list NamedGroup)) (ctx : nat) :
    M W (Result unit) :=
  let? _ := match suites with
            | Some suites => apply_suites_to_ctx ctx suites
            | None => mret (Ok tt)
            end in
  match groups with
  | Some groups => apply_groups_to_ctx ctx groups
  | None => mret (Ok tt)
  end.

(** ** The builder *)

Inductive ClientAuthMode : Type := NoAuth | Optional | Required.

Record ServerConfigBuilder : Type := {
  sb_alpn_protocols : list (list byte);
  sb_min_version : option ProtocolVersion;
  sb_max_version : option ProtocolVersion;
  sb_ktls_aead_only : bool;
  sb_ktls_disabled : bool;
  sb_cipher_suites : option (list CipherSuite);
  sb_named_groups : option (list NamedGroup);
  sb_client_auth : ClientAuthMode;
  sb_client_auth_roots_pem : option (list byte);
}.

Record ServerConfig : Type := {
  sc_ctx : nat;
  sc_ktls_disabled : bool;
}.

(** [ServerConfigBuilder::default()] *)
Definition server_builder : ServerConfigBuilder := {|
  sb_alpn_protocols := []; sb_min_version := None; sb_max_version := None;
  sb_ktls_aead_only := false; sb_ktls_disabled := false; sb_cipher_suites := None;
  sb_named_groups := None; sb_client_auth := NoAuth; sb_client_auth_roots_pem := None |}.

(** [if list.is_empty() { None } else { Some(list.to_vec()) }] *)
Definition unless_empty {A} (l : list A) : option (list A) :=
  if is_empty l then None else Some l.

Definition server_set_alpn_protocols (protos : list (list byte)) (b : ServerConfigBuilder) : ServerConfigBuilder :=
  {| sb_alpn_protocols := protos; sb_min_version := sb_min_version b;
     sb_max_version := sb_max_version b; sb_ktls_aead_only := sb_ktls_aead_only b;
     sb_ktls_disabled := sb_ktls_disabled b; sb_cipher_suites := sb_cipher_suites b;
     sb_named_groups := sb_named_groups b; sb_client_auth := sb_client_auth b;
     sb_client_auth_roots_pem := sb_client_auth_roots_pem b |}.

Definition server_min_protocol_version (v : ProtocolVersion) (b : ServerConfigBuilder) : ServerConfigBuilder :=
  {| sb_alpn_protocols := sb_alpn_protocols b; sb_min_version := Some v;
     sb_max_version := sb_max_version b; sb_ktls_aead_only := sb_ktls_aead_only b;
     sb_ktls_disabled := sb_ktls_disabled b; sb_cipher_suites := sb_cipher_suites b;
     sb_named_groups := sb_named_groups b; sb_client_auth := sb_client_auth b;
     sb_client_auth_roots_pem := sb_client_auth_roots_pem b |}.

Definition server_max_protocol_version (v : ProtocolVersion) (b : ServerConfigBuilder) : ServerConfigBuilder :=
  {| sb_alpn_protocols := sb_alpn_protocols b; sb_min_version := sb_min_version b;
     sb_max_version := Some v; sb_ktls_aead_only := sb_ktls_aead_only b;
     sb_ktls_disabled := sb_ktls_disabled b; sb_cipher_suites := sb_cipher_suites b;
     sb_named_groups := sb_named_groups b; sb_client_auth := sb_client_auth b;
     sb_client_auth_roots_pem := sb_client_auth_roots_pem b |}.

Definition server_set_ktls_aead_only (on : bool) (b : ServerConfigBuilder) : ServerConfigBuilder :=
  {| sb_alpn_protocols := sb_alpn_protocols b; sb_min_version := sb_min_version b;
     sb_max_version := sb_max_version b; sb_ktls_aead_only := on;
     sb_ktls_disabled := sb_ktls_disabled b; sb_cipher_suites := sb_cipher_suites b;
     sb_named_groups := sb_named_groups b; sb_client_auth := sb_client_auth b;
     sb_client_auth_roots_pem := sb_client_auth_roots_pem b |}.

Definition server_disable_ktls (b : ServerConfigBuilder) : ServerConfigBuilder :=
  {| sb_alpn_protocols := sb_alpn_protocols b; sb_min_version := sb_min_version b;
     sb_max_version := sb_max_version b; sb_ktls_aead_only := sb_ktls_aead_only b;
     sb_ktls_disabled := true; sb_cipher_suites := sb_cipher_suites b;
     sb_named_groups := sb_named_groups b; sb_client_auth := sb_client_auth b;
     sb_client_auth_roots_pem := sb_client_auth_roots_pem b |}.

Definition server_set_cipher_suites (suites : list CipherSuite) (b : ServerConfigBuilder) : ServerConfigBuilder :=
  {| sb_alpn_protocols := sb_alpn_protocols b; sb_min_version := sb_min_version b;
     sb_max_version := sb_max_version b; sb_ktls_aead_only := sb_ktls_aead_only b;
     sb_ktls_disabled := sb_ktls_disabled b; sb_cipher_suites := unless_empty suites;
     sb_named_groups := sb_named_groups b; sb_client_auth := sb_client_auth b;
     sb_client_auth_roots_pem := sb_client_auth_roots_pem b |}.

Definition server_set_named_groups (groups : list NamedGroup) (b : ServerConfigBuilder) : ServerConfigBuilder :=
  {| sb_alpn_protocols := sb_alpn_protocols b; sb_min_version := sb_min_version b;
     sb_max_version := sb_max_version b; sb_ktls_aead_only := sb_ktls_aead_only b;
     sb_ktls_disabled := sb_ktls_disabled b; sb_cipher_suites := sb_cipher_suites b;
     sb_named_groups := unless_empty groups; sb_client_auth := sb_client_auth b;
     sb_client_auth_roots_pem := sb_client_auth_roots_pem b |}.

Definition server_client_auth (mode : ClientAuthMode) (roots_pem : list byte)
    (b : ServerConfigBuilder) : ServerConfigBuilder :=
  {| sb_alpn_protocols := sb_alpn_protocols b; sb_min_version := sb_min_version b;
     sb_max_version := sb_max_version b; sb_ktls_aead_only := sb_ktls_aead_only b;
     sb_ktls_disabled := sb_ktls_disabled b; sb_cipher_suites := sb_cipher_suites b;
     sb_named_groups := sb_named_groups b; sb_client_auth := mode;
     sb_client_auth_roots_pem := Some roots_pem |}.

(** ** Finishing a configuration *)

(** [Path::to_str] then [CString::new]; a path is its bytes. *)
Definition path_to_cstring (p : list byte) : Result (list byte) :=
  match from_utf8 p with
  | None =>
      Err (Init ("path " +:+ from_utf8_lossy p +:+
        " is not valid UTF-8; AWS-LC PEM loaders require a NUL-terminated path"))
  | Some s =>
      match cstring_new s with
      | None => Err (Init ("path " +:+ from_utf8_lossy p +:+ " contains an embedded NUL byte"))
      | Some c => Ok c
      end
  end.

Section server.
Context {W : Type} `{AwsLcConsts, ErrQueue W, LibSslCtx W, LibCrypto W}.

Definition new_server_ctx : M W (Result nat) :=
  let* raw := ext (SSL_CTX_new true) in
  match raw with
  | Some ctx => mret (Ok ctx)
  | None => init_error "SSL_CTX_new"
  end.

(** Client-certificate verification. *)
Definition apply_client_auth (b : ServerConfigBuilder) (ctx : nat) : M W (Result unit) :=
  match sb_client_auth b with
  | NoAuth => mret (Ok tt)
  | mode =>
      match sb_client_auth_roots_pem b with
      | None => mret (Err (Init "client_auth requires a non-empty CA bundle (roots_pem)"))
      | Some roots_pem =>
          let? _ := load_client_ca_roots_pem ctx roots_pem in
          let flags :=
            match mode with
            | Required => Z.lor SSL_VERIFY_PEER SSL_VERIFY_FAIL_IF_NO_PEER_CERT
            | _ => SSL_VERIFY_PEER
            end in
          do* modify (SSL_CTX_set_verify ctx flags) ;
          mret (Ok tt)
      end
  end.

(** The ALPN list and its callback. *)
Definition apply_server_alpn (b : ServerConfigBuilder) (ctx : nat) : M (Proc * W) (Result unit) :=
  if is_empty (sb_alpn_protocols b) then mret (Ok tt)
  else
    match encode_alpn_wire (sb_alpn_protocols b) with
    | Err e => mret (Err (Init ("encoding ALPN protocol list: " +:+ fmt_AlpnEncodeError e)))
    | Ok wire =>
        let? _ := install_alpn_wire ctx wire in
        do* lift (modify (SSL_CTX_set_alpn_select_cb ctx)) ;
        mret (Ok tt)
    end.

Definition server_settings (b : ServerConfigBuilder) (ctx : nat) : M W (Result unit) :=
  let? _ := setter 1 (SSL_CTX_check_private_key ctx) "certificate and private key do not match" in
  let? _ := version_bounds (sb_min_version b) (sb_max_version b) ctx in
  do* modify (SSL_CTX_set_options ctx SSL_OP_NO_TICKET) ;
  let* _ := ext (SSL_CTX_set_num_tickets ctx 0) in
  let? _ := if sb_ktls_aead_only b then
              setter 1 (SSL_CTX_set_cipher_list ctx (bytes_of "ECDHE+AESGCM:ECDHE+CHACHA20"))
                "SSL_CTX_set_cipher_list (AEAD-only)"
            else mret (Ok tt) in
  let? _ := overrides (sb_cipher_suites b) (sb_named_groups b) ctx in
  apply_client_auth b ctx.

(** [ServerConfigBuilder::finish]: the context is moved in and dropped on an
    early return. *)
Definition server_finish (b : ServerConfigBuilder) (ctx : nat) : M (Proc * W) (Result ServerConfig) :=
  or_drop (drop_ctx ctx)
    (let? _ := lift (server_settings b ctx) in
     let? _ := apply_server_alpn b ctx in
     mret (Ok {| sc_ctx := ctx; sc_ktls_disabled := sb_ktls_disabled b |})).

(** The two files named by their paths. *)
Definition load_pem_files (cert key : list byte) (ctx : nat) : M W (Result unit) :=
  match path_to_cstring cert with
  | Err e => mret (Err e)
  | Ok cert_c =>
      match path_to_cstring key with
      | Err e => mret (Err e)
      | Ok key_c =>
          let? _ := setter 1 (SSL_CTX_use_certificate_chain_file ctx cert_c)
                      ("loading certificate chain from " +:+ from_utf8_lossy cert) in
          setter 1 (SSL_CTX_use_PrivateKey_file ctx key_c SSL_FILETYPE_PEM)
            ("loading private key from " +:+ from_utf8_lossy key)
      end
  end.

(** A fresh context, the identity loaded into it by [load], and [finish]. *)
Definition server_build (load : nat → M W (Result unit)) (b : ServerConfigBuilder) :
    M (Proc * W) (Result ServerConfig) :=
  let? ctx := lift new_server_ctx in
  let? _ := or_drop (drop_ctx ctx) (lift (load ctx)) in
  server_finish b ctx.

Definition with_pem_files (cert key : list byte) : ServerConfigBuilder → M (Proc * W) (Result ServerConfig) :=
  server_build (load_pem_files cert key).

Definition with_pem_bytes (cert key : list byte) : ServerConfigBuilder → M (Proc * W) (Result ServerConfig) :=
  server_build (λ ctx,
    let? _ := load_cert_chain_pem ctx cert in
    load_private_key_pem ctx key).

Definition with_der_bytes (cert_chain : list (list byte)) (key : list byte) :
    ServerConfigBuilder → M (Proc * W) (Result ServerConfig) :=
  server_build (λ ctx,
    let? _ := load_cert_chain_der ctx cert_chain in
    load_private_key_der ctx key).
End server.
