(* ===== verification/ClientConfig.v ===== *)
(** * config/client.rs: the client configuration builder

    The builder with its setters and [build], over the loaders of [Loaders]. *)

From S2P Require Import Prelude Std Env Objects Errors Ownership Alpn Suites Loaders ServerConfig.

Local Open Scope Z_scope.

(** ** The builder *)

(** Where the trust anchors come from. *)
Inductive Roots : Type :=
| System
| RootsPem (pem : list byte)
| RootsDer (certs : list (list byte))
| Disabled.

(** The client's own certificate and key. *)
Inductive ClientAuth : Type :=
| AuthPem (cert_pem key_pem : list byte)
| AuthDer (cert_chain_der : list (list byte)) (key_der : list byte).

Record ClientConfigBuilder : Type := {
  cb_roots : Roots;
  cb_alpn_protocols : list (list byte);
  cb_min_version : option ProtocolVersion;
  cb_max_version : option ProtocolVersion;
  cb_client_auth : option ClientAuth;
  cb_cipher_suites : option (list CipherSuite);
  cb_named_groups : option (list NamedGroup);
  cb_ktls_disabled : bool;
}.

Record ClientConfig : Type := {
  cc_ctx : nat;
  cc_ktls_disabled : bool;
}.

(** [ClientConfigBuilder::default()] *)
Definition client_builder : ClientConfigBuilder := {|
  cb_roots := System; cb_alpn_protocols := []; cb_min_version := None; cb_max_version := None;
  cb_client_auth := None; cb_cipher_suites := None; cb_named_groups := None;
  cb_ktls_disabled := false |}.

Definition with_system_root_certs (b : ClientConfigBuilder) :
    ClientConfigBuilder :=
  {| cb_roots := System; cb_alpn_protocols := cb_alpn_protocols b;
     cb_min_version := cb_min_version b; cb_max_version := cb_max_version b;
     cb_client_auth := cb_client_auth b; cb_cipher_suites := cb_cipher_suites b;
     cb_named_groups := cb_named_groups b; cb_ktls_disabled := cb_ktls_disabled b |}.

Definition with_root_certs_pem_bytes (pem : list byte) (b : ClientConfigBuilder) :
    ClientConfigBuilder :=
  {| cb_roots := RootsPem pem; cb_alpn_protocols := cb_alpn_protocols b;
     cb_min_version := cb_min_version b; cb_max_version := cb_max_version b;
     cb_client_auth := cb_client_auth b; cb_cipher_suites := cb_cipher_suites b;
     cb_named_groups := cb_named_groups b; cb_ktls_disabled := cb_ktls_disabled b |}.

Definition with_root_certs_der_bytes (certs : list (list byte)) (b : ClientConfigBuilder) :
    ClientConfigBuilder :=
  {| cb_roots := RootsDer certs; cb_alpn_protocols := cb_alpn_protocols b;
     cb_min_version := cb_min_version b; cb_max_version := cb_max_version b;
     cb_client_auth := cb_client_auth b; cb_cipher_suites := cb_cipher_suites b;
     cb_named_groups := cb_named_groups b; cb_ktls_disabled := cb_ktls_disabled b |}.

Definition dangerous_disable_verification (b : ClientConfigBuilder) :
    ClientConfigBuilder :=
  {| cb_roots := Disabled; cb_alpn_protocols := cb_alpn_protocols b;
     cb_min_version := cb_min_version b; cb_max_version := cb_max_version b;
     cb_client_auth := cb_client_auth b; cb_cipher_suites := cb_cipher_suites b;
     cb_named_groups := cb_named_groups b; cb_ktls_disabled := cb_ktls_disabled b |}.

Definition client_set_alpn_protocols (protos : list (list byte)) (b : ClientConfigBuilder) :
    ClientConfigBuilder :=
  {| cb_roots := cb_roots b; cb_alpn_protocols := protos; cb_min_version := cb_min_version b;
     cb_max_version := cb_max_version b; cb_client_auth := cb_client_auth b;
     cb_cipher_suites := cb_cipher_suites b; cb_named_groups := cb_named_groups b;
     cb_ktls_disabled := cb_ktls_disabled b |}.

Definition client_min_protocol_version (v : ProtocolVersion) (b : ClientConfigBuilder) :
    ClientConfigBuilder :=
  {| cb_roots := cb_roots b; cb_alpn_protocols := cb_alpn_protocols b; cb_min_version := Some v;
     cb_max_version := cb_max_version b; cb_client_auth := cb_client_auth b;
     cb_cipher_suites := cb_cipher_suites b; cb_named_groups := cb_named_groups b;
     cb_ktls_disabled := cb_ktls_disabled b |}.

Definition client_max_protocol_version (v : ProtocolVersion) (b : ClientConfigBuilder) :
    ClientConfigBuilder :=
  {| cb_roots := cb_roots b; cb_alpn_protocols := cb_alpn_protocols b;
     cb_min_version := cb_min_version b; cb_max_version := Some v;
     cb_client_auth := cb_client_auth b; cb_cipher_suites := cb_cipher_suites b;
     cb_named_groups := cb_named_groups b; cb_ktls_disabled := cb_ktls_disabled b |}.

Definition with_client_auth_pem_bytes (cert key : list byte) (b : ClientConfigBuilder) :
    ClientConfigBuilder :=
  {| cb_roots := cb_roots b; cb_alpn_protocols := cb_alpn_protocols b;
     cb_min_version := cb_min_version b; cb_max_version := cb_max_version b;
     cb_client_auth := Some (AuthPem cert key); cb_cipher_suites := cb_cipher_suites b;
     cb_named_groups := cb_named_groups b; cb_ktls_disabled := cb_ktls_disabled b |}.

Definition with_client_auth_der_bytes (cert_chain : list (list byte)) (key : list byte) (b : ClientConfigBuilder) :
    ClientConfigBuilder :=
  {| cb_roots := cb_roots b; cb_alpn_protocols := cb_alpn_protocols b;
     cb_min_version := cb_min_version b; cb_max_version := cb_max_version b;
     cb_client_auth := Some (AuthDer cert_chain key); cb_cipher_suites := cb_cipher_suites b;
     cb_named_groups := cb_named_groups b; cb_ktls_disabled := cb_ktls_disabled b |}.

Definition client_set_cipher_suites (suites : list CipherSuite) (b : ClientConfigBuilder) :
    ClientConfigBuilder :=
  {| cb_roots := cb_roots b; cb_alpn_protocols := cb_alpn_protocols b;
     cb_min_version := cb_min_version b; cb_max_version := cb_max_version b;
     cb_client_auth := cb_client_auth b; cb_cipher_suites := unless_empty suites;
     cb_named_groups := cb_named_groups b; cb_ktls_disabled := cb_ktls_disabled b |}.

Definition client_set_named_groups (groups : list NamedGroup) (b : ClientConfigBuilder) :
    ClientConfigBuilder :=
  {| cb_roots := cb_roots b; cb_alpn_protocols := cb_alpn_protocols b;
     cb_min_version := cb_min_version b; cb_max_version := cb_max_version b;
     cb_client_auth := cb_client_auth b; cb_cipher_suites := cb_cipher_suites b;
     cb_named_groups := unless_empty groups; cb_ktls_disabled := cb_ktls_disabled b |}.

Definition client_disable_ktls (b : ClientConfigBuilder) :
    ClientConfigBuilder :=
  {| cb_roots := cb_roots b; cb_alpn_protocols := cb_alpn_protocols b;
     cb_min_version := cb_min_version b; cb_max_version := cb_max_version b;
     cb_client_auth := cb_client_auth b; cb_cipher_suites := cb_cipher_suites b;
     cb_named_groups := cb_named_groups b; cb_ktls_disabled := true |}.

(** ** Building *)

Section client.
Context {W : Type} `{AwsLcConsts, ErrQueue W, LibSslCtx W, LibCrypto W}.

Definition new_client_ctx : M W (Result nat) :=
  let* raw := ext (SSL_CTX_new false) in
  match raw with
  | Some ctx => mret (Ok ctx)
  | None => init_error "SSL_CTX_new"
  end.

Definition apply_roots (roots : Roots) (ctx : nat) : M W (Result unit) :=
  match roots with
  | System =>
      let? _ := setter 1 (SSL_CTX_set_default_verify_paths ctx) "SSL_CTX_set_default_verify_paths" in
      do* modify (SSL_CTX_set_verify ctx SSL_VERIFY_PEER) ;
      mret (Ok tt)
  | RootsPem pem =>
      let? _ := load_trust_anchors_pem ctx pem in
      do* modify (SSL_CTX_set_verify ctx SSL_VERIFY_PEER) ;
      mret (Ok tt)
  | RootsDer certs =>
      let? _ := load_trust_anchors_der ctx certs in
      do* modify (SSL_CTX_set_verify ctx SSL_VERIFY_PEER) ;
      mret (Ok tt)
  | Disabled =>
      do* modify (SSL_CTX_set_verify ctx SSL_VERIFY_NONE) ;
      mret (Ok tt)
  end.

Definition apply_own_cert (auth : option ClientAuth) (ctx : nat) : M W (Result unit) :=
  match auth with
  | None => mret (Ok tt)
  | Some auth =>
      let? _ := match auth with
                | AuthPem cert_pem key_pem =>
                    let? _ := load_client_cert_chain_pem ctx cert_pem in
                    load_client_private_key_pem ctx key_pem
                | AuthDer cert_chain_der key_der =>
                    let? _ := load_client_cert_chain_der ctx cert_chain_der in
                    load_client_private_key_der ctx key_der
                end in
      setter 1 (SSL_CTX_check_private_key ctx) "client cert and private key do not match"
  end.

Definition apply_client_alpn (protos : list (list byte)) (ctx : nat) : M W (Result unit) :=
  if is_empty protos then mret (Ok tt)
  else
    match encode_alpn_wire protos with
    | Err e => mret (Err (Init ("encoding ALPN protocol list: " +:+ fmt_AlpnEncodeError e)))
    | Ok wire => setter 0 (SSL_CTX_set_alpn_protos ctx wire) "SSL_CTX_set_alpn_protos"
    end.

Definition client_settings (b : ClientConfigBuilder) (ctx : nat) : M W (Result unit) :=
  let? _ := apply_roots (cb_roots b) ctx in
  let? _ := apply_own_cert (cb_client_auth b) ctx in
  let? _ := version_bounds (cb_min_version b) (cb_max_version b) ctx in
  let? _ := overrides (cb_cipher_suites b) (cb_named_groups b) ctx in
  apply_client_alpn (cb_alpn_protocols b) ctx.

(** [ClientConfigBuilder::build]: the context is dropped on an early return. *)
Definition client_build (b : ClientConfigBuilder) : M (Proc * W) (Result ClientConfig) :=
  let? ctx := lift new_client_ctx in
  or_drop (drop_ctx ctx)
    (let? _ := lift (client_settings b ctx) in
     mret (Ok {| cc_ctx := ctx; cc_ktls_disabled := cb_ktls_disabled b |})).
End client.
