(* ===== verification/ConfigProps.v ===== *)
(** * What the configuration builders guarantee

    A configuration that is built is a context with exactly the settings of the
    builder; on every path the crate ends up owning that context, or nothing. *)

From S2P Require Import Prelude Std Env Objects Sim Errors Ownership Alpn Suites Loaders LoaderProps ServerConfig.

Local Open Scope Z_scope.

(** ** Settings as functions of a context *)

Section settings.
Context `{AwsLcConsts}.

Definition version_code (v : ProtocolVersion) : Z :=
  match v with Tls12 => TLS1_2_VERSION | Tls13 => TLS1_3_VERSION end.

Definition bounds_fun (min max : option ProtocolVersion) : CtxState → CtxState :=
  cs_on_max_version (λ _, version_code (default Tls13 max)) ∘
  cs_on_min_version (λ _, version_code (default Tls12 min)).

Definition suites_fun (suites : option (list CipherSuite)) : CtxState → CtxState :=
  match suites with Some l => allowlist l | None => id end.

Definition groups_fun (groups : option (list NamedGroup)) : CtxState → CtxState :=
  match groups with Some l => cs_on_groups (λ _, Some (nid <$> l)) | None => id end.

(** The lists a setter of a builder stores. *)
Definition suites_ok (suites : option (list CipherSuite)) : Prop :=
  ∀ l, suites = Some l → l ≠ [] ∧ l ⊆ ALL_CIPHER_SUITES.
Definition groups_ok (groups : option (list NamedGroup)) : Prop := groups ≠ Some [].
End settings.

(** The process allocates its index once. *)
Definition idx_kept (p p' : Proc) : Prop := ∀ i, alpn_idx p = Some i → alpn_idx p' = Some i.

Lemma idx_kept_refl p : idx_kept p p.
Proof. by intros ?. Qed.
#[export] Hint Resolve idx_kept_refl : core.

Section props.
Context {W : Type} `{AwsLcConsts, !AwsLcConstsOk, ErrQueue W, !ErrQueueLaws W, LibSslCtx W,
  !LibSslCtxLaws W, LibCrypto W, !LibCryptoLaws W}.
Implicit Types (w : W) (c : nat) (g : Ghost).

(** ** Sequences of settings *)

(** One fallible step after the settings [acc] were applied. *)
Lemma twp_acc {A} c acc f g (m : M W (Result unit)) (k : M W (Result A)) (Q : Result A → W → Prop) w :
  loads c acc true g (ghost w) → OCtx c ∈ g_refs g → keeps_ex acc → keeps_ex f →
  (OCtx c ∈ g_refs (ghost w) →
   twp m (λ r w', loads c f (is_ok r) (ghost w) (ghost w')) w) →
  (∀ e w', loads c id false g (ghost w') → Q (Err e) w') →
  (∀ w', loads c (f ∘ acc) true g (ghost w') → twp k Q w') →
  twp (let? _ := m in k) Q w.
Proof.
  intros Hacc Hc Hka Hkf Hm Herr Hk. twp_step.
  eapply twp_mono; [apply Hm; by eapply loads_elem|].
  intros [[]|e] w' Hl; (eapply loads_trans in Hl; [|exact Hacc|by right]).
  - by apply Hk.
  - twp_step. apply Herr. by eapply loads_fail.
Qed.

Lemma twp_last c acc f g (m : M W (Result unit)) (Q : Result unit → W → Prop) w :
  loads c acc true g (ghost w) → OCtx c ∈ g_refs g → keeps_ex acc →
  (OCtx c ∈ g_refs (ghost w) →
   twp m (λ r w', loads c f (is_ok r) (ghost w) (ghost w')) w) →
  (∀ r w', loads c (f ∘ acc) (is_ok r) g (ghost w') → Q r w') →
  twp m Q w.
Proof.
  intros Hacc Hc Hka Hm HQ. eapply twp_mono; [apply Hm; by eapply loads_elem|].
  intros r w' Hl. apply HQ. by eapply loads_trans; [exact Hacc|exact Hl|right].
Qed.

Lemma twp_skip c w :
  twp (mret (Ok tt)) (λ (r : Result unit) w', loads c id (is_ok r) (ghost w) (ghost w')) w.
Proof. twp_step. apply loads_id. Qed.

Lemma twp_setter_loads c f good call label w :
  (∀ r w', call w = (r, w') → sets c f (r =? good) (ghost w) (ghost w')) →
  twp (setter good call label) (λ r w', loads c f (is_ok r) (ghost w) (ghost w')) w.
Proof. intros Hs. eapply twp_setter; [done|]. intros. by apply sets_loads. Qed.

Lemma twp_raw_or_panic {S} v (Q : Z → S → Prop) s :
  Q (version_code v) s → twp (raw_or_panic v) Q s.
Proof.
  intros HQ. unfold raw_or_panic, ProtocolVersion_raw, version_code in *.
  rewrite tls1_2_version, tls1_3_version in *. by destruct v.
Qed.

Lemma twp_version_bounds c min max w :
  OCtx c ∈ g_refs (ghost w) →
  twp (version_bounds min max c)
    (λ r w', loads c (bounds_fun min max) (is_ok r) (ghost w) (ghost w')) w.
Proof.
  intros Hc. unfold version_bounds. twp_step. apply twp_raw_or_panic. twp_step.
  apply twp_raw_or_panic. eapply (twp_acc c id); [apply loads_id|done|done| | | |].
  2: { intros. apply twp_setter_loads. intros. by eapply set_min_spec. }
  - done.
  - intros. by eapply loads_fail.
  - intros w1 Hl. eapply twp_last; [exact Hl|done|done| |by intros].
    intros. apply twp_setter_loads. intros. by eapply set_max_spec.
Qed.

Lemma twp_overrides c suites groups w :
  suites_ok suites → groups_ok groups → OCtx c ∈ g_refs (ghost w) →
  twp (overrides suites groups c)
    (λ r w', loads c (groups_fun groups ∘ suites_fun suites) (is_ok r) (ghost w) (ghost w')) w.
Proof.
  intros Hs Hg Hc. unfold overrides.
  eapply (twp_acc c id _ _ _ _ _ _ (loads_id _ _)); [done|done| | | |].
  2: { intros _. instantiate (1 := suites_fun suites). destruct suites as [l|]; [|apply twp_skip].
       destruct (Hs l eq_refl). eapply twp_mono; [by apply twp_apply_suites|].
       intros. by apply sets_loads. }
  - by destruct suites.
  - intros. by eapply loads_fail.
  - intros w1 Hl. eapply twp_last; [exact Hl|done|by destruct suites| |by intros].
    intros Hc1. destruct groups as [l|]; [|apply twp_skip].
    eapply twp_mono; [apply twp_apply_groups; [by intros ->|done]|]. intros. by apply sets_loads.
Qed.

(** ** The server's settings *)

Definition aead_fun (b : ServerConfigBuilder) : CtxState → CtxState :=
  if sb_ktls_aead_only b
  then cs_on_cipher_list (λ _, Some (bytes_of "ECDHE+AESGCM:ECDHE+CHACHA20")) else id.

Definition auth_fun (mode : ClientAuthMode) (roots : list (list byte)) : CtxState → CtxState :=
  match mode with
  | NoAuth => id
  | Optional => cs_on_verify (λ _, SSL_VERIFY_PEER) ∘ cs_on_anchors (λ a, a ++ roots)
  | Required =>
      cs_on_verify (λ _, Z.lor SSL_VERIFY_PEER SSL_VERIFY_FAIL_IF_NO_PEER_CERT) ∘
      cs_on_anchors (λ a, a ++ roots)
  end.

(** The client roots that a server loads: all certificates of its bundle. *)
Definition roots_ok (b : ServerConfigBuilder) (roots : list (list byte)) : Prop :=
  sb_client_auth b ≠ NoAuth →
  ∃ pem, sb_client_auth_roots_pem b = Some pem ∧ pem_bundle pem roots ∧ roots ≠ [].

Definition server_fun (b : ServerConfigBuilder) (roots : list (list byte)) : CtxState → CtxState :=
  auth_fun (sb_client_auth b) roots ∘
  (groups_fun (sb_named_groups b) ∘ suites_fun (sb_cipher_suites b)) ∘ aead_fun b ∘
  (cs_on_num_tickets (λ _, 0) ∘ cs_on_options (λ o, Z.lor o SSL_OP_NO_TICKET)) ∘
  bounds_fun (sb_min_version b) (sb_max_version b).

Lemma twp_apply_client_auth b c w :
  OCtx c ∈ g_refs (ghost w) →
  twp (apply_client_auth b c)
    (λ r w', ∃ roots, loads c (auth_fun (sb_client_auth b) roots) (is_ok r) (ghost w) (ghost w') ∧
                      (is_ok r = true → roots_ok b roots)) w.
Proof.
  intros Hc. unfold apply_client_auth, roots_ok.
  destruct (sb_client_auth b) eqn:Em; [twp_step; exists []; split; [apply loads_id|done]|..].
  all: destruct (sb_client_auth_roots_pem b) as [pem|];
    [|twp_step; exists []; split; [apply sets_loads, sets_noop|done]].
  all: twp_step; eapply twp_mono; [unfold load_client_ca_roots_pem; apply twp_anchors_pem, Hc|];
    intros [[]|e] w1 (f & Hl & Hf); [|twp_step; exists []; split; [by eapply loads_fail|done]].
  all: destruct (Hf eq_refl) as (roots & Hb & Hne & ->); twp_step; twp_step; twp_step;
    exists roots; (split; [|by intros _ _; exists pem]).
  all: eapply loads_trans; [exact Hl|apply sets_loads, set_verify_spec; by eapply loads_elem|by right].
Qed.

Lemma suites_groups_keep_ex suites groups : keeps_ex (groups_fun groups ∘ suites_fun suites).
Proof. by destruct suites, groups. Qed.

Lemma aead_keeps_ex b : keeps_ex (aead_fun b).
Proof. unfold aead_fun. by destruct (sb_ktls_aead_only b). Qed.

Definition server_wf (b : ServerConfigBuilder) : Prop :=
  suites_ok (sb_cipher_suites b) ∧ groups_ok (sb_named_groups b).

Lemma server_fun_keeps_ex b roots : keeps_ex (server_fun b roots).
Proof.
  intros s. unfold server_fun, compose, aead_fun.
  by destruct (sb_client_auth b), (sb_named_groups b), (sb_cipher_suites b), (sb_ktls_aead_only b).
Qed.

Lemma twp_server_settings b c w :
  server_wf b → OCtx c ∈ g_refs (ghost w) →
  twp (server_settings b c)
    (λ r w', ∃ roots, loads c (server_fun b roots) (is_ok r) (ghost w) (ghost w') ∧
                      (is_ok r = true → roots_ok b roots)) w.
Proof.
  intros [Hs Hg] Hc. unfold server_settings.
  assert (∀ e w', loads c id false (ghost w) (ghost w') → ∃ roots,
    loads c (server_fun b roots) (is_ok (Err e : Result unit)) (ghost w) (ghost w') ∧
    (is_ok (Err e : Result unit) = true → roots_ok b roots)) as Herr.
  { intros e w' Hl. exists []. split; [by eapply loads_fail|done]. }
  eapply (twp_acc c id id _ _ _ _ _ (loads_id _ _)); [done..| |done|].
  { intros _. apply twp_setter_loads. intros r w' Hk%check_key_spec; [|done]. rewrite Hk.
    destruct (r =? 1); [apply sets_id|apply sets_noop]. }
  intros w0 Hl0. 
  eapply (twp_acc c _ (bounds_fun _ _) _ _ _ _ _ Hl0); [done..|apply twp_version_bounds|done|].
  intros w1 Hl1. twp_step. twp_step.
  pose proof (sets_loads _ _ _ _ _
    (set_options_spec c SSL_OP_NO_TICKET w1 (loads_elem _ _ _ _ _ _ Hl1 Hc))) as Hlo.
  eapply loads_trans in Hlo; [|exact Hl1|by left].
  twp_step. twp_step. apply set_tickets_spec in Hcall as Hl2; [|by eapply loads_elem].
  apply sets_loads in Hl2. eapply loads_trans in Hl2; [|exact Hlo|by left].
  eapply (twp_acc c _ (aead_fun b) _ _ _ _ _ Hl2); [done..|apply aead_keeps_ex| |done|].
  { intros Hc2. unfold aead_fun. destruct (sb_ktls_aead_only b); [|apply twp_skip].
    apply twp_setter_loads. intros. by eapply set_cipher_list_spec. }
  intros w3 Hl3. eapply (twp_acc c _ (groups_fun _ ∘ suites_fun _) _ _ _ _ _ Hl3);
    [done|intros s; by etrans; [apply aead_keeps_ex|]|apply suites_groups_keep_ex|by apply twp_overrides|done|].
  intros w4 Hl4. eapply twp_mono; [apply twp_apply_client_auth; by eapply loads_elem|].
  intros r w5 (roots & Hl5 & Hr). exists roots. split; [|done].
  eapply loads_ext; [|eapply loads_trans; [exact Hl4|exact Hl5|right]]; [done|].
  intros s. etrans; [apply suites_groups_keep_ex|]. by etrans; [apply aead_keeps_ex|].
Qed.

(** ** The ALPN list in the context's application data *)

Context `{!ExIndexAllocates W}.
Implicit Types (p : Proc) (s : Proc * W).

(** Raw pointers of later boxes are fresh. *)
Definition proc_wf (p : Proc) : Prop := ∀ k, is_Some (boxes p !! k) → (k < next_box p)%nat.

Lemma proc_wf_next p : proc_wf p → boxes p !! next_box p = None.
Proof. intros Hwf. apply eq_None_not_Some. intros Hk%Hwf. lia. Qed.

Lemma twp_alpn_ex_index (Q : Z → Proc * W → Prop) s :
  (∀ i p' w', alpn_idx p' = Some i → idx_kept s.1 p' → next_box p' = next_box s.1 →
     boxes p' = boxes s.1 → ghost w' = ghost s.2 → Q i (p', w')) →
  twp alpn_ex_index Q s.
Proof.
  intros HQ. unfold alpn_ex_index. twp_step. twp_step. destruct s as [p w]. cbn [fst snd] in *.
  destruct (alpn_idx p) as [i|] eqn:Ei; [twp_step; by apply HQ|].
  do 3 twp_step. cbn [fst snd] in *.
  pose proof (ex_new_index_nonneg w) as Hn. rewrite Hcall in Hn. cbn [fst] in Hn.
  destruct (Z.leb_spec 0 a); [|lia]. cbn [negb]. do 3 twp_step. apply HQ; try done.
  - intros i. cbn. by rewrite Ei.
  - by apply ex_new_index_spec in Hcall.
Qed.

(** Where a successful [apply_server_alpn] leaves the wire list. *)
Definition alpn_stored (b : ServerConfigBuilder) (ex : option (Z * nat)) (p p' : Proc) : Prop :=
  if is_empty (sb_alpn_protocols b) then ex = None ∧ boxes p' = boxes p
  else ∃ i k wire, ex = Some (i, k) ∧ encode_alpn_wire (sb_alpn_protocols b) = Ok wire ∧
    boxes p !! k = None ∧ boxes p' = <[k := wire]> (boxes p) ∧ alpn_idx p' = Some i.

Definition alpn_fun (ex : option (Z * nat)) : CtxState → CtxState :=
  match ex with
  | Some ik => cs_on_alpn_cb (λ _, true) ∘ cs_on_ex_data (λ _, Some ik)
  | None => id
  end.

Lemma twp_apply_server_alpn b c s :
  proc_wf s.1 → OCtx c ∈ g_refs (ghost s.2) →
  twp (apply_server_alpn b c)
    (λ r s', proc_wf s'.1 ∧ idx_kept s.1 s'.1 ∧
       match r with
       | Ok _ => ∃ ex, alpn_stored b ex s.1 s'.1 ∧
                       loads c (alpn_fun ex) true (ghost s.2) (ghost s'.2)
       | Err _ => boxes s'.1 = boxes s.1 ∧ ghost s'.2 = ghost s.2
       end) s.
Proof.
  intros Hwf Hc. unfold apply_server_alpn, alpn_stored.
  destruct (is_empty (sb_alpn_protocols b)).
  { twp_step. split_and!; [done|done|]. exists None. split; [done|]. apply loads_id. }
  destruct (encode_alpn_wire (sb_alpn_protocols b)) as [wire|e]; [|by twp_step].
  twp_step. unfold install_alpn_wire, box_new. do 6 twp_step.
  destruct s as [p w]. cbn [fst snd] in *. pose proof (proc_wf_next p Hwf) as Hfresh.
  twp_step. apply twp_alpn_ex_index. cbn [fst snd alpn_idx next_box boxes].
  intros i p' w1 Hi Hkept Hnext Hbox Hg1. do 3 twp_step. cbn [fst snd] in *.
  apply set_ex_data_spec in Hcall as Hs; [|by rewrite Hg1].
  assert (proc_wf p') as Hwf'.
  { intros k. rewrite Hbox, Hnext. intros [->|[_ Hk]]%lookup_insert_is_Some; [lia|].
    apply Hwf in Hk. lia. }
  destruct (a =? 1); cbn [negb].
  - twp_step. do 4 twp_step. split_and!; [done|done|]. exists (Some (i, next_box p)). split.
    { exists i, (next_box p), wire. by split_and!. }
    apply sets_loads. rewrite Hg1 in Hs. eapply sets_trans; [exact Hs| |by left].
    apply set_alpn_cb_spec. eapply sets_elem; [exact Hs|done].
  - unfold box_drop. do 3 twp_step. cbn [fst]. rewrite Hbox, lookup_insert_eq. do 2 twp_step.
    apply twp_init_error. intros m w2 Hg2. twp_step. cbn [fst snd boxes] in *. split_and!.
    + intros k. cbn [boxes next_box]. rewrite <- Hbox, lookup_delete_is_Some. intros [_ Hk]. by apply Hwf'.
    + done.
    + by rewrite delete_insert_id.
    + congruence.
Qed.

(** Dropping the only reference to a context frees the box it carries. *)
Definition free_ex (ex : option (Z * nat)) (p : Proc) : gmap nat (list byte) :=
  match ex with Some (_, k) => delete k (boxes p) | None => boxes p end.

(** The callback for a destroyed context frees the box it carries, which is there. *)
Lemma twp_ex_free ex p w (Q : unit → Proc * W → Prop) :
  (∀ i k, ex = Some (i, k) → is_Some (boxes p !! k)) →
  (∀ p', alpn_idx p' = alpn_idx p → next_box p' = next_box p → boxes p' = free_ex ex p →
     Q tt (p', w)) →
  twp (ex_free_all [snd <$> ex]) Q (p, w).
Proof.
  intros Hbx HQ. unfold ex_free_all. simpl. destruct ex as [[i k]|]; cbn [fmap option_fmap option_map snd].
  - destruct (Hbx i k eq_refl) as [wire Hk]. unfold alpn_ex_free, box_drop. do 3 twp_step. cbn [fst].
    rewrite Hk. do 2 twp_step. by apply HQ.
  - unfold alpn_ex_free. do 2 twp_step. by apply HQ.
Qed.

Lemma twp_drop_ctx c st s (Q : unit → Proc * W → Prop) :
  OCtx c ∈ g_refs (ghost s.2) → sole_owner c (ghost s.2) → g_ctx (ghost s.2) !! c = Some st →
  (∀ i k, cs_ex_data st = Some (i, k) → is_Some (boxes s.1 !! k)) →
  (∀ p' w', alpn_idx p' = alpn_idx s.1 → next_box p' = next_box s.1 →
     boxes p' = free_ex (cs_ex_data st) s.1 → ghost w' = g_drop (OCtx c) (ghost s.2) →
     Q tt (p', w')) →
  twp (drop_ctx c) Q s.
Proof.
  intros Hc Hsole Hst Hbx HQ. unfold drop_ctx. do 3 twp_step. destruct s as [p w]. cbn [fst snd] in *.
  apply ctx_free_spec in Hcall as [Hg Hp]; [|done]. rewrite Hst in Hp. rewrite (Hp Hsole).
  apply twp_ex_free; [done|]. intros p' Hi Hn Hb. by apply HQ.
Qed.

(** ** Building a configuration *)

Lemma twp_new_ctx server label (Q : Result nat → W → Prop) w :
  (∀ e w', ghost w' = ghost w → Q (Err e) w') →
  (∀ c w', owns_new c (ghost w) (ghost w') → g_ctx (ghost w') !! c = Some (ctx_init server) →
     Q (Ok c) w') →
  twp (let* raw := ext (SSL_CTX_new server) in
       match raw with Some ctx => mret (Ok ctx) | None => init_error label end) Q w.
Proof.
  intros Herr Hok. twp_step. twp_step. apply ctx_new_spec in Hcall. destruct a as [c|].
  - destruct Hcall as (Hn & Hs & Hg). twp_step. apply Hok; rewrite Hg.
    + split_and!; [done|done| |].
      * intros c' Hne. simpl. by rewrite lookup_insert_ne.
      * split; [|done]. simpl. rewrite multiplicity_disj_union, multiplicity_singleton_eq.
        apply not_elem_of_multiplicity in Hn. lia.
    + simpl. by rewrite lookup_insert_eq.
  - apply twp_init_error. intros m w' Hg. apply Herr. by rewrite Hg.
Qed.

(** Nothing is left behind: the references and boxes are those of the start, and
    the contexts of before are untouched. *)
Definition nothing_left (s s' : Proc * W) : Prop :=
  g_refs (ghost s'.2) = g_refs (ghost s.2) ∧ g_ssl (ghost s'.2) = g_ssl (ghost s.2) ∧
  boxes s'.1 = boxes s.1 ∧ proc_wf s'.1 ∧ idx_kept s.1 s'.1 ∧
  ∀ c, ctx_alive c (ghost s.2) → g_ctx (ghost s'.2) !! c = g_ctx (ghost s.2) !! c.

(** Dropping a new context that carries no box, on an error path. *)
Lemma twp_drop_new c g s (Q : unit → Proc * W → Prop) :
  owns_new c g (ghost s.2) → proc_wf s.1 →
  (∃ st, g_ctx (ghost s.2) !! c = Some st ∧ cs_ex_data st = None) →
  (∀ s', g_refs (ghost s'.2) = g_refs g → g_ssl (ghost s'.2) = g_ssl g → boxes s'.1 = boxes s.1 →
     proc_wf s'.1 → idx_kept s.1 s'.1 →
     (∀ c', ctx_alive c' g → g_ctx (ghost s'.2) !! c' = g_ctx g !! c') → Q tt s') →
  twp (drop_ctx c) Q s.
Proof.
  intros Ho Hwf (st & Hst & Hex) HQ.
  eapply twp_drop_ctx; [by eapply owns_new_elem|by apply Ho|done|by rewrite Hex|].
  intros p' w' Hi Hn Hb Hg. rewrite Hex in Hb. simpl in Hb. apply HQ; cbn [fst snd].
  - rewrite Hg. by apply owns_new_drop.
  - rewrite Hg. apply Ho.
  - done.
  - intros k. rewrite Hb, Hn. apply Hwf.
  - intros i. by rewrite Hi.
  - intros c' Ha. rewrite Hg. apply Ho. intros ->. by apply (owns_new_dead _ _ _ Ho).
Qed.

(** The context of a finished server configuration, as a function of the builder,
    the identity, the client roots and the place of the ALPN list. *)
Definition server_ctx (b : ServerConfigBuilder) (cert : CertSource) (key : KeySource)
    (roots : list (list byte)) (ex : option (Z * nat)) : CtxState :=
  let s := ctx_init true in
  let opts := Z.lor (cs_options s) SSL_OP_NO_TICKET in
  let tls12 := if sb_ktls_aead_only b then Some (bytes_of "ECDHE+AESGCM:ECDHE+CHACHA20")
               else cs_cipher_list s in
  {| cs_server := cs_server s;
     cs_options := match sb_cipher_suites b with
                   | Some l => Z.lor opts (disabled_mask l) | None => opts end;
     cs_cipher_list := match sb_cipher_suites b with
                       | Some l => set_opt (bytes_of <$> joined (names_of Tls12 l)) tls12
                       | None => tls12 end;
     cs_ciphersuites := match sb_cipher_suites b with
                        | Some l => set_opt (bytes_of <$> joined (names_of Tls13 l)) (cs_ciphersuites s)
                        | None => cs_ciphersuites s end;
     cs_groups := match sb_named_groups b with
                  | Some l => Some (nid <$> l) | None => cs_groups s end;
     cs_cert := cert;
     cs_key := key;
     cs_anchors := match sb_client_auth b with
                   | NoAuth => cs_anchors s | _ => cs_anchors s ++ roots end;
     cs_system_roots := cs_system_roots s;
     cs_verify := match sb_client_auth b with
                  | NoAuth => cs_verify s
                  | Optional => SSL_VERIFY_PEER
                  | Required => Z.lor SSL_VERIFY_PEER SSL_VERIFY_FAIL_IF_NO_PEER_CERT end;
     cs_min_version := version_code (default Tls12 (sb_min_version b));
     cs_max_version := version_code (default Tls13 (sb_max_version b));
     cs_num_tickets := 0;
     cs_alpn_protos := cs_alpn_protos s;
     cs_ex_data := match ex with Some ik => Some ik | None => cs_ex_data s end;
     cs_alpn_cb := match ex with Some _ => true | None => cs_alpn_cb s end |}.

(** A loader of an identity: what it may leave in a context is described by [P]. *)
Definition loads_identity (load : nat → M W (Result unit)) (P : CertSource → KeySource → Prop) : Prop :=
  ∀ c w, OCtx c ∈ g_refs (ghost w) →
    twp (load c)
      (λ r w', ∃ f, loads c f (is_ok r) (ghost w) (ghost w') ∧
         (is_ok r = true → ∃ cert key, P cert key ∧
            f = cs_on_key (λ _, key) ∘ cs_on_cert (λ _, cert))) w.

(** The outcome of building a server configuration. *)
Definition server_built (b : ServerConfigBuilder) (P : CertSource → KeySource → Prop)
    (s : Proc * W) (r : Result ServerConfig) (s' : Proc * W) : Prop :=
  match r with
  | Ok cfg => ∃ cert key roots ex,
      sc_ktls_disabled cfg = sb_ktls_disabled b ∧ P cert key ∧ roots_ok b roots ∧
      alpn_stored b ex s.1 s'.1 ∧ proc_wf s'.1 ∧ idx_kept s.1 s'.1 ∧
      owns_new (sc_ctx cfg) (ghost s.2) (ghost s'.2) ∧
      g_ctx (ghost s'.2) !! sc_ctx cfg = Some (server_ctx b cert key roots ex)
  | Err _ => nothing_left s s'
  end.

Lemma server_ctx_fun b cert key roots ex :
  alpn_fun ex (server_fun b roots (cs_on_key (λ _, key) (cs_on_cert (λ _, cert) (ctx_init true))))
  = server_ctx b cert key roots ex.
Proof.
  unfold server_ctx, server_fun, compose, aead_fun.
  by destruct ex, (sb_client_auth b), (sb_named_groups b), (sb_cipher_suites b), (sb_ktls_aead_only b).
Qed.

(** The box of a built server context is there. *)
Lemma server_ctx_box b cert key roots ex p p' i k :
  alpn_stored b ex p p' → cs_ex_data (server_ctx b cert key roots ex) = Some (i, k) →
  is_Some (boxes p' !! k).
Proof.
  unfold alpn_stored. simpl. destruct (is_empty _).
  - intros [-> _]. by rewrite ctx_init_ex.
  - intros (i' & k' & wire & -> & _ & _ & -> & _) [= <- <-]. rewrite lookup_insert_eq. eauto.
Qed.

Lemma twp_server_finish b c cert key (P : CertSource → KeySource → Prop) s0 s :
  server_wf b → proc_wf s.1 → s.1 = s0.1 →
  P cert key → owns_new c (ghost s0.2) (ghost s.2) →
  g_ctx (ghost s.2) !! c = Some (cs_on_key (λ _, key) (cs_on_cert (λ _, cert) (ctx_init true))) →
  twp (server_finish b c) (server_built b P s0) s.
Proof.
  intros Hb Hwf Hbox HP Ho Hst. unfold server_finish, or_drop.
  assert (∀ e s', owns_new c (ghost s0.2) (ghost s'.2) → boxes s'.1 = boxes s0.1 → proc_wf s'.1 →
    idx_kept s0.1 s'.1 →
    (∃ st, g_ctx (ghost s'.2) !! c = Some st ∧ cs_ex_data st = None) →
    twp (do* drop_ctx c; mret (Err e)) (server_built b P s0) s') as Herr.
  { intros e s' Ho' Hbox' Hwf' Hi' Hex. twp_step. eapply twp_drop_new; [exact Ho'|done|done|].
    intros s'' Hr Hss Hbx Hw Hi Hc. twp_step. split_and!; [done|done|by rewrite Hbx|done| |done].
    intros i ?%Hi'. by apply Hi. }
  do 3 twp_step. eapply twp_mono; [apply twp_server_settings; [done|by eapply owns_new_elem]|].
  intros r w1 (roots & Hl & Hr). pose proof (owns_new_loads _ _ _ _ _ _ Ho Hl) as Ho1.
  destruct (loads_ex_data _ _ _ _ _ _ Hl (server_fun_keeps_ex _ _) Hst) as (st1 & Hst1 & Hex1).
  cbn in Hex1. rewrite ctx_init_ex in Hex1.
  destruct r as [[]|e]; [|twp_step; apply Herr; cbn [fst snd]; rewrite ?Hbox in *; eauto].
  twp_step. eapply twp_mono; [apply twp_apply_server_alpn; [done|by eapply owns_new_elem]|].
  intros [[]|e] s2 (Hwf2 & Hi2 & Hres); cbn [fst snd] in *; rewrite Hbox in *.
  - destruct Hres as (ex & Hex & Hl2). do 2 twp_step. cbn.
    exists cert, key, roots, ex. split_and!; try done.
    + by apply Hr.
    + by eapply owns_new_loads.
    + erewrite loads_lookup; [|exact Hl2|by eapply loads_lookup]. by rewrite server_ctx_fun.
  - destruct Hres as [Hbx Hg]. twp_step. apply Herr; [by rewrite Hg|by rewrite Hbx|done|done|].
    rewrite Hg. eauto.
Qed.

Lemma twp_server_build load b P s :
  server_wf b → proc_wf s.1 → loads_identity load P →
  twp (server_build load b) (server_built b P s) s.
Proof.
  intros Hb Hwf Hload. unfold server_build. do 2 twp_step. apply twp_new_ctx.
  { intros e w' Hg. twp_step. split_and!; cbn [fst snd]; by rewrite ?Hg. }
  intros c w1 Ho Hst. twp_step. unfold or_drop. do 2 twp_step. cbn [fst snd].
  eapply twp_mono; [apply Hload; by eapply owns_new_elem|].
  intros r w2 (f & Hl & Hf). pose proof (owns_new_loads _ _ _ _ _ _ Ho Hl) as Ho2.
  destruct r as [[]|e].
  - destruct (Hf eq_refl) as (cert & key & HP & ->). twp_step.
    eapply (twp_server_finish _ _ cert key); try done. by eapply loads_lookup in Hl.
  - twp_step. eapply (twp_drop_new c (ghost s.2)); cbn [fst snd]; [done|done| |].
    + destruct Hl as (f' & bios & Hk & Hg). rewrite Hg. simpl. rewrite lookup_alter_eq, Hst. simpl.
      eexists. split; [done|]. rewrite Hk. apply ctx_init_ex.
    + intros s' Hr Hss Hbx Hw Hi Hc. do 2 twp_step. by split_and!.
Qed.

(** ** Identities *)

(** What a PEM chain and a PEM key, and their DER counterparts, put into a
    context. *)
Definition pem_identity (cert key : list byte) (c : CertSource) (k : KeySource) : Prop :=
  ∃ leaf chain der, pem_chain cert leaf chain ∧ pem_key key = Some der ∧
    c = Certs leaf chain ∧ k = Key der.

Definition der_identity (certs : list (list byte)) (key : list byte) (c : CertSource)
    (k : KeySource) : Prop :=
  ∃ leaf chain, certs = leaf :: chain ∧ c = Certs leaf chain ∧ k = Key key.

Definition file_identity (cert key : list byte) (c : CertSource) (k : KeySource) : Prop :=
  ∃ cert_c key_c, path_to_cstring cert = Ok cert_c ∧ path_to_cstring key = Ok key_c ∧
    c = CertFile cert_c ∧ k = KeyFile key_c SSL_FILETYPE_PEM.

Lemma loads_identity_pem lb lk cert key :
  loads_identity (λ c, let? _ := cert_chain_pem lb c cert in private_key_pem lk c key)
    (pem_identity cert key).
Proof.
  intros c w Hc. twp_step. eapply twp_mono; [by apply twp_cert_chain_pem|].
  intros [[]|e] w1 (f & Hl & Hf); [|twp_step; by eexists].
  destruct (Hf eq_refl) as (leaf & chain & Hch & ->).
  eapply twp_mono; [apply twp_private_key_pem; by eapply loads_elem|].
  intros r w2 (f2 & Hl2 & Hf2). exists (f2 ∘ cs_on_cert (λ _, Certs leaf chain)).
  split; [by eapply loads_trans; [exact Hl|exact Hl2|right]|].
  intros (der & Hk & ->)%Hf2. exists (Certs leaf chain), (Key der). split; [|done].
  by exists leaf, chain, der.
Qed.

Lemma loads_identity_der lb lk certs key :
  loads_identity (λ c, let? _ := cert_chain_der lb c certs in private_key_der lk c key)
    (der_identity certs key).
Proof.
  intros c w Hc. twp_step. eapply twp_mono; [by apply twp_cert_chain_der|].
  intros [[]|e] w1 (Hl%sets_loads & Hne); [|twp_step; by eexists].
  eapply twp_mono; [apply twp_private_key_der; by eapply loads_elem|].
  intros r w2 Hl2%sets_loads. exists (cs_on_key (λ _, Key key) ∘ cs_on_cert (λ _, der_chain certs)).
  split; [by eapply loads_trans; [exact Hl|exact Hl2|right]|].
  intros _. exists (der_chain certs), (Key key). split; [|done].
  destruct certs as [|leaf chain]; [by destruct (Hne eq_refl)|]. by exists leaf, chain.
Qed.

Lemma loads_identity_files cert key :
  loads_identity (load_pem_files cert key) (file_identity cert key).
Proof.
  intros c w Hc. unfold load_pem_files, file_identity.
  destruct (path_to_cstring cert) as [cert_c|e];
    [|twp_step; exists id; split; [apply sets_loads, sets_noop|done]].
  destruct (path_to_cstring key) as [key_c|e];
    [|twp_step; exists id; split; [apply sets_loads, sets_noop|done]].
  twp_step. eapply twp_mono.
  { apply (twp_setter_loads c (cs_on_cert (λ _, CertFile cert_c))). intros.
    by eapply use_chain_file_spec. }
  intros [[]|e] w1 Hl; [|twp_step; by eexists].
  eapply twp_mono.
  { apply (twp_setter_loads c (cs_on_key (λ _, KeyFile key_c SSL_FILETYPE_PEM))). intros.
    eapply use_key_file_spec; [done|]. by eapply loads_elem. }
  intros r w2 Hl2. eexists. split; [by eapply loads_trans; [exact Hl|exact Hl2|right]|].
  intros _. eexists _, _. split; [|done]. by exists cert_c, key_c.
Qed.

(** ** Server configurations *)

(** The three ways to give a server its identity. *)
Inductive Material : Type :=
| PemFiles (cert key : list byte)
| PemBytes (cert key : list byte)
| DerBytes (cert_chain : list (list byte)) (key : list byte).

Definition with_material (m : Material) (b : ServerConfigBuilder) :
    M (Proc * W) (Result ServerConfig) :=
  match m with
  | PemFiles cert key => with_pem_files cert key b
  | PemBytes cert key => with_pem_bytes cert key b
  | DerBytes cert_chain key => with_der_bytes cert_chain key b
  end.

Definition identity_of (m : Material) : CertSource → KeySource → Prop :=
  match m with
  | PemFiles cert key => file_identity cert key
  | PemBytes cert key => pem_identity cert key
  | DerBytes cert_chain key => der_identity cert_chain key
  end.

Lemma twp_with_material m b s :
  server_wf b → proc_wf s.1 → twp (with_material m b) (server_built b (identity_of m) s) s.
Proof.
  intros Hb Hwf. destruct m; apply twp_server_build; try done.
  - apply loads_identity_files.
  - apply loads_identity_pem.
  - apply loads_identity_der.
Qed.

(** C16. Building a server configuration always returns.  On success the context
    holds exactly what the builder and the identity say, setting by setting:
    every certificate of the chain in order and the key, the version bounds with
    their defaults, tickets off, the AEAD-only list unless an allowlist
    overrides it, the groups in the caller's order, the verification mode with
    all certificates of the client-root bundle, and the encoded ALPN list with
    its callback; every other setting and every other context is as before, and
    the crate owns the new context.  On an error nothing is left behind. *)
Theorem server_config_honoured m b s :
  server_wf b → proc_wf s.1 → twp (with_material m b) (server_built b (identity_of m) s) s.
Proof. apply twp_with_material. Qed.

(** A server configuration that is built and dropped leaks nothing, whichever
    of its steps fails: the references to AWS-LC objects and the boxes behind
    raw pointers are those of the start. *)
Theorem server_config_no_leak m b s :
  server_wf b → proc_wf s.1 →
  twp (let? cfg := with_material m b in
       do* drop_ctx (sc_ctx cfg) ;
       mret (Ok tt))
    (λ _ s', nothing_left s s') s.
Proof.
  intros Hb Hwf. twp_step. eapply twp_mono; [by apply twp_with_material|].
  intros [cfg|e] s1; [|intros Hn; by twp_step].
  intros (cert & key & roots & ex & _ & _ & _ & Hex & Hwf1 & Hi1 & Ho & Hst). twp_step.
  eapply twp_drop_ctx; [by eapply owns_new_elem|by apply Ho|done|by intros ? ? ?; eapply server_ctx_box|].
  intros p' w' Hi Hn Hbx Hg. twp_step. unfold nothing_left. cbn [fst snd]. split_and!.
  - rewrite Hg. by apply owns_new_drop.
  - rewrite Hg. apply Ho.
  - rewrite Hbx. unfold alpn_stored in Hex. destruct (is_empty (sb_alpn_protocols b)).
    + destruct Hex as [-> Hb1]. simpl. by rewrite ctx_init_ex.
    + destruct Hex as (i & k & wire & -> & _ & Hk & Hb1 & _). simpl.
      by rewrite Hb1, delete_insert_id.
  - intros k. rewrite Hn, Hbx. intros Hk. apply Hwf1. revert Hk. unfold free_ex.
    destruct (cs_ex_data _) as [[]|]; [|done]. rewrite lookup_delete_is_Some. by intros [].
  - intros i. rewrite Hi. apply Hi1.
  - intros c Ha. rewrite Hg. apply Ho. intros ->. by apply (owns_new_dead _ _ _ Ho).
Qed.

(** The protocol list that the callback finds for a context. *)
Definition ctx_alpn_list (s : Proc * W) (c : nat) : option (list byte) :=
  match alpn_idx s.1 with
  | Some i => match SSL_CTX_get_ex_data c i s.2 with
              | Some k => boxes s.1 !! k
              | None => None
              end
  | None => None
  end.

(** C32. From the builder to the handshake: on a context built with ALPN protocols
    the selection callback is registered, finds the list that was configured and
    selects the first protocol of it that the client offers, and rejects the handshake if
    there is none. *)
Theorem server_alpn_end_to_end m b s :
  server_wf b → proc_wf s.1 →
  twp (with_material m b)
    (λ r s', ∀ cfg, r = Ok cfg → sb_alpn_protocols b ≠ [] →
       cs_alpn_cb <$> g_ctx (ghost s'.2) !! sc_ctx cfg = Some true ∧
       ∀ client, alpn_select_cb (Some (sc_ctx cfg)) (ctx_alpn_list s') client =
         match list_find (λ q, q ∈ iter_alpn_wire client) (sb_alpn_protocols b) with
         | Some (_, q) => (SSL_TLSEXT_ERR_OK, Some (q, u8 (len q)))
         | None => (SSL_TLSEXT_ERR_ALERT_FATAL, None)
         end) s.
Proof.
  intros Hb Hwf. eapply twp_mono; [by apply twp_with_material|].
  intros r s1 Hr cfg -> Hne. destruct Hr as (cert & key & roots & ex & _ & _ & _ & Hex & _ & _ & _ & Hst).
  unfold alpn_stored in Hex. destruct (is_empty (sb_alpn_protocols b)) eqn:Ee;
    [by apply is_empty_true in Ee|].
  destruct Hex as (i & k & wire & -> & Henc & Hk & Hbx & Hi). split; [by rewrite Hst|].
  intros client. unfold alpn_select_cb, ctx_alpn_list. rewrite Hi. simpl.
  rewrite (get_ex_data_spec _ _ _ _ Hst). simpl. rewrite Z.eqb_refl. simpl.
  rewrite Hbx, lookup_insert_eq, alpn_select_loop_find.
  by rewrite (iter_alpn_wire_encoded _ _ Henc).
Qed.
End props.

(** ** Witnesses *)

Definition proc0 : Proc := {| alpn_idx := None; next_box := 0; boxes := ∅ |}.

Lemma proc0_wf : proc_wf proc0.
Proof. intros k. cbn. rewrite lookup_empty. by intros []. Qed.

(** A server with mandatory client certificates, two protocols and an allowlist. *)
Definition demo_server : ServerConfigBuilder :=
  server_set_cipher_suites [TLS13_AES_128_GCM_SHA256]
    (server_set_alpn_protocols [bytes_of "h2"; bytes_of "http/1.1"]
      (server_client_auth Required [x30; x07; x30; x08] server_builder)).

Definition demo_material : Material := DerBytes [[x30; x01]; [x30; x02]] [x31; x01].

Lemma demo_server_wf : server_wf demo_server.
Proof.
  split; [|done]. intros l [= <-]. split; [done|].
  intros c ->%list_elem_of_singleton. by repeat constructor.
Qed.

Lemma server_config_honoured_witness :
  ∃ cfg s', with_material demo_material demo_server (proc0, sim0 []) = Done (Ok cfg, s') ∧
    ∃ cert key roots ex,
      g_ctx (ghost s'.2) !! sc_ctx cfg = Some (server_ctx demo_server cert key roots ex) ∧
      cert = Certs [x30; x01] [[x30; x02]] ∧ key = Key [x31; x01].
Proof.
  destruct (proj1 (twp_done _ _ _)
    (server_config_honoured demo_material demo_server (proc0, sim0 []) demo_server_wf proc0_wf))
    as (r & s' & E & Hb).
  destruct r as [cfg|e]; [|vm_compute in E; discriminate].
  exists cfg, s'. split; [exact E|].
  destruct Hb as (cert & key & roots & ex & _ & (leaf & chain & [= <- <-] & -> & ->) & _ & _ & _ & _ & _ & Hst).
  by exists (Certs [x30; x01] [[x30; x02]]), (Key [x31; x01]), roots, ex.
Defined.

(** The second certificate of the chain is cut short. *)
Lemma server_config_no_leak_witness :
  twp (let? cfg := with_material (DerBytes [[x30; x01]; [x30]] [x31; x01]) demo_server in
       do* drop_ctx (sc_ctx cfg) ;
       mret (Ok tt))
    (λ r s', is_ok r = false ∧ nothing_left (proc0, sim0 []) s') (proc0, sim0 []).
Proof.
  destruct (proj1 (twp_done _ _ _) (server_config_no_leak (DerBytes [[x30; x01]; [x30]] [x31; x01])
    demo_server (proc0, sim0 []) demo_server_wf proc0_wf)) as (r & s' & E & Hn).
  apply twp_done. exists r, s'. split; [exact E|]. split; [|exact Hn].
  vm_compute in E. by injection E as <- _.
Defined.

Lemma server_alpn_end_to_end_witness :
  ∃ cfg s', with_material demo_material demo_server (proc0, sim0 []) = Done (Ok cfg, s') ∧
    alpn_select_cb (Some (sc_ctx cfg)) (ctx_alpn_list s') (x08 :: bytes_of "http/1.1" ++ x02 :: bytes_of "h2")
    = (SSL_TLSEXT_ERR_OK, Some (bytes_of "h2", x02)).
Proof.
  destruct (proj1 (twp_done _ _ _)
    (server_alpn_end_to_end demo_material demo_server (proc0, sim0 []) demo_server_wf proc0_wf))
    as (r & s' & E & Hb).
  destruct r as [cfg|e]; [|vm_compute in E; discriminate].
  exists cfg, s'. split; [exact E|]. destruct (Hb cfg eq_refl) as [_ Ha]; [done|].
  rewrite Ha. vm_compute. reflexivity.
Defined.
