(* ===== verification/ClientProps.v ===== *)
(** * What the client builder guarantees *)

From S2P Require Import Prelude Std Env Objects Sim Errors Ownership Alpn Suites Loaders LoaderProps ServerConfig ClientConfig ConfigProps.

Local Open Scope Z_scope.

Section client.
Context {W : Type} `{AwsLcConsts, !AwsLcConstsOk, ErrQueue W, !ErrQueueLaws W, LibSslCtx W,
  !LibSslCtxLaws W, LibCrypto W, !LibCryptoLaws W}.
Implicit Types (w : W) (c : nat).

(** ** The parts of a client context *)

Definition roots_fun (roots : Roots) (anchors : list (list byte)) : CtxState → CtxState :=
  match roots with
  | System => cs_on_verify (λ _, SSL_VERIFY_PEER) ∘ cs_on_system_roots (λ _, true)
  | RootsPem _ | RootsDer _ =>
      cs_on_verify (λ _, SSL_VERIFY_PEER) ∘ cs_on_anchors (λ a, a ++ anchors)
  | Disabled => cs_on_verify (λ _, SSL_VERIFY_NONE)
  end.

(** The anchors that a client loads: all certificates of its bundle, and at
    least one. *)
Definition anchors_ok (roots : Roots) (anchors : list (list byte)) : Prop :=
  match roots with
  | RootsPem pem => pem_bundle pem anchors ∧ anchors ≠ []
  | RootsDer certs => anchors = certs ∧ certs ≠ []
  | System | Disabled => True
  end.

Lemma twp_apply_roots roots c w :
  OCtx c ∈ g_refs (ghost w) →
  twp (apply_roots roots c)
    (λ r w', ∃ anchors, loads c (roots_fun roots anchors) (is_ok r) (ghost w) (ghost w') ∧
                        (is_ok r = true → anchors_ok roots anchors)) w.
Proof.
  intros Hc. unfold apply_roots. destruct roots as [|pem|certs|]; twp_step.
  - eapply twp_mono; [apply (twp_setter_loads c (cs_on_system_roots (λ _, true)))|].
    { intros. by eapply default_paths_spec. }
    intros [[]|e] w1 Hl; [do 3 twp_step|twp_step]; exists []; (split; [|done]).
    + eapply loads_trans; [exact Hl| |by right].
      apply sets_loads, set_verify_spec. by eapply loads_elem.
    + by eapply loads_fail.
  - eapply twp_mono; [unfold load_trust_anchors_pem; apply twp_anchors_pem, Hc|].
    intros [[]|e] w1 (f & Hl & Hf); [do 3 twp_step|twp_step; exists []; split; [by eapply loads_fail|done]].
    destruct (Hf eq_refl) as (anchors & Hb & Hne & ->). exists anchors. split; [|by intros _; split].
    eapply loads_trans; [exact Hl| |by right].
    apply sets_loads, set_verify_spec. by eapply loads_elem.
  - eapply twp_mono; [apply twp_load_trust_anchors_der, Hc|].
    intros [[]|e] w1 [Hl%sets_loads Hne];
      [do 3 twp_step|twp_step; exists []; split; [by eapply loads_fail|done]].
    exists certs. split; [|by intros _; split; [|apply Hne]].
    eapply loads_trans; [exact Hl| |by right].
    apply sets_loads, set_verify_spec. by eapply loads_elem.
  - do 2 twp_step. exists []. split; [|done]. apply sets_loads. by apply set_verify_spec.
Qed.

(** The client's own certificate and key, if it has one. *)
Definition own_identity (auth : option ClientAuth) (cert : CertSource) (key : KeySource) : Prop :=
  match auth with
  | None => True
  | Some (AuthPem cert_pem key_pem) => pem_identity cert_pem key_pem cert key
  | Some (AuthDer certs key_der) => der_identity certs key_der cert key
  end.

Definition own_fun (auth : option ClientAuth) (cert : CertSource) (key : KeySource) :
    CtxState → CtxState :=
  match auth with None => id | Some _ => cs_on_key (λ _, key) ∘ cs_on_cert (λ _, cert) end.

Lemma twp_then_check c load P label w :
  OCtx c ∈ g_refs (ghost w) → loads_identity load P →
  twp (let? _ := load c in setter 1 (SSL_CTX_check_private_key c) label)
    (λ r w', ∃ cert key,
       loads c (cs_on_key (λ _, key) ∘ cs_on_cert (λ _, cert)) (is_ok r) (ghost w) (ghost w') ∧
       (is_ok r = true → P cert key)) w.
Proof.
  intros Hc Hload. twp_step. eapply twp_mono; [by apply Hload|].
  intros [[]|e] w1 (f & Hl & Hf);
    [|twp_step; exists NoCert, NoKey; split; [by eapply loads_fail|done]].
  destruct (Hf eq_refl) as (cert & key & HP & ->).
  eapply twp_mono; [apply (twp_setter_loads c id)|].
  { intros r w' Hk%check_key_spec; [|by eapply loads_elem]. rewrite Hk.
    destruct (r =? 1); [apply sets_id|apply sets_noop]. }
  intros r w2 Hl2. exists cert, key. split; [|done].
  by eapply loads_ext; [|eapply loads_trans; [exact Hl|exact Hl2|right]].
Qed.

Lemma twp_apply_own_cert auth c w :
  OCtx c ∈ g_refs (ghost w) →
  twp (apply_own_cert auth c)
    (λ r w', ∃ cert key, loads c (own_fun auth cert key) (is_ok r) (ghost w) (ghost w') ∧
                         (is_ok r = true → own_identity auth cert key)) w.
Proof.
  intros Hc. unfold apply_own_cert. destruct auth as [[cert_pem key_pem|certs key_der]|].
  - apply (twp_then_check c (λ c, let? _ := cert_chain_pem _ c _ in private_key_pem _ c _)); [done|].
    apply loads_identity_pem.
  - apply (twp_then_check c (λ c, let? _ := cert_chain_der _ c _ in private_key_der _ c _)); [done|].
    apply loads_identity_der.
  - twp_step. exists NoCert, NoKey. split; [apply loads_id|done].
Qed.

(** The protocols a client offers. *)
Definition offer_ok (protos : list (list byte)) (offer : option (list byte)) : Prop :=
  if is_empty protos then offer = None
  else ∃ wire, offer = Some wire ∧ encode_alpn_wire protos = Ok wire.

Definition offer_fun (offer : option (list byte)) : CtxState → CtxState :=
  match offer with Some wire => cs_on_alpn_protos (λ _, Some wire) | None => id end.

Lemma twp_apply_client_alpn protos c w :
  OCtx c ∈ g_refs (ghost w) →
  twp (apply_client_alpn protos c)
    (λ r w', ∃ offer, loads c (offer_fun offer) (is_ok r) (ghost w) (ghost w') ∧
                      (is_ok r = true → offer_ok protos offer)) w.
Proof.
  intros Hc. unfold apply_client_alpn, offer_ok. destruct (is_empty protos).
  { twp_step. exists None. split; [apply loads_id|done]. }
  destruct (encode_alpn_wire protos) as [wire|e].
  - eapply twp_mono; [apply (twp_setter_loads c (cs_on_alpn_protos (λ _, Some wire)))|].
    { intros. by eapply set_alpn_protos_spec. }
    intros r w' Hl. exists (Some wire). split; [done|]. intros _. by exists wire.
  - twp_step. exists None. split; [apply sets_loads, sets_noop|done].
Qed.

(** ** The whole configuration *)

Definition client_wf (b : ClientConfigBuilder) : Prop :=
  suites_ok (cb_cipher_suites b) ∧ groups_ok (cb_named_groups b).

(** The choices that the inputs leave to the libraries' parsers. *)
Record ClientInputs : Type := {
  ci_anchors : list (list byte);
  ci_cert : CertSource;
  ci_key : KeySource;
  ci_offer : option (list byte);
}.

Definition inputs_ok (b : ClientConfigBuilder) (i : ClientInputs) : Prop :=
  anchors_ok (cb_roots b) (ci_anchors i) ∧ own_identity (cb_client_auth b) (ci_cert i) (ci_key i) ∧
  offer_ok (cb_alpn_protocols b) (ci_offer i).

Definition client_fun (b : ClientConfigBuilder) (i : ClientInputs) : CtxState → CtxState :=
  offer_fun (ci_offer i) ∘ (groups_fun (cb_named_groups b) ∘ suites_fun (cb_cipher_suites b)) ∘
  bounds_fun (cb_min_version b) (cb_max_version b) ∘
  own_fun (cb_client_auth b) (ci_cert i) (ci_key i) ∘ roots_fun (cb_roots b) (ci_anchors i).

Lemma roots_keep_ex roots anchors : keeps_ex (roots_fun roots anchors).
Proof. by destruct roots. Qed.

Lemma own_keeps_ex auth cert key : keeps_ex (own_fun auth cert key).
Proof. by destruct auth. Qed.

(** One step whose effect is only known when it has run. *)
Lemma twp_acc_ex {A I} c acc (f : I → CtxState → CtxState) (P : I → Prop) g
    (m : M W (Result unit)) (k : M W (Result A)) (Q : Result A → W → Prop) w :
  loads c acc true g (ghost w) → OCtx c ∈ g_refs g → keeps_ex acc →
  (OCtx c ∈ g_refs (ghost w) →
   twp m (λ r w', ∃ i, loads c (f i) (is_ok r) (ghost w) (ghost w') ∧ (is_ok r = true → P i)) w) →
  (∀ e w', loads c id false g (ghost w') → Q (Err e) w') →
  (∀ i w', P i → loads c (f i ∘ acc) true g (ghost w') → twp k Q w') →
  twp (let? _ := m in k) Q w.
Proof.
  intros Hacc Hc Hka Hm Herr Hk. twp_step.
  eapply twp_mono; [apply Hm; by eapply loads_elem|].
  intros [[]|e] w' (i & Hl & Hi); (eapply loads_trans in Hl; [|exact Hacc|by right]).
  - by apply (Hk i); [apply Hi|].
  - twp_step. apply Herr. by eapply loads_fail.
Qed.

Lemma twp_client_settings b c w :
  client_wf b → OCtx c ∈ g_refs (ghost w) →
  twp (client_settings b c)
    (λ r w', ∃ i, loads c (client_fun b i) (is_ok r) (ghost w) (ghost w') ∧
                  (is_ok r = true → inputs_ok b i)) w.
Proof.
  intros [Hs Hg] Hc. unfold client_settings.
  assert (∀ e w', loads c id false (ghost w) (ghost w') → ∃ i,
    loads c (client_fun b i) (is_ok (Err e : Result unit)) (ghost w) (ghost w') ∧
    (is_ok (Err e : Result unit) = true → inputs_ok b i)) as Herr.
  { intros e w' Hl. exists {| ci_anchors := []; ci_cert := NoCert; ci_key := NoKey; ci_offer := None |}.
    split; [by eapply loads_fail|done]. }
  eapply (twp_acc_ex c id _ _ _ _ _ _ _ (loads_id _ _)); [done|done|apply twp_apply_roots|done|].
  intros anchors w1 Ha Hl1.
  eapply (twp_acc_ex c _ (λ ck, own_fun (cb_client_auth b) ck.1 ck.2)
    (λ ck, own_identity (cb_client_auth b) ck.1 ck.2) _ _ _ _ _ Hl1);
    [done|intros s; apply roots_keep_ex| |done|].
  { intros Hc1. eapply twp_mono; [by apply twp_apply_own_cert|].
    intros r w' (cert & key & Hlo & Hio). by exists (cert, key). }
  intros [cert key] w2 Hi Hl2. cbn [fst snd] in *.
  eapply (twp_acc c _ (bounds_fun _ _) _ _ _ _ _ Hl2);
    [done|intros s; etrans; [apply own_keeps_ex|apply roots_keep_ex]|done|apply twp_version_bounds|done|].
  intros w3 Hl3.
  eapply (twp_acc c _ (groups_fun _ ∘ suites_fun _) _ _ _ _ _ Hl3);
    [done|intros s; etrans; [apply own_keeps_ex|apply roots_keep_ex]|apply suites_groups_keep_ex
    |by apply twp_overrides|done|].
  intros w4 Hl4. eapply twp_mono; [apply twp_apply_client_alpn; by eapply loads_elem|].
  intros r w5 (offer & Hl5 & Ho).
  exists {| ci_anchors := anchors; ci_cert := cert; ci_key := key; ci_offer := offer |}.
  split; [|intros Hr; split_and!; [done|done|by apply Ho]].
  eapply loads_ext; [|eapply loads_trans; [exact Hl4|exact Hl5|right]]; [done|].
  intros s. etrans; [apply suites_groups_keep_ex|].
  etrans; [apply own_keeps_ex|apply roots_keep_ex].
Qed.

(** The context of a finished client configuration. *)
Definition client_ctx (b : ClientConfigBuilder) (i : ClientInputs) : CtxState :=
  let s := ctx_init false in
  {| cs_server := cs_server s;
     cs_options := match cb_cipher_suites b with
                   | Some l => Z.lor (cs_options s) (disabled_mask l) | None => cs_options s end;
     cs_cipher_list := match cb_cipher_suites b with
                       | Some l => set_opt (bytes_of <$> joined (names_of Tls12 l)) (cs_cipher_list s)
                       | None => cs_cipher_list s end;
     cs_ciphersuites := match cb_cipher_suites b with
                        | Some l => set_opt (bytes_of <$> joined (names_of Tls13 l)) (cs_ciphersuites s)
                        | None => cs_ciphersuites s end;
     cs_groups := match cb_named_groups b with
                  | Some l => Some (nid <$> l) | None => cs_groups s end;
     cs_cert := match cb_client_auth b with Some _ => ci_cert i | None => cs_cert s end;
     cs_key := match cb_client_auth b with Some _ => ci_key i | None => cs_key s end;
     cs_anchors := match cb_roots b with
                   | RootsPem _ | RootsDer _ => cs_anchors s ++ ci_anchors i
                   | System | Disabled => cs_anchors s end;
     cs_system_roots := match cb_roots b with System => true | _ => cs_system_roots s end;
     cs_verify := match cb_roots b with Disabled => SSL_VERIFY_NONE | _ => SSL_VERIFY_PEER end;
     cs_min_version := version_code (default Tls12 (cb_min_version b));
     cs_max_version := version_code (default Tls13 (cb_max_version b));
     cs_num_tickets := cs_num_tickets s;
     cs_alpn_protos := match ci_offer i with Some wire => Some wire | None => cs_alpn_protos s end;
     cs_ex_data := cs_ex_data s;
     cs_alpn_cb := cs_alpn_cb s |}.

Lemma client_ctx_fun b i : client_fun b i (ctx_init false) = client_ctx b i.
Proof.
  unfold client_fun, client_ctx, compose.
  by destruct (ci_offer i), (cb_named_groups b), (cb_cipher_suites b), (cb_client_auth b), (cb_roots b).
Qed.

Lemma client_fun_keeps_ex b i : keeps_ex (client_fun b i).
Proof.
  intros s. unfold client_fun, compose.
  by destruct (ci_offer i), (cb_named_groups b), (cb_cipher_suites b), (cb_client_auth b), (cb_roots b).
Qed.

(** The outcome of building a client configuration. *)
Definition client_built (b : ClientConfigBuilder) (s : Proc * W) (r : Result ClientConfig)
    (s' : Proc * W) : Prop :=
  match r with
  | Ok cfg => ∃ i,
      inputs_ok b i ∧ cc_ktls_disabled cfg = cb_ktls_disabled b ∧ s'.1 = s.1 ∧
      owns_new (cc_ctx cfg) (ghost s.2) (ghost s'.2) ∧
      g_ctx (ghost s'.2) !! cc_ctx cfg = Some (client_ctx b i)
  | Err _ => nothing_left s s'
  end.

Lemma twp_client_build b s :
  client_wf b → proc_wf s.1 → twp (client_build b) (client_built b s) s.
Proof.
  intros Hb Hwf. unfold client_build. do 2 twp_step. apply twp_new_ctx.
  { intros e w' Hg. twp_step. split_and!; cbn [fst snd]; by rewrite ?Hg. }
  intros c w1 Ho Hst. unfold or_drop. do 3 twp_step. cbn [fst snd].
  eapply twp_mono; [apply twp_client_settings; [done|by eapply owns_new_elem]|].
  intros r w2 (i & Hl & Hi). pose proof (owns_new_loads _ _ _ _ _ _ Ho Hl) as Ho2.
  destruct r as [[]|e]; twp_step.
  - twp_step. exists i. split_and!; [by apply Hi|done..|].
    erewrite loads_lookup; [|exact Hl|done]. by rewrite client_ctx_fun.
  - destruct (loads_ex_data _ _ _ _ _ _ Hl (client_fun_keeps_ex _ _) Hst) as (st & Hst2 & Hex).
    rewrite ctx_init_ex in Hex. twp_step.
    eapply (twp_drop_new c (ghost s.2)); cbn [fst snd]; [done|done|by exists st|].
    intros s' Hr Hss Hbx Hw Hix Hc. twp_step. by split_and!.
Qed.

(** C17. Building a client configuration always returns.  On success the context
    holds exactly what the builder says: the peer is verified unless
    verification was switched off explicitly, against the system roots or
    against all certificates of the given bundle (at least one), the client's
    own chain and key are those given, and versions, suites, groups and the
    offered protocols are those of the builder; every other setting and every
    other context is as before, and the crate owns the new context.  On an error
    nothing is left behind. *)
Theorem client_config_honoured b s :
  client_wf b → proc_wf s.1 → twp (client_build b) (client_built b s) s.
Proof. apply twp_client_build. Qed.
End client.

(** A client that trusts one root and presents a certificate. *)
Definition demo_client : ClientConfigBuilder :=
  client_set_alpn_protocols [bytes_of "h2"]
    (with_client_auth_pem_bytes [x30; x01; x30; x02] [x31; x01]
      (with_root_certs_der_bytes [[x30; x09]] client_builder)).

Lemma client_config_honoured_witness :
  ∃ cfg s', client_build demo_client (proc0, sim0 []) = Done (Ok cfg, s') ∧
    ∃ i, g_ctx (ghost s'.2) !! cc_ctx cfg = Some (client_ctx demo_client i) ∧
         ci_anchors i = [[x30; x09]] ∧ cs_verify (client_ctx demo_client i) = SSL_VERIFY_PEER.
Proof.
  destruct (proj1 (twp_done _ _ _)
    (client_config_honoured demo_client (proc0, sim0 []) ltac:(by split) proc0_wf))
    as (r & s' & E & Hb).
  destruct r as [cfg|e]; [|vm_compute in E; discriminate].
  exists cfg, s'. split; [exact E|]. destruct Hb as (i & (Ha & _) & _ & _ & _ & Hst).
  exists i. split; [exact Hst|]. split; [apply Ha|reflexivity].
Defined.
