(* ===== verification/Builders.v ===== *)
(** * Builders as their callers use them

    A configuration is described by a chain of setters on the empty builder.  The
    fields of the builders and of [CipherSuite] are private, so that these chains,
    over the crate's constants, are all the builders there are. *)

From S2P Require Import Prelude Std Env Objects Sim Errors Ownership Alpn Suites Loaders LoaderProps ServerConfig ClientConfig ConfigProps ClientProps.

Local Open Scope Z_scope.

(** The chainable methods of [ServerConfigBuilder]. *)
Inductive ServerCall : Type :=
| SAlpnProtocols (protos : list (list byte))
| SMinVersion (v : ProtocolVersion)
| SMaxVersion (v : ProtocolVersion)
| SKtlsAeadOnly (on : bool)
| SDisableKtls
| SCipherSuites (suites : list CipherSuite)
| SNamedGroups (groups : list NamedGroup)
| SClientAuth (mode : ClientAuthMode) (roots_pem : list byte).

Definition server_call (c : ServerCall) : ServerConfigBuilder → ServerConfigBuilder :=
  match c with
  | SAlpnProtocols protos => server_set_alpn_protocols protos
  | SMinVersion v => server_min_protocol_version v
  | SMaxVersion v => server_max_protocol_version v
  | SKtlsAeadOnly on => server_set_ktls_aead_only on
  | SDisableKtls => server_disable_ktls
  | SCipherSuites suites => server_set_cipher_suites suites
  | SNamedGroups groups => server_set_named_groups groups
  | SClientAuth mode roots => server_client_auth mode roots
  end.

(** The chainable methods of [ClientConfigBuilder]. *)
Inductive ClientCall : Type :=
| CSystemRoots
| CRootsPem (pem : list byte)
| CRootsDer (certs : list (list byte))
| CDisableVerification
| CAlpnProtocols (protos : list (list byte))
| CMinVersion (v : ProtocolVersion)
| CMaxVersion (v : ProtocolVersion)
| CAuthPem (cert key : list byte)
| CAuthDer (cert_chain : list (list byte)) (key : list byte)
| CCipherSuites (suites : list CipherSuite)
| CNamedGroups (groups : list NamedGroup)
| CDisableKtls.

Definition client_call (c : ClientCall) : ClientConfigBuilder → ClientConfigBuilder :=
  match c with
  | CSystemRoots => with_system_root_certs
  | CRootsPem pem => with_root_certs_pem_bytes pem
  | CRootsDer certs => with_root_certs_der_bytes certs
  | CDisableVerification => dangerous_disable_verification
  | CAlpnProtocols protos => client_set_alpn_protocols protos
  | CMinVersion v => client_min_protocol_version v
  | CMaxVersion v => client_max_protocol_version v
  | CAuthPem cert key => with_client_auth_pem_bytes cert key
  | CAuthDer chain key => with_client_auth_der_bytes chain key
  | CCipherSuites suites => client_set_cipher_suites suites
  | CNamedGroups groups => client_set_named_groups groups
  | CDisableKtls => client_disable_ktls
  end.

(** [builder.a().b().c()] *)
Definition server_chain (calls : list ServerCall) : ServerConfigBuilder :=
  foldl (λ b c, server_call c b) server_builder calls.
Definition client_chain (calls : list ClientCall) : ClientConfigBuilder :=
  foldl (λ b c, client_call c b) client_builder calls.

(** [CipherSuite] has no public constructor. *)
Definition server_typed (c : ServerCall) : Prop :=
  match c with SCipherSuites suites => suites ⊆ ALL_CIPHER_SUITES | _ => True end.
Definition client_typed (c : ClientCall) : Prop :=
  match c with CCipherSuites suites => suites ⊆ ALL_CIPHER_SUITES | _ => True end.

(** The list the last call of a setter gave; an empty one means the default. *)
Definition last_list {C A} (f : C → option (list A)) (calls : list C) : option (list A) :=
  last (omap f calls) ≫= unless_empty.

Definition server_suites (c : ServerCall) : option (list CipherSuite) :=
  match c with SCipherSuites l => Some l | _ => None end.
Definition server_groups (c : ServerCall) : option (list NamedGroup) :=
  match c with SNamedGroups l => Some l | _ => None end.
Definition client_suites (c : ClientCall) : option (list CipherSuite) :=
  match c with CCipherSuites l => Some l | _ => None end.
Definition client_groups (c : ClientCall) : option (list NamedGroup) :=
  match c with CNamedGroups l => Some l | _ => None end.

#[export] Instance Roots_eq_dec : EqDecision Roots.
Proof. solve_decision. Defined.

(** The peer is verified unless the last word on the roots was to disable it. *)
Definition client_roots (c : ClientCall) : option Roots :=
  match c with
  | CSystemRoots => Some System
  | CRootsPem pem => Some (RootsPem pem)
  | CRootsDer certs => Some (RootsDer certs)
  | CDisableVerification => Some Disabled
  | _ => None
  end.

Section chains.
Context `{AwsLcConsts}.

Lemma last_list_snoc {C A} (f : C → option (list A)) calls c :
  last_list f (calls ++ [c]) = match f c with Some l => unless_empty l | None => last_list f calls end.
Proof.
  unfold last_list. rewrite omap_app. cbn. destruct (f c) as [l|]; cbn.
  - by rewrite last_snoc.
  - by rewrite app_nil_r.
Qed.

Lemma last_list_ok {C A} (f : C → option (list A)) (P : list A → Prop) calls l :
  (∀ c l, c ∈ calls → f c = Some l → P l) → last_list f calls = Some l → l ≠ [] ∧ P l.
Proof.
  unfold last_list. intros HP. destruct (last (omap f calls)) as [l'|] eqn:El; [|done].
  apply last_Some in El as [pre El]. cbn. unfold unless_empty. destruct (is_empty l') eqn:Ee; [done|].
  intros [= <-]. split; [by intros ->|].
  assert (l' ∈ omap f calls) as (c & Hc & Hf)%list_elem_of_omap by (rewrite El; set_solver).
  by eapply HP.
Qed.

Lemma server_chain_lists calls :
  sb_cipher_suites (server_chain calls) = last_list server_suites calls ∧
  sb_named_groups (server_chain calls) = last_list server_groups calls.
Proof.
  unfold server_chain. induction calls as [|c calls [IHs IHg]] using rev_ind; [done|].
  rewrite !foldl_snoc, !last_list_snoc. by destruct c.
Qed.

Lemma client_chain_lists calls :
  cb_cipher_suites (client_chain calls) = last_list client_suites calls ∧
  cb_named_groups (client_chain calls) = last_list client_groups calls ∧
  cb_roots (client_chain calls) = default System (last (omap client_roots calls)).
Proof.
  unfold client_chain. induction calls as [|c calls (IHs & IHg & IHr)] using rev_ind; [done|].
  rewrite !foldl_snoc, !last_list_snoc, omap_app.
  destruct c; cbn; rewrite ?app_nil_r, ?last_snoc; done.
Qed.

Lemma server_chain_wf calls : Forall server_typed calls → server_wf (server_chain calls).
Proof.
  rewrite Forall_forall. intros Ht. destruct (server_chain_lists calls) as [Hs Hg]. split.
  - intros l. rewrite Hs. apply (last_list_ok _ (λ l, l ⊆ ALL_CIPHER_SUITES)). intros c l' Hc Hf. specialize (Ht c Hc).
    destruct c; try done. by injection Hf as <-.
  - unfold groups_ok. rewrite Hg. intros [? _]%(last_list_ok _ (λ _, True)); done.
Qed.

Lemma client_chain_wf calls : Forall client_typed calls → client_wf (client_chain calls).
Proof.
  rewrite Forall_forall. intros Ht. destruct (client_chain_lists calls) as (Hs & Hg & _). split.
  - intros l. rewrite Hs. apply (last_list_ok _ (λ l, l ⊆ ALL_CIPHER_SUITES)). intros c l' Hc Hf. specialize (Ht c Hc).
    destruct c; try done. by injection Hf as <-.
  - unfold groups_ok. rewrite Hg. intros [? _]%(last_list_ok _ (λ _, True)); done.
Qed.
End chains.

Section typed.
Context {W : Type} `{AwsLcConsts, !AwsLcConstsOk, ErrQueue W, !ErrQueueLaws W, LibSslCtx W,
  !LibSslCtxLaws W, LibCrypto W, !LibCryptoLaws W, !ExIndexAllocates W}.

End typed.

