(* ===== verification/Session.v ===== *)
(** * session.rs: read-only views of a negotiated session *)

From S2P Require Import Prelude Std Env Sim Errors Alpn Suites.

Local Open Scope Z_scope.

(** [cstr_to_string]: a NUL-terminated string, or null. *)
Definition cstr_to_string (p : option (list byte)) : option string :=
  match p with
  | None => None
  | Some s => Some (from_utf8_lossy s)
  end.

Record KtlsEligibility : Type := {
  ke_tls_version : string;
  ke_cipher : string;
  compatible : bool;
}.

Record NegotiatedSession : Type := {
  ns_version : string;
  ns_cipher : string;
  ns_alpn : option (list byte);
  ns_sni : option string;
}.

Section snapshot.
Context {W : Type} `{AwsLcConsts, SslSession W}.

Definition KtlsEligibility_from_ssl (w : W) : KtlsEligibility :=
  let tls_version := default "(unknown)"%string (cstr_to_string (SSL_get_version w)) in
  let cipher :=
    match SSL_get_current_cipher w with
    | None => ""%string
    | Some c => default ""%string (cstr_to_string (SSL_CIPHER_get_name c w))
    end in
  {| ke_tls_version := tls_version; ke_cipher := cipher;
     compatible := match detect w with Some _ => true | None => false end |}.

Definition NegotiatedSession_from_ssl (w : W) : NegotiatedSession :=
  let version := default "(unknown)"%string (cstr_to_string (SSL_get_version w)) in
  let cipher :=
    match SSL_get_current_cipher w with
    | None => ""%string
    | Some c => default ""%string (cstr_to_string (SSL_CIPHER_get_name c w))
    end in
  let alpn :=
    match SSL_get0_alpn_selected w with
    | None => None
    | Some slice => if len slice =? 0 then None else Some slice
    end in
  let sni :=
    match SSL_get_servername w with
    | None => None
    | Some p => cstr_to_string (Some p)
    end in
  {| ns_version := version; ns_cipher := cipher; ns_alpn := alpn; ns_sni := sni |}.

(** [out] is the caller's buffer; the result carries it back as the call left
    it. *)
Definition export_keying_material `{ErrQueue W, Kdf W} (out label : list byte)
    (context : option (list byte)) : M W (Result unit * list byte) :=
  let '(ctx_ptr, ctx_len, use_ctx) :=
    match context with
    | Some c => (Some c, len c, 1)
    | None => (None, 0, 0)
    end in
  let* (ok, bytes) :=
    ext (SSL_export_keying_material (len out) label ctx_ptr ctx_len use_ctx) in
  let out := prefix (len out) (bytes ++ drop (length bytes) out) in
  if ok =? 1 then mret (Ok tt, out)
  else
    let* detail := last_error in
    mret (Err (Handshake ("SSL_export_keying_material: " +:+ detail)), out).
End snapshot.
