(* ===== verification/RecordIo.v ===== *)
(** * ktls/io.rs: record-aware I/O on a socket with kernel TLS installed *)

From Stdlib Require Import Strings.HexString.
From S2P Require Import Prelude Std Env Errors.

Local Open Scope Z_scope.

(** ** Constants *)

Definition TLS_SET_RECORD_TYPE : Z := 1.
Definition TLS_GET_RECORD_TYPE : Z := 2.
Definition ALERT : byte := x15.
Definition HANDSHAKE : byte := x16.
Definition APPLICATION_DATA : byte := x17.
Definition CLOSE_NOTIFY : list byte := [x01; x00].
Definition IO_BUDGET : nat := 32.

(** The Linux ABI on a 64-bit target. *)
Definition SOL_TLS : Z := 282.
Definition MSG_CTRUNC : Z := 0x08.
Definition MSG_TRUNC : Z := 0x20.
Definition MSG_DONTWAIT : Z := 0x40.
Definition MSG_EOR : Z := 0x80.
Definition MSG_NOSIGNAL : Z := 0x4000.
Definition sizeof_cmsghdr : Z := 16.
Definition CMSG_ALIGN (n : Z) : Z := Z.land (n + 7) (Z.lnot 7).
Definition CMSG_LEN (n : Z) : Z := CMSG_ALIGN sizeof_cmsghdr + n.
Definition CMSG_SPACE (n : Z) : Z := CMSG_ALIGN sizeof_cmsghdr + CMSG_ALIGN n.

Definition CONTROL_LEN : Z := CMSG_LEN 1.
Definition CONTROL_SPACE : Z := CMSG_SPACE 1.

(** [flags & mask != 0] *)
Definition has_flag (flags mask : Z) : bool := negb (Z.land flags mask =? 0).

Definition invalid_data (message : string) : io_error := Custom InvalidData message.

Definition copy_error `{Strerror} (error : io_error) : io_error :=
  match raw_os_error error with
  | Some errno => Os errno
  | None => Custom (kind error) (io_to_string error)
  end.

(** ** Ancillary messages *)

Definition Control_new : Control :=
  {| cmsg_len := 0; cmsg_level := 0; cmsg_type := 0; ctl_payload := repeat x00 8 |}.

Definition set_record_type (record_type : byte) (c : Control) : Control :=
  {| cmsg_len := CONTROL_LEN; cmsg_level := SOL_TLS; cmsg_type := TLS_SET_RECORD_TYPE;
     ctl_payload := <[0%nat := record_type]> (ctl_payload c) |}.

(** [Control::message]: the ancillary length the message announces. *)
Definition Control_message_controllen : Z := CONTROL_SPACE.

(** [self.payload[0]] *)
Definition payload0 (c : Control) : byte := default x00 (ctl_payload c !! 0%nat).

Definition Control_record_type (c : Control) (len flags : Z) : io_result (option byte) :=
  if has_flag flags (Z.lor MSG_CTRUNC MSG_TRUNC) then
    Err (invalid_data "truncated kTLS recvmsg payload or ancillary data")
  else if len =? 0 then Ok None
  else if negb ((CONTROL_LEN <=? len) && (len <=? CONTROL_SPACE))
       || negb (cmsg_len c =? CONTROL_LEN)
       || negb (cmsg_level c =? SOL_TLS)
       || negb (cmsg_type c =? TLS_GET_RECORD_TYPE) then
    Err (invalid_data "invalid kTLS record-type ancillary message")
  else Ok (Some (payload0 c)).

(** [struct RecvControl([Control; 2])]. *)
Definition RecvControl : Type := Control * Control.

Definition RecvControl_new : RecvControl := (Control_new, Control_new).

(** [RecvControl::message]: [size_of::<RecvControl>()]. *)
Definition RecvControl_message_controllen : Z := 2 * CONTROL_SPACE.

Definition RecvControl_record_type (c : RecvControl) (len flags : Z) : io_result (option byte) :=
  match Control_record_type c.1 (Z.min len CONTROL_SPACE) flags with
  | Err e => Err e
  | Ok first =>
      if len <=? CONTROL_SPACE then Ok first
      else
        match Control_record_type c.2 (len - CONTROL_SPACE) flags with
        | Err e => Err e
        | Ok second =>
            if negb (bool_decide (first = Some APPLICATION_DATA))
               || negb (bool_decide (second = first)) then
              Err (invalid_data "conflicting or unsupported duplicate kTLS record-type messages")
            else Ok first
        end
  end.

(** ** Receiving one record *)

Record Received : Type := {
  rcv_data : list byte;
  rcv_record_type : option byte;
  rcv_flags : Z;
}.

(** [{:#x}] of a [c_int]. *)
Definition hex_c_int (z : Z) : string := HexString.of_N (Z.to_N (z mod 2 ^ 32)).

Section recv.
Context {W : Type} `{Strerror, Syscalls W}.

Definition recv_error (error : io_error) (msg : RecvRet) (received capacity : Z) : io_error :=
  let first := (rr_control msg).1 in
  let first_record_type :=
    match Control_record_type first (Z.min (rr_controllen msg) CONTROL_SPACE) 0 with
    | Ok t => t
    | Err _ => None
    end in
  Custom (kind error)
    (io_to_string error +:+ " (recvmsg: msg_flags=" +:+ hex_c_int (rr_flags msg)
     +:+ ", MSG_CTRUNC=" +:+ display_bool (has_flag (rr_flags msg) MSG_CTRUNC)
     +:+ ", MSG_TRUNC=" +:+ display_bool (has_flag (rr_flags msg) MSG_TRUNC)
     +:+ ", MSG_EOR=" +:+ display_bool (has_flag (rr_flags msg) MSG_EOR)
     +:+ ", received=" +:+ pretty received +:+ ", capacity=" +:+ pretty capacity
     +:+ ", msg_controllen=" +:+ pretty (rr_controllen msg)
     +:+ ", control_capacity=" +:+ pretty RecvControl_message_controllen
     +:+ ", cmsg_len=" +:+ pretty (cmsg_len first)
     +:+ ", cmsg_level=" +:+ pretty (cmsg_level first)
     +:+ ", cmsg_type=" +:+ pretty (cmsg_type first)
     +:+ ", first_record_type=" +:+ debug_option_u8 first_record_type +:+ ")").

(** The destination of [cap] zeroed bytes after the call stored [bytes] in it,
    cut to the [n] bytes received. *)
Definition dst_prefix (cap n : Z) (bytes : list byte) : list byte :=
  prefix n (bytes ++ repeat x00 (Z.to_nat cap)).

(** [recv_record(tcp, dst)] with [dst.len() = cap]. *)
Definition recv_record (cap : Z) : M W (io_result Received) :=
  let* msg := ext (recvmsg cap RecvControl_message_controllen MSG_DONTWAIT) in
  let n := rr_n msg in
  if n <? 0 then
    let* e := gets errno in
    mret (Err (Os e))
  else
    match RecvControl_record_type (rr_control msg) (rr_controllen msg) (rr_flags msg) with
    | Err error => mret (Err (recv_error error msg n cap))
    | Ok record_type =>
        if cap <? n then
          mret (Err (recv_error (invalid_data "kTLS recvmsg exceeded its destination buffer")
                       msg n cap))
        else
          mret (Ok {| rcv_data := dst_prefix cap n (rr_bytes msg);
                      rcv_record_type := record_type; rcv_flags := rr_flags msg |})
    end.
End recv.

(** ** The record reader *)

Inductive Terminal : Type := Closed | Failed (e : io_error).
Inductive ReadOutcome : Type := Data (n : Z) | More | Eof.

Record RecordReader : Type := {
  alert : list byte;
  alert_len : Z;
  terminal : option Terminal;
}.

(** [RecordReader::default()] *)
Definition RecordReader_default : RecordReader :=
  {| alert := [x00; x00]; alert_len := 0; terminal := None |}.

Definition set_terminal (t : Terminal) (r : RecordReader) : RecordReader :=
  {| alert := alert r; alert_len := alert_len r; terminal := Some t |}.

(** [dst[off..off + src.len()].copy_from_slice(src)]; [None] is a panic. *)
Definition copy_into (off : Z) (src dst : list byte) : option (list byte) :=
  if (0 <=? off) && (off + len src <=? len dst) then
    Some (prefix off dst ++ src ++ drop (Z.to_nat (off + len src)) dst)
  else None.

Section reader.
Context `{Strerror}.

Definition finished (r : RecordReader) : option (io_result ReadOutcome) :=
  match terminal r with
  | None => None
  | Some Closed => Some (Ok Eof)
  | Some (Failed error) => Some (Err (copy_error error))
  end.

Definition fail (error : io_error) : M RecordReader io_error :=
  do* modify (set_terminal (Failed (copy_error error))) ;
  mret error.

Definition reject (message : string) : M RecordReader io_error := fail (invalid_data message).

(** [return Err(self.fail(..))] *)
Definition err_of {S A} (m : M S io_error) : M S (io_result A) :=
  let* e := m in mret (Err e).

Definition consume_alert (flags : Z) (payload : list byte) : M RecordReader (io_result ReadOutcome) :=
  let* r := get_state in
  if len (alert r) <? alert_len r then panic "attempt to subtract with overflow"
  else if len (alert r) - alert_len r <? len payload then
    err_of (reject "oversized kTLS alert")
  else
    let end_ := alert_len r + len payload in
    match copy_into (alert_len r) payload (alert r) with
    | None => panic "copy_from_slice out of range"
    | Some alert' =>
        do* put_state {| alert := alert'; alert_len := end_; terminal := terminal r |} ;
        if negb (has_flag flags MSG_EOR) then
          if end_ =? len alert' then
            err_of (reject "kTLS alert exceeds two bytes without end-of-record")
          else mret (Ok More)
        else if negb (end_ =? len alert') then
          err_of (reject "truncated kTLS alert at end-of-record")
        else
          match alert' with
          | level :: description :: _ =>
              if ((byte_Z level =? 1) || (byte_Z level =? 2)) && (byte_Z description =? 0) then
                do* modify (set_terminal Closed) ;
                mret (Ok Eof)
              else err_of (reject "invalid or non-close kTLS alert")
          | _ => panic "index out of bounds"
          end
    end.

Definition consume (record_type : option byte) (flags : Z) (payload : list byte) :
    M RecordReader (io_result ReadOutcome) :=
  let* r := get_state in
  match finished r with
  | Some result => mret result
  | None =>
      if has_flag flags (Z.lor MSG_CTRUNC MSG_TRUNC) then
        err_of (reject "truncated kTLS recvmsg payload or ancillary data")
      else if is_empty payload then
        if bool_decide (record_type = Some APPLICATION_DATA) && (alert_len r =? 0) then
          mret (Ok More)
        else if bool_decide (record_type ≠ None) || has_flag flags MSG_EOR then
          err_of (reject "empty kTLS record is unsupported")
        else err_of (fail (Custom UnexpectedEof "kTLS peer closed without close_notify"))
      else
        let record_type := default APPLICATION_DATA record_type in
        if negb (alert_len r =? 0) && bool_decide (record_type ≠ ALERT) then
          err_of (reject "kTLS alert interrupted by another record type")
        else if bool_decide (record_type = APPLICATION_DATA) then mret (Ok (Data (len payload)))
        else if bool_decide (record_type = ALERT) then consume_alert flags payload
        else if bool_decide (record_type = HANDSHAKE) then
          err_of (fail (Custom Unsupported
            "kTLS handshake controls (including NewSessionTicket and KeyUpdate) are unsupported"))
        else err_of (reject "unsupported kTLS record type")
  end.
End reader.

(** The caller's [ReadBuf]: what is filled, and the capacity. *)
Record ReadBuf : Type := { filled : list byte; capacity : Z }.

Definition remaining (b : ReadBuf) : Z := capacity b - len (filled b).

(** [buf.advance(bytes.len())] after [bytes] were stored at the start of the
    unfilled part. *)
Definition advance {S} (bytes : list byte) (b : ReadBuf) : M S ReadBuf :=
  if capacity b <? len (filled b) + len bytes then panic "filled overflow"
  else mret {| filled := filled b ++ bytes; capacity := capacity b |}.

Section poll_read.
Context {W : Type} `{Strerror, Syscalls W, TokioTcp W}.

Fixpoint poll_read_loop (budget : nat) (cx : Waker) (buf : ReadBuf) :
    M (RecordReader * W) (poll (io_result unit) * ReadBuf) :=
  match budget with
  | O =>
      do* lift (modify (wake cx)) ;
      mret (Pending, buf)
  | S budget' =>
      let* received := lift (try_io READABLE (recv_record (remaining buf))) in
      match received with
      | Ok record =>
          let* outcome :=
            on_self (consume (rcv_record_type record) (rcv_flags record) (rcv_data record)) in
          match outcome with
          | Ok (Data n) =>
              let* buf := advance (prefix n (rcv_data record)) buf in
              mret (Ready (Ok tt), buf)
          | Ok Eof => mret (Ready (Ok tt), buf)
          | Ok More => poll_read_loop budget' cx buf
          | Err error => mret (Ready (Err error), buf)
          end
      | Err error =>
          if is_kind Interrupted error then poll_read_loop budget' cx buf
          else if is_kind WouldBlock error then
            let* ready := lift (ext (poll_read_ready cx)) in
            match ready with
            | Ready (Ok _) => poll_read_loop budget' cx buf
            | Ready (Err error) =>
                let* error := on_self (fail error) in
                mret (Ready (Err error), buf)
            | Pending => mret (Pending, buf)
            end
          else
            let* error := on_self (fail error) in
            mret (Ready (Err error), buf)
      end
  end.

Definition RecordReader_poll_read (cx : Waker) (buf : ReadBuf) :
    M (RecordReader * W) (poll (io_result unit) * ReadBuf) :=
  let* r := self in
  match finished r with
  | Some result => mret (Ready (result_map (λ _, tt) result), buf)
  | None =>
      if remaining buf =? 0 then mret (Ready (Ok tt), buf)
      else poll_read_loop IO_BUDGET cx buf
  end.

(** ** Sending [close_notify] *)

Definition check_close_notify_write (sent : Z) : io_result unit :=
  if sent =? 2 then Ok tt
  else if sent =? 0 then
    Err (Custom WriteZero "kTLS close_notify send made no progress")
  else
    Err (invalid_data "partial or invalid kTLS close_notify send; connection cannot be reused").

Definition send_close_notify : M W (io_result unit) :=
  let control := set_record_type ALERT Control_new in
  let* n := ext (sendmsg CLOSE_NOTIFY control Control_message_controllen
                   (Z.lor MSG_DONTWAIT MSG_NOSIGNAL)) in
  if n <? 0 then
    let* e := gets errno in
    mret (Err (Os e))
  else mret (check_close_notify_write n).

Fixpoint poll_close_notify_loop (budget : nat) (cx : Waker) : M W (poll (io_result unit)) :=
  match budget with
  | O =>
      do* modify (wake cx) ;
      mret Pending
  | S budget' =>
      let* r := try_io WRITABLE send_close_notify in
      match r with
      | Ok _ => mret (Ready (Ok tt))
      | Err error =>
          if is_kind Interrupted error then poll_close_notify_loop budget' cx
          else if is_kind WouldBlock error then
            let* ready := ext (poll_write_ready cx) in
            match ready with
            | Ready (Ok _) => poll_close_notify_loop budget' cx
            | Ready (Err error) => mret (Ready (Err error))
            | Pending => mret Pending
            end
          else mret (Ready (Err error))
      end
  end.

Definition poll_close_notify (cx : Waker) : M W (poll (io_result unit)) :=
  poll_close_notify_loop IO_BUDGET cx.
End poll_read.
