(* ===== verification/RecordSpec.v ===== *)
(** * The receive side of a kernel-TLS connection: specification and proofs

    The state of one connection's receive side, and what one record does to it.
    Only five kinds of input are not errors: application data, an empty
    application record, the first byte of an alert, and [close_notify] in one
    piece or completing that first byte. *)

From S2P Require Import Prelude Std Env Sim Errors RecordIo.

Local Open Scope Z_scope.


Inductive rx_state : Type :=
| RxOpen
| RxHalf (level : byte)
| RxClosed
| RxFailed (k : ErrorKind).

#[export] Instance rx_state_eq_dec : EqDecision rx_state.
Proof. solve_decision. Defined.

Inductive rx_event : Type :=
| RxData (payload : list byte)
| RxNothing
| RxClose
| RxError (k : ErrorKind).

(** [close_notify] at either defined alert level. *)
Definition is_close (level description : byte) : bool :=
  ((byte_Z level =? 1) || (byte_Z level =? 2)) && (byte_Z description =? 0).

Definition truncated (flags : Z) : bool := has_flag flags (Z.lor MSG_CTRUNC MSG_TRUNC).

(** One record at an open or half-alert connection: its event and the next
    state. *)
Definition rx_live (level : option byte) (record_type : option byte) (flags : Z)
    (payload : list byte) : rx_event * rx_state :=
  let fails k := (RxError k, RxFailed k) in
  let bad := fails InvalidData in
  let eor := has_flag flags MSG_EOR in
  if truncated flags then bad
  else
    match record_type, payload with
    | None, [] => if eor then bad else fails UnexpectedEof
    | None, _ =>
        match level with None => (RxData payload, RxOpen) | Some _ => bad end
    | Some t, _ =>
        if bool_decide (t = APPLICATION_DATA) then
          match level, payload with
          | None, [] => (RxNothing, RxOpen)
          | None, _ => (RxData payload, RxOpen)
          | Some _, _ => bad
          end
        else if bool_decide (t = ALERT) then
          match level, payload with
          | None, [l] => if eor then bad else (RxNothing, RxHalf l)
          | None, [l; d] => if eor && is_close l d then (RxClose, RxClosed) else bad
          | Some l, [d] => if eor && is_close l d then (RxClose, RxClosed) else bad
          | _, _ => bad
          end
        else if bool_decide (t = HANDSHAKE) then
          match level, payload with
          | None, _ :: _ => fails Unsupported
          | _, _ => bad
          end
        else bad
    end.

Definition reader_abs (r : RecordReader) : rx_state :=
  match terminal r with
  | Some Closed => RxClosed
  | Some (Failed e) => RxFailed (kind e)
  | None => if alert_len r =? 0 then RxOpen else RxHalf (default x00 (head (alert r)))
  end.

(** The representation invariant: two alert bytes, and at most one of them
    pending while the connection is live. *)
Definition reader_ok (r : RecordReader) : Prop :=
  length (alert r) = 2%nat ∧ 0 ≤ alert_len r ≤ 2 ∧ (terminal r = None → alert_len r ≤ 1).

(** What [consume] returns for an event. *)
Definition outcome_matches (ev : rx_event) (o : io_result ReadOutcome) : Prop :=
  match ev, o with
  | RxData p, Ok (Data n) => n = len p
  | RxNothing, Ok More => True
  | RxClose, Ok Eof => True
  | RxError k, Err e => kind e = k
  | _, _ => False
  end.

Section consume_facts.
Context `{Strerror}.
Implicit Types r : RecordReader.

Definition live_level r : option byte :=
  if alert_len r =? 0 then None else Some (default x00 (head (alert r))).

Definition consume_post r t flags payload (o : io_result ReadOutcome) (r' : RecordReader) : Prop :=
  let '(ev, s) := rx_live (live_level r) t flags payload in
  outcome_matches ev o ∧ reader_abs r' = s ∧ reader_ok r' ∧
  (∀ e, o = Err e → terminal r' = Some (Failed (copy_error e))).

Lemma reader_ok_default : reader_ok RecordReader_default.
Proof. unfold reader_ok. simpl. lia. Qed.

Lemma reader_ok_terminal r t : reader_ok r → reader_ok (set_terminal t r).
Proof. unfold reader_ok. simpl. intuition congruence. Qed.

Lemma wp_fail e (Q : io_error → RecordReader → Prop) r :
  Q e (set_terminal (Failed (copy_error e)) r) → wp (fail e) Q r.
Proof. done. Qed.

Lemma wp_err_fail {A} e (Q : io_result A → RecordReader → Prop) r :
  Q (Err e) (set_terminal (Failed (copy_error e)) r) → wp (err_of (fail e)) Q r.
Proof. done. Qed.

(** [copy_error] keeps what a caller can observe. *)
Lemma copy_error_same e : same_error (copy_error e) e.
Proof. by destruct e. Qed.

Lemma kind_copy_error e : kind (copy_error e) = kind e.
Proof. apply copy_error_same. Qed.

Lemma reader_abs_failed e r :
  reader_abs (set_terminal (Failed (copy_error e)) r) = RxFailed (kind e).
Proof. unfold reader_abs. cbn [terminal set_terminal]. by rewrite kind_copy_error. Qed.

(** The two shapes a live reader's alert buffer has. *)
Lemma reader_live_cases r :
  reader_ok r → terminal r = None →
  ∃ a0 a1, alert r = [a0; a1] ∧ (alert_len r = 0 ∨ alert_len r = 1).
Proof.
  intros (Hlen & Hr & Hl) Ht. specialize (Hl Ht).
  destruct (alert r) as [|a0 [|a1 [|]]]; try done. exists a0, a1. split; [done|lia].
Qed.

(** [copy_into] on the two-byte buffer. *)
Lemma copy_into_two a0 a1 off payload :
  (off = 0 ∨ off = 1) → len payload ≤ 2 - off →
  copy_into off payload [a0; a1] =
    Some (match off, payload with
          | 0, [p0] => [p0; a1]
          | 0, p0 :: p1 :: _ => [p0; p1]
          | 1, p0 :: _ => [a0; p0]
          | _, _ => [a0; a1]
          end).
Proof.
  unfold copy_into, len. intros [-> | ->] Hp.
  all: destruct payload as [|p0 [|p1 [|]]]; simpl in *; try done; lia.
Qed.

(** Close the bookkeeping goals of one branch. *)
Ltac rx_done :=
  repeat split; try rewrite reader_abs_failed; cbn -[copy_error];
  try done; try lia; try congruence; try (by apply reader_ok_terminal);
  try (by intros ? [= <-]).

(** A live reader is one of these. *)
Definition live_reader (n : Z) (a0 a1 : byte) : RecordReader :=
  {| alert := [a0; a1]; alert_len := n; terminal := None |}.

Lemma reader_live_inv r :
  reader_ok r → terminal r = None →
  ∃ n a0 a1, r = live_reader n a0 a1 ∧ (n = 0 ∨ n = 1).
Proof.
  intros Hok Ht. destruct (reader_live_cases r Hok Ht) as (a0 & a1 & Ha & Hal).
  exists (alert_len r), a0, a1. split; [|done]. destruct r; simpl in *. by subst.
Qed.

Lemma reader_ok_live n a0 a1 : n = 0 ∨ n = 1 → reader_ok (live_reader n a0 a1).
Proof. unfold reader_ok. simpl. lia. Qed.

Lemma wp_consume_alert n a0 a1 flags payload :
  n = 0 ∨ n = 1 → payload ≠ [] → truncated flags = false →
  wp (consume_alert flags payload)
     (consume_post (live_reader n a0 a1) (Some ALERT) flags payload) (live_reader n a0 a1).
Proof.
  intros Hn Hne Htr. unfold consume_alert, consume_post, rx_live. rewrite Htr.
  rewrite bool_decide_eq_false_2, (bool_decide_eq_true_2 (ALERT = ALERT)) by done.
  do 2 wp_step. cbn [alert alert_len live_reader terminal].
  change (len [a0; a1]) with 2. destruct (Z.ltb_spec 2 n); [lia|].
  destruct (Z.ltb_spec (2 - n) (len payload)) as [Hbig|Hfit].
  { apply wp_err_fail. unfold len in Hbig.
    destruct Hn as [-> | ->]; destruct payload as [|p0 [|p1 [|]]]; simpl in *; try lia.
    all: rx_done. }
  rewrite copy_into_two by (done || lia). do 2 wp_step.
  assert (payload = [] ∨ (∃ p0, payload = [p0]) ∨ (∃ p0 p1, n = 0 ∧ payload = [p0; p1]))
    as [->|[[p0 ->]|(p0 & p1 & -> & ->)]].
  { unfold len in Hfit. destruct payload as [|p0 [|p1 [|]]]; simpl in *; eauto 8; [|lia].
    right. right. exists p0, p1. split; [lia|done]. }
  - done.
  - destruct Hn as [-> | ->]; unfold len; cbn -[has_flag byte_Z is_close];
      destruct (has_flag flags MSG_EOR); cbn -[byte_Z is_close].
    + apply wp_err_fail. rx_done.
    + apply wp_ret. rx_done.
    + change (1 + Z.of_nat 1 =? Z.of_nat 2) with true. cbn [negb]. unfold is_close. destruct (_ && _).
      * repeat wp_step. rx_done.
      * apply wp_err_fail. rx_done.
    + apply wp_err_fail. rx_done.
  - unfold len. cbn -[has_flag byte_Z is_close].
    destruct (has_flag flags MSG_EOR); cbn -[byte_Z is_close].
    + change (0 + Z.of_nat 2 =? Z.of_nat 2) with true. cbn [negb]. unfold is_close. destruct (_ && _).
      * repeat wp_step. rx_done.
      * apply wp_err_fail. rx_done.
    + apply wp_err_fail. rx_done.
Qed.

Lemma live_level_live n a0 a1 :
  n = 0 ∨ n = 1 → live_level (live_reader n a0 a1) = if n =? 0 then None else Some a0.
Proof. by intros [-> | ->]. Qed.

Lemma wp_consume_live n a0 a1 t flags payload :
  n = 0 ∨ n = 1 →
  wp (consume t flags payload)
     (consume_post (live_reader n a0 a1) t flags payload) (live_reader n a0 a1).
Proof.
  intros Hn. unfold consume. do 2 wp_step. cbn [finished live_reader terminal].
  pose proof (reader_ok_live n a0 a1 Hn) as Hok.
  fold (truncated flags). destruct (truncated flags) eqn:Htr.
  { apply wp_err_fail. unfold consume_post, rx_live. rewrite Htr.
    rx_done. }
  unfold consume_post, rx_live. rewrite Htr, live_level_live by done.
  destruct payload as [|p0 payload]; cbn [is_empty].
  - destruct t as [t|]; cbn [alert_len live_reader].
    + destruct (decide (t = APPLICATION_DATA)) as [->|Hna].
      * destruct Hn as [-> | ->]; cbn -[reader_ok]; [by wp_step|]. apply wp_err_fail. rx_done.
      * rewrite !(bool_decide_eq_false_2 (Some t = _)) by congruence.
        rewrite (bool_decide_eq_false_2 (t = _)) by done. cbn [andb orb].
        rewrite (bool_decide_eq_true_2 (Some t ≠ None)) by done. apply wp_err_fail.
        repeat case_bool_decide; destruct Hn as [-> | ->]; rx_done.
    + cbn [bool_decide decide]. rewrite (bool_decide_eq_false_2 (None = _)) by done.
      rewrite (bool_decide_eq_false_2 (None ≠ _)) by naive_solver. cbn [andb orb].
      destruct (has_flag flags MSG_EOR); apply wp_err_fail; rx_done.
  - cbn [alert_len live_reader].
    destruct (decide (t = Some ALERT)) as [->|HnA].
    + cbn [default from_option id]. rewrite (bool_decide_eq_false_2 (ALERT ≠ ALERT)) by (by intros []).
      rewrite andb_false_r, (bool_decide_eq_false_2 (ALERT = APPLICATION_DATA)) by done.
      rewrite (bool_decide_eq_true_2 (ALERT = ALERT)) by done.
      pose proof (wp_consume_alert n a0 a1 flags (p0 :: payload) Hn ltac:(done) Htr) as Hw.
      unfold consume_post, rx_live in Hw. rewrite Htr, live_level_live in Hw by done.
      rewrite (bool_decide_eq_false_2 (ALERT = APPLICATION_DATA)),
        (bool_decide_eq_true_2 (ALERT = ALERT)) in Hw by done. exact Hw.
    + rewrite (bool_decide_eq_true_2 (default _ t ≠ ALERT)) by (destruct t; simpl; naive_solver).
      rewrite andb_true_r.
      destruct Hn as [-> | ->]; cbn [Z.eqb negb].
      * destruct t as [t|]; cbn [default from_option id] in *.
        -- rewrite (bool_decide_eq_false_2 (t = ALERT)) by congruence.
           repeat case_bool_decide; try congruence;
             first [apply wp_ret | apply wp_err_fail]; rx_done.
        -- apply wp_ret. rx_done.
      * apply wp_err_fail. destruct t as [t|]; [|rx_done].
        repeat case_bool_decide; try congruence; rx_done.
Qed.
End consume_facts.

(** ** [consume] implements the specification *)

(** The specification in every state: the terminal states are absorbing. *)
Definition rx_step (s : rx_state) (t : option byte) (flags : Z) (payload : list byte) :
    rx_event * rx_state :=
  match s with
  | RxOpen => rx_live None t flags payload
  | RxHalf l => rx_live (Some l) t flags payload
  | RxClosed => (RxClose, RxClosed)
  | RxFailed k => (RxError k, RxFailed k)
  end.

Section refinement.
Context `{Strerror}.
Implicit Types r : RecordReader.

Definition step_post r t flags payload (o : io_result ReadOutcome) (r' : RecordReader) : Prop :=
  let '(ev, s) := rx_step (reader_abs r) t flags payload in
  outcome_matches ev o ∧ reader_abs r' = s ∧ reader_ok r' ∧
  (∀ e, o = Err e → ∃ e0, terminal r' = Some (Failed e0) ∧ same_error e0 e).

Lemma returns_consume t flags payload : returns (consume t flags payload).
Proof. unfold consume, consume_alert, err_of, reject, fail. returns_tac. Qed.

Lemma rx_step_live n a0 a1 t flags payload :
  n = 0 ∨ n = 1 →
  rx_step (reader_abs (live_reader n a0 a1)) t flags payload
  = rx_live (live_level (live_reader n a0 a1)) t flags payload.
Proof. by intros [-> | ->]. Qed.

Lemma wp_consume r t flags payload :
  reader_ok r → wp (consume t flags payload) (step_post r t flags payload) r.
Proof.
  intros Hok. destruct (terminal r) as [tm|] eqn:Ht.
  - unfold consume, step_post, reader_abs, finished. do 2 wp_step. rewrite Ht.
    destruct tm as [|e]; simpl; wp_step; cbn; rewrite ?Ht, ?kind_copy_error.
    + by split_and!.
    + split_and!; try done. intros ? [= <-]. exists e. split; [done|].
      symmetry. apply copy_error_same.
  - destruct (reader_live_inv r Hok Ht) as (n & a0 & a1 & -> & Hn).
    eapply wp_mono; [by apply wp_consume_live|]. intros o r'. unfold consume_post, step_post.
    rewrite rx_step_live by done. destruct (rx_live _ _ _ _) as [ev s].
    intros (? & ? & ? & Hf). split_and!; try done. intros e He.
    exists (copy_error e). split; [by apply Hf|]. apply copy_error_same.
Qed.

(** C2. [RecordReader::consume] refines the record specification [rx_step]: from
    every reader that satisfies the representation invariant it returns (it
    never panics: the alert buffer is never indexed out of range), its outcome
    is the event the specification prescribes, the reader it leaves represents
    the specification's next state, and the invariant holds again.  An error
    it returns is the one it remembers. *)
Theorem consume_refines r t flags payload :
  reader_ok r →
  ∃ o r', consume t flags payload r = Done (o, r') ∧ reader_ok r' ∧
    outcome_matches (rx_step (reader_abs r) t flags payload).1 o ∧
    reader_abs r' = (rx_step (reader_abs r) t flags payload).2 ∧
    (∀ e, o = Err e → ∃ e0, terminal r' = Some (Failed e0) ∧ same_error e0 e).
Proof.
  intros Hok. destruct (wp_returns _ _ _ (returns_consume t flags payload)
    (wp_consume r t flags payload Hok)) as (o & r' & E & Hp).
  exists o, r'. unfold step_post in Hp. destruct (rx_step _ _ _ _). by destruct Hp as (? & ? & ? & ?).
Qed.
End refinement.

(** A [close_notify] whose two bytes arrive in two pieces. *)
Lemma consume_refines_witness :
  ∃ o r', consume (Some ALERT) MSG_EOR [x00]
            {| alert := [x01; x00]; alert_len := 1; terminal := None |} = Done (o, r') ∧
    o = Ok Eof ∧ reader_abs r' = RxClosed.
Proof.
  destruct (consume_refines {| alert := [x01; x00]; alert_len := 1; terminal := None |}
              (Some ALERT) MSG_EOR [x00]) as (o & r' & E & _ & Ho & Ha & _).
  - unfold reader_ok. simpl. lia.
  - exists o, r'. split; [exact E|]. vm_compute in Ho. destruct o as [[]|]; try done.
Defined.

(** ** Sequences of records *)

Section run.
Context `{Strerror}.

(** What [recv_record] makes of one [recvmsg] call. *)
Definition recv_result (cap : Z) (msg : RecvRet) (e : Z) : io_result Received :=
  let n := rr_n msg in
  if n <? 0 then Err (Os e)
  else
    match RecvControl_record_type (rr_control msg) (rr_controllen msg) (rr_flags msg) with
    | Err error => Err (recv_error error msg n cap)
    | Ok record_type =>
        if cap <? n then
          Err (recv_error (invalid_data "kTLS recvmsg exceeded its destination buffer") msg n cap)
        else
          Ok {| rcv_data := dst_prefix cap n (rr_bytes msg);
                rcv_record_type := record_type; rcv_flags := rr_flags msg |}
    end.

Definition entry_result (e : RxEntry) : io_result Received :=
  recv_result (re_cap e) (re_ret e) (re_errno e).

(** Errors after which the receive loop goes on. *)
Definition transient (e : io_error) : bool := is_kind Interrupted e || is_kind WouldBlock e.

(** One entry of the receive log: the application bytes it delivers, and the
    next state. *)
Definition rx_entry (s : rx_state) (e : RxEntry) : list byte * rx_state :=
  match entry_result e with
  | Ok rec =>
      let '(ev, s') := rx_step s (rcv_record_type rec) (rcv_flags rec) (rcv_data rec) in
      (match ev with RxData p => p | _ => [] end, s')
  | Err err =>
      match s with
      | RxClosed | RxFailed _ => ([], s)
      | _ => if transient err then ([], s) else ([], RxFailed (kind err))
      end
  end.

Fixpoint rx_run (s : rx_state) (es : list RxEntry) : list byte * rx_state :=
  match es with
  | [] => ([], s)
  | e :: es =>
      let '(bytes, s') := rx_entry s e in
      let '(bytes', s'') := rx_run s' es in
      (bytes ++ bytes', s'')
  end.

Lemma rx_run_app s es1 es2 :
  rx_run s (es1 ++ es2) =
    let '(b1, s1) := rx_run s es1 in
    let '(b2, s2) := rx_run s1 es2 in (b1 ++ b2, s2).
Proof.
  revert s. induction es1 as [|e es1 IH]; intros s; simpl.
  - by destruct (rx_run s es2).
  - destruct (rx_entry s e) as [b s']. rewrite IH. destruct (rx_run s' es1) as [b1 s1].
    destruct (rx_run s1 es2). by rewrite app_assoc.
Qed.

Definition rx_is_live (s : rx_state) : Prop :=
  match s with RxOpen | RxHalf _ => True | _ => False end.

(** What a live step can say. *)
Lemma rx_live_event level t flags payload :
  match rx_live level t flags payload with
  | (RxData p, s) => p = payload ∧ p ≠ [] ∧ s = RxOpen ∧ level = None
  | (RxNothing, s) => rx_is_live s
  | (RxClose, s) => s = RxClosed
  | (RxError k, s) => s = RxFailed k
  end.
Proof.
  unfold rx_live.
  repeat match goal with |- context [match ?x with _ => _ end] =>
    lazymatch x with context [match _ with _ => _ end] => fail | _ => destruct x eqn:? end
  end; simplify_eq; done.
Qed.
End run.

#[global] Arguments recv_error : simpl never.
#[global] Arguments recv_result : simpl never.

Lemma len_dst_prefix cap n bytes : 0 ≤ n ≤ cap → len (dst_prefix cap n bytes) = n.
Proof.
  intros Hn. unfold dst_prefix. apply len_prefix. rewrite len_app. unfold len at 2.
  rewrite repeat_length. pose proof (len_nonneg bytes). lia.
Qed.

Section poll.
Context {W : Type} `{NetView W, !Strerror}.
Implicit Types (w : W) (r : RecordReader).

Lemma recv_record_done cap w :
  recv_record cap w =
    let m := recvmsg cap RecvControl_message_controllen MSG_DONTWAIT w in
    Done (recv_result cap m.1 (errno m.2), m.2).
Proof.
  unfold recv_record, recv_result, ext, gets, mbind, M_bind. cbv zeta.
  destruct (recvmsg _ _ _ w) as [m w']. simpl.
  repeat case_match; try done.
Qed.

(** What a successful receive guarantees about its data. *)
Lemma recv_result_bound cap m e rec :
  recv_result cap m e = Ok rec → 0 ≤ len (rcv_data rec) ≤ cap.
Proof.
  unfold recv_result. destruct (Z.ltb_spec (rr_n m) 0); [done|].
  case_match; [|done]. destruct (Z.ltb_spec cap (rr_n m)); [done|].
  intros [= <-]. simpl. rewrite len_dst_prefix; lia.
Qed.

(** [try_io(READABLE, recv_record)] *)
Lemma wp_try_recv cap (Q : io_result Received → W → Prop) w :
  (∀ e w', re_cap e = cap → view w' = v_add_rx e (view w) → Q (entry_result e) w') →
  Q (Err (Simple WouldBlock)) w →
  wp (try_io READABLE (recv_record cap)) Q w.
Proof.
  intros HQ Hw. unfold wp. rewrite try_io_spec. destruct (io_ready READABLE w); [|done].
  rewrite recv_record_done. cbv zeta.
  set (m := recvmsg _ _ _ w).
  pose proof (view_recvmsg cap RecvControl_message_controllen MSG_DONTWAIT w) as Hv.
  set (e := {| re_cap := cap; re_ret := m.1; re_errno := errno m.2 |}).
  change (recv_result cap m.1 (errno m.2)) with (entry_result e).
  destruct (entry_result e) as [rec|err] eqn:Er; rewrite <- Er.
  - apply HQ; auto.
  - apply HQ; auto. by case_match; rewrite ?view_clear_ready.
Qed.

(** The observations that receiving leaves alone; it may wake tasks. *)
Definition tx_same (v v' : View) : Prop :=
  v_sent v' = v_sent v ∧ v_blocked v' = v_blocked v ∧ v_raw v' = v_raw v ∧
  v_closes v' = v_closes v ∧ v_opts v' = v_opts v ∧
  ∃ ks, v_woken v' = v_woken v ++ ks.

Lemma tx_same_refl v : tx_same v v.
Proof. repeat split; try done. exists []. by rewrite app_nil_r. Qed.

#[global] Instance tx_same_preorder : PreOrder tx_same.
Proof.
  split; [exact tx_same_refl|].
  intros v1 v2 v3 (?&?&?&?&?&k1&E1) (?&?&?&?&?&k2&E2). repeat split; try congruence.
  exists (k1 ++ k2). by rewrite E2, E1, app_assoc.
Qed.

(** The task will be polled again: its waker is registered for readability, or
    was woken. *)
Definition awaiting (cx : Waker) (w' : W) : Prop :=
  ∃ w0, poll_read_ready cx w0 = (Pending, w') ∨ w' = wake cx w0.

(** What a poll that made at most [n] [recvmsg] calls did, from the
    specification state [s]. *)
Definition read_post (n : nat) (s : rx_state) (buf : ReadBuf) (cx : Waker) (w : W)
    (res : poll (io_result unit) * ReadBuf) (st : RecordReader * W) : Prop :=
  ∃ es bytes s',
    v_rx (view st.2) = v_rx (view w) ++ es ∧ (length es ≤ n)%nat ∧
    tx_same (view w) (view st.2) ∧ rx_run s es = (bytes, s') ∧
    filled res.2 = filled buf ++ bytes ∧ capacity res.2 = capacity buf ∧
    len (filled res.2) ≤ capacity res.2 ∧ reader_ok st.1 ∧
    match res.1 with
    | Ready (Ok _) => reader_abs st.1 = s' ∧ (bytes ≠ [] ∧ s' = RxOpen ∨ bytes = [] ∧ s' = RxClosed)
    | Ready (Err e) =>
        bytes = [] ∧ (∃ e0, terminal st.1 = Some (Failed e0) ∧ same_error e0 e) ∧
        (s' = RxFailed (kind e) ∨ rx_is_live s')
    | Pending => bytes = [] ∧ reader_abs st.1 = s' ∧ rx_is_live s' ∧ awaiting cx st.2
    end.

Lemma read_post_cons n s s1 e buf cx w w1 res st :
  v_rx (view w1) = v_rx (view w) ++ [e] → tx_same (view w) (view w1) →
  rx_entry s e = ([], s1) →
  read_post n s1 buf cx w1 res st → read_post (S n) s buf cx w res st.
Proof.
  intros Hv Ht He (es & bytes & s' & Hrx & Hn & Htx & Hrun & Hrest).
  exists (e :: es), bytes, s'. split; [by rewrite Hrx, Hv, <- app_assoc|].
  split; [simpl; lia|]. split; [by etrans|]. split; [|done]. simpl. by rewrite He, Hrun.
Qed.

Lemma read_post_skip n s buf cx w w1 res st :
  v_rx (view w1) = v_rx (view w) → tx_same (view w) (view w1) →
  read_post n s buf cx w1 res st → read_post (S n) s buf cx w res st.
Proof.
  intros Hv Ht (es & bytes & s' & Hrx & Hn & Htx & Hrest).
  exists es, bytes, s'. rewrite Hrx, Hv. split; [done|]. split; [lia|].
  split; [by etrans|done].
Qed.

(** Results that end the poll without delivering anything. *)
Lemma read_post_nil n s buf cx w r w' p :
  tx_same (view w) (view w') → v_rx (view w') = v_rx (view w) →
  len (filled buf) ≤ capacity buf → reader_ok r →
  match p with
  | Ready (Ok _) => reader_abs r = s ∧ s = RxClosed
  | Ready (Err e) => (∃ e0, terminal r = Some (Failed e0) ∧ same_error e0 e) ∧
      (s = RxFailed (kind e) ∨ rx_is_live s)
  | Pending => reader_abs r = s ∧ rx_is_live s ∧ awaiting cx w'
  end → read_post n s buf cx w (p, buf) (r, w').
Proof.
  intros. exists [], [], s. simpl. rewrite !app_nil_r.
  split_and!; try done; [lia|]. destruct p as [[]|]; tauto.
Qed.

Lemma reader_abs_live r : rx_is_live (reader_abs r) ↔ terminal r = None.
Proof. unfold reader_abs. destruct (terminal r) as [[]|]; simpl; [done..|]. by case_match. Qed.

(** The wait after a [WouldBlock]. *)
Lemma wp_read_wait n cx buf r w (k : M (RecordReader * W) (poll (io_result unit) * ReadBuf)) :
  reader_ok r → rx_is_live (reader_abs r) → len (filled buf) ≤ capacity buf →
  (∀ w', wp k (read_post n (reader_abs r) buf cx w') (r, w')) →
  wp (let* ready := lift (ext (poll_read_ready cx)) in
      match ready with
      | Ready (Ok _) => k
      | Ready (Err error) =>
          let* error := on_self (fail error) in
          mret (Ready (Err error), buf)
      | Pending => mret (Pending, buf)
      end) (read_post n (reader_abs r) buf cx w) (r, w).
Proof.
  intros Hok Hl Hb Hk. do 3 wp_step. cbn [fst snd] in *.
  match goal with E : poll_read_ready cx w = (?p, ?w1) |- _ => rename E into Ep, p into q, w1 into w' end.
  pose proof (view_poll_read_ready cx w) as Hv. rewrite Ep in Hv. simpl in Hv.
  destruct q as [[[]|e]|].
  - eapply wp_mono; [apply Hk|]. intros res st (es & bytes & s' & Hp). exists es, bytes, s'.
    by rewrite <- Hv.
  - wp_step. apply wp_on_self, wp_fail, wp_ret. cbn [fst snd].
    apply read_post_nil; rewrite ?Hv; try done.
    + by apply reader_ok_terminal.
    + split; [|auto]. exists (copy_error e). split; [done|]. apply copy_error_same.
  - wp_step. cbn [fst snd]. apply read_post_nil; rewrite ?Hv; try done. split_and!; try done.
    exists w. by left.
Qed.

Lemma tx_same_add_rx e v : tx_same v (v_add_rx e v).
Proof. repeat split; try done. exists []. by rewrite app_nil_r. Qed.

Lemma tx_same_woken wk v : tx_same v (v_add_woken wk v).
Proof. repeat split; try done. by exists [wk]. Qed.

(** A record that was received. *)
Lemma wp_read_record n cx buf r w w1 e rec
    (k : M (RecordReader * W) (poll (io_result unit) * ReadBuf)) :
  reader_ok r → rx_is_live (reader_abs r) → len (filled buf) ≤ capacity buf →
  re_cap e = remaining buf → view w1 = v_add_rx e (view w) → entry_result e = Ok rec →
  (∀ r', reader_ok r' → rx_is_live (reader_abs r') →
     wp k (read_post n (reader_abs r') buf cx w1) (r', w1)) →
  wp (let* outcome :=
        on_self (consume (rcv_record_type rec) (rcv_flags rec) (rcv_data rec)) in
      match outcome with
      | Ok (Data n) =>
          let* buf := advance (prefix n (rcv_data rec)) buf in
          mret (Ready (Ok tt), buf)
      | Ok Eof => mret (Ready (Ok tt), buf)
      | Ok More => k
      | Err error => mret (Ready (Err error), buf)
      end) (read_post (S n) (reader_abs r) buf cx w) (r, w1).
Proof.
  intros Hok Hl Hb Hcap Hv Hrec Hk. wp_step. apply wp_on_self. cbn [fst snd].
  eapply wp_mono; [by apply wp_consume|]. intros o r' Hs. unfold step_post in Hs.
  assert (∃ level, ∀ t fl p, rx_step (reader_abs r) t fl p = rx_live level t fl p) as [level Hlv].
  { destruct (reader_abs r); try done; by eexists. }
  assert (rx_entry (reader_abs r) e =
    let '(ev, s') := rx_live level (rcv_record_type rec) (rcv_flags rec) (rcv_data rec) in
    (match ev with RxData p => p | _ => [] end, s')) as He.
  { unfold rx_entry. by rewrite Hrec, Hlv. }
  rewrite Hlv in Hs.
  pose proof (rx_live_event level (rcv_record_type rec) (rcv_flags rec) (rcv_data rec)) as Hev.
  destruct (rx_live _ _ _ _) as [ev s'].
  destruct Hs as (Ho & Ha & Hok' & Herr).
  pose proof (tx_same_add_rx e (view w)) as Htx. rewrite <- Hv in Htx.
  assert (v_rx (view w1) = v_rx (view w) ++ [e]) as Hrx by by rewrite Hv.
  destruct ev, o as [[]|]; try done; cbn [outcome_matches] in Ho.
  - destruct Hev as (-> & Hne & -> & ->).
    apply recv_result_bound in Hrec as Hbd. rewrite Ho, prefix_all by done.
    unfold advance. unfold remaining in *.
    destruct (Z.ltb_spec (capacity buf) (len (filled buf) + len (rcv_data rec))); [lia|].
    do 2 wp_step. wp_step.
    exists [e], (rcv_data rec), RxOpen. cbn [fst snd filled capacity rx_run length].
    rewrite He, app_nil_r, len_app. repeat (split; [done || lia|]). auto.
  - rewrite <- Ha in Hev. eapply wp_mono; [by apply Hk|].
    intros res st Hp. eapply read_post_cons; [done..| |done]. by rewrite He, Ha.
  - wp_step. eapply read_post_cons; [done..|]. by apply read_post_nil.
  - wp_step. eapply read_post_cons; [done..|]. apply read_post_nil; try done.
    split; [by apply Herr|]. left. by rewrite Ho.
Qed.

Lemma wp_poll_read_loop n cx buf r w :
  reader_ok r → rx_is_live (reader_abs r) → len (filled buf) ≤ capacity buf →
  wp (poll_read_loop n cx buf) (read_post n (reader_abs r) buf cx w) (r, w).
Proof.
  revert r w. induction n as [|n IH]; intros r w Hok Hl Hb; cbn [poll_read_loop].
  - do 4 wp_step. pose proof (view_wake cx w) as Hv. cbn [fst snd].
    apply read_post_nil; rewrite ?Hv; try done; [apply tx_same_woken|].
    split_and!; [done..|]. exists w. by right.
  - do 2 wp_step. cbn [fst snd]. apply wp_try_recv.
    + intros e w1 Hcap Hv. destruct (entry_result e) as [rec|err] eqn:Er.
      { eapply wp_read_record; eauto. }
      assert (v_rx (view w1) = v_rx (view w) ++ [e]) as Hrx by by rewrite Hv.
      pose proof (tx_same_add_rx e (view w)) as Htx. rewrite <- Hv in Htx.
      assert (rx_entry (reader_abs r) e =
                ([], if transient err then reader_abs r else RxFailed (kind err))) as He.
      { unfold rx_entry. rewrite Er. by destruct (reader_abs r), (transient err). }
      unfold transient in He. destruct (is_kind Interrupted err); cbn [orb] in He.
      { eapply wp_mono; [by apply IH|]. intros res st. by apply read_post_cons with e. }
      destruct (is_kind WouldBlock err).
      { eapply wp_mono; [apply wp_read_wait; eauto|]. intros res st. by apply read_post_cons with e. }
      wp_step. apply wp_on_self, wp_fail, wp_ret. cbn [fst snd].
      eapply read_post_cons; [done..|]. apply read_post_nil; try done.
      * by apply reader_ok_terminal.
      * split; [|by left]. exists (copy_error err). split; [done|]. apply copy_error_same.
    + cbn [is_kind kind]. eapply wp_mono; [apply wp_read_wait; eauto|].
      intros res st. by apply read_post_skip.
Qed.

Lemma returns_try_io {A} i (m : M W (io_result A)) : returns m → returns (try_io i m).
Proof.
  intros Hm w. rewrite try_io_spec. specialize (Hm w). destruct (io_ready i w); [|done].
  by destruct (m w) as [[[] ?]| |].
Qed.

Lemma returns_poll_read_loop n cx buf : returns (poll_read_loop n cx buf : M (RecordReader * W) _).
Proof.
  induction n as [|n IH]; cbn [poll_read_loop]; [returns_tac|].
  apply returns_bind.
  - apply returns_lift, returns_try_io. intros w. by rewrite recv_record_done.
  - pose proof returns_consume. unfold advance, fail. returns_tac; try done.
    all: apply returns_on_self; returns_tac; try done.
Qed.

(** A poll of a connection that is neither closed nor failed, into a buffer
    that has room. *)
Lemma poll_read_live cx buf r w :
  reader_ok r → terminal r = None → len (filled buf) < capacity buf →
  ∃ res st, RecordReader_poll_read cx buf (r, w) = Done (res, st) ∧
    read_post IO_BUDGET (reader_abs r) buf cx w res st.
Proof.
  intros Hok Ht Hb. apply wp_returns.
  { pose proof returns_poll_read_loop. unfold RecordReader_poll_read. returns_tac; try done. }
  unfold RecordReader_poll_read. do 2 wp_step. unfold finished. cbn [fst]. rewrite Ht.
  unfold remaining. destruct (Z.eqb_spec (capacity buf - len (filled buf)) 0); [lia|].
  apply wp_poll_read_loop; [done| |lia]. by apply reader_abs_live.
Qed.

(** A poll of a connection that ended answers from memory. *)
Lemma poll_read_terminal cx buf r w tm :
  terminal r = Some tm →
  RecordReader_poll_read cx buf (r, w) =
    Done ((Ready (match tm with Closed => Ok tt | Failed e => Err (copy_error e) end), buf), (r, w)).
Proof.
  intros Ht. unfold RecordReader_poll_read, mbind, M_bind, self, finished. cbn [fst].
  rewrite Ht. by destruct tm.
Qed.

(** C27. Every poll returns: with room in the buffer and a live connection,
    [RecordReader::poll_read] makes at most 32 [recvmsg] calls, never panics,
    delivers exactly the bytes the record specification assigns to the records
    it received, leaves everything outside the receive side alone, and ends in
    one of three ways: [Ready(Ok)] after data or after an authenticated close;
    [Ready(Err)] with the error remembered; or [Pending] with nothing delivered
    and the task's waker registered or woken. *)
Theorem poll_read_step cx buf r w :
  reader_ok r → terminal r = None → len (filled buf) < capacity buf →
  ∃ res st, RecordReader_poll_read cx buf (r, w) = Done (res, st) ∧
    read_post IO_BUDGET (reader_abs r) buf cx w res st.
Proof. apply poll_read_live. Qed.

(** ** Whole connections

    Any number of polls into empty buffers, with other activity on the
    connection in between that receives nothing. *)
Inductive reads : RecordReader * W → list byte → RecordReader * W → Prop :=
| reads_nil st : reads st [] st
| reads_poll cx cap st p buf' st' bytes st'' :
    0 < cap →
    RecordReader_poll_read cx {| filled := []; capacity := cap |} st = Done ((p, buf'), st') →
    reads st' bytes st'' →
    reads st (filled buf' ++ bytes) st''
| reads_other r w w' bytes st :
    v_rx (view w') = v_rx (view w) → reads (r, w') bytes st → reads (r, w) bytes st.

Definition reader_tracks r (s : rx_state) : Prop :=
  reader_abs r = s ∨ ∃ e, terminal r = Some (Failed e) ∧ rx_is_live s.

(** One poll, whatever state the reader is in. *)
Lemma poll_read_tracks cx buf r w s p buf' st :
  reader_ok r → reader_tracks r s → len (filled buf) < capacity buf →
  RecordReader_poll_read cx buf (r, w) = Done ((p, buf'), st) →
  ∃ es bytes s', v_rx (view st.2) = v_rx (view w) ++ es ∧ rx_run s es = (bytes, s') ∧
    filled buf' = filled buf ++ bytes ∧ reader_ok st.1 ∧ reader_tracks st.1 s' ∧
    (∀ u, p = Ready (Ok u) → bytes = [] → s' = RxClosed).
Proof.
  intros Hok Htr Hb E. destruct (terminal r) as [tm|] eqn:Ht.
  - rewrite (poll_read_terminal _ _ _ _ tm Ht) in E. simplify_eq. exists [], [], s.
    rewrite !app_nil_r. split_and!; try done. intros u Hp _. destruct tm as [|e]; [|done].
    destruct Htr as [<-|(e & He & _)]; [|congruence]. unfold reader_abs. by rewrite Ht.
  - destruct Htr as [<-|(e & He & _)]; [|congruence].
    destruct (poll_read_live cx buf r w Hok Ht Hb) as (res & st' & E' & Hp).
    rewrite E in E'. injection E' as <- <-.
    destruct Hp as (es & bs & s1 & Hrx & _ & _ & Hrun & Hf & _ & _ & Hok1 & Hp).
    exists es, bs, s1. cbn [fst snd] in *. split_and!; try done.
    + destruct p as [[?|e]|].
      * left. by destruct Hp.
      * destruct Hp as (_ & (e0 & He0 & Hsame) & [-> | Hl]); [left|right; by exists e0].
        unfold reader_abs. rewrite He0. f_equal. apply Hsame.
      * left. by destruct Hp as (_ & ? & _).
    + intros u -> Hbs. by destruct Hp as [_ [[? _]|[_ ->]]].
Qed.

Lemma reads_run r w bytes st s :
  reads (r, w) bytes st → reader_ok r → reader_tracks r s →
  ∃ es s', v_rx (view st.2) = v_rx (view w) ++ es ∧ rx_run s es = (bytes, s') ∧
    reader_ok st.1 ∧ reader_tracks st.1 s'.
Proof.
  intros Hr. remember (r, w) as st0 eqn:Est. revert r w s Est.
  induction Hr as [st|cx cap st p buf' st1 bytes st2 Hcap E Hrs IH|r0 w0 w1 bytes st Hv Hrs IH];
    intros r w s -> Hok Htr || intros r w s Est Hok Htr.
  - exists [], s. by rewrite app_nil_r.
  - destruct (poll_read_tracks _ {| filled := []; capacity := cap |} _ _ _ _ _ _ Hok Htr Hcap E)
      as (es & bs & s1 & Hrx & Hrun & Hf & Hok1 & Htr1 & _).
    destruct st1 as [r1 w1]. cbn [fst snd filled app] in *.
    destruct (IH r1 w1 s1 eq_refl Hok1 Htr1) as (es2 & s2 & Hrx2 & Hrun2 & Hok2 & Htr2).
    exists (es ++ es2), s2. rewrite Hrx2, Hrx, app_assoc, rx_run_app, Hrun, Hrun2, Hf. done.
  - simplify_eq. destruct (IH r w1 s eq_refl Hok Htr) as (es & s' & Hrx & Hrest).
    exists es, s'. by rewrite <- Hv.
Qed.

(** C4. End to end: over any sequence of polls on a fresh connection, the
    application bytes handed to the caller are exactly those the specification
    [rx_run] reads out of the sequence of [recvmsg] results, in order, with
    nothing lost, duplicated or taken from a control record. *)
Theorem reads_deliver w bytes r' w' :
  reads (RecordReader_default, w) bytes (r', w') →
  ∃ es s, v_rx (view w') = v_rx (view w) ++ es ∧ rx_run RxOpen es = (bytes, s) ∧
    reader_ok r' ∧ (reader_abs r' = s ∨ ∃ e, terminal r' = Some (Failed e) ∧ rx_is_live s).
Proof.
  intros Hr. destruct (reads_run _ _ _ _ RxOpen Hr reader_ok_default (or_introl eq_refl))
    as (es & s & Hp). by exists es, s.
Qed.

(** The end of the stream needs an authenticated [close_notify]. *)
Definition close_record (s : rx_state) (e : RxEntry) : Prop :=
  ∃ rec l d, entry_result e = Ok rec ∧ rcv_record_type rec = Some ALERT ∧
    has_flag (rcv_flags rec) MSG_EOR = true ∧ truncated (rcv_flags rec) = false ∧
    is_close l d = true ∧
    (s = RxOpen ∧ rcv_data rec = [l; d] ∨ s = RxHalf l ∧ rcv_data rec = [d]).

Lemma rx_live_close level t flags payload s :
  rx_live level t flags payload = (RxClose, s) →
  ∃ l d, t = Some ALERT ∧ has_flag flags MSG_EOR = true ∧ truncated flags = false ∧
    is_close l d = true ∧
    (level = None ∧ payload = [l; d] ∨ level = Some l ∧ payload = [d]).
Proof.
  unfold rx_live. intros E.
  repeat (case_match; simplify_eq/=);
    repeat match goal with
    | H : bool_decide _ = true |- _ => apply bool_decide_eq_true in H
    | H : _ && _ = true |- _ => apply andb_prop in H as [? ?]
    end; subst; eauto 12.
Qed.

Lemma rx_entry_close s e b :
  rx_entry s e = (b, RxClosed) → s ≠ RxClosed → close_record s e.
Proof.
  unfold rx_entry, close_record. destruct (entry_result e) as [rec|err] eqn:Er.
  - destruct (rx_step _ _ _ _) as [ev s'] eqn:Es. intros [= _ ->] Hs.
    assert (∃ level, rx_live level (rcv_record_type rec) (rcv_flags rec) (rcv_data rec)
                     = (ev, RxClosed) ∧
                     (level = None ∧ s = RxOpen ∨ ∃ l, level = Some l ∧ s = RxHalf l))
      as (level & El & Hlv).
    { destruct s; simpl in Es; try done; eauto 10. }
    pose proof (rx_live_event level (rcv_record_type rec) (rcv_flags rec) (rcv_data rec)) as Hev.
    rewrite El in Hev. destruct ev; try (by destruct Hev as (_ & _ & ? & _)); try done.
    apply rx_live_close in El as (l & d & Ht & Heor & Htr & Hc & Hp).
    exists rec, l, d. split_and!; try done. destruct Hlv as [[-> ->]|(l' & -> & ->)].
    + destruct Hp as [[_ ->]|[? _]]; [by left|done].
    + destruct Hp as [[? _]|[[= ->] ->]]; [done|by right].
  - destruct s; intros; try done; by destruct (transient err).
Qed.

Lemma rx_run_close s es b :
  rx_run s es = (b, RxClosed) → s ≠ RxClosed →
  ∃ pre e post, es = pre ++ e :: post ∧ close_record (rx_run s pre).2 e.
Proof.
  revert s b. induction es as [|e es IH]; intros s b E Hs; simpl in E; [naive_solver|].
  destruct (rx_entry s e) as [b1 s1] eqn:E1. destruct (rx_run s1 es) as [b2 s2] eqn:E2.
  injection E as _ ->. destruct (decide (s1 = RxClosed)) as [->|Hn].
  - exists [], e, es. split; [done|]. by eapply rx_entry_close.
  - destruct (IH s1 b2 E2 Hn) as (pre & e' & post & -> & Hc).
    exists (e :: pre), e', post. split; [done|]. simpl. rewrite E1.
    by destruct (rx_run s1 pre).
Qed.

(** C8. End of stream is authenticated: if a caller that polls into a non-empty
    buffer gets [Ready(Ok)] with nothing in it, then one of the records received
    on this connection completed a [close_notify] alert: typed as an alert by
    the kernel, at end of record, not truncated, with level 1 or 2 and
    description 0.  A bare TCP FIN never reads as end of stream. *)
Theorem eof_authenticated w bytes r1 w1 cx cap buf' st :
  reads (RecordReader_default, w) bytes (r1, w1) → 0 < cap →
  RecordReader_poll_read cx {| filled := []; capacity := cap |} (r1, w1)
    = Done ((Ready (Ok tt), buf'), st) →
  filled buf' = [] →
  ∃ es pre e post, v_rx (view st.2) = v_rx (view w) ++ es ∧ es = pre ++ e :: post ∧
    close_record (rx_run RxOpen pre).2 e.
Proof.
  intros Hr Hcap Hp Hf.
  destruct (reads_run _ _ _ _ RxOpen Hr reader_ok_default (or_introl eq_refl))
    as (es & s & Hrx & Hrun & Hok & Htr). cbn [fst snd] in *.
  destruct (poll_read_tracks _ {| filled := []; capacity := cap |} _ _ _ _ _ _ Hok Htr Hcap Hp)
    as (es2 & bs & s' & Hrx2 & Hrun2 & Hf2 & _ & _ & Hcl). cbn [filled app] in Hf2.
  destruct (rx_run_close RxOpen (es ++ es2) (bytes ++ bs)) as (pre & e & post & Hes & Hc).
  { rewrite rx_run_app, Hrun, Hrun2. by rewrite (Hcl tt) by congruence. }
  { done. }
  exists (es ++ es2), pre, e, post. by rewrite Hrx2, Hrx, app_assoc.
Qed.

(** The end of the receive side is final: once a poll reported an error, or
    the close, every later poll reports an error with the same errno, kind and
    text, or end of stream, without a further system call and without touching
    the buffer. *)
Theorem poll_read_sticky cx buf r w res st cx' buf' w' :
  reader_ok r → len (filled buf) < capacity buf →
  RecordReader_poll_read cx buf (r, w) = Done (res, st) →
  match res.1 with
  | Ready (Err e) =>
      ∃ e', RecordReader_poll_read cx' buf' (st.1, w')
            = Done ((Ready (Err e'), buf'), (st.1, w')) ∧ same_error e' e
  | Ready (Ok _) =>
      filled res.2 = filled buf →
      RecordReader_poll_read cx' buf' (st.1, w') = Done ((Ready (Ok tt), buf'), (st.1, w'))
  | Pending => terminal st.1 = None
  end.
Proof.
  intros Hok Hb E. destruct (terminal r) as [tm|] eqn:Ht.
  - rewrite (poll_read_terminal _ _ _ _ tm Ht) in E. injection E as <- <-. cbn [fst snd].
    destruct tm as [|e0]; cbn; rewrite (poll_read_terminal _ _ _ _ _ Ht).
    + done.
    + eexists. by split.
  - destruct (poll_read_live cx buf r w Hok Ht Hb) as (res' & st' & E' & Hp).
    rewrite E in E'. injection E' as <- <-.
    destruct Hp as (es & bs & s' & _ & _ & _ & _ & Hf & _ & _ & _ & Hp).
    destruct (res.1) as [[?|e]|].
    + intros Hf'. destruct Hp as [Ha [[Hne _]|[_ ->]]].
      { destruct Hne. rewrite Hf in Hf'. by apply (app_inv_head (filled buf)); rewrite app_nil_r. }
      apply poll_read_terminal with (tm := Closed). unfold reader_abs in Ha.
      destruct (terminal st.1) as [[]|]; try done. by case_match.
    + destruct Hp as (_ & (e0 & Ht0 & Hs) & _). exists (copy_error e0).
      rewrite (poll_read_terminal _ _ _ _ _ Ht0). split; [done|].
      etrans; [apply copy_error_same|done].
    + destruct Hp as (_ & Ha & Hl & _). apply reader_abs_live. by rewrite Ha.
Qed.
End poll.

(** ** Ancillary messages *)

(** A well-formed [TLS_GET_RECORD_TYPE] message that carries [t]. *)
Definition type_message (c : Control) (t : byte) : Prop :=
  cmsg_len c = 17 ∧ cmsg_level c = 282 ∧ cmsg_type c = 2 ∧ payload0 c = t.

Lemma Control_record_type_ok c n flags t :
  Control_record_type c n flags = Ok t ↔
    truncated flags = false ∧
    (n = 0 ∧ t = None ∨ 17 ≤ n ≤ 24 ∧ ∃ b, t = Some b ∧ type_message c b).
Proof.
  unfold Control_record_type, type_message. fold (truncated flags).
  change CONTROL_LEN with 17. change CONTROL_SPACE with 24.
  change SOL_TLS with 282. change TLS_GET_RECORD_TYPE with 2.
  destruct (truncated flags); [naive_solver|].
  destruct (Z.eqb_spec n 0) as [->|Hn].
  { split; [intros [= <-]; auto|]. intros [_ [[_ ->]|[? _]]]; [done|lia]. }
  destruct (Z.leb_spec 17 n), (Z.leb_spec n 24), (Z.eqb_spec (cmsg_len c) 17),
    (Z.eqb_spec (cmsg_level c) 282), (Z.eqb_spec (cmsg_type c) 2); cbn [andb orb negb].
  all: split; [intros E; simplify_eq|intros (_ & [[? _]|(? & b & -> & ? & ? & ? & <-)])];
    try done; try lia; eauto 15.
Qed.

Lemma type_message_inj c b b' : type_message c b → type_message c b' → b = b'.
Proof. by intros (_ & _ & _ & <-) (_ & _ & _ & <-). Qed.

(** The two-message case. *)
Lemma second_record_type c b n flags t :
  24 < n → truncated flags = false → type_message c.1 b →
  match Control_record_type c.2 (n - 24) flags with
  | Err e => Err e
  | Ok second =>
      if negb (bool_decide (Some b = Some APPLICATION_DATA))
         || negb (bool_decide (second = Some b)) then
        Err (invalid_data "conflicting or unsupported duplicate kTLS record-type messages")
      else Ok (Some b)
  end = Ok t ↔
    41 ≤ n ≤ 48 ∧ t = Some APPLICATION_DATA ∧
    type_message c.1 APPLICATION_DATA ∧ type_message c.2 APPLICATION_DATA.
Proof.
  intros Hn Htr Hb. split.
  - destruct (Control_record_type c.2 (n - 24) flags) as [t2|e2] eqn:E2; [|done].
    apply Control_record_type_ok in E2 as (_ & [[? _]|(? & b2 & -> & Hb2)]); [lia|].
    repeat case_bool_decide; intros; simplify_eq/=. split_and!; done || lia.
  - intros (? & -> & Hc1 & Hc2). rewrite (type_message_inj _ _ _ Hb Hc1).
    assert (Control_record_type c.2 (n - 24) flags = Ok (Some APPLICATION_DATA)) as ->; [|done].
    apply Control_record_type_ok. split; [done|]. right. split; [lia|]. eauto.
Qed.

(** What the kernel says about a record's type is accepted in exactly three
    shapes, none of them with a truncation flag: no ancillary data; one
    well-formed record-type message; or two, which then must both say
    application data.  Everything else is an error, so a control record never
    passes for application data. *)
Theorem record_type_accepted c n flags t :
  RecvControl_record_type c n flags = Ok t ↔
    truncated flags = false ∧
    (n = 0 ∧ t = None ∨
     17 ≤ n ≤ 24 ∧ (∃ b, t = Some b ∧ type_message c.1 b) ∨
     41 ≤ n ≤ 48 ∧ t = Some APPLICATION_DATA ∧
       type_message c.1 APPLICATION_DATA ∧ type_message c.2 APPLICATION_DATA).
Proof.
  unfold RecvControl_record_type. change CONTROL_SPACE with 24.
  destruct (Control_record_type c.1 (Z.min n 24) flags) as [t1|e1] eqn:E1.
  - destruct (Z.leb_spec n 24) as [Hle|Hgt].
    + rewrite Z.min_l in E1 by lia. rewrite <- E1, Control_record_type_ok.
      split; intros (? & Hc); (split; [done|]); destruct Hc as [?|Hc]; auto.
      destruct Hc as [?|[? _]]; [by right|lia].
    + rewrite Z.min_r in E1 by lia.
      apply Control_record_type_ok in E1 as (Htr & [[? _]|(_ & b & -> & Hb)]); [lia|].
      rewrite second_record_type by done. split; [by auto|].
      intros (_ & [[? _]|[[? _]|?]]); [lia..|done].
  - split; [done|]. intros (Htr & Hc).
    assert (Control_record_type c.1 (Z.min n 24) flags = Ok t) as E3; [|congruence].
    apply Control_record_type_ok. split; [done|].
    destruct Hc as [[-> ->]|[(? & Hb)|(? & -> & Hb & _)]]; [by left| |]; right; (split; [lia|eauto]).
Qed.

(** ** Sending [close_notify] *)

Section close.
Context {W : Type} `{NetView W, !Strerror}.
Implicit Types w : W.

Definition awaiting_write (cx : Waker) (w' : W) : Prop :=
  ∃ w0, poll_write_ready cx w0 = (Pending, w') ∨ w' = wake cx w0.

(** The one message that may go out: a two-byte alert record with its type in
    the ancillary data. *)
Definition close_message_sent (w1 : W) : Prop :=
  ∃ w0, sendmsg [x01; x00]
      {| cmsg_len := 17; cmsg_level := 282; cmsg_type := 1; ctl_payload := x15 :: repeat x00 7 |}
      24 (Z.lor 0x40 0x4000) w0 = (2, w1).

Definition close_sent (p : poll (io_result unit)) : nat :=
  match p with Ready (Ok _) => 1 | _ => 0 end.

Definition close_post (cx : Waker) w (p : poll (io_result unit)) w' : Prop :=
  rx_view (view w') = rx_view (view w) ∧
  tx_same (v_add_close (close_sent p) (view w)) (view w') ∧
  match p with
  | Ready (Ok _) => close_message_sent w'
  | Ready (Err e) => True
  | Pending => awaiting_write cx w'
  end.

Lemma send_close_notify_done w :
  ∃ n w', sendmsg CLOSE_NOTIFY (set_record_type ALERT Control_new) Control_message_controllen
            (Z.lor MSG_DONTWAIT MSG_NOSIGNAL) w = (n, w') ∧
    send_close_notify w =
      Done (if n <? 0 then Err (Os (errno w')) else check_close_notify_write n, w').
Proof.
  unfold send_close_notify, ext, gets, mbind, M_bind. destruct (sendmsg _ _ _ _ w) as [n w'].
  exists n, w'. split; [done|]. by destruct (n <? 0).
Qed.

Lemma v_add_close_0 v : v_add_close 0 v = v.
Proof. destruct v. unfold v_add_close. simpl. by rewrite Nat.add_0_r. Qed.

(** One attempt: it succeeds exactly when both bytes went out. *)
Lemma wp_try_close (Q : io_result unit → W → Prop) w :
  (∀ w', view w' = v_add_close 1 (view w) → close_message_sent w' → Q (Ok tt) w') →
  (∀ e w', view w' = view w → Q (Err e) w') →
  wp (try_io WRITABLE send_close_notify) Q w.
Proof.
  intros Hok Herr. unfold wp. rewrite try_io_spec. destruct (io_ready WRITABLE w); [|by apply Herr].
  destruct (send_close_notify_done w) as (n & w' & Es & ->).
  pose proof (view_sendmsg _ _ _ _ _ _ _ Es) as Hv. change (len CLOSE_NOTIFY) with 2 in Hv.
  unfold check_close_notify_write. destruct (Z.ltb_spec n 0).
  - destruct (Z.eqb_spec n 2); [lia|]. rewrite v_add_close_0 in Hv.
    apply Herr. by destruct (is_kind _ _); rewrite ?view_clear_ready.
  - destruct (Z.eqb_spec n 2) as [->|].
    + apply Hok; [done|]. by exists w.
    + rewrite v_add_close_0 in Hv. by destruct (n =? 0); apply Herr.
Qed.

Lemma close_post_view cx w w1 p w' :
  view w1 = view w → close_post cx w1 p w' → close_post cx w p w'.
Proof. unfold close_post. by intros ->. Qed.

(** A result without a [close_notify], from a world that looks like the first. *)
Lemma close_post_none cx w w' p :
  close_sent p = 0%nat → view w' = view w →
  match p with Pending => awaiting_write cx w' | _ => True end → close_post cx w p w'.
Proof.
  intros Hp Hv Ha. unfold close_post. rewrite Hp, v_add_close_0, Hv.
  split_and!; [done|apply tx_same_refl|]. by destruct p as [[]|].
Qed.

Lemma wp_poll_close_notify_loop n cx w :
  wp (poll_close_notify_loop n cx) (close_post cx w) w.
Proof.
  revert w. induction n as [|n IH]; intros w; cbn [poll_close_notify_loop].
  - do 3 wp_step. unfold close_post. cbn [close_sent]. rewrite v_add_close_0, view_wake.
    split_and!; [done|apply tx_same_woken|]. exists w. by right.
  - wp_step. apply wp_try_close.
    + intros w' Hv Hs. wp_step. unfold close_post. rewrite Hv.
      split_and!; [done|apply tx_same_refl|done].
    + intros e w' Hv. destruct (is_kind Interrupted e) eqn:Ei.
      { eapply wp_mono; [apply IH|]. intros p w2. by apply close_post_view. }
      destruct (is_kind WouldBlock e) eqn:Eb; [|wp_step; by apply close_post_none].
      do 2 wp_step. match goal with E : poll_write_ready _ _ = (?a, ?s) |- _ =>
        pose proof (view_poll_write_ready cx w') as Hv2; rewrite E in Hv2; rename E into Ep end.
      simpl in Hv2. rewrite Hv in Hv2. destruct a as [[?|e']|].
      * eapply wp_mono; [apply IH|]. intros p w2. by apply close_post_view.
      * wp_step. by apply close_post_none.
      * wp_step. apply close_post_none; try done. exists w'. by left.
Qed.

Lemma returns_poll_close_notify_loop n cx : returns (poll_close_notify_loop n cx : M W _).
Proof.
  induction n as [|n IH]; cbn [poll_close_notify_loop]; [returns_tac|].
  apply returns_bind; [|returns_tac; try done].
  apply returns_try_io. intros w. by destruct (send_close_notify_done w) as (? & ? & _ & ->).
Qed.

Lemma poll_close_notify_done cx w :
  ∃ p w', poll_close_notify cx w = Done (p, w') ∧ close_post cx w p w'.
Proof.
  apply wp_returns; [apply returns_poll_close_notify_loop|apply wp_poll_close_notify_loop].
Qed.

(** [poll_close_notify] always returns.  It reports success exactly when
    the kernel accepted both bytes of one alert record, sent as [01 00] with a
    [TLS_SET_RECORD_TYPE] message that says alert; then exactly one
    [close_notify] went out.  In every other case none did, and on [Pending]
    the task is registered for writability or woken. *)
Theorem close_notify_exact cx w :
  ∃ p w', poll_close_notify cx w = Done (p, w') ∧
    v_sent (view w') = v_sent (view w) ∧ v_blocked (view w') = v_blocked (view w) ∧
    v_raw (view w') = v_raw (view w) ∧ v_rx (view w') = v_rx (view w) ∧
    match p with
    | Ready (Ok _) => v_closes (view w') = S (v_closes (view w)) ∧ close_message_sent w'
    | Ready (Err e) => v_closes (view w') = v_closes (view w)
    | Pending => v_closes (view w') = v_closes (view w) ∧ awaiting_write cx w'
    end.
Proof.
  destruct (poll_close_notify_done cx w) as (p & w' & E & [= Hrx _ _] & (Hs & Hb & Hr & Hc & _) & Hp).
  exists p, w'. split_and!; try done. simpl in Hc.
  destruct p as [[]|]; simpl in *; [split; [lia|done]|lia|split; [lia|done]].
Qed.
End close.

(** ** Witnesses: a connection that delivers two records and is closed *)

Definition demo : Sim :=
  sim0 [recvd x17 [x68; x69]; recvd x17 []; recvd x17 [x21]; recvd x15 [x01; x00]].

Definition buf8 : ReadBuf := {| filled := []; capacity := 8 |}.

Lemma poll_read_step_witness :
  ∃ res st, RecordReader_poll_read (TaskWaker 0) buf8 (RecordReader_default, demo) = Done (res, st) ∧
    read_post IO_BUDGET RxOpen buf8 (TaskWaker 0) demo res st.
Proof.
  apply (poll_read_step (TaskWaker 0) buf8 RecordReader_default demo); [|done|done].
  unfold reader_ok. simpl. lia.
Defined.

Lemma demo_reads :
  ∃ r' w', reads (RecordReader_default, demo) [x68; x69; x21] (r', w') ∧ w_script w' = [recvd x15 [x01; x00]].
Proof.
  eexists _, _. split.
  - eapply (reads_poll (TaskWaker 0) 8 _ _ {| filled := [x68; x69]; capacity := 8 |} _ [x21]);
      [done|vm_compute; reflexivity|].
    eapply (reads_poll (TaskWaker 0) 8 _ _ {| filled := [x21]; capacity := 8 |} _ []);
      [done|vm_compute; reflexivity|].
    apply reads_nil.
  - done.
Qed.

Lemma reads_deliver_witness :
  ∃ r' w' es s, reads (RecordReader_default, demo) [x68; x69; x21] (r', w') ∧
    v_rx (view w') = [] ++ es ∧ rx_run RxOpen es = ([x68; x69; x21], s).
Proof.
  destruct demo_reads as (r' & w' & Hr & _).
  destruct (reads_deliver demo [x68; x69; x21] r' w' Hr) as (es & s & Hv & Hrun & _).
  by exists r', w', es, s.
Defined.

Lemma eof_authenticated_witness :
  ∃ es pre e post, es = pre ++ e :: post ∧ close_record (rx_run RxOpen pre).2 e.
Proof.
  edestruct (eof_authenticated (sim0 [recvd x15 [x01; x00]]) []
    RecordReader_default (sim0 [recvd x15 [x01; x00]]) (TaskWaker 0) 8)
    as (es & pre & e & post & _ & H);
    [apply reads_nil|done|vm_compute; reflexivity|reflexivity|].
  by exists es, pre, e, post.
Defined.

(** The world of a connection that was cut: [recvmsg] returns 0. *)
Definition demo_cut : Sim :=
  sim0 [EvRecv {| rr_n := 0; rr_bytes := []; rr_control := rr_control stalled_recv;
                  rr_controllen := 0; rr_flags := 0 |} 0].

Lemma poll_read_sticky_witness :
  ∃ e e', kind e = UnexpectedEof ∧ same_error e' e.
Proof.
  let r := eval vm_compute in
    (RecordReader_poll_read (TaskWaker 0) buf8 (RecordReader_default, demo_cut)) in
  lazymatch r with
  | Done (?res, ?st) =>
      pose proof (poll_read_sticky (TaskWaker 0) buf8 RecordReader_default demo_cut res st
                    (TaskWaker 1) buf8 demo) as H
  end.
  destruct H as (e' & _ & H); [unfold reader_ok; simpl; lia|done|vm_compute; reflexivity|].
  eexists _, e'. split; [|exact H]. reflexivity.
Defined.

Lemma close_notify_exact_witness :
  ∃ p w', poll_close_notify (TaskWaker 0) (sim0 [EvSend 2 0]) = Done (p, w') ∧
    p = Ready (Ok tt) ∧ v_closes (view w') = 1%nat.
Proof.
  destruct (close_notify_exact (TaskWaker 0) (sim0 [EvSend 2 0]))
    as (p & w' & E & _ & _ & _ & _ & Hc).
  exists p, w'. split; [exact E|]. vm_compute in E. injection E as <- <-.
  split; [done|]. apply Hc.
Defined.
