(* ===== verification/CryptoInfo.v ===== *)
(** * ktls/crypto_info.rs, ktls/derive.rs and the derivation in ktls/mod.rs

    The kernel's [tls12_crypto_info_*] structures, the TLS 1.3 and TLS 1.2 key
    derivations and the dispatcher that fills the structures. *)

From S2P Require Import Prelude Std Env Sim Errors Alpn Suites.

Local Open Scope Z_scope.

(** ** crypto_info.rs *)

Definition SOL_TCP : Z := 6.
Definition TCP_ULP : Z := 31.
Definition TLS_TX : Z := 1.
Definition TLS_RX : Z := 2.
Definition TLS_1_2_VERSION : Z := 0x0303.
Definition TLS_1_3_VERSION : Z := 0x0304.
Definition TLS_CIPHER_AES_GCM_128 : Z := 51.
Definition TLS_CIPHER_AES_GCM_256 : Z := 52.
Definition TLS_CIPHER_CHACHA20_POLY1305 : Z := 54.
Definition AES_GCM_IV_LEN : Z := 8.
Definition AES_GCM_SALT_LEN : Z := 4.
Definition AES_GCM_128_KEY_LEN : Z := 16.
Definition AES_GCM_256_KEY_LEN : Z := 32.
Definition CHACHA20_POLY1305_KEY_LEN : Z := 32.
Definition CHACHA20_POLY1305_IV_LEN : Z := 12.
Definition CHACHA20_POLY1305_SALT_LEN : Z := 0.
Definition TLS_REC_SEQ_LEN : Z := 8.

Record tls_crypto_info : Type := { ci_version : Z; ci_cipher_type : Z }.

(** The three structures have the same fields with different lengths. *)
Record tls12_crypto_info_aes_gcm_128 : Type := {
  g128_info : tls_crypto_info;
  g128_iv : list byte;
  g128_key : list byte;
  g128_salt : list byte;
  g128_rec_seq : list byte;
}.

Record tls12_crypto_info_aes_gcm_256 : Type := {
  g256_info : tls_crypto_info;
  g256_iv : list byte;
  g256_key : list byte;
  g256_salt : list byte;
  g256_rec_seq : list byte;
}.

Record tls12_crypto_info_chacha20_poly1305 : Type := {
  cc_info : tls_crypto_info;
  cc_iv : list byte;
  cc_key : list byte;
  cc_salt : list byte;
  cc_rec_seq : list byte;
}.

(** ** The bytes of a structure

    [#[repr(C)]] on a little-endian target: the fields in order; a [u16] header
    followed by byte arrays needs no padding. *)
Definition u16_ne_bytes (z : Z) : list byte := rev (to_be_bytes 2 z).

Definition info_bytes (i : tls_crypto_info) : list byte :=
  u16_ne_bytes (ci_version i) ++ u16_ne_bytes (ci_cipher_type i).

Definition g128_bytes (c : tls12_crypto_info_aes_gcm_128) : list byte :=
  info_bytes (g128_info c) ++ g128_iv c ++ g128_key c ++ g128_salt c ++ g128_rec_seq c.

Definition g256_bytes (c : tls12_crypto_info_aes_gcm_256) : list byte :=
  info_bytes (g256_info c) ++ g256_iv c ++ g256_key c ++ g256_salt c ++ g256_rec_seq c.

Definition cc_bytes (c : tls12_crypto_info_chacha20_poly1305) : list byte :=
  info_bytes (cc_info c) ++ cc_iv c ++ cc_key c ++ cc_salt c ++ cc_rec_seq c.

(** [enum CryptoInfo]: what to install, per direction. *)
Inductive CryptoInfo : Type :=
| AesGcm128 (tx rx : tls12_crypto_info_aes_gcm_128)
| AesGcm256 (tx rx : tls12_crypto_info_aes_gcm_256)
| Chacha20Poly1305 (tx rx : tls12_crypto_info_chacha20_poly1305).

(** ** derive.rs *)

Inductive Hash : Type := Sha256 | Sha384.

Definition md (h : Hash) : EvpMd :=
  match h with Sha256 => EVP_sha256 | Sha384 => EVP_sha384 end.

Inductive Direction : Type := Write | Read.

(** [{:?}] of a [Direction]. *)
Definition debug_Direction (d : Direction) : string :=
  match d with Write => "Write" | Read => "Read" end.

(** [HkdfLabel] with an empty context. *)
Definition hkdf_label_info (out_len : Z) (label : list byte) : list byte :=
  let full_label_len := len (bytes_of "tls13 ") + len label in
  to_be_bytes 2 out_len ++ [u8 full_label_len] ++ bytes_of "tls13 " ++ label ++ [x00].

Section derive.
Context {W : Type} `{AwsLcConsts, ErrQueue W, Kdf W, SslSession W}.

(** The result is the output buffer of [out_len] bytes. *)
Definition hkdf_expand_label (hash : Hash) (secret : list byte) (label : string) (out_len : Z) :
    M W (Result (list byte)) :=
  let full_label_len := len (bytes_of "tls13 ") + len (bytes_of label) in
  if negb (full_label_len <=? 255) then panic "kTLS labels fit in one byte"
  else
    match try_from_max u16_max out_len with
    | None => panic "HKDF-Expand-Label output length fits in u16"
    | Some out_len =>
        let info := hkdf_label_info out_len (bytes_of label) in
        let* (rc, out) := ext (HKDF_expand out_len (md hash) secret info) in
        if rc =? 1 then mret (Ok (buffer out_len out))
        else
          let* detail := last_error in
          mret (Err (Init ("HKDF_expand: rc=" +:+ pretty rc +:+ " " +:+ detail)))
    end.

Definition tls13_traffic_secret (dir : Direction) (expected_len : Z) : M W (Result (list byte)) :=
  let* (rc, buf, got) :=
    gets (match dir with
          | Write => SSL_get_write_traffic_secret
          | Read => SSL_get_read_traffic_secret
          end) in
  let buf := buffer 48 buf in
  if negb (rc =? 1) || negb (got =? expected_len) then
    mret (Err (Init ("SSL_get_" +:+ debug_Direction dir +:+ "_traffic_secret: rc=" +:+ pretty rc
                     +:+ " len=" +:+ pretty got +:+ " want=" +:+ pretty expected_len)))
  else mret (Ok (prefix got buf)).

Definition tls12_key_block (n : Z) : M W (Result (list byte)) :=
  let* (rc, block) := gets (SSL_generate_key_block n) in
  if negb (rc =? 1) then
    let* detail := last_error in
    mret (Err (Init ("SSL_generate_key_block: rc=" +:+ pretty rc +:+ " " +:+ detail)))
  else mret (Ok (buffer n block)).

Definition is_server (w : W) : bool := negb (SSL_is_server w =? 0).

Definition sequences (w : W) : Z * Z := (SSL_get_write_sequence w, SSL_get_read_sequence w).

(** [block.split_at(n)]; [None] is a panic. *)
Definition split_at (n : Z) (l : list byte) : option (list byte * list byte) :=
  if n <=? len l then Some (prefix n l, drop (Z.to_nat n) l) else None.

Definition split_tls12_key_block (block : list byte) (key_len iv_len : Z) (is_server : bool) :
    option (list byte * list byte * list byte * list byte) :=
  '(client_key, rest) ← split_at key_len block;
  '(server_key, rest) ← split_at key_len rest;
  '(client_iv, server_iv) ← split_at iv_len rest;
  if is_server then Some (server_key, server_iv, client_key, client_iv)
  else Some (client_key, client_iv, server_key, server_iv).
End derive.

(** ** Building the structures (ktls/mod.rs) *)

Section build.
Context {S : Type}.

(** [dst.copy_from_slice(src)] for an array of [n] bytes. *)
Definition copy_array (n : Z) (src : list byte) : M S (list byte) :=
  if len src =? n then mret src else panic "copy_from_slice: source slice length".

Definition build_aes_gcm_128 (version : Z) (key salt iv : list byte) (rec_seq : Z) :
    M S tls12_crypto_info_aes_gcm_128 :=
  let* key := copy_array AES_GCM_128_KEY_LEN key in
  let* salt := copy_array AES_GCM_SALT_LEN salt in
  let* iv := copy_array AES_GCM_IV_LEN iv in
  mret {| g128_info := {| ci_version := version; ci_cipher_type := TLS_CIPHER_AES_GCM_128 |};
          g128_iv := iv; g128_key := key; g128_salt := salt;
          g128_rec_seq := to_be_bytes 8 rec_seq |}.

Definition build_aes_gcm_256 (version : Z) (key salt iv : list byte) (rec_seq : Z) :
    M S tls12_crypto_info_aes_gcm_256 :=
  let* key := copy_array AES_GCM_256_KEY_LEN key in
  let* salt := copy_array AES_GCM_SALT_LEN salt in
  let* iv := copy_array AES_GCM_IV_LEN iv in
  mret {| g256_info := {| ci_version := version; ci_cipher_type := TLS_CIPHER_AES_GCM_256 |};
          g256_iv := iv; g256_key := key; g256_salt := salt;
          g256_rec_seq := to_be_bytes 8 rec_seq |}.

Definition build_chacha20_poly1305 (version : Z) (key iv : list byte) (rec_seq : Z) :
    M S tls12_crypto_info_chacha20_poly1305 :=
  let* key := copy_array CHACHA20_POLY1305_KEY_LEN key in
  let* iv := copy_array CHACHA20_POLY1305_IV_LEN iv in
  mret {| cc_info := {| ci_version := version; ci_cipher_type := TLS_CIPHER_CHACHA20_POLY1305 |};
          cc_iv := iv; cc_key := key; cc_salt := []; cc_rec_seq := to_be_bytes 8 rec_seq |}.
End build.

(** ** The dispatcher *)

Section dispatch.
Context {W : Type} `{AwsLcConsts, ErrQueue W, Kdf W, SslSession W}.

(** [let (..) = split_tls12_key_block(..)] *)
Definition split_or_panic (block : list byte) (key_len iv_len : Z) (server : bool) :
    M W (list byte * list byte * list byte * list byte) :=
  match split_tls12_key_block block key_len iv_len server with
  | Some parts => mret parts
  | None => panic "mid > len"
  end.

Definition derive_crypto_info (cipher : KtlsCipher) : M W (Result CryptoInfo) :=
  let* (write_seq, read_seq) := gets sequences in
  match cipher with
  | Tls13Aes128Gcm =>
      let? write_secret := tls13_traffic_secret Write 32 in
      let? read_secret := tls13_traffic_secret Read 32 in
      let? wk := hkdf_expand_label Sha256 write_secret "key" AES_GCM_128_KEY_LEN in
      let? wi := hkdf_expand_label Sha256 write_secret "iv" 12 in
      let? rk := hkdf_expand_label Sha256 read_secret "key" AES_GCM_128_KEY_LEN in
      let? ri := hkdf_expand_label Sha256 read_secret "iv" 12 in
      let* tx := build_aes_gcm_128 TLS_1_3_VERSION wk (take 4 wi) (drop 4 wi) write_seq in
      let* rx := build_aes_gcm_128 TLS_1_3_VERSION rk (take 4 ri) (drop 4 ri) read_seq in
      mret (Ok (AesGcm128 tx rx))
  | Tls13Aes256Gcm =>
      let? write_secret := tls13_traffic_secret Write 48 in
      let? read_secret := tls13_traffic_secret Read 48 in
      let? wk := hkdf_expand_label Sha384 write_secret "key" AES_GCM_256_KEY_LEN in
      let? wi := hkdf_expand_label Sha384 write_secret "iv" 12 in
      let? rk := hkdf_expand_label Sha384 read_secret "key" AES_GCM_256_KEY_LEN in
      let? ri := hkdf_expand_label Sha384 read_secret "iv" 12 in
      let* tx := build_aes_gcm_256 TLS_1_3_VERSION wk (take 4 wi) (drop 4 wi) write_seq in
      let* rx := build_aes_gcm_256 TLS_1_3_VERSION rk (take 4 ri) (drop 4 ri) read_seq in
      mret (Ok (AesGcm256 tx rx))
  | Tls13Chacha20Poly1305 =>
      let? write_secret := tls13_traffic_secret Write 32 in
      let? read_secret := tls13_traffic_secret Read 32 in
      let? wk := hkdf_expand_label Sha256 write_secret "key" CHACHA20_POLY1305_KEY_LEN in
      let? wi := hkdf_expand_label Sha256 write_secret "iv" CHACHA20_POLY1305_IV_LEN in
      let? rk := hkdf_expand_label Sha256 read_secret "key" CHACHA20_POLY1305_KEY_LEN in
      let? ri := hkdf_expand_label Sha256 read_secret "iv" CHACHA20_POLY1305_IV_LEN in
      let* tx := build_chacha20_poly1305 TLS_1_3_VERSION wk wi write_seq in
      let* rx := build_chacha20_poly1305 TLS_1_3_VERSION rk ri read_seq in
      mret (Ok (Chacha20Poly1305 tx rx))
  | Tls12Aes128Gcm =>
      let* server := gets is_server in
      let? block := tls12_key_block 40 in
      let* (wk, ws, rk, rs) := split_or_panic block 16 4 server in
      let* tx := build_aes_gcm_128 TLS_1_2_VERSION wk ws (to_be_bytes 8 write_seq) write_seq in
      let* rx := build_aes_gcm_128 TLS_1_2_VERSION rk rs (to_be_bytes 8 read_seq) read_seq in
      mret (Ok (AesGcm128 tx rx))
  | Tls12Aes256Gcm =>
      let* server := gets is_server in
      let? block := tls12_key_block 72 in
      let* (wk, ws, rk, rs) := split_or_panic block 32 4 server in
      let* tx := build_aes_gcm_256 TLS_1_2_VERSION wk ws (to_be_bytes 8 write_seq) write_seq in
      let* rx := build_aes_gcm_256 TLS_1_2_VERSION rk rs (to_be_bytes 8 read_seq) read_seq in
      mret (Ok (AesGcm256 tx rx))
  | Tls12Chacha20Poly1305 =>
      let* server := gets is_server in
      let? block := tls12_key_block 88 in
      let* (wk, wi, rk, ri) := split_or_panic block 32 12 server in
      let* tx := build_chacha20_poly1305 TLS_1_2_VERSION wk wi write_seq in
      let* rx := build_chacha20_poly1305 TLS_1_2_VERSION rk ri read_seq in
      mret (Ok (Chacha20Poly1305 tx rx))
  end.
End dispatch.

#[global] Arguments hkdf_expand_label : simpl never.
#[global] Arguments hkdf_label_info : simpl never.

(** ** Specification of the derivation

    One direction of a connection is what one role (the writer) sends.  Its key
    material is a function of the writer's traffic secret (TLS 1.3), or of the
    key block and the writer's role (TLS 1.2), and of the sequence number. *)

(** The structure the kernel reads: header, iv, key, salt, sequence number. *)
Definition struct_bytes (version ctype : Z) (iv key salt : list byte) (seq : Z) : list byte :=
  u16_ne_bytes version ++ u16_ne_bytes ctype ++ iv ++ key ++ salt ++ to_be_bytes 8 seq.

Definition tx_bytes (i : CryptoInfo) : list byte :=
  match i with
  | AesGcm128 tx _ => g128_bytes tx
  | AesGcm256 tx _ => g256_bytes tx
  | Chacha20Poly1305 tx _ => cc_bytes tx
  end.

Definition rx_bytes (i : CryptoInfo) : list byte :=
  match i with
  | AesGcm128 _ rx => g128_bytes rx
  | AesGcm256 _ rx => g256_bytes rx
  | Chacha20Poly1305 _ rx => cc_bytes rx
  end.

(** [size_of] the structure of a cipher. *)
Definition info_size (c : KtlsCipher) : Z :=
  match c with Tls13Aes128Gcm | Tls12Aes128Gcm => 40 | _ => 56 end.

Definition slice (off n : nat) (l : list byte) : list byte := take n (drop off l).

Section spec.
Context {W : Type} `{SslSession W, KdfLaws W}.

(** HKDF-Expand-Label(secret, label, "", n). *)
Definition expand (h : Hash) (secret : list byte) (label : string) (n : Z) : list byte :=
  buffer n (hkdf n (md h) secret (hkdf_label_info n (bytes_of label))).

Definition tls13_gcm (h : Hash) (ctype klen : Z) (secret : list byte) (seq : Z) : list byte :=
  let nonce := expand h secret "iv" 12 in
  struct_bytes TLS_1_3_VERSION ctype (drop 4 nonce) (expand h secret "key" klen) (take 4 nonce) seq.

Definition tls12_gcm (ctype : Z) (klen : nat) (block : list byte) (client : bool) (seq : Z) :
    list byte :=
  struct_bytes TLS_1_2_VERSION ctype (to_be_bytes 8 seq)
    (slice (if client then 0 else klen) klen block)
    (slice (2 * klen + (if client then 0 else 4)) 4 block) seq.

(** The structure for the direction whose writer has the given secret and
    role. *)
Definition side_bytes (c : KtlsCipher) (secret block : list byte) (client : bool) (seq : Z) :
    list byte :=
  match c with
  | Tls13Aes128Gcm => tls13_gcm Sha256 TLS_CIPHER_AES_GCM_128 16 secret seq
  | Tls13Aes256Gcm => tls13_gcm Sha384 TLS_CIPHER_AES_GCM_256 32 secret seq
  | Tls13Chacha20Poly1305 =>
      struct_bytes TLS_1_3_VERSION TLS_CIPHER_CHACHA20_POLY1305 (expand Sha256 secret "iv" 12)
        (expand Sha256 secret "key" 32) [] seq
  | Tls12Aes128Gcm => tls12_gcm TLS_CIPHER_AES_GCM_128 16 block client seq
  | Tls12Aes256Gcm => tls12_gcm TLS_CIPHER_AES_GCM_256 32 block client seq
  | Tls12Chacha20Poly1305 =>
      struct_bytes TLS_1_2_VERSION TLS_CIPHER_CHACHA20_POLY1305
        (slice (64 + (if client then 0 else 12)) 12 block)
        (slice (if client then 0 else 32) 32 block) [] seq
  end.

Definition block_len (c : KtlsCipher) : Z :=
  match c with Tls12Aes128Gcm => 40 | Tls12Aes256Gcm => 72 | _ => 88 end.

(** What the library reports for a direction. *)
Definition side_secret (d : Direction) (w : W) : list byte :=
  let '(_, buf, got) :=
    match d with
    | Write => SSL_get_write_traffic_secret w
    | Read => SSL_get_read_traffic_secret w
    end in
  prefix got (buffer 48 buf).

Definition side_block (c : KtlsCipher) (w : W) : list byte :=
  buffer (block_len c) (SSL_generate_key_block (block_len c) w).2.

Definition derived (c : KtlsCipher) (w : W) (i : CryptoInfo) : Prop :=
  tx_bytes i = side_bytes c (side_secret Write w) (side_block c w) (negb (is_server w))
                 (SSL_get_write_sequence w) ∧
  rx_bytes i = side_bytes c (side_secret Read w) (side_block c w) (is_server w)
                 (SSL_get_read_sequence w).
End spec.

Section derive_wp.
Context {W : Type} `{AwsLcConsts, ErrQueue W, SslSession W, KdfLaws W}.
Implicit Types w : W.

Lemma wp_copy_array {S} n src (Q : list byte → S → Prop) s :
  len src = n → Q src s → wp (copy_array n src) Q s.
Proof. intros <- HQ. unfold copy_array. rewrite Z.eqb_refl. by wp_step. Qed.

Lemma wp_last_error_any (Q : string → W → Prop) w : (∀ t w', Q t w') → wp last_error Q w.
Proof. intros HQ. apply wp_last_error; auto. Qed.

Lemma wp_hkdf_expand_label h secret label n (Q : Result (list byte) → W → Prop) w :
  6 + len (bytes_of label) ≤ 255 → n ≤ 65535 →
  (∀ w', Q (Ok (expand h secret label n)) w') → (∀ m w', Q (Err (Init m)) w') →
  wp (hkdf_expand_label h secret label n) Q w.
Proof.
  intros Hl Hn Hok Herr. unfold hkdf_expand_label. change (len (bytes_of "tls13 ")) with 6.
  destruct (Z.leb_spec (6 + len (bytes_of label)) 255); [|lia]. cbn [negb].
  unfold try_from_max, u16_max. destruct (Z.leb_spec n 65535); [|lia].
  do 2 wp_step. match goal with |- context [let '(_, _) := ?a in _] => destruct a as [rc out] end.
  destruct (Z.eqb_spec rc 1) as [->|].
  - wp_step.
    match goal with E : HKDF_expand _ _ _ _ _ = _ |- _ => apply HKDF_expand_spec in E as -> end.
    apply Hok.
  - wp_step. apply wp_last_error_any. intros. wp_step. apply Herr.
Qed.

Lemma wp_traffic_secret d n (Q : Result (list byte) → W → Prop) w :
  Q (Ok (side_secret d w)) w → (∀ m, Q (Err (Init m)) w) → wp (tls13_traffic_secret d n) Q w.
Proof.
  intros Hok Herr. unfold tls13_traffic_secret. do 2 wp_step. unfold side_secret in Hok.
  destruct d.
  all: [> destruct (SSL_get_write_traffic_secret w) as [[rc buf] got]
        | destruct (SSL_get_read_traffic_secret w) as [[rc buf] got] ].
  all: destruct (negb (rc =? 1) || negb (got =? n)); wp_step; [apply Herr|apply Hok].
Qed.

Lemma wp_key_block c (Q : Result (list byte) → W → Prop) w :
  Q (Ok (side_block c w)) w → (∀ m w', Q (Err (Init m)) w') → wp (tls12_key_block (block_len c)) Q w.
Proof.
  intros Hok Herr. unfold tls12_key_block. do 2 wp_step. unfold side_block in Hok.
  destruct (SSL_generate_key_block (block_len c) w) as [rc block].
  destruct (rc =? 1); cbn [negb].
  - wp_step. apply Hok.
  - wp_step. apply wp_last_error_any. intros. wp_step. apply Herr.
Qed.
End derive_wp.

(** ** Splitting the key block *)

Lemma split_tls12_key_block_slices block (k i : nat) server :
  len block = 2 * (Z.of_nat k + Z.of_nat i) →
  split_tls12_key_block block (Z.of_nat k) (Z.of_nat i) server =
    let key (client : bool) := slice (if client then 0 else k) k block in
    let iv (client : bool) := slice (2 * k + (if client then 0 else i)) i block in
    Some (key (negb server), iv (negb server), key server, iv server).
Proof.
  unfold split_tls12_key_block, split_at, prefix, slice, len. intros Hlen.
  rewrite !Nat2Z.id.
  destruct (Z.leb_spec (Z.of_nat k) (Z.of_nat (length block))); [|lia]. cbn.
  rewrite !length_drop.
  destruct (Z.leb_spec (Z.of_nat k) (Z.of_nat (length block - k))); [|lia]. cbn.
  rewrite !length_drop, !drop_drop.
  destruct (Z.leb_spec (Z.of_nat i) (Z.of_nat (length block - k - k))); [|lia]. cbn.
  replace (k + (k + 0))%nat with (k + k)%nat by lia.
  assert (drop (k + k + i) block = take i (drop (k + k + i) block)) as Ht.
  { rewrite take_ge; [done|]. rewrite length_drop. lia. }
  destruct server; cbn; by rewrite Nat.add_0_r, ?drop_0, <- Ht.
Qed.

Lemma len_slice off n l : (off + n ≤ length l)%nat → len (slice off n l) = Z.of_nat n.
Proof. intros. unfold len, slice. rewrite length_take, length_drop. lia. Qed.

(** ** Properties *)

Section derive_facts.
Context {W : Type} `{AwsLcConsts, ErrQueue W, SslSession W, KdfLaws W}.
Implicit Types w : W.

Lemma len_expand h secret label n : 0 ≤ n → len (expand h secret label n) = n.
Proof. apply len_buffer. Qed.

Lemma len_take_drop (l : list byte) : len l = 12 → len (take 4 l) = 4 ∧ len (drop 4 l) = 8.
Proof. unfold len. rewrite length_take, length_drop. lia. Qed.

Lemma len_side_block c w : len (side_block c w) = block_len c.
Proof. apply len_buffer. by destruct c. Qed.

Lemma wp_split_or_panic block (k i : nat) server
    (Q : list byte * list byte * list byte * list byte → W → Prop) w :
  len block = 2 * (Z.of_nat k + Z.of_nat i) →
  (let key (client : bool) := slice (if client then 0 else k) k block in
   let iv (client : bool) := slice (2 * k + (if client then 0 else i)) i block in
   Q (key (negb server), iv (negb server), key server, iv server) w) →
  wp (split_or_panic block (Z.of_nat k) (Z.of_nat i) server) Q w.
Proof.
  intros Hlen HQ. unfold split_or_panic. rewrite split_tls12_key_block_slices by done.
  cbv zeta in *. by apply wp_ret.
Qed.

(** What each builder stores. *)
Lemma wp_build_128 version key salt iv seq (Q : tls12_crypto_info_aes_gcm_128 → W → Prop) s :
  len key = 16 → len salt = 4 → len iv = 8 →
  (∀ c, g128_bytes c = struct_bytes version TLS_CIPHER_AES_GCM_128 iv key salt seq → Q c s) →
  wp (build_aes_gcm_128 version key salt iv seq) Q s.
Proof.
  intros Hk Hs Hi HQ. unfold build_aes_gcm_128.
  do 3 (wp_step; apply wp_copy_array; [done|]). wp_step. apply HQ.
  unfold g128_bytes, info_bytes, struct_bytes. by rewrite <- app_assoc.
Qed.

Lemma wp_build_256 version key salt iv seq (Q : tls12_crypto_info_aes_gcm_256 → W → Prop) s :
  len key = 32 → len salt = 4 → len iv = 8 →
  (∀ c, g256_bytes c = struct_bytes version TLS_CIPHER_AES_GCM_256 iv key salt seq → Q c s) →
  wp (build_aes_gcm_256 version key salt iv seq) Q s.
Proof.
  intros Hk Hs Hi HQ. unfold build_aes_gcm_256.
  do 3 (wp_step; apply wp_copy_array; [done|]). wp_step. apply HQ.
  unfold g256_bytes, info_bytes, struct_bytes. by rewrite <- app_assoc.
Qed.

Lemma wp_build_cc version key iv seq (Q : tls12_crypto_info_chacha20_poly1305 → W → Prop) s :
  len key = 32 → len iv = 12 →
  (∀ c, cc_bytes c = struct_bytes version TLS_CIPHER_CHACHA20_POLY1305 iv key [] seq → Q c s) →
  wp (build_chacha20_poly1305 version key iv seq) Q s.
Proof.
  intros Hk Hi HQ. unfold build_chacha20_poly1305.
  do 2 (wp_step; apply wp_copy_array; [done|]). wp_step. apply HQ.
  unfold cc_bytes, info_bytes, struct_bytes. by rewrite <- app_assoc.
Qed.

(** One step of the TLS 1.3 derivations: a secret or an expanded label. *)
Ltac derive_step :=
  wp_step; first
    [ apply wp_traffic_secret; [|by intros; wp_step; eexists]
    | apply wp_hkdf_expand_label; [by vm_compute|by vm_compute| |by intros; wp_step; eexists]; intros ? ].

(** The lengths of expanded keys and nonces, and of the slices of a block. *)
Ltac derive_len :=
  first
    [ by rewrite len_expand by done
    | by apply len_take_drop; rewrite len_expand by done
    | (unfold len; by rewrite length_to_be_bytes)
    | (apply len_slice;
       lazymatch goal with |- context [length (side_block ?c ?w)] =>
         let H := fresh in pose proof (len_side_block c w) as H; unfold len in H; cbn in H;
         destruct (is_server w); cbn; lia
       end) ].

Tactic Notation "derive_build" uconstr(lem) :=
  wp_step; apply lem; [derive_len..|]; intros ? ?.

Ltac derive_end := wp_step; by split.

(** Derived structures, or an [Error::Init]. *)
Definition derive_post (c : KtlsCipher) w (r : Result CryptoInfo) : Prop :=
  match r with
  | Ok i => derived c w i
  | Err e => ∃ m, e = Init m
  end.

Lemma wp_derive_tls13 c w :
  c = Tls13Aes128Gcm ∨ c = Tls13Aes256Gcm ∨ c = Tls13Chacha20Poly1305 →
  wp (derive_crypto_info c) (λ r _, derive_post c w r) w.
Proof.
  unfold derive_crypto_info, derive_post, derived. intros Hc. do 2 wp_step. unfold sequences.
  destruct Hc as [->|[-> | ->]]; unfold side_bytes, tls13_gcm; do 6 derive_step.
  - do 2 derive_build wp_build_128. derive_end.
  - do 2 derive_build wp_build_256. derive_end.
  - do 2 derive_build wp_build_cc. derive_end.
Qed.

(** The key block of a cipher, split for this endpoint. *)
Ltac derive_block c k i :=
  do 3 wp_step; apply (wp_key_block c); [|by intros; wp_step; eexists];
  wp_step; apply (wp_split_or_panic _ k i); [by rewrite len_side_block|]; cbv zeta.

Lemma wp_derive_tls12 c w :
  c = Tls12Aes128Gcm ∨ c = Tls12Aes256Gcm ∨ c = Tls12Chacha20Poly1305 →
  wp (derive_crypto_info c) (λ r _, derive_post c w r) w.
Proof.
  unfold derive_crypto_info, derive_post, derived. intros Hc. do 2 wp_step. unfold sequences.
  destruct Hc as [->|[-> | ->]]; unfold side_bytes, tls12_gcm.
  - derive_block Tls12Aes128Gcm 16%nat 4%nat. do 2 derive_build wp_build_128. derive_end.
  - derive_block Tls12Aes256Gcm 32%nat 4%nat. do 2 derive_build wp_build_256. derive_end.
  - derive_block Tls12Chacha20Poly1305 32%nat 12%nat. do 2 derive_build wp_build_cc. derive_end.
Qed.

Lemma wp_derive_crypto_info c w :
  wp (derive_crypto_info c) (λ r _, derive_post c w r) w.
Proof. destruct c; first [apply wp_derive_tls13; auto; done | apply wp_derive_tls12; auto; done]. Qed.

Lemma returns_last_error : returns (last_error : M W string).
Proof. unfold last_error, format_and_clear. returns_tac. Qed.

Lemma returns_derive_crypto_info c : returns (derive_crypto_info c : M W _).
Proof.
  pose proof returns_last_error.
  unfold derive_crypto_info, tls13_traffic_secret, hkdf_expand_label, tls12_key_block,
    split_or_panic, build_aes_gcm_128, build_aes_gcm_256, build_chacha20_poly1305, copy_array.
  returns_tac; try done.
Qed.

Lemma len_struct_bytes version ctype iv key salt seq :
  len (struct_bytes version ctype iv key salt seq) = 12 + len iv + len key + len salt.
Proof.
  unfold struct_bytes. rewrite !len_app. unfold u16_ne_bytes, len at 1 2 6.
  rewrite !length_rev, !length_to_be_bytes. lia.
Qed.

Lemma len_side_bytes c secret block client seq :
  len block = block_len c → len (side_bytes c secret block client seq) = info_size c.
Proof.
  unfold len at 1. intros Hb.
  destruct c; unfold side_bytes, tls13_gcm, tls12_gcm, info_size in *; rewrite len_struct_bytes.
  all: rewrite ?len_expand by done.
  all: try match goal with |- context [len (take 4 ?l)] =>
    destruct (len_take_drop l) as [-> ->]; [by rewrite len_expand by done|done] end.
  all: try done.
  all: cbn in Hb; rewrite ?len_slice by (destruct client; cbn; lia); try done.
  all: unfold len; by rewrite length_to_be_bytes.
Qed.

Lemma derived_size c w i :
  derived c w i → len (tx_bytes i) = info_size c ∧ len (rx_bytes i) = info_size c.
Proof. intros [-> ->]. by rewrite !len_side_bytes by apply len_side_block. Qed.

(** C12. Key derivation for the kernel: for every supported cipher the
    derivation returns without a panic (no slice of a secret, nonce or key
    block is out of range), and on success the [TLS_TX] structure is that of
    the direction this endpoint writes and the [TLS_RX] structure that of the
    direction its peer writes, each with the key, salt, IV and sequence number
    the specification [side_bytes] assigns, and of the size the kernel
    expects. *)
Theorem derive_crypto_info_correct c w :
  ∃ r w', derive_crypto_info c w = Done (r, w') ∧
    ∀ i, r = Ok i → derived c w i ∧
      len (tx_bytes i) = info_size c ∧ len (rx_bytes i) = info_size c.
Proof.
  destruct (wp_returns _ _ _ (returns_derive_crypto_info c) (wp_derive_crypto_info c w))
    as (r & w' & E & Hd).
  exists r, w'. split; [done|]. intros i ->. split; [done|].
  by apply derived_size with w.
Qed.

(** Two ends of one session: what one writes the other reads. *)
Definition mirrored (c : KtlsCipher) (w1 w2 : W) : Prop :=
  side_secret Write w1 = side_secret Read w2 ∧ side_secret Read w1 = side_secret Write w2 ∧
  side_block c w1 = side_block c w2 ∧ is_server w1 = negb (is_server w2) ∧
  SSL_get_write_sequence w1 = SSL_get_read_sequence w2 ∧
  SSL_get_read_sequence w1 = SSL_get_write_sequence w2.

(** C13. The two ends of a session install matching keys: if the ends derive
    from mirrored session state, then the structure one end installs for
    transmission is byte for byte the one the other end installs for
    reception, in both directions. *)
Theorem endpoints_agree c w1 w2 i1 i2 w1' w2' :
  mirrored c w1 w2 →
  derive_crypto_info c w1 = Done (Ok i1, w1') → derive_crypto_info c w2 = Done (Ok i2, w2') →
  tx_bytes i1 = rx_bytes i2 ∧ rx_bytes i1 = tx_bytes i2.
Proof.
  intros (Hs1 & Hs2 & Hb & Hr & Hq1 & Hq2) E1 E2.
  destruct (wp_done _ _ _ _ _ (wp_derive_crypto_info c w1) E1) as [Ht1 Hr1].
  destruct (wp_done _ _ _ _ _ (wp_derive_crypto_info c w2) E2) as [Ht2 Hr2].
  rewrite Ht1, Hr1, Ht2, Hr2, Hs1, Hs2, Hb, Hr, Hq1, Hq2, negb_involutive. done.
Qed.

(** HKDF labels separate the derivations: for outputs of at most 65535
    bytes, two calls use the same [HkdfLabel] only if they ask for the same
    length and the same label. *)
Theorem hkdf_label_injective n1 n2 l1 l2 :
  0 ≤ n1 ≤ u16_max → 0 ≤ n2 ≤ u16_max →
  hkdf_label_info n1 l1 = hkdf_label_info n2 l2 → n1 = n2 ∧ l1 = l2.
Proof.
  intros Hn1 Hn2. unfold hkdf_label_info. intros E.
  apply app_inj_1 in E as [En E]; [|by rewrite !length_to_be_bytes].
  unfold u16_max in *. split; [by apply (to_be_bytes_inj 2); [simpl; lia..|]|].
  cbn [app] in E. apply (f_equal tail) in E. cbn [tail] in E.
  apply app_inv_head in E. by apply app_inv_tail in E.
Qed.
End derive_facts.

(** A client and a server that negotiated AES-128-GCM under TLS 1.2. *)
Definition end12 (server : bool) : Sim :=
  {| w_view := view0; w_script := []; w_errs := []; w_code := 0; w_errno := 0;
     w_ready := (true, true); w_ghost := w_ghost (sim0 []); w_next := 1;
     w_sess := {| se_version := 0x0303; se_cipher := Some 0xC02F; se_server := server;
                  se_secret := λ _, [];
                  se_key_block := u8 <$> (Z.of_nat <$> seq 0 40);
                  se_seq := λ write, if Bool.eqb write server then 5 else 9;
                  se_pending := 0 |} |}.

Lemma derive_crypto_info_correct_witness :
  ∃ i w', derive_crypto_info Tls12Aes128Gcm (end12 true) = Done (Ok i, w') ∧
    len (tx_bytes i) = 40 ∧ derived Tls12Aes128Gcm (end12 true) i.
Proof.
  destruct (derive_crypto_info_correct Tls12Aes128Gcm (end12 true)) as (r & w' & E & Hr).
  destruct r as [i|e]; [|by vm_compute in E]. exists i, w'. split; [exact E|].
  destruct (Hr i eq_refl) as (Hd & Hl & _). split; [exact Hl|exact Hd].
Defined.

Lemma endpoints_agree_witness :
  ∃ i1 i2, tx_bytes i1 = rx_bytes i2 ∧ rx_bytes i1 = tx_bytes i2 ∧ tx_bytes i1 ≠ rx_bytes i1.
Proof.
  eexists _, _.
  refine ((λ H, conj (proj1 H) (conj (proj2 H) _))
    (endpoints_agree Tls12Aes128Gcm (end12 true) (end12 false) _ _ _ _ _ _ _)).
  2: by repeat split; vm_compute.
  2: vm_compute; reflexivity.
  2: vm_compute; reflexivity.
  vm_compute. done.
Defined.

Lemma hkdf_label_injective_witness : hkdf_label_info 16 (bytes_of "key") ≠ hkdf_label_info 12 (bytes_of "iv").
Proof. intros E. apply hkdf_label_injective in E as [E _]; [|by vm_compute..]. done. Defined.
