(* ===== verification/Install.v ===== *)
(** * ktls/mod.rs: installing kernel TLS on a socket *)

From S2P Require Import Prelude Std Env Sim Errors Alpn Suites Session RecordIo CryptoInfo.

Local Open Scope Z_scope.

Section linux.
Context {W : Type} `{Syscalls W}.

Definition set_ulp_tls : M W (io_result unit) :=
  let* rc := ext (setsockopt SOL_TCP TCP_ULP (bytes_of "tls")) in
  if rc <? 0 then
    let* e := gets errno in
    mret (Err (Os e))
  else mret (Ok tt).

Definition set_crypto_info (direction : Z) (info : list byte) : M W (io_result unit) :=
  match try_from_max u32_max (len info) with
  | None => panic "crypto_info fits in u32"
  | Some _ =>
      let* rc := ext (setsockopt SOL_TLS direction info) in
      if rc <? 0 then
        let* e := gets errno in
        mret (Err (Os e))
      else mret (Ok tt)
  end.

Definition classify_ulp_error (e : io_error) : KtlsError :=
  match raw_os_error e with
  | Some n =>
      if (n =? ENOENT) || (n =? ENOPROTOOPT) then TlsUlpUnavailable e
      else if (n =? ENOTCONN) || (n =? EISCONN) || (n =? EBUSY) then SocketUnattachable e
      else SetSockOpt e
  | None => SetSockOpt e
  end.

Definition install_rx_then_tx (set_direction : Z → M W (io_result unit)) :
    M W (result unit KtlsError) :=
  let* r := set_direction TLS_RX in
  match map_err CryptoUnavailable r with
  | Err e => mret (Err e)
  | Ok _ =>
      let* r := set_direction TLS_TX in
      mret (map_err SetSockOpt r)
  end.

Definition install (info : CryptoInfo) : M W (result unit KtlsError) :=
  let* r := set_ulp_tls in
  match map_err classify_ulp_error r with
  | Err e => mret (Err e)
  | Ok _ =>
      install_rx_then_tx (λ direction,
        match info with
        | AesGcm128 tx rx =>
            set_crypto_info direction (if direction =? TLS_RX then g128_bytes rx else g128_bytes tx)
        | AesGcm256 tx rx =>
            set_crypto_info direction (if direction =? TLS_RX then g256_bytes rx else g256_bytes tx)
        | Chacha20Poly1305 tx rx =>
            set_crypto_info direction (if direction =? TLS_RX then cc_bytes rx else cc_bytes tx)
        end)
  end.
End linux.

Section install_ktls.
Context {W : Type} `{AwsLcConsts, ErrQueue W, Kdf W, SslSession W, Syscalls W, LibSsl W}.

Definition install_ktls : M W (Result unit) :=
  let* c := gets detect in
  match c with
  | None =>
      let* elig := gets KtlsEligibility_from_ssl in
      mret (Err (Ktls (IneligibleCipher (ke_tls_version elig) (ke_cipher elig))))
  | Some cipher =>
      let? info := derive_crypto_info cipher in
      let* r := install info in
      mret (map_err Ktls r)
  end.

Definition check_no_buffered_plaintext : M W (Result unit) :=
  let* has_pending := gets SSL_has_pending in
  if negb (has_pending =? 0) then
    let* pending := gets SSL_pending in
    mret (Err (Ktls (BufferedPlaintext (Z.max pending 0))))
  else mret (Ok tt).
End install_ktls.

(** ** What the kernel was told *)

(** The options of one connection, oldest first: the ULP attach and the two
    directions, with the kernel's answer. *)
Definition opt_ulp (r : Z) : Z * Z * list byte * Z := (SOL_TCP, TCP_ULP, bytes_of "tls", r).
Definition opt_rx (i : CryptoInfo) (r : Z) : Z * Z * list byte * Z :=
  (SOL_TLS, TLS_RX, rx_bytes i, r).
Definition opt_tx (i : CryptoInfo) (r : Z) : Z * Z * list byte * Z :=
  (SOL_TLS, TLS_TX, tx_bytes i, r).

(** The errors of an installation, with what the kernel has then accepted. *)
Inductive install_log (i : CryptoInfo) : result unit KtlsError → list (Z * Z * list byte * Z) → Prop :=
| log_ok r0 r1 r2 :
    0 ≤ r0 → 0 ≤ r1 → 0 ≤ r2 → install_log i (Ok tt) [opt_ulp r0; opt_rx i r1; opt_tx i r2]
| log_ulp r0 e :
    r0 < 0 → install_log i (Err (classify_ulp_error (Os e))) [opt_ulp r0]
| log_rx r0 r1 e :
    0 ≤ r0 → r1 < 0 → install_log i (Err (CryptoUnavailable (Os e))) [opt_ulp r0; opt_rx i r1]
| log_tx r0 r1 r2 e :
    0 ≤ r0 → 0 ≤ r1 → r2 < 0 →
    install_log i (Err (SetSockOpt (Os e))) [opt_ulp r0; opt_rx i r1; opt_tx i r2].

(** A direction the kernel took over: an accepted [SOL_TLS] option. *)
Definition accepted (o : Z * Z * list byte * Z) : Prop :=
  let '(level, _, _, r) := o in level = SOL_TLS ∧ 0 ≤ r.

(** Everything but the socket options. *)
Definition opts_only (v v' : View) : Prop :=
  v_sent v' = v_sent v ∧ v_blocked v' = v_blocked v ∧ v_raw v' = v_raw v ∧
  rx_view v' = rx_view v ∧ v_closes v' = v_closes v ∧ v_woken v' = v_woken v.

#[export] Instance opts_only_preorder : PreOrder opts_only.
Proof.
  split; [by intros v|].
  intros v1 v2 v3 (?&?&?&?&?&?) (?&?&?&?&?&?). repeat split; congruence.
Qed.

Section install_facts.
Context {W : Type} `{NetView W}.
Implicit Types w : W.

(** Both setters: one option, and success exactly when the kernel says so. *)
Definition set_post (l o : Z) (v : list byte) w (r : io_result unit) w' : Prop :=
  ∃ rc, view w' = v_add_opt (l, o, v, rc) (view w) ∧
    (if rc <? 0 then ∃ e, r = Err (Os e) else r = Ok tt).

Lemma wp_set_ulp_tls w : wp set_ulp_tls (set_post SOL_TCP TCP_ULP (bytes_of "tls") w) w.
Proof.
  unfold set_ulp_tls. do 2 wp_step.
  match goal with E : setsockopt _ _ _ _ = _ |- _ => apply view_setsockopt in E as Hv end.
  destruct (a <? 0) eqn:Ea; repeat wp_step; exists a; rewrite Ea; split; eauto.
Qed.

Lemma wp_set_crypto_info d v w :
  len v ≤ u32_max → wp (set_crypto_info d v) (set_post SOL_TLS d v w) w.
Proof.
  intros Hl. unfold set_crypto_info, try_from_max. destruct (Z.leb_spec (len v) u32_max); [|lia].
  do 2 wp_step.
  match goal with E : setsockopt _ _ _ _ = _ |- _ => apply view_setsockopt in E as Hv end.
  destruct (a <? 0) eqn:Ea; repeat wp_step; exists a; rewrite Ea; split; eauto.
Qed.

Lemma opts_only_add o v : opts_only v (v_add_opt o v).
Proof. by destruct v. Qed.

(** The direction callback of [install] sends the structure of that direction. *)
Lemma install_direction info d :
  d = TLS_RX ∨ d = TLS_TX →
  (match info with
   | AesGcm128 tx rx =>
       set_crypto_info d (if d =? TLS_RX then g128_bytes rx else g128_bytes tx)
   | AesGcm256 tx rx =>
       set_crypto_info d (if d =? TLS_RX then g256_bytes rx else g256_bytes tx)
   | Chacha20Poly1305 tx rx =>
       set_crypto_info d (if d =? TLS_RX then cc_bytes rx else cc_bytes tx)
   end : M W (io_result unit))
  = set_crypto_info d (if d =? TLS_RX then rx_bytes info else tx_bytes info).
Proof. intros [-> | ->]; by destruct info. Qed.

Definition install_post info w (r : result unit KtlsError) w' : Prop :=
  ∃ log, install_log info r log ∧ v_opts (view w') = v_opts (view w) ++ log ∧
    opts_only (view w) (view w').

Lemma wp_install info w :
  len (tx_bytes info) ≤ u32_max → len (rx_bytes info) ≤ u32_max →
  wp (install info) (install_post info w) w.
Proof.
  intros Ht Hr. unfold install. wp_step. eapply wp_mono; [apply wp_set_ulp_tls|].
  intros r0 w0 (rc0 & Hv0 & Hrc0). destruct (Z.ltb_spec rc0 0) as [Hn0|Hp0].
  { destruct Hrc0 as [e ->]. cbn [map_err]. wp_step. eexists.
    split; [by eapply (log_ulp info rc0 e)|]. rewrite Hv0. split; [done|]. apply opts_only_add. }
  subst r0. cbn [map_err]. unfold install_rx_then_tx. wp_step.
  rewrite install_direction by auto. eapply wp_mono; [by apply wp_set_crypto_info|].
  intros r1 w1 (rc1 & Hv1 & Hrc1). destruct (Z.ltb_spec rc1 0) as [Hn1|Hp1].
  { destruct Hrc1 as [e ->]. cbn [map_err]. wp_step. eexists.
    split; [by eapply (log_rx info rc0 rc1 e)|]. rewrite Hv1, Hv0. simpl. rewrite <- app_assoc.
    split; [done|]. etrans; apply opts_only_add. }
  subst r1. cbn [map_err]. wp_step.
  rewrite install_direction by auto. eapply wp_mono; [by apply wp_set_crypto_info|].
  intros r2 w2 (rc2 & Hv2 & Hrc2). wp_step. unfold install_post.
  rewrite Hv2, Hv1, Hv0. simpl. rewrite <- !app_assoc.
  eexists. split; [|split; [done|]; etrans; [etrans|]; apply opts_only_add].
  destruct (Z.ltb_spec rc2 0).
  - destruct Hrc2 as [e ->]. by apply log_tx.
  - subst r2. by apply log_ok.
Qed.
End install_facts.

Section install_ktls_facts.
Context {W : Type} `{NetView W, !Strerror, SslSession W, Kdf W, !KdfView W, !KdfLaws W}.
Implicit Types w : W.

Lemma preserves_last_error : preserves view (last_error : M W string).
Proof.
  unfold last_error, format_and_clear.
  assert (preserves view (ext ERR_get_error : M W Z)) by (apply preserves_ext, view_get_error).
  assert (preserves view (modify ERR_clear_error : M W unit))
    by (apply preserves_modify, view_clear_error).
  preserves_tac.
Qed.

Lemma preserves_derive c : preserves view (derive_crypto_info c : M W _).
Proof.
  pose proof preserves_last_error.
  assert (∀ n m s i, preserves view (ext (HKDF_expand n m s i) : M W _))
    by (intros; apply preserves_ext; intros; apply view_HKDF_expand).
  unfold derive_crypto_info, tls13_traffic_secret, hkdf_expand_label, tls12_key_block,
    split_or_panic, build_aes_gcm_128, build_aes_gcm_256, build_chacha20_poly1305, copy_array.
  preserves_tac.
Qed.

(** The three ways [install_ktls] ends, with what the kernel was told. *)
Definition install_ktls_post w (r : Result unit) w' : Prop :=
  ∃ log, v_opts (view w') = v_opts (view w) ++ log ∧ opts_only (view w) (view w') ∧
    match detect w with
    | None => log = [] ∧ ∃ v c, r = Err (Ktls (IneligibleCipher v c))
    | Some c =>
        (log = [] ∧ ∃ m, r = Err (Init m)) ∨
        (∃ i r0, derived c w i ∧ install_log i r0 log ∧ r = map_err Ktls r0)
    end.

Lemma wp_install_ktls w : wp install_ktls (install_ktls_post w) w.
Proof.
  unfold install_ktls, install_ktls_post. do 2 wp_step. destruct (detect w) as [c|].
  - wp_step. eapply wp_mono; [apply (wp_preserves view); [apply preserves_derive|]; apply wp_derive_crypto_info|].
    intros r w1 [Hr Hv].
    destruct r as [i|e].
    + destruct (derived_size c w i Hr) as [Ht Hrx]. wp_step.
      assert (info_size c ≤ u32_max) by by destruct c.
      eapply wp_mono; [apply wp_install; lia|]. intros r w2 (log & Hl & Ho & Hoo).
      wp_step. rewrite Hv in Ho, Hoo. exists log. split_and!; try done. right. by exists i, r.
    + destruct Hr as [m ->]. wp_step. exists []. rewrite Hv, app_nil_r. split_and!; try done.
      left. split; [done|]. by exists m.
  - do 3 wp_step. exists []. rewrite app_nil_r. split_and!; try done. by eexists _, _.
Qed.

Lemma returns_install info : returns (install info : M W _).
Proof. unfold install, install_rx_then_tx, set_ulp_tls, set_crypto_info. returns_tac. Qed.

Lemma returns_install_ktls : returns (install_ktls : M W _).
Proof.
  pose proof returns_derive_crypto_info. pose proof returns_install.
  unfold install_ktls. returns_tac; try done.
Qed.

(** C22. Installing kernel TLS on a socket returns, and tells the kernel at most
    three things, in this order: attach the ULP, keys for reception, keys for
    transmission, stopping at the first refusal.  The error says how far it
    got: a refused attach is classified by its errno, a refused receive
    direction is [CryptoUnavailable] (nothing is installed then) and only a
    refused transmit direction leaves one direction active, reported as
    [SetSockOpt].  The bytes sent are those of the derived structures. *)
Theorem install_order info w :
  len (tx_bytes info) ≤ u32_max → len (rx_bytes info) ≤ u32_max →
  ∃ r w' log, install info w = Done (r, w') ∧ install_log info r log ∧
    v_opts (view w') = v_opts (view w) ++ log ∧ opts_only (view w) (view w').
Proof.
  intros Ht Hr. destruct (wp_returns _ _ _ (returns_install info) (wp_install info w Ht Hr))
    as (r & w' & E & log & Hp). by exists r, w', log.
Qed.
End install_ktls_facts.

Definition info128 (b : byte) : tls12_crypto_info_aes_gcm_128 :=
  {| g128_info := {| ci_version := TLS_1_3_VERSION; ci_cipher_type := TLS_CIPHER_AES_GCM_128 |};
     g128_iv := repeat b 8; g128_key := repeat b 16; g128_salt := repeat b 4;
     g128_rec_seq := to_be_bytes 8 0 |}.

(** The kernel takes the receive keys and refuses the transmit keys. *)
Lemma install_order_witness :
  ∃ r w' log, install (AesGcm128 (info128 x01) (info128 x02)) (sim0 [EvOpt 0 0; EvOpt 0 0; EvOpt (-1) EINVAL])
              = Done (r, w') ∧ r = Err (SetSockOpt (Os EINVAL)) ∧
    install_log (AesGcm128 (info128 x01) (info128 x02)) r log.
Proof.
  destruct (install_order (AesGcm128 (info128 x01) (info128 x02))
              (sim0 [EvOpt 0 0; EvOpt 0 0; EvOpt (-1) EINVAL])) as (r & w' & log & E & Hl & _);
    [by vm_compute..|].
  exists r, w', log. split; [exact E|]. split; [|exact Hl]. by vm_compute in E; injection E as <- _.
Defined.
