(* ===== verification/Stream.v ===== *)
(** * stream.rs: the established stream and the handshake driver

    [TlsStream] with its read, write, flush and shutdown polls on both data
    paths (libssl and kernel TLS), the shared wakers, and [drive_handshake].
    The loops of the source that have no bound of their own take fuel. *)

From S2P Require Import Prelude Std Env Errors Alpn Suites Session RecordIo CryptoInfo Install.

Local Open Scope Z_scope.

Definition MAX_PLAINTEXT : Z := 16 * 1024.
Definition SSL_R_UNEXPECTED_EOF_WHILE_READING : Z := 509.

Inductive Shutdown : Type := ShutOpen | ShutSending | ShutClosed.

#[export] Instance Shutdown_eq_dec : EqDecision Shutdown.
Proof. solve_decision. Defined.

(** ** The shared wakers *)

(** [Mutex<[Option<Waker>; 2]>]: the writer's slot and the reader's. *)
Record IoWaiters : Type := { slot_writer : option Waker; slot_reader : option Waker }.

Definition IoWaiters_default : IoWaiters := {| slot_writer := None; slot_reader := None |}.

Definition get_slot (reader : bool) (s : IoWaiters) : option Waker :=
  if reader then slot_reader s else slot_writer s.

Definition set_slot (reader : bool) (wk : Waker) (s : IoWaiters) : IoWaiters :=
  if reader then {| slot_writer := slot_writer s; slot_reader := Some wk |}
  else {| slot_writer := Some wk; slot_reader := slot_reader s |}.

Definition register (reader : bool) (wk : Waker) (s : IoWaiters) : IoWaiters :=
  if match get_slot reader s with Some old => bool_decide (old = wk) | None => false end
  then s else set_slot reader wk s.

(** [for waker in slots.into_iter().flatten() { waker.wake() }] *)
Definition wake_all {W} `{TokioTcp W} (s : IoWaiters) : M W unit :=
  do* match slot_writer s with Some wk => modify (wake wk) | None => mret tt end ;
  match slot_reader s with Some wk => modify (wake wk) | None => mret tt end.

(** ** The stream *)

Record TlsStream : Type := {
  ktls_active : bool;
  ktls_disabled : bool;
  pending_write : list byte;
  waiters : option IoWaiters;
  write_error : option io_error;
  shutdown : Shutdown;
  ktls_reader : RecordReader;
}.

Definition with_pending (p : list byte) (t : TlsStream) : TlsStream :=
  {| ktls_active := ktls_active t; ktls_disabled := ktls_disabled t; pending_write := p;
     waiters := waiters t; write_error := write_error t; shutdown := shutdown t;
     ktls_reader := ktls_reader t |}.
Definition with_waiters (ws : option IoWaiters) (t : TlsStream) : TlsStream :=
  {| ktls_active := ktls_active t; ktls_disabled := ktls_disabled t;
     pending_write := pending_write t; waiters := ws; write_error := write_error t;
     shutdown := shutdown t; ktls_reader := ktls_reader t |}.
Definition with_write_error (e : io_error) (t : TlsStream) : TlsStream :=
  {| ktls_active := ktls_active t; ktls_disabled := ktls_disabled t;
     pending_write := pending_write t; waiters := waiters t; write_error := Some e;
     shutdown := shutdown t; ktls_reader := ktls_reader t |}.
Definition with_shutdown (s : Shutdown) (t : TlsStream) : TlsStream :=
  {| ktls_active := ktls_active t; ktls_disabled := ktls_disabled t;
     pending_write := pending_write t; waiters := waiters t; write_error := write_error t;
     shutdown := s; ktls_reader := ktls_reader t |}.
Definition with_reader (r : RecordReader) (t : TlsStream) : TlsStream :=
  {| ktls_active := ktls_active t; ktls_disabled := ktls_disabled t;
     pending_write := pending_write t; waiters := waiters t; write_error := write_error t;
     shutdown := shutdown t; ktls_reader := r |}.
Definition with_active (t : TlsStream) : TlsStream :=
  {| ktls_active := true; ktls_disabled := ktls_disabled t;
     pending_write := pending_write t; waiters := waiters t; write_error := write_error t;
     shutdown := shutdown t; ktls_reader := ktls_reader t |}.

(** A method of the [ktls_reader] field. *)
Definition on_reader {W A} (m : M (RecordReader * W) A) : M (TlsStream * W) A := λ s,
  match m (ktls_reader s.1, s.2) with
  | Done (a, (r, w)) => Done (a, (with_reader r s.1, w))
  | Panic msg => Panic msg
  | OutOfFuel => OutOfFuel
  end.

(** The stream that [from_parts] builds around a session and its socket. *)
Definition new_stream (ktls_disabled : bool) : TlsStream :=
  {| ktls_active := false; ktls_disabled := ktls_disabled; pending_write := [];
     waiters := None; write_error := None; shutdown := ShutOpen;
     ktls_reader := RecordReader_default |}.

Definition duplicate_io_error `{Strerror} (error : io_error) : io_error :=
  match raw_os_error error with
  | Some errno => Os errno
  | None => Custom (kind error) (io_to_string error)
  end.

Section helpers.
Context {W : Type}
  `{AwsLcConsts, Strerror, ErrQueue W, TokioTcp W, LibSsl W, Syscalls W}.

Definition unexpected_eof_error : io_error :=
  Custom UnexpectedEof "TLS peer closed without close_notify".

Definition ssl_io_error (op : string) (code : Z) : M W io_error :=
  let* os_error := gets errno in
  let* packed := gets ERR_peek_error in
  let library := Z.land (Z.shiftr packed 24) 0xff in
  let unexpected_eof :=
    (code =? SSL_ERROR_SSL) && (library =? ERR_LIB_SSL)
    && (Z.land packed 0xfff =? SSL_R_UNEXPECTED_EOF_WHILE_READING) in
  let* detail := last_error in
  if code =? SSL_ERROR_SYSCALL then
    if negb (os_error =? 0) then mret (Os os_error)
    else mret unexpected_eof_error
  else if negb unexpected_eof then
    mret (Custom Other (op +:+ ": ssl_error=" +:+ pretty code +:+ " " +:+ detail))
  else mret unexpected_eof_error.

(** [|| Err(io::ErrorKind::WouldBlock.into())] *)
Definition would_block : M W (io_result unit) := mret (Err (Simple WouldBlock)).

Definition poll_clear_read_ready (cx : Waker) : M W (poll (io_result unit)) :=
  let* r := ext (poll_read_ready cx) in
  match r with
  | Ready (Ok _) =>
      do* try_io READABLE would_block ;
      mret (Ready (Ok tt))
  | other => mret other
  end.

Definition poll_clear_write_ready (cx : Waker) : M W (poll (io_result unit)) :=
  let* r := ext (poll_write_ready cx) in
  match r with
  | Ready (Ok _) =>
      do* try_io WRITABLE would_block ;
      mret (Ready (Ok tt))
  | other => mret other
  end.

Fixpoint ktls_poll_write (fuel : nat) (cx : Waker) (buf : list byte) : M W (poll (io_result Z)) :=
  match fuel with
  | O => out_of_fuel
  | S fuel' =>
      let* r := ext (try_write buf) in
      match r with
      | Ok n => mret (Ready (Ok n))
      | Err e =>
          if is_kind WouldBlock e then
            let* ready := ext (poll_write_ready cx) in
            match ready with
            | Ready (Ok _) => ktls_poll_write fuel' cx buf
            | Ready (Err e) => mret (Ready (Err e))
            | Pending => mret Pending
            end
          else if is_kind Interrupted e then ktls_poll_write fuel' cx buf
          else mret (Ready (Err e))
      end
  end.

(** [drive_handshake]; a wait that is awaited has resolved when it returns. *)
Fixpoint drive_handshake (fuel : nat) : M W (Result unit) :=
  match fuel with
  | O => out_of_fuel
  | S fuel' =>
      let* r := ext SSL_do_handshake in
      if r =? 1 then mret (Ok tt)
      else
        let* err := gets (SSL_get_error r) in
        if err =? SSL_ERROR_WANT_READ then
          let* ready := ext readable in
          match ready with
          | Err e => mret (Err (Handshake ("waiting readable: " +:+ io_to_string e)))
          | Ok _ =>
              do* try_io READABLE would_block ;
              drive_handshake fuel'
          end
        else if err =? SSL_ERROR_WANT_WRITE then
          let* ready := ext writable in
          match ready with
          | Err e => mret (Err (Handshake ("waiting writable: " +:+ io_to_string e)))
          | Ok _ =>
              do* try_io WRITABLE would_block ;
              drive_handshake fuel'
          end
        else if err =? SSL_ERROR_ZERO_RETURN then
          mret (Err (Handshake "peer closed connection during handshake"))
        else
          let* detail := last_error in
          mret (Err (Handshake ("SSL_do_handshake: ssl_error=" +:+ pretty err +:+ " " +:+ detail)))
  end.
End helpers.

Section stream.
Context {W : Type}
  `{AwsLcConsts, Strerror, ErrQueue W, TokioTcp W, LibSsl W, Syscalls W}.

(** [if let Some(waiters) = &self.waiters { waiters.notify(); }] *)
Definition notify : M (TlsStream * W) unit :=
  let* t := self in
  match waiters t with
  | None => mret tt
  | Some slots =>
      do* set_self (with_waiters (Some IoWaiters_default) t) ;
      lift (wake_all slots)
  end.

Definition poll_ssl_ready (code : Z) (cx : Waker) (reader : bool) :
    M (TlsStream * W) (poll (io_result unit)) :=
  let* t := self in
  let slots := default IoWaiters_default (waiters t) in
  do* set_self (with_waiters (Some (register reader cx slots)) t) ;
  if code =? SSL_ERROR_WANT_READ then lift (poll_clear_read_ready SharedWaker)
  else lift (poll_clear_write_ready SharedWaker).

Definition write_failure (error : io_error) : M (TlsStream * W) io_error :=
  do* modify_self (with_write_error (duplicate_io_error error)) ;
  do* notify ;
  mret error.

(** [return Poll::Ready(Err(self.write_failure(error)))] *)
Definition fail_write {A} (error : io_error) : M (TlsStream * W) (poll (io_result A)) :=
  let* e := write_failure error in
  mret (Ready (Err e)).

Fixpoint pending_write_loop (fuel : nat) (cx : Waker) (reader : bool) :
    M (TlsStream * W) (poll (io_result unit)) :=
  match fuel with
  | O => out_of_fuel
  | S fuel' =>
      let* t := self in
      if is_empty (pending_write t) then mret (Ready (Ok tt))
      else
        match try_from_max c_int_max (len (pending_write t)) with
        | None => panic "one TLS record"
        | Some len =>
            let* n := lift (ext (SSL_write (pending_write t))) in
            if n =? len then
              do* modify_self (with_pending []) ;
              do* notify ;
              mret (Ready (Ok tt))
            else
              let* code := lift (gets (SSL_get_error n)) in
              if wants_io code then
                let* r := poll_ssl_ready code cx reader in
                match r with
                | Pending => mret Pending
                | Ready (Err error) => fail_write error
                | Ready (Ok _) => pending_write_loop fuel' cx reader
                end
              else
                let* error := lift (ssl_io_error "SSL_write" code) in
                fail_write error
        end
  end.

Definition poll_pending_write (fuel : nat) (cx : Waker) (reader : bool) :
    M (TlsStream * W) (poll (io_result unit)) :=
  let* t := self in
  match write_error t with
  | Some error => mret (Ready (Err (duplicate_io_error error)))
  | None => pending_write_loop fuel cx reader
  end.

(** ** [AsyncRead] *)

Fixpoint read_loop (fuel : nat) (cx : Waker) (buf : ReadBuf) :
    M (TlsStream * W) (poll (io_result unit) * ReadBuf) :=
  match fuel with
  | O => out_of_fuel
  | S fuel' =>
      if remaining buf =? 0 then mret (Ready (Ok tt), buf)
      else
        let cap := Z.min (remaining buf) c_int_max in
        let* (n, bytes) := lift (ext (SSL_read cap)) in
        if 0 <? n then
          if remaining buf <? n then panic "filled overflow"
          else
            let* buf := advance (prefix n (buffer (remaining buf) bytes)) buf in
            mret (Ready (Ok tt), buf)
        else
          let* err := lift (gets (SSL_get_error n)) in
          if err =? SSL_ERROR_ZERO_RETURN then mret (Ready (Ok tt), buf)
          else if wants_io err then
            let* r := poll_ssl_ready err cx true in
            match r with
            | Pending => mret (Pending, buf)
            | Ready (Err e) => mret (Ready (Err e), buf)
            | Ready (Ok _) => read_loop fuel' cx buf
            end
          else
            let* e := lift (ssl_io_error "SSL_read" err) in
            mret (Ready (Err e), buf)
  end.

Definition poll_read (fuel : nat) (cx : Waker) (buf : ReadBuf) :
    M (TlsStream * W) (poll (io_result unit) * ReadBuf) :=
  let* t := self in
  if remaining buf =? 0 then mret (Ready (Ok tt), buf)
  else if ktls_active t then on_reader (RecordReader_poll_read cx buf)
  else
    let* r := poll_pending_write fuel cx true in
    match r with
    | Ready (Err error) => mret (Ready (Err error), buf)
    | _ => read_loop fuel cx buf
    end.

(** ** [AsyncWrite] *)

Definition poll_write (fuel : nat) (cx : Waker) (buf : list byte) :
    M (TlsStream * W) (poll (io_result Z)) :=
  let* t := self in
  if is_empty buf then mret (Ready (Ok 0))
  else
    match write_error t with
    | Some error => mret (Ready (Err (duplicate_io_error error)))
    | None =>
        if bool_decide (shutdown t ≠ ShutOpen) then
          mret (Ready (Err (Custom BrokenPipe "TLS write half is shut down")))
        else if ktls_active t then lift (ktls_poll_write fuel cx buf)
        else
          ready? _ := poll_pending_write fuel cx false in
          let chunk := prefix (Z.min (len buf) MAX_PLAINTEXT) buf in
          match try_from_max c_int_max (len chunk) with
          | None => panic "one TLS record"
          | Some _ =>
              let* n := lift (ext (SSL_write chunk)) in
              if 0 <? n then mret (Ready (Ok n))
              else
                let* code := lift (gets (SSL_get_error n)) in
                if wants_io code then
                  do* modify_self (λ t, with_pending (pending_write t ++ chunk) t) ;
                  mret (Ready (Ok (len chunk)))
                else
                  let* error := lift (ssl_io_error "SSL_write" code) in
                  fail_write error
          end
    end.

Definition poll_flush (fuel : nat) (cx : Waker) : M (TlsStream * W) (poll (io_result unit)) :=
  poll_pending_write fuel cx false.

Fixpoint shutdown_loop (fuel : nat) (cx : Waker) : M (TlsStream * W) (poll (io_result unit)) :=
  match fuel with
  | O => out_of_fuel
  | S fuel' =>
      let* r := lift (ext SSL_shutdown) in
      if 0 <=? r then
        do* modify_self (with_shutdown ShutClosed) ;
        mret (Ready (Ok tt))
      else
        let* err := lift (gets (SSL_get_error r)) in
        if wants_io err then
          let* r := poll_ssl_ready err cx false in
          match r with
          | Pending => mret Pending
          | Ready (Err error) => fail_write error
          | Ready (Ok _) => shutdown_loop fuel' cx
          end
        else
          let* error := lift (ssl_io_error "SSL_shutdown" err) in
          fail_write error
  end.

Definition poll_shutdown (fuel : nat) (cx : Waker) : M (TlsStream * W) (poll (io_result unit)) :=
  ready? _ := poll_pending_write fuel cx false in
  let* t := self in
  if bool_decide (shutdown t = ShutClosed) then mret (Ready (Ok tt))
  else
    do* modify_self (with_shutdown ShutSending) ;
    if ktls_active t then
      let* r := lift (poll_close_notify cx) in
      match r with
      | Pending => mret Pending
      | Ready (Err error) => fail_write error
      | Ready (Ok _) =>
          do* modify_self (with_shutdown ShutClosed) ;
          let* result := lift (ext (tcp_poll_shutdown cx)) in
          match result with
          | Pending => mret Pending
          | Ready (Ok _) => mret (Ready (Ok tt))
          | Ready (Err error) => fail_write error
          end
      end
    else shutdown_loop fuel cx.
End stream.

(** ** Automatic installation of kernel TLS *)

Section auto_install.
Context {W : Type}
  `{AwsLcConsts, ErrQueue W, LibSsl W, Syscalls W, Kdf W, SslSession W}.

(** The installer is that of the target platform. *)
Definition auto_install_with (install_ktls : M W (Result unit)) : M (TlsStream * W) (Result unit) :=
  let* t := self in
  if ktls_active t || ktls_disabled t then mret (Ok tt)
  else
    let* checked := lift check_no_buffered_plaintext in
    match checked with
    | Err (Ktls (BufferedPlaintext _)) => mret (Ok tt)
    | Err other => mret (Err other)
    | Ok _ =>
        let* installed := lift install_ktls in
        match installed with
        | Ok _ =>
            do* modify_self with_active ;
            mret (Ok tt)
        | Err (Ktls (KUnsupported | IneligibleCipher _ _ | TlsUlpUnavailable _
                     | SocketUnattachable _ | CryptoUnavailable _)) => mret (Ok tt)
        | Err e => mret (Err e)
        end
    end.

Definition try_auto_install_ktls : M (TlsStream * W) (Result unit) := auto_install_with install_ktls.
End auto_install.
