(* ===== verification/Wakeups.v ===== *)
(** * The shared waker under concurrency (stream.rs)

    tokio keeps one waker per direction of a socket, and a libssl operation of
    either half may wait for either direction.  The halves therefore leave their
    tasks' wakers in [IoWaiters] and arm the socket with one shared waker, whose
    [wake] notifies both.  The reactor runs on a thread of its own: it may run
    between any two steps of a poll.  This file models a stream whose halves are
    polled one at a time (they share a lock or a [&mut]) against the reactor and
    the network, and shows that no wakeup is lost. *)

From S2P Require Import Prelude Std Env RecordIo Stream.

(** ** [IoWaiters] as a shared object *)

(** The wakers that [IoWaiters::notify] calls. *)
Definition slot_wakers (s : IoWaiters) : list Waker :=
  option_list (slot_writer s) ++ option_list (slot_reader s).

(** [IoWaiters::notify]: the slots are taken under the lock, then woken. *)
Definition IoWaiters_notify (s : IoWaiters) : IoWaiters * list Waker :=
  (IoWaiters_default, slot_wakers s).

(** ** The system *)

(** Where a poll stands in [poll_ssl_ready] and the loop around it. *)
Inductive Pc : Type :=
| PcCall
| PcRegister (i : Interest)
| PcReady (i : Interest)
| PcClear (i : Interest).

(** The poll that is running: its half, the waker of its context, whether that
    waker was called since the poll began, the directions it has armed, and where
    it stands. *)
Record Running : Type := {
  run_reader : bool;
  run_waker : Waker;
  run_notified : bool;
  run_waits : list Interest;
  run_pc : Pc;
}.

(** What a half's task does between polls: it can be polled, or sleeps until its
    waker is called, waiting for some directions. *)
Inductive Status : Type :=
| Runnable
| Parked (wk : Waker) (waits : list Interest).

Record Sys : Type := {
  slots : IoWaiters;
  status : bool → Status;
  running : option Running;
  (** The socket can make progress in this direction. *)
  avail : Interest → bool;
  (** The kernel has reported it and the reactor has not seen it yet. *)
  event : Interest → bool;
  (** tokio's cached readiness, and whether the shared waker is registered. *)
  ready : Interest → bool;
  armed : Interest → bool;
  (** Calls of the shared waker that the reactor has begun. *)
  inflight : nat;
}.

Definition upd {A B} `{EqDecision A} (a : A) (b : B) (f : A → B) : A → B :=
  λ a', if decide (a' = a) then b else f a'.

(** Waking a task: it is polled again; if it is being polled, after that. *)
Definition wake_status (ks : list Waker) (st : Status) : Status :=
  match st with
  | Parked wk _ => if bool_decide (wk ∈ ks) then Runnable else st
  | Runnable => Runnable
  end.
Definition wake_running (ks : list Waker) (r : Running) : Running :=
  {| run_reader := run_reader r; run_waker := run_waker r;
     run_notified := run_notified r || bool_decide (run_waker r ∈ ks);
     run_waits := run_waits r; run_pc := run_pc r |}.

Definition notify_all (s : Sys) : Sys :=
  let '(slots', ks) := IoWaiters_notify (slots s) in
  {| slots := slots'; status := λ h, wake_status ks (status s h);
     running := wake_running ks <$> running s; avail := avail s; event := event s;
     ready := ready s; armed := armed s; inflight := inflight s |}.

Definition with_running (r : option Running) (s : Sys) : Sys :=
  {| slots := slots s; status := status s; running := r; avail := avail s; event := event s;
     ready := ready s; armed := armed s; inflight := inflight s |}.
Definition at_pc (pc : Pc) (r : Running) (s : Sys) : Sys :=
  with_running (Some {| run_reader := run_reader r; run_waker := run_waker r;
                        run_notified := run_notified r; run_waits := run_waits r;
                        run_pc := pc |}) s.
Definition waits_for (i : Interest) (r : Running) : Running :=
  {| run_reader := run_reader r; run_waker := run_waker r; run_notified := run_notified r;
     run_waits := i :: run_waits r; run_pc := run_pc r |}.
Definition with_status (h : bool) (st : Status) (s : Sys) : Sys :=
  {| slots := slots s; status := upd h st (status s); running := running s; avail := avail s;
     event := event s; ready := ready s; armed := armed s; inflight := inflight s |}.
Definition with_slots (sl : IoWaiters) (s : Sys) : Sys :=
  {| slots := sl; status := status s; running := running s; avail := avail s; event := event s;
     ready := ready s; armed := armed s; inflight := inflight s |}.
Definition with_avail (f : Interest → bool) (s : Sys) : Sys :=
  {| slots := slots s; status := status s; running := running s; avail := f; event := event s;
     ready := ready s; armed := armed s; inflight := inflight s |}.
Definition with_event (f : Interest → bool) (s : Sys) : Sys :=
  {| slots := slots s; status := status s; running := running s; avail := avail s; event := f;
     ready := ready s; armed := armed s; inflight := inflight s |}.
Definition with_readiness (f g : Interest → bool) (s : Sys) : Sys :=
  {| slots := slots s; status := status s; running := running s; avail := avail s;
     event := event s; ready := f; armed := g; inflight := inflight s |}.
Definition with_inflight (n : nat) (s : Sys) : Sys :=
  {| slots := slots s; status := status s; running := running s; avail := avail s;
     event := event s; ready := ready s; armed := armed s; inflight := n |}.

(** A poll returns [Pending]: the task sleeps unless its waker was called. *)
Definition park (r : Running) (s : Sys) : Sys :=
  with_running None
    (with_status (run_reader r)
       (if run_notified r then Runnable else Parked (run_waker r) (run_waits r)) s).

(** The shared waker is registered for direction [i]. *)
Definition arm (i : Interest) (s : Sys) : Sys :=
  with_readiness (ready s) (upd i true (armed s)) s.

(** [SSL_ERROR_WANT_READ] waits for readability, [SSL_ERROR_WANT_WRITE] for
    writability; the steps of one poll on the libssl path. *)
Inductive poll_step : Sys → Sys → Prop :=
(** The executor polls a half. *)
| step_poll h wk s :
    running s = None →
    poll_step s (with_running (Some {| run_reader := h; run_waker := wk; run_notified := false;
                                       run_waits := []; run_pc := PcCall |}) (with_status h Runnable s))
(** The library call ends the poll; it may have used up what the socket offered,
    and a flush that ends or a failed write notifies both halves. *)
| step_done r (notifies : bool) f s :
    running s = Some r → run_pc r = PcCall → (∀ i, f i = true → avail s i = true) →
    poll_step s (with_running None (with_avail f (if notifies then notify_all s else s)))
(** The library call ends and the poll goes on: a flush that ends notifies both
    halves, and the poll it is part of reads, writes or shuts down next. *)
| step_continue r (notifies : bool) f s :
    running s = Some r → run_pc r = PcCall → (∀ i, f i = true → avail s i = true) →
    poll_step s (with_avail f (if notifies then notify_all s else s))
(** The library call finds the socket blocked. *)
| step_blocked r i f s :
    running s = Some r → run_pc r = PcCall → (∀ j, f j = true → avail s j = true) → f i = false →
    poll_step s (at_pc (PcRegister i) r (with_avail f s))
(** [waiters.register(reader, cx.waker())] *)
| step_register r i s :
    running s = Some r → run_pc r = PcRegister i →
    poll_step s (at_pc (PcReady i) r
      (with_slots (register (run_reader r) (run_waker r) (slots s)) s))
(** [tcp.poll_read_ready(shared)] with cached readiness. *)
| step_ready r i s :
    running s = Some r → run_pc r = PcReady i → ready s i = true →
    poll_step s (at_pc (PcClear i) r s)
(** Without: the shared waker is registered and the poll returns [Pending]. *)
| step_pending r i s :
    running s = Some r → run_pc r = PcReady i → ready s i = false →
    poll_step s (park (waits_for i r) (arm i s))
(** The flush of a read is [Pending]: the read goes on to [SSL_read]. *)
| step_read_on r i s :
    running s = Some r → run_reader r = true → run_pc r = PcReady i → ready s i = false →
    poll_step s (at_pc PcCall (waits_for i r) (arm i s))
(** The readiness poll fails; a failed write notifies both halves. *)
| step_failed r i (notifies : bool) s :
    running s = Some r → run_pc r = PcReady i →
    poll_step s (with_running None (if notifies then notify_all s else s))
(** [try_io(_, || Err(WouldBlock))] clears the cache, and the loop goes on. *)
| step_clear r i s :
    running s = Some r → run_pc r = PcClear i →
    poll_step s (at_pc PcCall r (with_readiness (upd i false (ready s)) (armed s) s)).

(** The reactor's thread. *)
Inductive reactor_step : Sys → Sys → Prop :=
(** The reactor caches the readiness, takes the waker and calls it. *)
| step_dispatch i s :
    event s i = true →
    reactor_step s (with_inflight (inflight s + if armed s i then 1 else 0)
      (with_readiness (upd i true (ready s)) (upd i false (armed s))
        (with_event (upd i false (event s)) s)))
(** [Wake for IoWaiters], on the reactor's thread. *)
| step_wake s n :
    inflight s = S n → reactor_step s (with_inflight n (notify_all s)).

(** The network: bytes arrive, or room for them. *)
Inductive net_step : Sys → Sys → Prop :=
| step_arrive i s :
    net_step s (with_event (upd i true (event s)) (with_avail (upd i true (avail s)) s)).

Definition sys_step (s s' : Sys) : Prop := poll_step s s' ∨ reactor_step s s' ∨ net_step s s'.

(** The reactor has nothing left to do. *)
Definition quiescent (s : Sys) : Prop := (∀ i, event s i = false) ∧ inflight s = 0.

(** A stream that has not been polled, on a socket in any state. *)
Definition initial (s : Sys) : Prop :=
  running s = None ∧ inflight s = 0 ∧ ∀ h, status s h = Runnable.

(** ** The invariant *)

(** What holds of a direction that a waker in slot [h] waits for: the waker is in
    its slot, the shared waker is armed for the direction or being called, and an
    offer of the socket is on its way to the reactor or past it. *)
Definition waiting (s : Sys) (h : bool) (wk : Waker) (i : Interest) : Prop :=
  get_slot h (slots s) = Some wk ∧ (armed s i = true ∨ 0 < inflight s) ∧
  (avail s i = true → event s i = true ∨ 0 < inflight s).

(** A poll that was told the socket is blocked has not missed an offer. *)
Definition offer_seen (s : Sys) (i : Interest) : Prop :=
  avail s i = true → event s i = true ∨ ready s i = true.

(** The running poll: what it waits for is looked after, unless its waker was
    called already; once it has registered, so is its slot. *)
Definition running_ok (s : Sys) (r : Running) : Prop :=
  (run_notified r = true ∨ ∀ i, i ∈ run_waits r → waiting s (run_reader r) (run_waker r) i) ∧
  match run_pc r with
  | PcRegister i => offer_seen s i
  | PcReady i =>
      offer_seen s i ∧
      (run_notified r = true ∨ get_slot (run_reader r) (slots s) = Some (run_waker r))
  | PcCall | PcClear _ => True
  end.

Definition sys_ok (s : Sys) : Prop :=
  (∀ r, running s = Some r → running_ok s r ∧ status s (run_reader r) = Runnable) ∧
  (∀ h wk ws i, status s h = Parked wk ws → i ∈ ws → waiting s h wk i).

Lemma upd_eq {A B} `{EqDecision A} (a : A) (b : B) f : upd a b f a = b.
Proof. unfold upd. by rewrite decide_True. Qed.

Lemma upd_ne {A B} `{EqDecision A} (a a' : A) (b : B) f : a' ≠ a → upd a b f a' = f a'.
Proof. unfold upd. intros. by rewrite decide_False. Qed.

Lemma slot_in_wakers h wk s : get_slot h s = Some wk → wk ∈ slot_wakers s.
Proof. unfold slot_wakers. destruct s as [[] []], h; cbn; intros [= <-]; set_solver. Qed.

(** Notifying leaves nobody asleep whose waker is registered. *)
Lemma notify_parked s h wk ws :
  status (notify_all s) h = Parked wk ws → status s h = Parked wk ws ∧ get_slot h (slots s) ≠ Some wk.
Proof.
  cbn. unfold wake_status. destruct (status s h) as [|wk' ws'] eqn:E; [done|].
  case_bool_decide as Hin; [done|]. intros [= -> ->]. split; [done|].
  intros Hs. by apply Hin, (slot_in_wakers h).
Qed.

Lemma notify_running s r :
  run_notified r = true ∨ get_slot (run_reader r) (slots s) = Some (run_waker r) →
  run_notified (wake_running (slot_wakers (slots s)) r) = true.
Proof.
  cbn. intros [->|Hs]; [done|]. apply orb_true_iff. right. apply bool_decide_eq_true.
  by eapply slot_in_wakers.
Qed.

Lemma notify_ok s n : sys_ok s → sys_ok (with_inflight n (notify_all s)).
Proof.
  intros [Hr Hp]. split.
  - cbn. intros r' Hr'. destruct (running s) as [r|] eqn:Er; [|done]. cbn in Hr'. injection Hr' as <-.
    destruct (Hr r eq_refl) as [[Hw Hok] Hst]. split; [|by cbn; rewrite Hst].
    split; cbn [run_pc wake_running].
    + destruct (run_waits r) as [|i ws] eqn:Ew; [right; cbn; rewrite Ew; by intros ? ?%elem_of_nil|].
      left. apply notify_running. destruct Hw as [?|Hw]; [by left|right].
      destruct (Hw i) as (? & _); [by left|done].
    + destruct (run_pc r) as [|i|i|i]; try done. destruct Hok as [Ha Hs].
      split; [done|]. left. by apply notify_running.
  - intros h wk ws i [Hs Hne]%notify_parked Hi. by destruct (Hp _ _ _ _ Hs Hi).
Qed.

Lemma notify_ok' s : sys_ok s → sys_ok (notify_all s).
Proof.
  intros Hok. assert (notify_all s = with_inflight (inflight s) (notify_all s)) as -> by by destruct s.
  by apply notify_ok.
Qed.

Lemma waiting_mono s s' h wk i :
  (get_slot h (slots s) = Some wk → get_slot h (slots s') = Some wk) →
  (armed s i = true → armed s' i = true) → inflight s ≤ inflight s' →
  (avail s' i = true → avail s i = true) → (event s i = true → event s' i = true) →
  waiting s h wk i → waiting s' h wk i.
Proof.
  intros Hs Ha Hf Hav He (Hs0 & Ha0 & Ho0). split_and!; [auto| |].
  - destruct Ha0; [auto|right; lia].
  - intros Hi%Hav%Ho0. destruct Hi; [auto|right; lia].
Qed.

(** The end of a poll: nothing is running, and what was looked after still is. *)
Lemma sys_ok_done s f :
  sys_ok s → (∀ i, f i = true → avail s i = true) → sys_ok (with_running None (with_avail f s)).
Proof.
  intros [_ Hp] Hf. split; [done|]. intros h wk ws i Hs Hi.
  eapply waiting_mono; [..|by eapply Hp]; auto.
Qed.

Lemma sys_ok_stop s : sys_ok s → sys_ok (with_running None s).
Proof. intros [_ Hp]. by split. Qed.

(** The poll moves on and the other half sees no difference. *)
Lemma sys_ok_move s s' r :
  sys_ok s → running s' = Some r → status s' = status s → status s (run_reader r) = Runnable →
  running_ok s' r →
  (∀ h wk i, h ≠ run_reader r → waiting s h wk i → waiting s' h wk i) →
  sys_ok s'.
Proof.
  intros [_ Hp] Hr Hst Hru Hok Hw. split.
  - intros r' Hr'. rewrite Hr in Hr'. injection Hr' as <-. by rewrite Hst.
  - intros h wk ws i. rewrite Hst. intros Hs Hi. apply Hw; [|by eapply Hp].
    intros ->. by rewrite Hru in Hs.
Qed.

Lemma get_slot_register h h' wk sl :
  h ≠ h' → get_slot h (register h' wk sl) = get_slot h sl.
Proof.
  intros Hne. unfold register. case_match; [done|]. by destruct h, h'.
Qed.

Lemma get_slot_registered h wk sl : get_slot h (register h wk sl) = Some wk.
Proof.
  unfold register. destruct (get_slot h sl) as [old|] eqn:E; [case_bool_decide|]; subst; try done.
  all: by destruct h.
Qed.

Lemma arm_waiting s h wk i j : waiting s h wk i → waiting (arm j s) h wk i.
Proof.
  apply waiting_mono; cbn; auto. intros Ha. unfold upd. by case_decide.
Qed.

(** The poll was told [Pending] for [i]: all it waits for is looked after. *)
Lemma arm_waits s r i :
  running_ok s r → run_pc r = PcReady i → ready s i = false →
  run_notified r = true ∨
  ∀ j, j ∈ run_waits (waits_for i r) → waiting (arm i s) (run_reader r) (run_waker r) j.
Proof.
  intros [Hw Hok] Hpc Hrd. rewrite Hpc in Hok. destruct Hok as [Ho Hs].
  destruct (run_notified r) eqn:En; [by left|right]. destruct Hw as [|Hw]; [done|].
  destruct Hs as [|Hs]; [done|]. cbn. intros j [->|Hj]%elem_of_cons; [|by apply arm_waiting, Hw].
  split_and!; [done|left; apply upd_eq|]. intros [?|?]%Ho; [by left|congruence].
Qed.

(** A running poll is looked after as long as offers and waits are. *)
Lemma running_ok_mono s s' r :
  (∀ i, offer_seen s i → offer_seen s' i) →
  (∀ h wk i, waiting s h wk i → waiting s' h wk i) → slots s' = slots s →
  running_ok s r → running_ok s' r.
Proof.
  intros Ho Hw Hs [Hwa Hro]. split.
  - destruct Hwa as [?|Hwa]; [by left|right]. auto.
  - rewrite Hs. destruct (run_pc r); [done|auto|destruct Hro; auto|done].
Qed.

Lemma sys_ok_mono s s' :
  running s' = running s → status s' = status s → slots s' = slots s →
  (∀ i, offer_seen s i → offer_seen s' i) →
  (∀ h wk i, waiting s h wk i → waiting s' h wk i) → sys_ok s → sys_ok s'.
Proof.
  intros Er Est Esl Ho Hw [Hr Hp]. split.
  - intros r. rewrite Er. intros [Hrun Hst]%Hr. split; [|by rewrite Est].
    by eapply running_ok_mono.
  - intros h wk ws i. rewrite Est. intros Hs Hi. apply Hw. by eapply Hp.
Qed.

(** The socket offers less. *)
Lemma sys_ok_avail s f :
  sys_ok s → (∀ i, f i = true → avail s i = true) → sys_ok (with_avail f s).
Proof.
  intros Hok Hf. apply (sys_ok_mono s); try done.
  - intros i Ho Ha. by apply Ho, Hf.
  - intros h wk i. apply waiting_mono; auto.
Qed.

Lemma poll_step_ok s s' : poll_step s s' → sys_ok s → sys_ok s'.
Proof.
  intros Hstep Hok. pose proof Hok as [Hr Hp].
  destruct Hstep as [h wk s Hn|r notifies f s Er Hpc Hf|r notifies f s Er Hpc Hf|r i f s Er Hpc Hf Hfi|r i s Er Hpc|r i s Er Hpc Hrd
    |r i s Er Hpc Hrd|r i s Er Hh Hpc Hrd|r i notifies s Er Hpc|r i s Er Hpc];
    try (destruct (Hr r Er) as [Hrun Hst]; pose proof Hrun as [Hw Hro]; rewrite Hpc in Hro).
  - split.
    + intros r' [= <-]. cbn. split; [|apply upd_eq]. split; [right; set_solver|done].
    + intros h' wk' ws i Hs Hi. cbn in Hs. unfold upd in Hs. case_decide; [done|].
      by eapply (Hp h').
  - destruct notifies; [|by apply sys_ok_done]. apply sys_ok_done; [by apply notify_ok'|done].
  - destruct notifies; [|by apply sys_ok_avail]. apply sys_ok_avail; [by apply notify_ok'|done].
  - eapply (sys_ok_move s); [done|reflexivity|done|done| |].
    + split; [|intros Ha; cbn in Ha; congruence]. cbn.
      destruct Hw as [?|Hw]; [by left|right]. intros j Hj.
      eapply waiting_mono; [..|by apply Hw]; auto.
    + intros h wk j _. apply waiting_mono; auto.
  - eapply (sys_ok_move s); [done|reflexivity|done|done| |].
    + split; cbn; [|split; [done|right; apply get_slot_registered]].
      destruct Hw as [?|Hw]; [by left|right]. intros j Hj.
      eapply waiting_mono; [..|by apply Hw]; auto. intros _. apply get_slot_registered.
    + intros h wk j Hne. apply waiting_mono; auto. cbn. by rewrite get_slot_register.
  - eapply (sys_ok_move s); [done|reflexivity|done|done|by split|done].
  - pose proof (arm_waits s r i Hrun Hpc Hrd) as Hwa.
    split; [done|]. intros h wk ws j Hs Hj. cbn in Hs. unfold upd in Hs. case_decide as Hd.
    + subst h. destruct (run_notified r); [done|]. injection Hs as <- <-.
      destruct Hwa as [|Hwa]; [done|]. by apply (Hwa j).
    + eapply arm_waiting. by eapply Hp.
  - pose proof (arm_waits s r i Hrun Hpc Hrd) as Hwa.
    eapply (sys_ok_move s); [done|reflexivity|done|done|by split|].
    intros h wk j _. apply arm_waiting.
  - destruct notifies; apply sys_ok_stop; [by apply notify_ok'|done].
  - eapply (sys_ok_move s); [done|reflexivity|done|done|by split|done].
Qed.

Lemma waiting_dispatch s h wk i j :
  event s j = true → waiting s h wk i →
  waiting (with_inflight (inflight s + if armed s j then 1 else 0)
            (with_readiness (upd j true (ready s)) (upd j false (armed s))
              (with_event (upd j false (event s)) s))) h wk i.
Proof.
  intros He (Hs & Ha & Ho). split_and!; [done|cbn..]; unfold upd; case_decide; subst.
  - right. destruct Ha as [->|?]; lia.
  - destruct Ha; [by left|right; lia].
  - intros _. right. destruct Ha as [->|?]; lia.
  - intros [?|?]%Ho; [by left|right; lia].
Qed.

Lemma reactor_step_ok s s' : reactor_step s s' → sys_ok s → sys_ok s'.
Proof.
  intros [j s0 He|s0 n Hf] Hok; [|by apply notify_ok].
  apply (sys_ok_mono s0); try done; [|intros h wk i; by apply waiting_dispatch].
  intros i Ho. unfold offer_seen, upd. cbn. case_decide; auto.
Qed.

Lemma net_step_ok s s' : net_step s s' → sys_ok s → sys_ok s'.
Proof.
  intros [j s0] Hok. apply (sys_ok_mono s0); try done.
  - intros i Ho. unfold offer_seen, upd. cbn. case_decide; auto.
  - intros h wk i (Hs & Ha & Ho). split_and!; [done..|]. cbn. unfold upd. case_decide; auto.
Qed.

Lemma initial_ok s : initial s → sys_ok s.
Proof. intros (Hr & _ & Hs). split; [by rewrite Hr|]. intros h wk ws i. by rewrite Hs. Qed.

Lemma sys_step_ok s s' : sys_step s s' → sys_ok s → sys_ok s'.
Proof. intros [?|[?|?]]; [by eapply poll_step_ok|by eapply reactor_step_ok|by eapply net_step_ok]. Qed.

Lemma reachable_ok s0 s : initial s0 → rtc sys_step s0 s → sys_ok s.
Proof.
  intros Hi%initial_ok Hs. induction Hs as [|s1 s2 s3 Hst _ IH]; [done|]. apply IH.
  by eapply sys_step_ok.
Qed.

(** ** What the reactor does with an offer *)

(** The work that is left to the reactor. *)
Definition pending_work (s : Sys) : nat :=
  2 * (Nat.b2n (event s READABLE) + Nat.b2n (event s WRITABLE)) + inflight s.

Lemma reactor_step_work s s' : reactor_step s s' → pending_work s' < pending_work s.
Proof.
  unfold pending_work. intros [i s0 He|s0 n Hf]; [|cbn -[Nat.mul]; lia].
  cbn -[Nat.mul]. destruct i; rewrite upd_eq, upd_ne, He by done; destruct (armed s0 _);
    cbn [Nat.b2n]; lia.
Qed.

Lemma reactor_ends s : sn reactor_step s.
Proof.
  induction s as [s IH] using (induction_ltof1 _ pending_work).
  constructor. intros s' Hs. by apply IH, reactor_step_work.
Qed.

Lemma nf_quiescent s : nf reactor_step s → quiescent s.
Proof.
  intros Hn. split.
  - intros i. apply not_true_is_false. intros He. apply Hn. eexists. by apply step_dispatch.
  - destruct (inflight s) as [|n] eqn:E; [done|]. destruct Hn. eexists. by apply step_wake.
Qed.

(** The reactor does not take back an offer, and puts nobody to sleep. *)
Lemma reactor_step_keeps s s' :
  reactor_step s s' → avail s' = avail s ∧ ∀ h, status s' h = Runnable ∨ status s' h = status s h.
Proof.
  intros [i s0 He|s0 n Hf]; split; try done; intros h; [by right|cbn].
  destruct (status s0 h); cbn; [by left|]. case_bool_decide; auto.
Qed.

Lemma reactor_keeps s s' :
  rtc reactor_step s s' → avail s' = avail s ∧ ∀ h, status s' h = Runnable ∨ status s' h = status s h.
Proof.
  induction 1 as [|s1 s2 s3 H _ [IHa IHs]]; [auto|]. apply reactor_step_keeps in H as [Ha Hs].
  split; [congruence|]. intros h. destruct (IHs h) as [|E]; [auto|]. rewrite E. auto.
Qed.

Lemma reactor_ok s s' : rtc reactor_step s s' → sys_ok s → sys_ok s'.
Proof. induction 1; [done|]. eauto using reactor_step_ok. Qed.

(** In a good state where the reactor is idle, sleepers have nothing to do. *)
Lemma quiescent_parked s h wk ws i :
  sys_ok s → nf reactor_step s → status s h = Parked wk ws → i ∈ ws →
  avail s i = false ∧ armed s i = true.
Proof.
  intros [_ Hp] [He Hf]%nf_quiescent Hs Hi. destruct (Hp _ _ _ _ Hs Hi) as (_ & Ha & Ho). split.
  - apply not_true_is_false. intros [E|?]%Ho; [by rewrite He in E|lia].
  - destruct Ha; [done|lia].
Qed.

(** While a half sleeps, what it waits for is looked after. *)
Lemma parked_looked_after s h wk ws i :
  sys_ok s → status s h = Parked wk ws → i ∈ ws →
  get_slot h (slots s) = Some wk ∧
  (nf reactor_step s → avail s i = false ∧ armed s i = true) ∧
  (avail s i = true → sn reactor_step s ∧
   ∀ s', rtc reactor_step s s' → nf reactor_step s' → status s' h = Runnable).
Proof.
  intros Hok Hs Hin. split_and!.
  - destruct Hok as [_ Hp]. by destruct (Hp _ _ _ _ Hs Hin).
  - intros Hn. by eapply quiescent_parked.
  - intros Ha. split; [apply reactor_ends|]. intros s' Hr Hn.
    pose proof (reactor_keeps _ _ Hr) as [Hav Hst]. destruct (Hst h) as [|Hst']; [done|].
    rewrite Hs in Hst'. destruct (quiescent_parked s' h wk ws i) as [Hf _]; try done.
    + by eapply reactor_ok.
    + congruence.
Qed.

(** C5. No wakeup is lost on the libssl path, whatever the interleaving of the two
    halves' polls with the reactor's thread and the network.  While a half sleeps
    for a direction of the socket, its waker is in its slot of [IoWaiters].  If the
    reactor has nothing to do, the direction is blocked and the shared waker is
    armed for it; and once the socket makes progress possible in that direction
    the reactor, which always comes to rest, leaves the half runnable: also when
    it is the other half that armed the socket last, or that direction is not the
    half's own. *)
Theorem no_lost_wakeup (s0 s : Sys) (h : bool) (wk : Waker) (ws : list Interest) (i : Interest) :
  initial s0 → rtc sys_step s0 s → status s h = Parked wk ws → i ∈ ws →
  get_slot h (slots s) = Some wk ∧
  (nf reactor_step s → avail s i = false ∧ armed s i = true) ∧
  (avail s i = true → sn reactor_step s ∧
   ∀ s', rtc reactor_step s s' → nf reactor_step s' → status s' h = Runnable).
Proof. intros Hi Hrun. by apply parked_looked_after, (reachable_ok s0). Qed.

(** The writer of a fresh stream needs to read, as in a renegotiation: it sleeps,
    the reader sleeps too, and then bytes arrive. *)
Definition idle_sys : Sys :=
  {| slots := IoWaiters_default; status := λ _, Runnable; running := None; avail := λ _, false;
     event := λ _, false; ready := λ _, false; armed := λ _, false; inflight := 0 |}.

Lemma sleeps s h wk i :
  running s = None → avail s i = false → ready s i = false →
  ∃ s', rtc sys_step s s' ∧ status s' h = Parked wk [i] ∧
    (∀ h', h' ≠ h → status s' h' = status s h') ∧
    running s' = None ∧ avail s' = avail s ∧ ready s' = ready s.
Proof.
  intros Hr Ha Hrd. eexists. split.
  - eapply rtc_l; [left; by apply (step_poll h wk)|].
    eapply rtc_l; [left; by eapply (step_blocked _ i (avail s))|].
    eapply rtc_l; [left; by eapply step_register|].
    eapply rtc_l; [left; by eapply step_pending|]. apply rtc_refl.
  - cbn. split_and!; try done; [apply upd_eq|]. intros h' Hne. by rewrite !upd_ne.
Qed.

Lemma no_lost_wakeup_witness :
  ∃ s, rtc sys_step idle_sys s ∧ avail s READABLE = true ∧
    status s false = Parked (TaskWaker 1) [READABLE] ∧
    status s true = Parked (TaskWaker 2) [READABLE] ∧
    ∀ s', rtc reactor_step s s' → nf reactor_step s' → status s' false = Runnable.
Proof.
  destruct (sleeps idle_sys false (TaskWaker 1) READABLE) as (s1 & R1 & W1 & _ & N1 & A1 & D1);
    [done..|].
  destruct (sleeps s1 true (TaskWaker 2) READABLE) as (s2 & R2 & W2 & O2 & _);
    [done|by rewrite A1|by rewrite D1|].
  pose (s3 := with_event (upd READABLE true (event s2)) (with_avail (upd READABLE true (avail s2)) s2)).
  assert (rtc sys_step idle_sys s3) as R3.
  { etrans; [exact R1|]. etrans; [exact R2|]. apply rtc_once. right. right. apply step_arrive. }
  assert (status s3 false = Parked (TaskWaker 1) [READABLE]) as W3.
  { cbn. rewrite O2 by done. exact W1. }
  exists s3. split_and!; [exact R3|apply upd_eq|exact W3|exact W2|].
  apply (no_lost_wakeup idle_sys s3 false (TaskWaker 1) [READABLE] READABLE);
    [by split_and!|exact R3|exact W3|by left|apply upd_eq].
Defined.
