(* ===== verification/StreamSpec.v ===== *)
(** * The established stream: specification and proofs

    The write path as a queue of accepted bytes, the write half's life cycle,
    the shared wakers, and the bound on the unbounded loops. *)

From S2P Require Import Prelude Std Env Sim Errors Alpn Suites Session RecordIo RecordSpec CryptoInfo Install Stream.

Local Open Scope Z_scope.

(** ** Wakers *)

Definition slot (reader : bool) (t : TlsStream) : option Waker :=
  waiters t ≫= get_slot reader.

Lemma get_register reader wk s : get_slot reader (register reader wk s) = Some wk.
Proof.
  unfold register. destruct (get_slot reader s) as [old|] eqn:E.
  - case_bool_decide; [by subst|]. by destruct reader.
  - by destruct reader.
Qed.

Lemma get_register_other reader wk s :
  get_slot (negb reader) (register reader wk s) = get_slot (negb reader) s.
Proof. unfold register. case_match; [done|]. by destruct reader. Qed.

Section rel.
Context {W : Type} `{NetView W, !Strerror}.
Implicit Types (t : TlsStream) (w : W) (s : TlsStream * W).

(** How an operation of one half moves the wakers: what is woken is appended to
    the log, and a waker that was registered is still registered, was woken, or
    (for this half only) gave way to the waker of the current poll. *)
Definition wakers_kept (reader : bool) (cx : Waker) s s' : Prop :=
  ∃ ks, v_woken (view s'.2) = v_woken (view s.2) ++ ks ∧
    ∀ b wk, slot b s.1 = Some wk →
      slot b s'.1 = Some wk ∨ wk ∈ ks ∨ (b = reader ∧ (slot b s'.1 = Some cx ∨ cx ∈ ks)).

#[global] Instance wakers_kept_preorder reader cx : PreOrder (wakers_kept reader cx).
Proof.
  split.
  - intros s. exists []. rewrite app_nil_r. auto.
  - intros s1 s2 s3 (k1 & E1 & H12) (k2 & E2 & H23). exists (k1 ++ k2).
    rewrite E2, E1, app_assoc. split; [done|]. intros b wk Hs. rewrite !elem_of_app.
    destruct (H12 b wk Hs) as [Hk|[?|[-> [Hk|?]]]];
      try apply H23 in Hk; tauto.
Qed.

(** What the write path never touches. *)
Definition static_same s s' : Prop :=
  ktls_active s'.1 = ktls_active s.1 ∧ ktls_disabled s'.1 = ktls_disabled s.1 ∧
  ktls_reader s'.1 = ktls_reader s.1 ∧
  v_raw (view s'.2) = v_raw (view s.2) ∧ rx_view (view s'.2) = rx_view (view s.2) ∧
  v_opts (view s'.2) = v_opts (view s.2).

#[global] Instance static_same_preorder : PreOrder static_same.
Proof.
  split; [by intros s|]. intros s1 s2 s3 (?&?&?&?&?&?) (?&?&?&?&?&?). repeat split; congruence.
Qed.

(** The two together: every operation of the libssl path is such a step. *)
Definition quiet (reader : bool) (cx : Waker) s s' : Prop :=
  static_same s s' ∧ wakers_kept reader cx s s'.

#[global] Instance quiet_preorder reader cx : PreOrder (quiet reader cx).
Proof.
  split; [by intros s; split|]. intros s1 s2 s3 [? ?] [? ?]. split; by etrans.
Qed.

(** A step that leaves the slots and the log of woken tasks alone. *)
Lemma quiet_intro reader cx s s' :
  static_same s s' → waiters s'.1 = waiters s.1 → v_woken (view s'.2) = v_woken (view s.2) →
  quiet reader cx s s'.
Proof.
  intros Hs Hw Hv. split; [done|]. exists []. rewrite Hv, app_nil_r. split; [done|].
  intros b wk. unfold slot. rewrite Hw. auto.
Qed.

(** The fields that the wakers' operations leave alone. *)
Definition except_waiters t t' : Prop := t' = with_waiters (waiters t') t.

Lemma except_waiters_intro ws t : except_waiters t (with_waiters ws t).
Proof. done. Qed.

Lemma wp_wake_all ws (Q : unit → W → Prop) w :
  (∀ w' ks, view w' = foldl (λ v k, v_add_woken k v) (view w) ks →
     (∀ b wk, get_slot b ws = Some wk → wk ∈ ks) → Q tt w') →
  wp (wake_all ws) Q w.
Proof.
  intros HQ. unfold wake_all.
  destruct ws as [[a|] [b|]]; simpl; do 2 wp_step; try wp_step.
  - apply (HQ _ [a; b]); [by simpl; rewrite !view_wake|]. intros [] wk [= <-]; set_solver.
  - apply (HQ _ [a]); [by simpl; rewrite !view_wake|]. intros [] wk [= <-]; set_solver.
  - apply (HQ _ [b]); [by simpl; rewrite !view_wake|]. intros [] wk [= <-]; set_solver.
  - apply (HQ _ []); [done|]. by intros [] wk ?.
Qed.

Lemma foldl_woken ks v :
  foldl (λ v k, v_add_woken k v) v ks =
    {| v_sent := v_sent v; v_blocked := v_blocked v; v_raw := v_raw v; v_rx := v_rx v;
       v_closes := v_closes v; v_woken := v_woken v ++ ks; v_opts := v_opts v;
       v_read := v_read v; v_zero := v_zero v |}.
Proof.
  revert v. induction ks as [|k ks IH]; intros v; simpl.
  - rewrite app_nil_r. by destruct v.
  - rewrite IH. simpl. by rewrite <- app_assoc.
Qed.

(** What the wakers cannot change about the write side. *)
Definition tx_view (v : View) : list byte * option (list byte) * nat :=
  (v_sent v, v_blocked v, v_closes v).

Lemma wp_notify reader cx (Q : unit → TlsStream * W → Prop) s :
  (∀ s', except_waiters s.1 s'.1 → tx_view (view s'.2) = tx_view (view s.2) →
     quiet reader cx s s' → Q tt s') →
  wp notify Q s.
Proof.
  intros HQ. destruct s as [t w]. unfold notify. do 2 wp_step. cbn [fst].
  destruct (waiters t) as [ws|] eqn:Ew.
  - do 2 wp_step. cbn [fst snd]. apply wp_lift. cbn [fst snd]. apply wp_wake_all.
    intros w' ks Hv Hks. rewrite foldl_woken in Hv.
    apply HQ; cbn [fst snd]; [done|by rewrite Hv|].
    split; [by unfold static_same; cbn [fst snd]; rewrite Hv|].
    exists ks. cbn [fst snd]. rewrite Hv. split; [done|].
    intros b wk. unfold slot at 1. rewrite Ew. simpl. intros Hs. right. left. by eapply Hks.
  - wp_step. apply HQ; try done. unfold except_waiters. destruct t. simpl in *. by subst.
Qed.

(** ** Waiting for the socket *)

(** The shared waker is registered with the socket for what the library asked
    for. *)
Definition socket_armed w : Prop :=
  ∃ w0, poll_read_ready SharedWaker w0 = (Pending, w) ∨ poll_write_ready SharedWaker w0 = (Pending, w).

Lemma wp_try_would_block i (Q : io_result unit → W → Prop) w :
  (∀ w', view w' = view w → Q (Err (Simple WouldBlock)) w') → wp (try_io i would_block) Q w.
Proof.
  intros HQ. unfold wp. rewrite try_io_spec. unfold would_block, mret, M_ret.
  destruct (io_ready i w); apply HQ; [|done]. apply view_clear_ready.
Qed.

Lemma wp_poll_clear_read_ready (Q : poll (io_result unit) → W → Prop) w :
  (∀ p w', view w' = view w → (p = Pending → socket_armed w') → Q p w') →
  wp (poll_clear_read_ready SharedWaker) Q w.
Proof.
  intros HQ. unfold poll_clear_read_ready. do 2 wp_step.
  match goal with E : poll_read_ready _ _ = _ |- _ => rename E into Ep end.
  pose proof (view_poll_read_ready SharedWaker w) as Hv. rewrite Ep in Hv. simpl in Hv.
  destruct a as [[]|].
  - wp_step. apply wp_try_would_block. intros w' Hv'. wp_step. apply HQ; [congruence|done].
  - wp_step. by apply HQ.
  - wp_step. apply HQ; [done|]. intros _. exists w. by left.
Qed.

Lemma wp_poll_clear_write_ready (Q : poll (io_result unit) → W → Prop) w :
  (∀ p w', view w' = view w → (p = Pending → socket_armed w') → Q p w') →
  wp (poll_clear_write_ready SharedWaker) Q w.
Proof.
  intros HQ. unfold poll_clear_write_ready. do 2 wp_step.
  match goal with E : poll_write_ready _ _ = _ |- _ => rename E into Ep end.
  pose proof (view_poll_write_ready SharedWaker w) as Hv. rewrite Ep in Hv. simpl in Hv.
  destruct a as [[]|].
  - wp_step. apply wp_try_would_block. intros w' Hv'. wp_step. apply HQ; [congruence|done].
  - wp_step. by apply HQ.
  - wp_step. apply HQ; [done|]. intros _. exists w. by right.
Qed.

Lemma quiet_register reader cx t w w' :
  view w' = view w →
  quiet reader cx (t, w)
    (with_waiters (Some (register reader cx (default IoWaiters_default (waiters t)))) t, w').
Proof.
  intros Hv. split; [by unfold static_same; cbn [fst snd]; rewrite Hv|].
  exists []. cbn [fst snd]. rewrite Hv, app_nil_r. split; [done|]. intros b wk Hs.
  unfold slot in *. cbn [waiters with_waiters]. destruct (waiters t) as [ws|]; [|done].
  simpl in *. destruct (decide (b = reader)) as [->|Hb].
  - right. right. rewrite get_register. auto.
  - left. assert (b = negb reader) as -> by by destruct b, reader.
    by rewrite get_register_other.
Qed.

Lemma wp_poll_ssl_ready code reader cx (Q : poll (io_result unit) → TlsStream * W → Prop) s :
  (∀ p s', except_waiters s.1 s'.1 → view s'.2 = view s.2 → quiet reader cx s s' →
     (p = Pending → slot reader s'.1 = Some cx ∧ socket_armed s'.2) → Q p s') →
  wp (poll_ssl_ready code cx reader) Q s.
Proof.
  intros HQ. destruct s as [t w]. unfold poll_ssl_ready. do 4 wp_step. cbn [fst snd].
  destruct (code =? SSL_ERROR_WANT_READ); wp_step; cbn [fst snd].
  1: apply wp_poll_clear_read_ready. 2: apply wp_poll_clear_write_ready.
  all: intros p w' Hv Hp; apply HQ; try done; [by apply quiet_register|].
  all: intros Hpe; split; [|by apply Hp].
  all: unfold slot; cbn [fst waiters with_waiters]; simpl; by rewrite get_register.
Qed.

Lemma wp_ssl_io_error op code (Q : io_error → W → Prop) w :
  (∀ e w', view w' = view w → Q e w') → wp (ssl_io_error op code) Q w.
Proof.
  intros HQ. unfold ssl_io_error. do 5 wp_step. apply wp_last_error.
  all: intros text; pose proof (view_get_error w) as Hg.
  2: pose proof (view_clear_error (ERR_get_error w).2) as Hc; rewrite Hg in Hc.
  all: repeat wp_step; by apply HQ.
Qed.

Lemma duplicate_io_error_same e : same_error (duplicate_io_error e) e.
Proof. by destruct e. Qed.

(** [write_failure] remembers the error; both halves learn of it. *)
Lemma wp_fail_write {A} reader cx e (Q : poll (io_result A) → TlsStream * W → Prop) s :
  (∀ s', except_waiters (with_write_error (duplicate_io_error e) s.1) s'.1 →
     tx_view (view s'.2) = tx_view (view s.2) → quiet reader cx s s' → Q (Ready (Err e)) s') →
  wp (fail_write e) Q s.
Proof.
  intros HQ. unfold fail_write, write_failure. do 4 wp_step.
  apply (wp_notify reader cx). intros s' He Hv Hq. do 2 wp_step. apply HQ; try done.
Qed.

(** ** The write path

    The bytes the stream has taken from its caller and owes the library: those
    [SSL_write] accepted, then the chunk it holds back. *)
Definition queued s : list byte := v_sent (view s.2) ++ pending_write s.1.

(** The representation invariant: at most one record is held back, never on
    the kernel path, and as long as no write failed it is exactly the buffer
    the library insists on being retried with. *)
Definition write_ok s : Prop :=
  len (pending_write s.1) ≤ MAX_PLAINTEXT ∧
  (ktls_active s.1 = true → pending_write s.1 = []) ∧
  (write_error s.1 = None →
   v_blocked (view s.2) =
     if is_empty (pending_write s.1) then None else Some (pending_write s.1)).

(** Which half of the stream an operation leaves as it was, and how a poll that
    may have to flush ends. *)
Definition flush_result {A} (reader : bool) (cx : Waker) (p : poll (io_result A)) s' : Prop :=
  match p with
  | Ready (Ok _) => pending_write s'.1 = [] ∧ write_error s'.1 = None
  | Ready (Err e) => ∃ e0, write_error s'.1 = Some e0 ∧ same_error e0 e
  | Pending => write_error s'.1 = None ∧ slot reader s'.1 = Some cx ∧ socket_armed s'.2
  end.

Definition flush_post (reader : bool) (cx : Waker) s (p : poll (io_result unit)) s' : Prop :=
  quiet reader cx s s' ∧ write_ok s' ∧ queued s' = queued s ∧
  shutdown s'.1 = shutdown s.1 ∧ v_closes (view s'.2) = v_closes (view s.2) ∧
  flush_result reader cx p s'.

Lemma except_waiters_fields t t' :
  except_waiters t t' →
  pending_write t' = pending_write t ∧ write_error t' = write_error t ∧
  shutdown t' = shutdown t ∧ ktls_active t' = ktls_active t.
Proof. unfold except_waiters. destruct t, t'. simpl. by intros [=]. Qed.

(** A step that only moves wakers. *)
Lemma write_ok_waiters s s' :
  except_waiters s.1 s'.1 → tx_view (view s'.2) = tx_view (view s.2) →
  write_ok s → write_ok s' ∧ queued s' = queued s.
Proof.
  intros (Ep & Ee & _ & Ea)%except_waiters_fields [= Hs Hb _] Hok.
  unfold write_ok, queued. by rewrite Ep, Ee, Ea, Hb, Hs.
Qed.

(** A failed write. *)
Lemma write_ok_failed e s s' :
  except_waiters (with_write_error e s.1) s'.1 → tx_view (view s'.2) = tx_view (view s.2) →
  write_ok s → write_ok s' ∧ queued s' = queued s ∧ write_error s'.1 = Some e ∧
    shutdown s'.1 = shutdown s.1 ∧ v_closes (view s'.2) = v_closes (view s.2).
Proof.
  intros (Ep & Ee & Es & Ea)%except_waiters_fields [= Hs Hb Hc] (Hl & Ha & _).
  unfold write_ok, queued. simpl in *. by rewrite Ep, Ee, Ea, Es, Hs, Hc.
Qed.

Lemma flush_post_trans reader cx s1 s2 p s3 :
  quiet reader cx s1 s2 → queued s2 = queued s1 → shutdown s2.1 = shutdown s1.1 →
  v_closes (view s2.2) = v_closes (view s1.2) →
  flush_post reader cx s2 p s3 → flush_post reader cx s1 p s3.
Proof.
  intros Hq Hqu Hs Hc (? & ? & ? & ? & ? & ?). unfold flush_post.
  split; [by etrans|]. rewrite <- Hqu, <- Hs, <- Hc. done.
Qed.

Lemma wp_fail_flush reader cx e s :
  write_ok s → wp (fail_write e) (flush_post reader cx s) s.
Proof.
  intros Hok. apply (wp_fail_write reader cx). intros s' He Hv Hq.
  destruct (write_ok_failed _ _ _ He Hv Hok) as (? & ? & Hw & ? & ?).
  split_and!; try done; [apply Hq..|]. eexists. split; [done|]. apply duplicate_io_error_same.
Qed.

Lemma v_with_write_same v : v_with_write (v_sent v) (v_blocked v) v = v.
Proof. by destruct v. Qed.

(** The retry of the chunk that is held back: it goes out whole or nothing
    changes. *)
Lemma retry_write t w n w' :
  write_ok (t, w) → write_error t = None → pending_write t ≠ [] →
  SSL_write (pending_write t) w = (n, w') →
  if 0 <? n then
    n = len (pending_write t) ∧ view w' = v_with_write (queued (t, w)) None (view w)
  else view w' = view w.
Proof.
  intros (_ & _ & Hb) He Hne E. specialize (Hb He). cbn [fst snd] in Hb.
  apply is_empty_false in Hne. rewrite Hne in Hb.
  pose proof (view_SSL_write _ _ _ _ E (or_intror Hb)) as Hv.
  destruct (0 <? n); [done|]. rewrite Hv.
  destruct (wants_io (SSL_get_error n w')); rewrite <- ?Hb; apply v_with_write_same.
Qed.

Lemma pending_fits t w :
  write_ok (t, w) → try_from_max c_int_max (len (pending_write t)) = Some (len (pending_write t)).
Proof.
  intros (Hl & _ & _). unfold try_from_max, c_int_max. unfold MAX_PLAINTEXT in Hl. cbn [fst] in Hl.
  destruct (Z.leb_spec (len (pending_write t)) (2 ^ 31 - 1)); [done|lia].
Qed.

Lemma len_pos {A} (l : list A) : l ≠ [] → 0 < len l.
Proof. unfold len. destruct l; simpl; [done|lia]. Qed.

(** A step of the world that does not show. *)
Lemma quiet_view reader cx t w w1 : view w1 = view w → quiet reader cx (t, w) (t, w1).
Proof. intros Hv. apply quiet_intro; unfold static_same; cbn [fst snd]; by rewrite ?Hv. Qed.

Lemma write_ok_view t w w1 : view w1 = view w → write_ok (t, w) → write_ok (t, w1).
Proof. intros Hv. unfold write_ok. cbn [fst snd]. by rewrite Hv. Qed.

Lemma flush_post_view reader cx t w w1 p s :
  view w1 = view w → flush_post reader cx (t, w1) p s → flush_post reader cx (t, w) p s.
Proof.
  intros Hv. apply flush_post_trans; cbn [fst snd]; try done; try (by rewrite Hv).
  - by apply quiet_view.
  - unfold queued. cbn [fst snd]. by rewrite Hv.
Qed.

(** The wait after the library asked to be retried, and what follows it. *)
Lemma wp_flush_wait code reader cx s (k : M (TlsStream * W) (poll (io_result unit))) :
  write_ok s → write_error s.1 = None →
  (∀ s', write_ok s' → write_error s'.1 = None → wp k (flush_post reader cx s') s') →
  wp (let* r := poll_ssl_ready code cx reader in
      match r with
      | Pending => mret Pending
      | Ready (Err error) => fail_write error
      | Ready (Ok _) => k
      end) (flush_post reader cx s) s.
Proof.
  intros Hok He Hk. wp_step. apply wp_poll_ssl_ready. intros p s2 Hew Hv2 Hq2 Hp.
  destruct (write_ok_waiters s s2) as [Hok2 Hqu2]; [done|by rewrite Hv2|done|].
  destruct (except_waiters_fields _ _ Hew) as (Ep & Ee & Es & Ea).
  assert (∀ q s3, flush_post reader cx s2 q s3 → flush_post reader cx s q s3) as Hgo.
  { intros q s3. apply flush_post_trans; try done. by rewrite Hv2. }
  destruct p as [[[]|e]|].
  - eapply wp_mono; [apply Hk; [done|congruence]|]. apply Hgo.
  - eapply wp_mono; [by apply wp_fail_flush|]. apply Hgo.
  - wp_step. apply Hgo. destruct (Hp eq_refl).
    split_and!; try done. split; [congruence|done].
Qed.

(** The library took the chunk. *)
Lemma wp_flush_sent reader cx t w w1 :
  write_ok (t, w) → write_error t = None →
  view w1 = v_with_write (queued (t, w)) None (view w) →
  wp (do* modify_self (with_pending []) ; do* notify ; mret (Ready (Ok tt)))
     (flush_post reader cx (t, w)) (t, w1).
Proof.
  intros (Hl & Ha & Hb) He Hv. do 3 wp_step. cbn [fst snd].
  apply (wp_notify reader cx). intros s' Hew Htx Hq. wp_step.
  destruct (except_waiters_fields _ _ Hew) as (Ep & Ee & Es & Ea). cbn [fst snd] in *. simpl in *.
  rewrite Hv in Htx. injection Htx as Hs Hbl Hc.
  unfold flush_post, flush_result, write_ok.
  replace (queued s') with (queued (t, w)) by (unfold queued at 2; by rewrite Ep, Hs, app_nil_r).
  rewrite Ep, Ee, Ea, Hbl, Es, Hc. simpl. split_and!; try done.
  etrans; [|exact Hq]. apply quiet_intro; unfold static_same; cbn [fst snd]; by rewrite ?Hv.
Qed.

Lemma wp_pending_write_loop fuel reader cx s :
  write_ok s → write_error s.1 = None →
  wp (pending_write_loop fuel cx reader) (flush_post reader cx s) s.
Proof.
  revert s. induction fuel as [|fuel IH]; intros [t w] Hok He; [done|].
  cbn [pending_write_loop]. do 2 wp_step. cbn [fst snd] in *.
  destruct (is_empty (pending_write t)) eqn:Em.
  { wp_step. apply is_empty_true in Em. split_and!; done || apply quiet_preorder. }
  rewrite (pending_fits t w) by done. apply is_empty_false in Em as Hne.
  apply len_pos in Hne as Hlp. do 3 wp_step. cbn [fst snd] in *.
  match goal with E : SSL_write _ _ = (?x, ?y) |- _ => rename x into n, y into w1, E into Ew end.
  pose proof (retry_write _ _ _ _ Hok He Hne Ew) as Hv.
  destruct (Z.ltb_spec 0 n) as [Hn|Hn].
  { destruct Hv as [-> Hv]. rewrite Z.eqb_refl. by apply wp_flush_sent. }
  destruct (Z.eqb_spec n (len (pending_write t))); [lia|]. do 3 wp_step. cbn [fst snd].
  pose proof (write_ok_view _ _ _ Hv Hok) as Hok1.
  destruct (wants_io (SSL_get_error n w1)).
  - eapply wp_mono; [by apply wp_flush_wait; [| |intros; apply IH]|].
    intros p s. by apply flush_post_view.
  - do 2 wp_step. cbn [fst snd]. apply wp_ssl_io_error. intros e w2 Hv2.
    eapply wp_mono; [by eapply (wp_fail_flush reader cx), write_ok_view|].
    intros p s. apply flush_post_view. congruence.
Qed.

Lemma wp_poll_pending_write fuel reader cx s :
  write_ok s → wp (poll_pending_write fuel cx reader) (flush_post reader cx s) s.
Proof.
  intros Hok. unfold poll_pending_write. do 2 wp_step.
  destruct (write_error s.1) as [e|] eqn:He; [|by apply wp_pending_write_loop].
  wp_step. split_and!; try done. exists e. split; [done|].
  symmetry. apply duplicate_io_error_same.
Qed.

(** ** The four operations

    The bytes taken from the caller, on either data path. *)
Definition taken s : list byte :=
  if ktls_active s.1 then v_raw (view s.2) else queued s.

Definition closed t : nat := if decide (shutdown t = ShutClosed) then 1 else 0.

Definition rank (sh : Shutdown) : nat :=
  match sh with ShutOpen => 0 | ShutSending => 1 | ShutClosed => 2 end.

(** The write half only moves towards closed, and sends [close_notify] exactly
    when it gets there. *)
Definition lifecycle s s' : Prop :=
  (v_closes (view s'.2) + closed s.1 = v_closes (view s.2) + closed s'.1)%nat ∧
  (rank (shutdown s.1) ≤ rank (shutdown s'.1))%nat.

#[global] Instance lifecycle_preorder : PreOrder lifecycle.
Proof. split; [by intros s; split|]. intros s1 s2 s3 [? ?] [? ?]. split; lia. Qed.

Lemma lifecycle_same s s' :
  shutdown s'.1 = shutdown s.1 → v_closes (view s'.2) = v_closes (view s.2) → lifecycle s s'.
Proof. unfold lifecycle, closed. by intros -> ->. Qed.

(** What every operation guarantees; [bytes] is what it takes from its caller. *)
Definition op_ok (reader : bool) (cx : Waker) s (bytes : list byte) s' : Prop :=
  write_ok s' ∧ ktls_active s'.1 = ktls_active s.1 ∧ lifecycle s s' ∧
  wakers_kept reader cx s s' ∧ reader_ok (ktls_reader s'.1) ∧ taken s' = taken s ++ bytes.

Lemma quiet_taken reader cx s s' : quiet reader cx s s' → queued s' = queued s → taken s' = taken s.
Proof. intros [(Ha & _ & _ & Hr & _) _] Hq. unfold taken. by rewrite Ha, Hr, Hq. Qed.

Lemma op_ok_quiet reader cx s s' :
  quiet reader cx s s' → write_ok s' → queued s' = queued s → lifecycle s s' →
  reader_ok (ktls_reader s.1) → op_ok reader cx s [] s'.
Proof.
  intros Hq Hok Hqu Hl Hr. pose proof Hq as [(Ha & _ & Hk & _) Hw].
  unfold op_ok. rewrite app_nil_r, Hk. split_and!; try done. by eapply quiet_taken.
Qed.

Lemma op_ok_refl reader cx s :
  write_ok s → reader_ok (ktls_reader s.1) → op_ok reader cx s [] s.
Proof. intros. by apply op_ok_quiet. Qed.

Lemma op_ok_view reader cx t w w' :
  view w' = view w → write_ok (t, w) → reader_ok (ktls_reader t) →
  op_ok reader cx (t, w) [] (t, w').
Proof.
  intros Hv Hok Hr. apply op_ok_quiet; try done; [by apply quiet_view|by eapply write_ok_view| |].
  - unfold queued. cbn [fst snd]. by rewrite Hv.
  - apply lifecycle_same; cbn [snd]; by rewrite ?Hv.
Qed.

(** The receive side of the world moved. *)
Lemma op_ok_tx_same reader cx t w w' :
  tx_same (view w) (view w') → write_ok (t, w) → reader_ok (ktls_reader t) →
  op_ok reader cx (t, w) [] (t, w').
Proof.
  intros (Hs & Hb & Hr & Hc & _ & ks & Hk) Hok Hro.
  unfold op_ok, write_ok, taken, queued, wakers_kept in *. cbn [fst snd] in *.
  rewrite Hs, Hb, Hr, Hk, app_nil_r. split_and!; try done; [apply Hok..|by apply lifecycle_same|].
  exists ks. auto.
Qed.

Lemma op_ok_trans reader cx s1 s2 s3 bytes :
  op_ok reader cx s1 [] s2 → op_ok reader cx s2 bytes s3 → op_ok reader cx s1 bytes s3.
Proof.
  intros (_ & Ha1 & Hl1 & Hw1 & _ & Ht1) (Hok & Ha2 & Hl2 & Hw2 & Hr & Ht2).
  rewrite app_nil_r in Ht1. unfold op_ok. rewrite Ht2, Ht1, Ha2. split_and!; try done; by etrans.
Qed.

Lemma flush_post_op reader cx s p s' :
  flush_post reader cx s p s' → reader_ok (ktls_reader s.1) → op_ok reader cx s [] s'.
Proof.
  intros (Hq & Hok & Hqu & Hs & Hc & _) Hr. apply op_ok_quiet; try done. by apply lifecycle_same.
Qed.

(** What the writer's operations leave alone: everything received. *)
Definition rx_same s s' : Prop :=
  ktls_reader s'.1 = ktls_reader s.1 ∧ rx_view (view s'.2) = rx_view (view s.2).

#[global] Instance rx_same_preorder : PreOrder rx_same.
Proof. split; [by intros s|]. intros s1 s2 s3 [? ?] [? ?]. split; congruence. Qed.

Lemma rx_same_quiet reader cx s s' : quiet reader cx s s' → rx_same s s'.
Proof. by intros [(_ & _ & ? & _ & ? & _) _]. Qed.

Lemma rx_same_view t w w' : view w' = view w → rx_same (t, w) (t, w').
Proof. intros Hv. split; [done|]. cbn [snd]. by rewrite Hv. Qed.

(** *** Writing *)

Lemma wp_ktls_poll_write fuel cx buf (Q : poll (io_result Z) → W → Prop) w :
  (∀ n w', 0 ≤ n ≤ len buf → view w' = v_add_raw (prefix n buf) (view w) → Q (Ready (Ok n)) w') →
  (∀ e w', view w' = view w → Q (Ready (Err e)) w') →
  (∀ w', view w' = view w → awaiting_write cx w' → Q Pending w') →
  wp (ktls_poll_write fuel cx buf) Q w.
Proof.
  intros Hok Herr Hpend.
  assert (∀ w1, view w1 = view w → wp (ktls_poll_write fuel cx buf) Q w1) as Hgo; [|by apply Hgo].
  induction fuel as [|fuel IH]; intros w1 Hv1; [done|]. cbn [ktls_poll_write]. do 2 wp_step.
  match goal with E : try_write _ _ = (?r, ?w2) |- _ =>
    apply view_try_write in E as Hv2; destruct r as [n|e] end.
  - wp_step. destruct Hv2 as [Hn Hv2]. apply Hok; [done|]. by rewrite Hv2, Hv1.
  - rewrite Hv1 in Hv2. destruct (is_kind WouldBlock e).
    + do 2 wp_step. match goal with E : poll_write_ready _ ?w2 = _ |- _ =>
        pose proof (view_poll_write_ready cx w2) as Hv3; rename E into Ep end.
      rewrite Ep in Hv3. simpl in Hv3. rewrite Hv2 in Hv3.
      destruct a as [[]|]; [by apply IH|wp_step; by apply Herr|].
      wp_step. apply Hpend; [done|]. eexists. by left.
    + destruct (is_kind Interrupted e); [by apply IH|]. wp_step. by apply Herr.
Qed.

(** How a write ends. *)
Definition write_result (cx : Waker) s (p : poll (io_result Z)) s' : Prop :=
  match p with
  | Ready (Ok n) => True
  | Ready (Err e) =>
      ktls_active s.1 = true ∨ shutdown s.1 ≠ ShutOpen ∨
      ∃ e0, write_error s'.1 = Some e0 ∧ same_error e0 e
  | Pending =>
      if ktls_active s.1 then awaiting_write cx s'.2
      else slot false s'.1 = Some cx ∧ socket_armed s'.2
  end.

Definition write_post (cx : Waker) (buf : list byte) s (p : poll (io_result Z)) s' : Prop :=
  match p with
  | Ready (Ok n) => 0 ≤ n ≤ len buf ∧ op_ok false cx s (prefix n buf) s'
  | _ => op_ok false cx s [] s'
  end ∧ write_result cx s p s' ∧ shutdown s'.1 = shutdown s.1 ∧ rx_same s s'.

(** The part of [poll_write] after the flush. *)
Definition write_chunk (chunk : list byte) : M (TlsStream * W) (poll (io_result Z)) :=
  let* n := lift (ext (SSL_write chunk)) in
  if 0 <? n then mret (Ready (Ok n))
  else
    let* code := lift (gets (SSL_get_error n)) in
    if wants_io code then
      do* modify_self (λ t, with_pending (pending_write t ++ chunk) t) ;
      mret (Ready (Ok (len chunk)))
    else
      let* error := lift (ssl_io_error "SSL_write" code) in
      fail_write error.

Definition chunk_post (cx : Waker) (chunk : list byte) s (p : poll (io_result Z)) s' : Prop :=
  (shutdown s'.1 = shutdown s.1 ∧ rx_same s s') ∧
  match p with
  | Ready (Ok n) => n = len chunk ∧ op_ok false cx s chunk s'
  | Ready (Err e) =>
      op_ok false cx s [] s' ∧ ∃ e0, write_error s'.1 = Some e0 ∧ same_error e0 e
  | Pending => False
  end.

Lemma wp_write_chunk cx chunk t w :
  write_ok (t, w) → reader_ok (ktls_reader t) → ktls_active t = false →
  pending_write t = [] → write_error t = None → chunk ≠ [] → len chunk ≤ MAX_PLAINTEXT →
  wp (write_chunk chunk) (chunk_post cx chunk (t, w)) (t, w).
Proof.
  intros Hok Hr Ha Hp He Hne Hlen. unfold write_chunk. do 3 wp_step. cbn [fst snd] in *.
  match goal with E : SSL_write _ _ = (?x, ?y) |- _ => rename x into n, y into w1, E into Ew end.
  pose proof Hok as (_ & _ & Hb). cbn [fst snd] in Hb. specialize (Hb He). rewrite Hp in Hb.
  pose proof (view_SSL_write _ _ _ _ Ew (or_introl Hb)) as Hv. cbn [is_empty] in Hb.
  destruct (Z.ltb_spec 0 n).
  { destruct Hv as [-> Hv]. wp_step.
    split; [split; [done|]; split; [done|]; cbn [snd]; by rewrite Hv|]. split; [done|].
    unfold op_ok, write_ok, taken, queued, wakers_kept. cbn [fst snd].
    rewrite Ha, Hp, Hv, !app_nil_r. simpl. split_and!; try done.
    - by apply lifecycle_same; cbn [fst snd]; rewrite ?Hv.
    - exists []. rewrite app_nil_r. auto. }
  do 3 wp_step. cbn [fst snd]. destruct (wants_io (SSL_get_error n w1)) eqn:Ewant.
  - do 3 wp_step. split; [split; [done|]; split; [done|]; cbn [snd]; by rewrite Hv|]. split; [done|].
    unfold op_ok, write_ok, taken, queued, wakers_kept, slot. simpl.
    rewrite Ha, Hp, Hv. simpl. rewrite app_nil_r. split_and!; try done.
    + intros _. by destruct chunk.
    + apply lifecycle_same; simpl; by rewrite ?Hv.
    + exists []. rewrite app_nil_r. auto.
  - rewrite Hb, <- Hb, v_with_write_same in Hv. do 2 wp_step. cbn [fst snd].
    apply wp_ssl_io_error. intros e w2 Hv2.
    assert (view w2 = view w) as Hv3 by congruence.
    apply (wp_fail_write false cx). intros s' Hew Htx Hq.
    destruct (write_ok_failed _ _ _ Hew Htx (write_ok_view _ _ _ Hv3 Hok)) as (? & Hqu & Hwe & ? & Hc).
    split; [split; [done|]; etrans; [by apply rx_same_view|by eapply rx_same_quiet]|]. split.
    + apply op_ok_quiet; try done.
      * etrans; [by apply quiet_view|done].
      * rewrite Hqu. unfold queued. cbn [fst snd]. by rewrite Hv3.
      * apply lifecycle_same; [done|]. rewrite Hc. cbn [snd]. by rewrite Hv3.
    + eexists. split; [done|]. apply duplicate_io_error_same.
Qed.

Lemma chunk_bounds (buf : list byte) :
  buf ≠ [] →
  let chunk := prefix (Z.min (len buf) MAX_PLAINTEXT) buf in
  chunk ≠ [] ∧ len chunk ≤ MAX_PLAINTEXT ∧ 0 ≤ len chunk ≤ len buf ∧ chunk = prefix (len chunk) buf.
Proof.
  intros Hne chunk. pose proof (len_pos buf Hne). unfold MAX_PLAINTEXT in *.
  assert (len chunk = Z.min (len buf) (16 * 1024)) as Hl by (apply len_prefix; lia).
  split_and!; try lia.
  - intros Hc. rewrite Hc in Hl. unfold len at 1 in Hl. simpl in Hl. lia.
  - by rewrite Hl.
Qed.

Lemma wp_poll_write fuel cx buf s :
  write_ok s → reader_ok (ktls_reader s.1) →
  wp (poll_write fuel cx buf) (write_post cx buf s) s.
Proof.
  intros Hok Hr. unfold poll_write. do 2 wp_step.
  destruct (is_empty buf) eqn:Eb.
  { wp_step. apply is_empty_true in Eb as ->. split; [|done]. split; [done|]. by apply op_ok_refl. }
  apply is_empty_false in Eb as Hne.
  destruct (write_error s.1) as [e|] eqn:He.
  { wp_step. split; [by apply op_ok_refl|]. split; [|done]. right. right. exists e.
    split; [done|]. symmetry. apply duplicate_io_error_same. }
  case_bool_decide as Hs.
  { wp_step. split; [by apply op_ok_refl|]. split; [|done]. by right; left. }
  destruct (ktls_active s.1) eqn:Ha.
  - wp_step. destruct s as [t w]. cbn [fst snd] in *. unfold write_post, write_result. cbn [fst].
    rewrite Ha. apply wp_ktls_poll_write.
    + intros n w' Hn Hv. split; [|split_and!; [done..|]; split; [done|]; cbn [snd]; by rewrite Hv]. split; [done|].
      unfold op_ok, write_ok, taken, wakers_kept. cbn [fst snd]. rewrite Ha, Hv. simpl.
      destruct Hok as (? & Hk & ?). split_and!; try done.
      * intros _. by apply Hk.
      * apply lifecycle_same; simpl; by rewrite ?Hv.
      * exists []. rewrite app_nil_r. auto.
    + intros e w' Hv. split; [by apply op_ok_view|]. split_and!; [by left|done|by apply rx_same_view].
    + intros w' Hv Haw. split; [by apply op_ok_view|]. split_and!; [done..|by apply rx_same_view].
  - wp_step. eapply wp_mono; [by apply wp_poll_pending_write|]. intros p [t1 w1] Hf.
    pose proof (flush_post_op _ _ _ _ _ Hf Hr) as Hop.
    destruct Hf as (Hq & Hok1 & _ & Hsh & _ & Hres). pose proof Hop as (_ & Ha1 & _ & _ & Hr1 & _).
    pose proof (rx_same_quiet _ _ _ _ Hq) as Hrx1.
    cbn [fst snd] in *. unfold write_post, write_result. rewrite Ha.
    destruct p as [[[]|e]|]; [|wp_step; by auto|wp_step; by destruct Hres as (_ & ? & ?)].
    destruct Hres as [Hp1 He1]. cbn [fst] in *.
    destruct (chunk_bounds buf Hne) as (Hc1 & Hc2 & Hc3 & Hc4).
    set (chunk := prefix (Z.min (len buf) MAX_PLAINTEXT) buf) in *.
    unfold try_from_max. destruct (Z.leb_spec (len chunk) c_int_max) as [_|Hbad];
      [|unfold MAX_PLAINTEXT, c_int_max in *; lia].
    eapply wp_mono; [apply (wp_write_chunk cx chunk t1 w1); try done; congruence|].
    intros p s3 [[Hsh3 Hrx3] Hp]. cbn [fst] in Hsh3.
    assert (rx_same s s3) as Hrx by (etrans; [exact Hrx1|exact Hrx3]).
    destruct p as [[n|e]|]; [| |done].
    + destruct Hp as [-> Hp]. rewrite <- Hc4. split_and!; try done; [lia..| |congruence].
      by eapply op_ok_trans.
    + destruct Hp as [Hp He3]. split_and!; [by eapply op_ok_trans|auto|congruence|done].
Qed.

(** *** Reading *)

(** What a read does to the caller's buffer, and how it waits. *)
Definition read_ok (cx : Waker) (buf : ReadBuf) s (res : poll (io_result unit) * ReadBuf) s' : Prop :=
  op_ok true cx s [] s' ∧ shutdown s'.1 = shutdown s.1 ∧
  capacity res.2 = capacity buf ∧ len (filled res.2) ≤ capacity buf ∧
  (∃ bytes, filled res.2 = filled buf ++ bytes ∧
     (bytes ≠ [] → ∃ u, res.1 = Ready (Ok u))) ∧
  (res.1 = Pending →
   if ktls_active s.1 then awaiting cx s'.2 else slot true s'.1 = Some cx ∧ socket_armed s'.2).

Lemma read_ok_nil cx buf s s' p :
  op_ok true cx s [] s' → shutdown s'.1 = shutdown s.1 → len (filled buf) ≤ capacity buf →
  (p = Pending →
   if ktls_active s.1 then awaiting cx s'.2 else slot true s'.1 = Some cx ∧ socket_armed s'.2) →
  read_ok cx buf s (p, buf) s'.
Proof.
  intros Hop Hs Hb Hp. split_and!; try done. exists []. by rewrite app_nil_r.
Qed.

Lemma read_ok_trans cx buf s1 s2 res s3 :
  op_ok true cx s1 [] s2 → shutdown s2.1 = shutdown s1.1 →
  read_ok cx buf s2 res s3 → read_ok cx buf s1 res s3.
Proof.
  intros Hop Hs (Hop2 & Hs2 & Hc & Hl & Hb & Hp). pose proof Hop as (_ & Ha & _).
  rewrite Ha in Hp. split; [by eapply op_ok_trans|]. split; [congruence|done].
Qed.

(** A wait moves nothing but the wakers. *)
Lemma op_ok_wait reader cx s s' :
  except_waiters s.1 s'.1 → view s'.2 = view s.2 → quiet reader cx s s' →
  write_ok s → reader_ok (ktls_reader s.1) → op_ok reader cx s [] s' ∧ shutdown s'.1 = shutdown s.1.
Proof.
  intros He Hv Hq Hok Hr. destruct (write_ok_waiters s s') as [Hok' Hqu]; [done|by rewrite Hv|done|].
  destruct (except_waiters_fields _ _ He) as (_ & _ & Hs & _). split; [|done].
  apply op_ok_quiet; try done. apply lifecycle_same; [done|by rewrite Hv].
Qed.

Lemma tx_same_read cap w n bs w' :
  SSL_read cap w = ((n, bs), w') → tx_same (view w) (view w').
Proof.
  intros ->%view_SSL_read. repeat case_match; try apply tx_same_refl.
  all: repeat split; exists []; by rewrite app_nil_r.
Qed.

Lemma wp_read_loop `{!SslReadLaws W} fuel cx buf s :
  write_ok s → reader_ok (ktls_reader s.1) → ktls_active s.1 = false →
  len (filled buf) ≤ capacity buf →
  wp (read_loop fuel cx buf) (read_ok cx buf s) s.
Proof.
  revert s. induction fuel as [|fuel IH]; intros [t w] Hok Hr Ha Hb; [done|].
  cbn [read_loop]. cbn [fst snd] in *. destruct (Z.eqb_spec (remaining buf) 0) as [|Hnz].
  { wp_step. apply read_ok_nil; try done. by apply op_ok_refl. }
  assert (0 < remaining buf) as Hrem by (unfold remaining in *; lia).
  do 3 wp_step. cbn [fst snd] in *. destruct a as [n bytes].
  match goal with E : SSL_read _ _ = (_, ?y) |- _ => rename y into w1, E into Er end.
  assert (tx_same (view w) (view w1)) as Htx by (by eapply tx_same_read).
  assert (op_ok true cx (t, w) [] (t, w1)) as Hop by by apply op_ok_tx_same.
  pose proof Hop as (Hok1 & _).
  apply SSL_read_bound in Er as Hn; [|unfold c_int_max; lia].
  destruct (Z.ltb_spec 0 n).
  - destruct (Z.ltb_spec (remaining buf) n); [lia|]. wp_step. unfold advance.
    assert (len (prefix n (buffer (remaining buf) bytes)) = n) as Hl
      by (apply len_prefix; rewrite len_buffer; lia).
    rewrite Hl. destruct (Z.ltb_spec (capacity buf) (len (filled buf) + n)).
    { unfold remaining in *. lia. }
    do 2 wp_step. split_and!; try done.
    + cbn [snd filled]. rewrite len_app, Hl. lia.
    + exists (prefix n (buffer (remaining buf) bytes)). split; [done|]. eauto.
  - do 3 wp_step. cbn [fst snd]. case_match; [wp_step; by apply read_ok_nil|].
    destruct (wants_io _).
    + wp_step. apply wp_poll_ssl_ready. intros p s2 Hew Hv2 Hq Hp. cbn [fst snd] in *.
      destruct (op_ok_wait true cx (t, w1) s2) as [Hop2 Hs2]; try done.
      pose proof Hop2 as (Hok2 & Ha2 & _ & _ & Hr2 & _).
      assert (op_ok true cx (t, w) [] s2) as Hop3 by by eapply op_ok_trans.
      destruct p as [[[]|e]|].
      * eapply wp_mono; [apply IH; try done; by rewrite Ha2|]. intros res s3. by apply read_ok_trans.
      * wp_step. by apply read_ok_nil.
      * wp_step. apply read_ok_nil; try done. intros _. cbn [fst]. rewrite Ha. by apply Hp.
    + do 2 wp_step. cbn [fst snd]. apply wp_ssl_io_error. intros e w2 Hv2. wp_step.
      apply read_ok_nil; try done. eapply op_ok_trans; [exact Hop|]. by apply op_ok_view.
Qed.

Lemma wp_on_reader {A} (m : M (RecordReader * W) A) (Q : A → TlsStream * W → Prop) s :
  wp m (λ a rw, Q a (with_reader rw.1 s.1, rw.2)) (ktls_reader s.1, s.2) → wp (on_reader m) Q s.
Proof. unfold wp, on_reader. by destruct (m (ktls_reader s.1, s.2)) as [[? []]| |]. Qed.

(** A read through the kernel. *)
Lemma wp_ktls_read cx buf t w :
  write_ok (t, w) → reader_ok (ktls_reader t) → ktls_active t = true →
  len (filled buf) < capacity buf →
  wp (on_reader (RecordReader_poll_read cx buf)) (read_ok cx buf (t, w)) (t, w).
Proof.
  intros Hok Hr Ha Hb. apply wp_on_reader. cbn [fst snd].
  assert (∀ r' w' bytes p, tx_same (view w) (view w') → reader_ok r' →
    len (filled buf ++ bytes) ≤ capacity buf → (bytes ≠ [] → ∃ u, p = Ready (Ok u)) →
    (p = Pending → awaiting cx w') →
    read_ok cx buf (t, w) (p, {| filled := filled buf ++ bytes; capacity := capacity buf |})
      (with_reader r' t, w')) as Hdone.
  { intros r' w' bytes p (Hs & Hbl & Hra & Hc & _ & ks & Hk) Hr' Hl Hp Hpe.
    split_and!; try done; [|by eexists|by cbn [fst]; rewrite Ha].
    unfold op_ok, write_ok, taken, queued, wakers_kept, slot. cbn [fst snd with_reader]. simpl.
    rewrite Ha, Hbl, Hra, Hk, app_nil_r. destruct Hok as (Ho1 & Ho2 & Ho3). simpl in *.
    split_and!; try done; [by intros _; apply Ho2|by apply lifecycle_same|].
    exists ks. auto. }
  destruct (terminal (ktls_reader t)) as [tm|] eqn:Ht.
  - unfold wp. rewrite (poll_read_terminal _ _ _ _ tm Ht). cbn [fst snd].
    replace buf with {| filled := filled buf ++ []; capacity := capacity buf |} at 2
      by (rewrite app_nil_r; by destruct buf).
    apply Hdone; try done. rewrite app_nil_r. lia.
  - destruct (poll_read_live cx buf (ktls_reader t) w Hr Ht Hb) as (res & st & E & Hp).
    unfold wp. rewrite E. destruct Hp as (es & bytes & s' & _ & _ & Htx & _ & Hf & Hc & Hl & Hok' & Hres).
    destruct res as [p [f c]], st as [r' w']. cbn [fst snd filled capacity] in *. subst f c.
    apply Hdone; try done.
    + intros Hbn. destruct p as [[u|e]|]; [by exists u|by destruct Hres..].
    + intros ->. by destruct Hres as (_ & _ & _ & ?).
Qed.

Lemma wp_poll_read `{!SslReadLaws W} fuel cx buf s :
  write_ok s → reader_ok (ktls_reader s.1) → len (filled buf) ≤ capacity buf →
  wp (poll_read fuel cx buf) (read_ok cx buf s) s.
Proof.
  intros Hok Hr Hb. unfold poll_read. do 2 wp_step.
  destruct (Z.eqb_spec (remaining buf) 0) as [|Hnz].
  { wp_step. apply read_ok_nil; try done. by apply op_ok_refl. }
  destruct (ktls_active s.1) eqn:Ha.
  { destruct s as [t w]. apply wp_ktls_read; try done. unfold remaining in *. lia. }
  wp_step. eapply wp_mono; [by apply wp_poll_pending_write|]. intros p s1 Hf.
  pose proof (flush_post_op _ _ _ _ _ Hf Hr) as Hop. pose proof Hop as (Hok1 & Ha1 & _ & _ & Hr1 & _).
  destruct Hf as (_ & _ & _ & Hsh & _).
  assert (wp (read_loop fuel cx buf) (read_ok cx buf s) s1) as Hgo.
  { eapply wp_mono; [apply wp_read_loop; try done; by rewrite Ha1|].
    intros res s2. by apply read_ok_trans. }
  destruct p as [[[]|e]|]; try done. wp_step. by apply read_ok_nil.
Qed.

(** *** Shutting down *)

Definition shutdown_post (cx : Waker) s (p : poll (io_result unit)) s' : Prop :=
  (op_ok false cx s [] s' ∧ rx_same s s') ∧
  match p with
  | Ready (Ok _) => shutdown s'.1 = ShutClosed ∧ pending_write s'.1 = []
  | Ready (Err e) => ∃ e0, write_error s'.1 = Some e0 ∧ same_error e0 e
  | Pending => True
  end.

Lemma shutdown_post_trans cx s1 s2 p s3 :
  op_ok false cx s1 [] s2 → rx_same s1 s2 → shutdown_post cx s2 p s3 → shutdown_post cx s1 p s3.
Proof.
  intros Hop Hrx [[Hop2 Hrx2] Hp]. split; [|done]. split; [by eapply op_ok_trans|by etrans].
Qed.

Lemma wp_fail_shutdown cx e s :
  write_ok s → reader_ok (ktls_reader s.1) → wp (fail_write e) (shutdown_post cx s) s.
Proof.
  intros Hok Hr. apply (wp_fail_write false cx). intros s' He Hv Hq.
  destruct (write_ok_failed _ _ _ He Hv Hok) as (? & ? & Hw & ? & ?).
  split; [split; [apply op_ok_quiet; try done; by apply lifecycle_same|by eapply rx_same_quiet]|].
  eexists. split; [done|]. apply duplicate_io_error_same.
Qed.

(** The write half reaches a new stage. *)
Lemma op_ok_shutdown cx sh t w w' :
  write_ok (t, w) → reader_ok (ktls_reader t) →
  tx_same (v_add_close (if decide (sh = ShutClosed) then 1 else 0) (view w)) (view w') →
  shutdown t ≠ ShutClosed → (rank (shutdown t) ≤ rank sh)%nat →
  op_ok false cx (t, w) [] (with_shutdown sh t, w').
Proof.
  intros (Ho1 & Ho2 & Ho3) Hr (Hs & Hb & Hra & Hc & _ & ks & Hk) Hn Hrank. simpl in *.
  unfold op_ok, write_ok, taken, queued, wakers_kept, lifecycle, closed, slot. simpl.
  rewrite Hs, Hb, Hra, Hc, Hk, app_nil_r. split_and!; try done.
  - rewrite (decide_False (P := shutdown t = ShutClosed)) by done. lia.
  - exists ks. auto.
Qed.

Lemma wp_shutdown_loop fuel cx s :
  write_ok s → reader_ok (ktls_reader s.1) → shutdown s.1 ≠ ShutClosed →
  pending_write s.1 = [] →
  wp (shutdown_loop fuel cx) (shutdown_post cx s) s.
Proof.
  revert s. induction fuel as [|fuel IH]; intros [t w] Hok Hr Hn Hp; [done|].
  cbn [shutdown_loop]. cbn [fst snd] in *. do 3 wp_step. cbn [fst snd] in *.
  match goal with E : SSL_shutdown _ = (?x, ?y) |- _ =>
    rename x into r, y into w1; apply view_SSL_shutdown in E as Hv end.
  destruct (0 <=? r).
  { do 3 wp_step. cbn [fst snd]. split; [|done]. split; [apply op_ok_shutdown; try done|].
    - rewrite decide_True, Hv by done. apply tx_same_refl.
    - destruct (shutdown t); simpl; lia.
    - split; [done|]. cbn [snd]. by rewrite Hv. }
  rewrite v_add_close_0 in Hv. pose proof (write_ok_view _ _ _ Hv Hok) as Hok1.
  do 3 wp_step. cbn [fst snd]. destruct (wants_io _).
  - wp_step. apply wp_poll_ssl_ready. intros p s2 Hew Hv2 Hq Hpe. cbn [fst snd] in *.
    destruct (op_ok_wait false cx (t, w1) s2) as [Hop2 Hs2]; try done.
    assert (op_ok false cx (t, w) [] s2) as Hop by (eapply op_ok_trans; [by apply op_ok_view|done]).
    assert (rx_same (t, w) s2) as Hrx
      by (etrans; [by apply (rx_same_view t w w1)|by eapply rx_same_quiet]).
    pose proof Hop2 as (Hok2 & _ & _ & _ & Hr2 & _).
    destruct (except_waiters_fields _ _ Hew) as (Ep & _). simpl in *.
    destruct p as [[[]|e]|].
    + eapply wp_mono; [apply IH; congruence || done|]. intros q s3. by apply shutdown_post_trans.
    + eapply wp_mono; [by apply wp_fail_shutdown|]. intros q s3. by apply shutdown_post_trans.
    + wp_step. by split.
  - do 2 wp_step. cbn [fst snd]. apply wp_ssl_io_error. intros e w2 Hv2.
    assert (view w2 = view w) as Hv3 by congruence.
    eapply wp_mono; [apply (wp_fail_shutdown cx); [by eapply write_ok_view|done]|].
    intros q s3. apply shutdown_post_trans; [by apply op_ok_view|by apply rx_same_view].
Qed.

Lemma wp_poll_close cx w (Q : poll (io_result unit) → W → Prop) :
  (∀ p w', close_post cx w p w' → Q p w') → wp (poll_close_notify cx) Q w.
Proof. intros HQ. eapply wp_mono; [apply wp_poll_close_notify_loop|]. apply HQ. Qed.

(** The kernel path of [poll_shutdown], in the [Sending] stage. *)
Lemma wp_ktls_shutdown cx t w :
  write_ok (t, w) → reader_ok (ktls_reader t) → shutdown t = ShutSending → pending_write t = [] →
  wp (let* r := lift (poll_close_notify cx) in
      match r with
      | Pending => mret Pending
      | Ready (Err error) => fail_write error
      | Ready (Ok _) =>
          do* modify_self (with_shutdown ShutClosed) ;
          let* result := lift (ext (tcp_poll_shutdown cx)) in
          match result with
          | Pending => mret Pending
          | Ready (Ok _) => mret (Ready (Ok tt))
          | Ready (Err error) => fail_write error
          end
      end) (shutdown_post cx (t, w)) (t, w).
Proof.
  intros Hok Hr Hs Hp. do 2 wp_step. cbn [fst snd]. apply wp_poll_close.
  intros p w1 (Hrxv & Htx & _).
  assert (∀ sh, rx_same (t, w) (with_shutdown sh t, w1)) as Hrx by (intros sh; by split).
  assert (∀ sh, sh = match p with Ready (Ok _) => ShutClosed | _ => ShutSending end →
    op_ok false cx (t, w) [] (with_shutdown sh t, w1)) as Hop.
  { intros sh ->. apply op_ok_shutdown; try done; rewrite ?Hs; [|done|by destruct p as [[]|]; simpl; lia].
    destruct p as [[]|]; exact Htx. }
  assert (with_shutdown ShutSending t = t) as Ht by (rewrite <- Hs; by destruct t).
  destruct p as [[[]|e]|].
  - specialize (Hop _ eq_refl). pose proof Hop as (Hok1 & _ & _ & _ & Hr1 & _).
    do 5 wp_step. cbn [fst snd] in *.
    match goal with E : tcp_poll_shutdown _ _ = (?x, ?y) |- _ =>
      pose proof (view_tcp_poll_shutdown cx w1) as Hv; rewrite E in Hv; simpl in Hv; clear E end.
    match goal with |- wp _ _ (_, ?y) => assert (op_ok false cx (t, w) [] (with_shutdown ShutClosed t, y)) as Hop2 end.
    { eapply op_ok_trans; [exact Hop|]. by apply op_ok_view. }
    match goal with |- wp _ _ (_, ?y) => assert (rx_same (t, w) (with_shutdown ShutClosed t, y)) as Hrx2 end.
    { etrans; [exact (Hrx ShutClosed)|]. by apply rx_same_view. }
    pose proof Hop2 as (Hok2 & _ & _ & _ & Hr2 & _).
    destruct a as [[[]|e]|]; [wp_step; by split| |wp_step; by split].
    eapply wp_mono; [by apply wp_fail_shutdown|]. intros q s3. by apply shutdown_post_trans.
  - specialize (Hop _ eq_refl). specialize (Hrx ShutSending). rewrite Ht in Hop, Hrx.
    pose proof Hop as (Hok1 & _ & _ & _ & Hr1 & _).
    eapply wp_mono; [by apply wp_fail_shutdown|]. intros q s3. by apply shutdown_post_trans.
  - specialize (Hop _ eq_refl). specialize (Hrx ShutSending). rewrite Ht in Hop, Hrx.
    wp_step. by split.
Qed.

Lemma wp_poll_shutdown fuel cx s :
  write_ok s → reader_ok (ktls_reader s.1) → wp (poll_shutdown fuel cx) (shutdown_post cx s) s.
Proof.
  intros Hok Hr. unfold poll_shutdown. wp_step.
  eapply wp_mono; [by apply wp_poll_pending_write|]. intros p [t1 w1] Hf.
  pose proof (flush_post_op _ _ _ _ _ Hf Hr) as Hop. pose proof Hop as (Hok1 & Ha1 & _ & _ & Hr1 & _).
  destruct Hf as (Hq & _ & _ & Hsh & _ & Hres). apply rx_same_quiet in Hq as Hrx.
  destruct p as [[[]|e]|]; [|wp_step; by split|wp_step; by split].
  destruct Hres as [Hp1 He1]. cbn [fst snd] in *. do 2 wp_step. cbn [fst].
  case_bool_decide as Hcl; [wp_step; by split|]. do 2 wp_step. cbn [fst snd].
  assert (op_ok false cx (t1, w1) [] (with_shutdown ShutSending t1, w1)) as Hop2.
  { apply op_ok_shutdown; try done; [|by destruct (shutdown t1); simpl; first [lia|done]].
    cbn. rewrite v_add_close_0. apply tx_same_refl. }
  pose proof Hop2 as (Hok2 & _ & _ & _ & Hr2 & _).
  assert (∀ q s3, shutdown_post cx (with_shutdown ShutSending t1, w1) q s3 → shutdown_post cx s q s3) as Hgo.
  { intros q s3. apply shutdown_post_trans; [by eapply op_ok_trans|]. by etrans; [exact Hrx|]. }
  destruct (ktls_active t1).
  - eapply wp_mono; [by apply wp_ktls_shutdown|]. apply Hgo.
  - eapply wp_mono; [by apply wp_shutdown_loop|]. apply Hgo.
Qed.
End rel.
