(* ===== verification/StreamProps.v ===== *)
(** * The established stream: properties *)

From S2P Require Import Prelude Std Env Sim Errors Alpn Suites Session RecordIo RecordSpec CryptoInfo Install Stream StreamSpec.

Local Open Scope Z_scope.

(** ** The unbounded loops end *)

Section budget.
Context {W : Type}
  `{NetView W, !Strerror, !ReadyBudget W}.
Implicit Types (w : W) (s : TlsStream * W).

Local Abbreviation b := (budget : W → nat).
Local Abbreviation bs := (λ s : TlsStream * W, budget s.2).

Lemma within_last_error n : within b n last_error.
Proof.
  unfold last_error, format_and_clear.
  apply within_bind; [apply within_ext, budget_get_error|]. within_tac.
  apply within_modify, budget_clear_error.
Qed.

Lemma within_ssl_io_error n op code : within b n (ssl_io_error op code).
Proof. pose proof (within_last_error n). unfold ssl_io_error. within_tac. Qed.

Lemma within_wake_all n ws : within b n (wake_all ws).
Proof.
  assert (∀ wk, within b n (modify (wake wk))) by (intros; apply within_modify, budget_wake).
  unfold wake_all. within_tac.
Qed.

Lemma within_notify n : within bs n notify.
Proof. pose proof (within_wake_all n). unfold notify. within_tac. Qed.

Lemma within_fail_write {A} n e : within bs n (fail_write e : M _ (poll (io_result A))).
Proof.
  pose proof (within_notify n). unfold fail_write, write_failure. within_tac.
Qed.

Lemma spends_lift {T A E} (m : M W (poll (result A E))) :
  spends b m → spends (λ s : T * W, budget s.2) (lift m).
Proof.
  intros Hm s. unfold lift. specialize (Hm s.2). by destruct (m s.2) as [[[[]|] ?]| |].
Qed.

Lemma spends_poll_clear_read_ready cx : spends b (poll_clear_read_ready cx).
Proof.
  intros w. unfold poll_clear_read_ready, ext, mbind, M_bind.
  destruct (poll_read_ready cx w) as [r w1] eqn:E. apply budget_poll_read_ready in E.
  destruct r as [[]|]; simpl; [|lia..]. rewrite try_io_spec.
  pose proof (budget_clear_ready READABLE w1). destruct (io_ready READABLE w1); simpl; lia.
Qed.

Lemma spends_poll_clear_write_ready cx : spends b (poll_clear_write_ready cx).
Proof.
  intros w. unfold poll_clear_write_ready, ext, mbind, M_bind.
  destruct (poll_write_ready cx w) as [r w1] eqn:E. apply budget_poll_write_ready in E.
  destruct r as [[]|]; simpl; [|lia..]. rewrite try_io_spec.
  pose proof (budget_clear_ready WRITABLE w1). destruct (io_ready WRITABLE w1); simpl; lia.
Qed.

Lemma spends_poll_ssl_ready code cx reader : spends bs (poll_ssl_ready code cx reader).
Proof.
  intros s. unfold poll_ssl_ready, self, set_self, mbind, M_bind.
  destruct (code =? SSL_ERROR_WANT_READ).
  - exact (spends_lift _ (spends_poll_clear_read_ready SharedWaker) (_, s.2)).
  - exact (spends_lift _ (spends_poll_clear_write_ready SharedWaker) (_, s.2)).
Qed.

Lemma within_SSL_write n bytes : within b n (ext (SSL_write bytes)).
Proof. apply within_ext. intros; apply budget_SSL_write. Qed.

Lemma within_pending_write_loop n cx reader :
  within bs n (pending_write_loop (S n) cx reader).
Proof.
  induction n as [n IH] using lt_wf_ind.
  pose proof (within_SSL_write n). pose proof (within_notify n). pose proof (within_ssl_io_error n).
  pose proof (@within_fail_write unit n).
  cbn [pending_write_loop]. apply within_bind; [apply within_self|]. intros t.
  case_match; [within_tac|]. case_match; [|within_tac].
  apply within_bind; [within_tac|]. intros k. case_match; [within_tac|].
  apply within_bind; [within_tac|]. intros code. case_match; [|within_tac].
  apply within_spend; [apply spends_poll_ssl_ready| |done|within_tac].
  intros _ n' ->. apply IH. lia.
Qed.

Lemma within_poll_pending_write n cx reader :
  within bs n (poll_pending_write (S n) cx reader).
Proof.
  pose proof (within_pending_write_loop n). unfold poll_pending_write. within_tac.
Qed.

Lemma within_read_loop n cx buf : within bs n (read_loop (S n) cx buf).
Proof.
  induction n as [n IH] using lt_wf_ind.
  pose proof (within_ssl_io_error n).
  assert (∀ cap, within bs n (lift (ext (SSL_read cap))))
    by (intros; apply within_lift, within_ext; intros; apply budget_SSL_read).
  cbn [read_loop]. case_match; [within_tac|]. apply within_bind; [done|]. intros [k bytes].
  case_match; [unfold advance; within_tac|].
  apply within_bind; [within_tac|]. intros code. case_match; [within_tac|].
  case_match; [|within_tac].
  apply within_spend; [apply spends_poll_ssl_ready| |within_tac|within_tac].
  intros _ n' ->. apply IH. lia.
Qed.

Lemma within_shutdown_loop n cx : within bs n (shutdown_loop (S n) cx).
Proof.
  induction n as [n IH] using lt_wf_ind.
  pose proof (within_ssl_io_error n). pose proof (@within_fail_write unit n).
  cbn [shutdown_loop]. apply within_bind.
  { apply within_lift, within_ext. intros; apply budget_SSL_shutdown. }
  intros r. case_match; [within_tac|]. apply within_bind; [within_tac|]. intros code.
  case_match; [|within_tac].
  apply within_spend; [apply spends_poll_ssl_ready| |done|within_tac].
  intros _ n' ->. apply IH. lia.
Qed.

Lemma within_ktls_poll_write n cx buf : within b n (ktls_poll_write (S n) cx buf).
Proof.
  induction n as [n IH] using lt_wf_ind. intros w Hw.
  cbn [ktls_poll_write]. unfold mbind, M_bind, ext.
  destruct (try_write buf w) as [r w1] eqn:E. apply budget_try_write in E.
  destruct r as [k|e]; [simpl in *; lia|].
  assert (∀ w2 m, budget w2 ≤ m → m < n → budget w2 ≤ budget w →
    match ktls_poll_write n cx buf w2 with
    | Done (_, s') => budget s' ≤ budget w
    | Panic _ => True
    | OutOfFuel => False
    end)%nat as Hgo.
  { intros w2 m Hm Hmn Hle. destruct n as [|n']; [lia|].
    specialize (IH n' ltac:(lia) w2 ltac:(lia)).
    destruct (ktls_poll_write (S n') cx buf w2) as [[]| |]; [lia|done..]. }
  destruct (is_kind WouldBlock e) eqn:Ewb.
  - destruct (poll_write_ready cx w1) as [p w2] eqn:E2. apply budget_poll_write_ready in E2.
    assert (is_kind Interrupted e = false) as Ei.
    { unfold is_kind in *. apply bool_decide_eq_true in Ewb. rewrite Ewb. done. }
    rewrite Ei in E. destruct p as [[]|]; simpl in *; [|lia..].
    apply (Hgo w2 (n - 1)%nat); lia.
  - destruct (is_kind Interrupted e); simpl in *; [|lia]. apply (Hgo w1 (n - 1)%nat); lia.
Qed.

Lemma returns_on_reader {A} (m : M (RecordReader * W) A) : returns m → returns (on_reader m).
Proof.
  intros Hm s. unfold on_reader. specialize (Hm (ktls_reader s.1, s.2)).
  by destruct (m _) as [[? []]| |].
Qed.

Lemma returns_reader_poll_read cx buf :
  returns (RecordReader_poll_read cx buf : M (RecordReader * W) _).
Proof.
  pose proof returns_poll_read_loop. unfold RecordReader_poll_read. returns_tac; try done.
Qed.

Lemma returns_fail_write {A} e : returns (fail_write e : M (TlsStream * W) (poll (io_result A))).
Proof. unfold fail_write, write_failure, notify, wake_all. returns_tac. Qed.

Lemma returns_close_notify cx : returns (poll_close_notify cx : M W _).
Proof. apply returns_poll_close_notify_loop. Qed.

(** ** One operation at a time *)

Lemma done_of {A} (m : M (TlsStream * W) A) (Q : A → TlsStream * W → Prop) s :
  wp m Q s → m s ≠ OutOfFuel → ∃ a s', m s = Done (a, s') ∧ Q a s'.
Proof. unfold wp. destruct (m s) as [[]| |]; naive_solver. Qed.

Lemma poll_write_ends fuel cx buf s : (budget s.2 < fuel)%nat → poll_write fuel cx buf s ≠ OutOfFuel.
Proof.
  intros Hb. destruct fuel as [|n]; [lia|].
  apply (within_not_out bs n); [|simpl; lia].
  pose proof (within_poll_pending_write n). pose proof (within_ssl_io_error n).
  pose proof (@within_fail_write Z n). pose proof (within_ktls_poll_write n).
  pose proof (within_SSL_write n).
  unfold poll_write. within_tac.
Qed.

Lemma poll_flush_ends fuel cx reader s :
  (budget s.2 < fuel)%nat → poll_pending_write fuel cx reader s ≠ OutOfFuel.
Proof.
  intros Hb. destruct fuel as [|n]; [lia|].
  apply (within_not_out bs n); [|simpl; lia]. apply within_poll_pending_write.
Qed.

Lemma poll_read_ends fuel cx buf s : (budget s.2 < fuel)%nat → poll_read fuel cx buf s ≠ OutOfFuel.
Proof.
  intros Hb. destruct fuel as [|n]; [lia|]. unfold poll_read, mbind at 1, M_bind at 1, self.
  case_match; [done|]. case_match; [apply returns_on_reader, returns_reader_poll_read|].
  apply (within_then bs n); [apply within_poll_pending_write|lia|].
  intros [[]|] s' Hs'; [|done|]; apply (within_not_out bs n); try done; apply within_read_loop.
Qed.

Lemma poll_shutdown_ends fuel cx s : (budget s.2 < fuel)%nat → poll_shutdown fuel cx s ≠ OutOfFuel.
Proof.
  intros Hb. destruct fuel as [|n]; [lia|]. unfold poll_shutdown.
  apply (within_then bs n); [apply within_poll_pending_write|lia|].
  intros [[[]|]|] s' Hs'; [|done..].
  unfold mbind at 1, M_bind at 1, self. case_match; [done|].
  apply (within_then bs n); [apply within_modify_self|done|]. intros _ s2 Hs2. case_match.
  - pose proof (@returns_fail_write unit). pose proof returns_close_notify.
    match goal with |- ?m s2 ≠ _ => assert (returns m) as Hret; [|apply Hret] end.
    returns_tac; done.
  - by apply (within_not_out bs n), Hs2; apply within_shutdown_loop.
Qed.
End budget.

(** ** Properties of one operation *)

Section one.
Context {W : Type} `{NetView W, !Strerror, !ReadyBudget W, !SslReadLaws W}.
Implicit Types (w : W) (s : TlsStream * W).

(** C15. A write, with fuel for the readiness the socket can still report,
    returns and never panics.  [Ready(Ok(n))] has taken exactly the first [n]
    bytes of the buffer; [Pending] and every error have taken nothing.  The
    invariant of the write path is kept: at most one 16 KiB chunk is held back,
    and it is the very buffer the library must be retried with.  [Pending]
    leaves this task registered. *)
Theorem poll_write_total fuel cx buf s :
  write_ok s → reader_ok (ktls_reader s.1) → (budget s.2 < fuel)%nat →
  ∃ p s', poll_write fuel cx buf s = Done (p, s') ∧
    write_ok s' ∧ write_result cx s p s' ∧
    match p with
    | Ready (Ok n) => 0 ≤ n ≤ len buf ∧ taken s' = taken s ++ prefix n buf
    | _ => taken s' = taken s
    end.
Proof.
  intros Hok Hr Hf.
  destruct (done_of _ _ _ (wp_poll_write fuel cx buf s Hok Hr) (poll_write_ends _ _ _ _ Hf))
    as (p & s' & E & Hp & Hres & _).
  exists p, s'. split; [done|].
  destruct p as [[n|e]|].
  - destruct Hp as [? (? & _ & _ & _ & _ & ?)]. done.
  - destruct Hp as (? & _ & _ & _ & _ & Ht). rewrite app_nil_r in Ht. done.
  - destruct Hp as (? & _ & _ & _ & _ & Ht). rewrite app_nil_r in Ht. done.
Qed.

(** C24. A read, with fuel for the readiness the socket can still report,
    returns and never panics, on both data paths.  It appends to the caller's
    buffer within its capacity, and only when it answers [Ready(Ok)]; it never
    changes what the write path has taken, sends no [close_notify], and on
    [Pending] leaves this task registered. *)
Theorem poll_read_total fuel cx buf s :
  write_ok s → reader_ok (ktls_reader s.1) → len (filled buf) ≤ capacity buf →
  (budget s.2 < fuel)%nat →
  ∃ res s', poll_read fuel cx buf s = Done (res, s') ∧ write_ok s' ∧ taken s' = taken s ∧
    lifecycle s s' ∧ read_ok cx buf s res s'.
Proof.
  intros Hok Hr Hb Hf.
  destruct (done_of _ _ _ (wp_poll_read fuel cx buf s Hok Hr Hb) (poll_read_ends _ _ _ _ Hf))
    as (res & s' & E & Hp).
  pose proof Hp as [(Hok' & _ & Hl & _ & _ & Ht) _]. rewrite app_nil_r in Ht.
  by exists res, s'.
Qed.

(** A flush returns; [Ready(Ok)] means that everything taken so far has
    been accepted by the library, in order, and nothing is held back. *)
Theorem poll_flush_total fuel cx s :
  write_ok s → (budget s.2 < fuel)%nat →
  ∃ p s', poll_flush fuel cx s = Done (p, s') ∧ write_ok s' ∧ queued s' = queued s ∧
    flush_result false cx p s' ∧
    (∀ u, p = Ready (Ok u) → v_sent (view s'.2) = queued s).
Proof.
  intros Hok Hf.
  destruct (done_of _ _ _ (wp_poll_pending_write fuel false cx s Hok) (poll_flush_ends _ _ _ _ Hf))
    as (p & s' & E & (_ & Hok' & Hq & _ & _ & Hres)).
  exists p, s'. split_and!; try done. intros u ->. destruct Hres as [Hp _].
  rewrite <- Hq. unfold queued. by rewrite Hp, app_nil_r.
Qed.



(** C31. Outbound backpressure does not block reading: if the flush of held
    back output is stuck but the library has data, the read returns it. *)
Theorem read_despite_backpressure fuel cx buf s s1 n bytes w2 :
  ktls_active s.1 = false → 0 < remaining buf →
  poll_pending_write (S fuel) cx true s = Done (Pending, s1) →
  SSL_read (Z.min (remaining buf) c_int_max) s1.2 = ((n, bytes), w2) → 0 < n →
  ∃ buf', poll_read (S fuel) cx buf s = Done ((Ready (Ok tt), buf'), (s1.1, w2)) ∧
    filled buf' = filled buf ++ prefix n (buffer (remaining buf) bytes).
Proof.
  intros Ha Hb Hp Hr Hn. unfold poll_read, mbind, M_bind, self. cbn [read_loop].
  destruct (Z.eqb_spec (remaining buf) 0) as [|Hnz]; [lia|]. rewrite Ha, Hp.
  destruct (Z.eqb_spec (remaining buf) 0); [lia|].
  unfold lift, ext, mbind, M_bind. rewrite Hr.
  assert (n ≤ remaining buf) as Hle.
  { apply SSL_read_bound in Hr; unfold c_int_max in *; lia. }
  destruct (Z.ltb_spec 0 n); [|lia]. destruct (Z.ltb_spec (remaining buf) n); [lia|].
  unfold advance. rewrite len_prefix by (rewrite len_buffer; lia).
  destruct (Z.ltb_spec (capacity buf) (len (filled buf) + n)); [unfold remaining in *; lia|].
  eexists. by split.
Qed.
End one.

(** ** Whole lives of a stream *)

(** What a caller of the stream learns: bytes a write accepted, bytes a read
    returned, or the end of the stream. *)
Inductive IoEvent : Type := Wrote (bytes : list byte) | Got (bytes : list byte) | GotEof.

#[export] Instance IoEvent_eq_dec : EqDecision IoEvent.
Proof. solve_decision. Defined.

(** A read into a buffer with room that succeeds and adds nothing has met the
    end of the stream. *)
Definition read_event (buf : ReadBuf) (res : poll (io_result unit) * ReadBuf) : IoEvent :=
  let bytes := drop (length (filled buf)) (filled res.2) in
  match res.1 with
  | Ready (Ok _) =>
      if is_empty bytes && negb (remaining buf =? 0) then GotEof else Got bytes
  | _ => Got bytes
  end.

Definition wrote (log : list IoEvent) : list byte :=
  log ≫= λ e, match e with Wrote bytes => bytes | _ => [] end.
Definition got (log : list IoEvent) : list byte :=
  log ≫= λ e, match e with Got bytes => bytes | _ => [] end.

Section life.
Context {W : Type} `{NetView W, !Strerror, !SslReadLaws W}.
Implicit Types (w : W) (s : TlsStream * W).

(** Any sequence of polls by the two halves, with other activity in between
    that does not show on either side.  The log is what the callers learn. *)
Inductive polls : TlsStream * W → list IoEvent → TlsStream * W → Prop :=
| polls_nil s : polls s [] s
| polls_write fuel cx buf s p s' log s'' :
    poll_write fuel cx buf s = Done (p, s') → polls s' log s'' →
    polls s (Wrote (match p with Ready (Ok n) => prefix n buf | _ => [] end) :: log) s''
| polls_flush fuel cx s p s' log s'' :
    poll_flush fuel cx s = Done (p, s') → polls s' log s'' → polls s log s''
| polls_shutdown fuel cx s p s' log s'' :
    poll_shutdown fuel cx s = Done (p, s') → polls s' log s'' → polls s log s''
| polls_read fuel cx buf s res s' log s'' :
    len (filled buf) ≤ capacity buf →
    poll_read fuel cx buf s = Done (res, s') → polls s' log s'' →
    polls s (read_event buf res :: log) s''
| polls_other t w w' log s :
    tx_same (view w) (view w') → rx_view (view w') = rx_view (view w) →
    polls (t, w') log s → polls (t, w) log s.

Definition alive s0 s bytes : Prop :=
  write_ok s ∧ reader_ok (ktls_reader s.1) ∧ ktls_active s.1 = ktls_active s0.1 ∧
  taken s = taken s0 ++ bytes ∧ lifecycle s0 s.

Lemma alive_op reader cx s0 s bytes more s' :
  alive s0 s bytes → op_ok reader cx s more s' → alive s0 s' (bytes ++ more).
Proof.
  intros (_ & _ & Ha & Ht & Hl) (Hok & Ha' & Hl' & _ & Hr & Ht').
  split_and!; try done; [congruence| |by etrans]. by rewrite Ht', Ht, app_assoc.
Qed.

Lemma alive_env s0 t w w' bytes :
  tx_same (view w) (view w') → alive s0 (t, w) bytes → alive s0 (t, w') bytes.
Proof.
  intros (Hs & Hb & Hr & Hc & _) Hal. unfold alive, write_ok, taken, queued, lifecycle in *.
  cbn [fst snd] in *. by rewrite Hs, Hb, Hr, Hc.
Qed.

Lemma polls_alive s0 s bytes0 log s' :
  polls s log s' → alive s0 s bytes0 → alive s0 s' (bytes0 ++ wrote log).
Proof.
  intros Hp. revert bytes0.
  induction Hp as [s|fuel cx buf s p s' log s'' E _ IH|fuel cx s p s' log s'' E _ IH
    |fuel cx s p s' log s'' E _ IH|fuel cx buf s res s' log s'' Hb E _ IH|t w w' log s Htx _ _ IH];
    intros bytes0 Hal; pose proof Hal as (Hok & Hr & _).
  - by rewrite app_nil_r.
  - change (wrote (?e :: log)) with (match e with Wrote b => b | _ => [] end ++ wrote log).
    rewrite app_assoc. apply IH.
    destruct (wp_done _ _ _ _ _ (wp_poll_write fuel cx buf s Hok Hr) E) as [Hp _].
    destruct p as [[]|]; [destruct Hp|..]; by eapply alive_op.
  - apply IH. rewrite <- (app_nil_r bytes0). eapply alive_op; [done|].
    eapply flush_post_op; [|done].
    exact (wp_done _ _ _ _ _ (wp_poll_pending_write fuel false cx s Hok) E).
  - apply IH. rewrite <- (app_nil_r bytes0).
    destruct (wp_done _ _ _ _ _ (wp_poll_shutdown fuel cx s Hok Hr) E) as [[? _] _]. by eapply alive_op.
  - assert (wrote (read_event buf res :: log) = wrote log) as ->.
    { unfold read_event. destruct (res.1) as [[]|]; [case_match|..]; done. }
    apply IH. rewrite <- (app_nil_r bytes0).
    destruct (wp_done _ _ _ _ _ (wp_poll_read fuel cx buf s Hok Hr Hb) E). by eapply alive_op.
  - apply IH. by eapply alive_env.
Qed.

(** A stream as the handshake hands it out. *)
Definition fresh s : Prop :=
  pending_write s.1 = [] ∧ write_error s.1 = None ∧ shutdown s.1 = ShutOpen ∧
  ktls_reader s.1 = RecordReader_default ∧ v_blocked (view s.2) = None.

Lemma fresh_alive s : fresh s → alive s s [].
Proof.
  intros (Hp & He & Hs & Hr & Hb). unfold alive, write_ok. rewrite Hp, Hb, Hr, app_nil_r.
  by split_and!.
Qed.

(** C3. The write path is a queue: over any sequence of reads, writes, flushes
    and shutdowns on a fresh stream, the bytes handed to the connection (by
    [SSL_write], with the held-back chunk last, or to the kernel) are exactly
    the bytes the writer was told were accepted, in order, none lost and none
    sent twice.  At most one 16 KiB chunk is held back, and [close_notify] goes
    out at most once, exactly when the write half is closed. *)
Theorem stream_fifo s0 log s :
  fresh s0 → polls s0 log s →
  (if ktls_active s0.1 then v_raw (view s.2) = v_raw (view s0.2) ++ wrote log
   else v_sent (view s.2) ++ pending_write s.1 = v_sent (view s0.2) ++ wrote log) ∧
  len (pending_write s.1) ≤ 16384 ∧
  v_closes (view s.2) =
    (v_closes (view s0.2) + if decide (shutdown s.1 = ShutClosed) then 1 else 0)%nat.
Proof.
  intros Hf Hp. destruct (polls_alive _ _ _ _ _ Hp (fresh_alive s0 Hf))
    as ((Hl & _) & _ & Ha & Ht & Hlc & _).
  destruct Hf as (Hp0 & _ & Hs0 & _). split_and!; [|done|].
  - unfold taken, queued in Ht. rewrite Ha, Hp0, app_nil_r in Ht. by destruct (ktls_active s0.1).
  - unfold closed in Hlc. rewrite Hs0 in Hlc. simpl in Hlc. by rewrite Nat.add_0_r in Hlc.
Qed.

(** ** Wakeups across the two halves *)

(** The operations of the writer's half, as steps. *)
Definition writer_step s s' : Prop :=
  (∃ fuel cx buf p, poll_write fuel cx buf s = Done (p, s')) ∨
  (∃ fuel cx p, poll_flush fuel cx s = Done (p, s')) ∨
  (∃ fuel cx p, poll_shutdown fuel cx s = Done (p, s')).

Lemma writer_step_kept s s' :
  write_ok s → reader_ok (ktls_reader s.1) → writer_step s s' →
  write_ok s' ∧ reader_ok (ktls_reader s'.1) ∧ ∃ cx, wakers_kept false cx s s'.
Proof.
  intros Hok Hr [(fuel & cx & buf & p & E)|[(fuel & cx & p & E)|(fuel & cx & p & E)]].
  - destruct (wp_done _ _ _ _ _ (wp_poll_write fuel cx buf s Hok Hr) E) as [Hp _].
    destruct p as [[]|]; [destruct Hp as [_ Hp]|..]; destruct Hp as (? & _ & _ & ? & ? & _); eauto.
  - pose proof (wp_done _ _ _ _ _ (wp_poll_pending_write fuel false cx s Hok) E) as Hf.
    destruct (flush_post_op _ _ _ _ _ Hf Hr) as (? & _ & _ & ? & ? & _). eauto.
  - destruct (wp_done _ _ _ _ _ (wp_poll_shutdown fuel cx s Hok Hr) E)
      as [[(? & _ & _ & ? & ? & _) _] _].
    eauto.
Qed.

Lemma writer_steps_kept s s' :
  rtc writer_step s s' → write_ok s → reader_ok (ktls_reader s.1) →
  ∃ ks, v_woken (view s'.2) = v_woken (view s.2) ++ ks ∧
    ∀ wk, slot true s.1 = Some wk → slot true s'.1 = Some wk ∨ wk ∈ ks.
Proof.
  induction 1 as [s|s1 s2 s3 Hstep _ IH]; intros Hok Hr.
  - exists []. rewrite app_nil_r. auto.
  - destruct (writer_step_kept _ _ Hok Hr Hstep) as (Hok2 & Hr2 & cx & k1 & Hv1 & Hk1).
    destruct (IH Hok2 Hr2) as (k2 & Hv2 & Hk2). exists (k1 ++ k2).
    rewrite Hv2, Hv1, app_assoc. split; [done|]. intros wk Hs. rewrite elem_of_app.
    destruct (Hk1 true wk Hs) as [Hs2|[Hin|[? _]]]; [|tauto|done].
    destruct (Hk2 wk Hs2); tauto.
Qed.

(** No wakeup is lost between the halves: a reader that was told to wait
    on the libssl path has its waker in the shared slots with the socket armed
    for the shared waker, and whatever the writer's half does afterwards, that
    waker is still there or has been woken. *)
Theorem reader_never_forgotten fuel cx buf s s1 buf' s2 :
  write_ok s → reader_ok (ktls_reader s.1) → ktls_active s.1 = false →
  len (filled buf) ≤ capacity buf →
  poll_read fuel cx buf s = Done ((Pending, buf'), s1) →
  rtc writer_step s1 s2 →
  slot true s1.1 = Some cx ∧ socket_armed s1.2 ∧
  ∃ ks, v_woken (view s2.2) = v_woken (view s1.2) ++ ks ∧ (slot true s2.1 = Some cx ∨ cx ∈ ks).
Proof.
  intros Hok Hr Ha Hb E Hsteps.
  destruct (wp_done _ _ _ _ _ (wp_poll_read fuel cx buf s Hok Hr Hb) E)
    as ((Hok1 & _ & _ & _ & Hr1 & _) & _ & _ & _ & _ & Hp).
  rewrite Ha in Hp. destruct (Hp eq_refl) as [Hs Harm]. split; [done|]. split; [done|].
  destruct (writer_steps_kept _ _ Hsteps Hok1 Hr1) as (ks & Hv & Hk). exists ks. auto.
Qed.
End life.

(** ** Errors of the library *)

Section ssl_error.
Context {W : Type} `{AwsLcConsts, Strerror, ErrQueueLaws W, TokioTcp W, LibSsl W, Syscalls W}.

(** An unexpected end of file, as the library queues it. *)
Definition eof_entry (c : Z) : Prop :=
  err_lib c = ERR_LIB_SSL ∧ err_reason c = SSL_R_UNEXPECTED_EOF_WHILE_READING.

#[global] Instance eof_entry_dec c : Decision (eof_entry c).
Proof. unfold eof_entry. apply _. Defined.

(** C36. How a failed libssl call is reported: a system-call failure with an
    errno is that errno; a system-call failure without one, and a library
    error whose oldest queue entry is the unexpected end of file, are
    [UnexpectedEof] (a truncated connection never reads as a clean end);
    everything else is [Other].  The error queue is empty afterwards. *)
Theorem ssl_io_error_classifies op code (w : W) :
  ∃ e w', ssl_io_error op code w = Done (e, w') ∧ queue w' = [] ∧
    if decide (code = SSL_ERROR_SYSCALL) then
      if decide (errno w = 0) then kind e = UnexpectedEof else e = Os (errno w)
    else if decide (code = SSL_ERROR_SSL ∧ eof_entry (default 0 (head (queue w)))) then
      kind e = UnexpectedEof
    else ∃ m, e = Custom Other m.
Proof.
  destruct (last_error_run w) as (text & w' & El & Hq & _).
  unfold ssl_io_error, mbind, M_bind, gets. rewrite ERR_peek_error_spec, El.
  set (c := default 0 (head (queue w))).
  fold (err_lib c) (err_reason c).
  destruct (decide (code = SSL_ERROR_SYSCALL)) as [->|Hs].
  - rewrite Z.eqb_refl. destruct (decide (errno w = 0)) as [->|Hn].
    + eexists _, _. split; [reflexivity|]. done.
    + rewrite (proj2 (Z.eqb_neq _ _) Hn). eexists _, _. split; [reflexivity|]. done.
  - rewrite (proj2 (Z.eqb_neq _ _) Hs). destruct (decide _) as [[-> [Hl Hr]]|Hne].
    + rewrite Hl, Hr, !Z.eqb_refl. eexists _, _. split; [reflexivity|]. done.
    + destruct (_ && _ && _) eqn:Eb.
      { apply andb_prop in Eb as [[?%Z.eqb_eq ?%Z.eqb_eq]%andb_prop ?%Z.eqb_eq].
        by destruct Hne. }
      eexists _, _. split; [reflexivity|]. split; [done|]. by eexists.
Qed.
End ssl_error.

(** ** The handshake driver *)

Section handshake.
Context {W : Type} `{AwsLcConsts, Strerror, ErrQueue W, TokioTcp W, !TryIoLaws W, LibSsl W}.
Implicit Types w : W.

(** One round that must be repeated: the library wants the socket, the wait
    succeeds, and the stale readiness is cleared. *)
Definition stale (i : Interest) w : W := if io_ready i w then clear_ready i w else w.

Inductive hs_round : W → W → Prop :=
| hs_read w r w1 w2 :
    SSL_do_handshake w = (r, w1) → r ≠ 1 → SSL_get_error r w1 = SSL_ERROR_WANT_READ →
    readable w1 = (Ok tt, w2) → hs_round w (stale READABLE w2)
| hs_write w r w1 w2 :
    SSL_do_handshake w = (r, w1) → r ≠ 1 → SSL_get_error r w1 = SSL_ERROR_WANT_WRITE →
    writable w1 = (Ok tt, w2) → hs_round w (stale WRITABLE w2).

Lemma try_would_block i w :
  try_io i would_block w = Done (Err (Simple WouldBlock) : io_result unit, stale i w).
Proof. rewrite try_io_spec. unfold stale. by destruct (io_ready i w). Qed.

(** The world after the wait of one round, if there is one. *)
Definition hs_next (r : Z) w : option (Interest * W) :=
  if decide (SSL_get_error r w = SSL_ERROR_WANT_READ) then
    match readable w with (Ok _, w') => Some (READABLE, w') | _ => None end
  else if decide (SSL_get_error r w = SSL_ERROR_WANT_WRITE) then
    match writable w with (Ok _, w') => Some (WRITABLE, w') | _ => None end
  else None.

Lemma hs_unfold n w w'' :
  drive_handshake (S n) w = Done (Ok tt, w'') ↔
  (let '(r, w1) := SSL_do_handshake w in
   if decide (r = 1) then w1 = w''
   else match hs_next r w1 with
        | Some (i, w2) => drive_handshake n (stale i w2) = Done (Ok tt, w'')
        | None => False
        end).
Proof.
  cbn [drive_handshake]. unfold mbind, M_bind, ext, gets, hs_next.
  destruct (SSL_do_handshake w) as [r w1].
  destruct (Z.eqb_spec r 1); [rewrite decide_True by done; split; [by intros [= ->]|by intros ->]|].
  rewrite decide_False by done.
  destruct (Z.eqb_spec (SSL_get_error r w1) SSL_ERROR_WANT_READ).
  { rewrite decide_True by done. destruct (readable w1) as [[[]|] w2]; [|done].
    by rewrite try_would_block. }
  rewrite decide_False by done.
  destruct (Z.eqb_spec (SSL_get_error r w1) SSL_ERROR_WANT_WRITE).
  { rewrite decide_True by done. destruct (writable w1) as [[[]|] w2]; [|done].
    by rewrite try_would_block. }
  rewrite decide_False by done. case_match; [done|].
  destruct (last_error w1) as [[]| |]; split; done.
Qed.

Lemma hs_next_round r w w1 i w2 :
  SSL_do_handshake w = (r, w1) → r ≠ 1 → hs_next r w1 = Some (i, w2) → hs_round w (stale i w2).
Proof.
  unfold hs_next. intros Eh Hr Hn. destruct (decide _).
  - destruct (readable w1) as [[[]|] ?] eqn:E; simplify_eq. by eapply hs_read.
  - destruct (decide _); [|done].
    destruct (writable w1) as [[[]|] ?] eqn:E; simplify_eq. by eapply hs_write.
Qed.

Lemma hs_round_next `{!AwsLcConstsOk} w w' :
  hs_round w w' →
  ∃ r w1 i w2, SSL_do_handshake w = (r, w1) ∧ r ≠ 1 ∧ hs_next r w1 = Some (i, w2) ∧ w' = stale i w2.
Proof.
  intros Hr. assert (SSL_ERROR_WANT_READ ≠ SSL_ERROR_WANT_WRITE) as Hne.
  { pose proof ssl_errors_distinct as Hd. apply NoDup_cons in Hd as [_ [Hd _]%NoDup_cons].
    intros E. destruct Hd. rewrite E. apply elem_of_cons. by left. }
  destruct Hr as [w r w1 w2 E Hr Hg Hw|w r w1 w2 E Hr Hg Hw].
  - exists r, w1, READABLE, w2. split_and!; try done. unfold hs_next. by rewrite decide_True, Hw.
  - exists r, w1, WRITABLE, w2. split_and!; try done. unfold hs_next.
    rewrite decide_False, decide_True, Hw by congruence. done.
Qed.

(** C37. The handshake driver reports success exactly when the library does:
    after some number of rounds in which it waited for what the library asked
    for, [SSL_do_handshake] returned 1.  Fuel bounds the number of rounds. *)
Theorem handshake_succeeds_iff `{!AwsLcConstsOk} n w w'' :
  drive_handshake n w = Done (Ok tt, w'') ↔
  ∃ k w', (k < n)%nat ∧ nsteps hs_round k w w' ∧ SSL_do_handshake w' = (1, w'').
Proof.
  revert w. induction n as [|n IH]; intros w.
  { split; [done|]. intros (k & _ & ? & _). lia. }
  rewrite hs_unfold. split.
  - intros Hd. destruct (SSL_do_handshake w) as [r w1] eqn:Eh.
    destruct (decide (r = 1)) as [->|Hr].
    { subst w1. exists 0%nat, w. split_and!; [lia|constructor|done]. }
    destruct (hs_next r w1) as [[i w2]|] eqn:En; [|by destruct Hd].
    apply IH in Hd as (k & w' & Hk & Hs & Hf). exists (S k), w'.
    split; [lia|]. split; [|done]. econstructor; [|done]. by eapply hs_next_round.
  - intros (k & w' & Hk & Hs & Hf). destruct k as [|k].
    + inversion Hs; subst. rewrite Hf. by rewrite decide_True.
    + inversion Hs as [|? ? w1 ? Hr Hs']; subst. apply hs_round_next in Hr as (r & w2 & i & w3 & -> & Hne & -> & ->).
      rewrite decide_False by done. apply IH. exists k, w'. split_and!; [lia|done..].
Qed.
End handshake.

(** ** Automatic installation *)

Section auto.
Context {W : Type} `{NetView W, !Strerror, SslSession W, Kdf W, !KdfView W, !KdfLaws W}.
Implicit Types (w : W) (s : TlsStream * W).

Definition auto_post s (r : Result unit) s' : Prop :=
  ∃ log, v_opts (view s'.2) = v_opts (view s.2) ++ log ∧ opts_only (view s.2) (view s'.2) ∧
    match r with
    | Ok _ =>
        (s'.1 = s.1 ∧ Forall (λ o, ¬ accepted o) log) ∨
        (s'.1 = with_active s.1 ∧ ktls_disabled s.1 = false ∧ SSL_has_pending s.2 = 0 ∧
         ∃ c i, detect s.2 = Some c ∧ derived c s.2 i ∧ install_log i (Ok tt) log)
    | Err e => s'.1 = s.1
    end.

Lemma install_log_fallback i k log :
  install_log i (Err k) log →
  match k with
  | KUnsupported | IneligibleCipher _ _ | TlsUlpUnavailable _ | SocketUnattachable _
  | CryptoUnavailable _ => Forall (λ o, ¬ accepted o) log
  | _ => True
  end.
Proof.
  inversion 1 as [|r0 e Hr|r0 r1 e Hr0 Hr1|r0 r1 r2 e Hr0 Hr1 Hr2]; subst.
  - assert (Forall (λ o, ¬ accepted o) [opt_ulp r0]) as Hf.
    { repeat constructor. intros [Hl _]. done. }
    by destruct (classify_ulp_error (Os e)).
  - repeat constructor; intros [Hl Hn]; [done|lia].
  - done.
Qed.

Lemma wp_try_auto_install s : wp try_auto_install_ktls (auto_post s) s.
Proof.
  destruct s as [t w]. unfold try_auto_install_ktls, auto_install_with. do 2 wp_step. cbn [fst].
  assert (auto_post (t, w) (Ok tt) (t, w)) as Hskip.
  { exists []. rewrite app_nil_r. split_and!; try done. by left. }
  destruct (ktls_active t || ktls_disabled t) eqn:Ead; [by wp_step|].
  apply orb_false_elim in Ead as [_ Hd].
  wp_step. apply wp_lift. unfold check_no_buffered_plaintext. cbn [fst snd]. do 2 wp_step.
  destruct (Z.eqb_spec (SSL_has_pending w) 0) as [Hpd|]; cbn [negb]; [|by do 4 wp_step].
  do 3 wp_step. cbn [fst snd]. eapply wp_mono; [apply wp_install_ktls|].
  intros r w' (log & Ho & Hoo & Hp).
  assert (∀ e, auto_post (t, w) (Err e) (t, w')) as Herr by (intros e; by exists log).
  assert (Forall (λ o, ¬ accepted o) log → auto_post (t, w) (Ok tt) (t, w')) as Hback.
  { intros Hf. exists log. split_and!; try done. by left. }
  destruct (detect w) as [c|] eqn:Ed.
  - destruct Hp as [[-> [m ->]]|(i & [[]|k] & Hdv & Hl & ->)]; cbn [map_err].
    + wp_step. apply Herr.
    + do 3 wp_step. cbn [fst snd]. exists log. split_and!; try done. right. cbn [fst snd].
      split_and!; try done. by exists c, i.
    + apply install_log_fallback in Hl. destruct k; wp_step; auto.
  - destruct Hp as [-> (v & c & ->)]. wp_step. by apply Hback.
Qed.

Lemma returns_try_auto_install : returns (try_auto_install_ktls : M (TlsStream * W) (Result unit)).
Proof.
  pose proof returns_install_ktls. unfold try_auto_install_ktls, auto_install_with, check_no_buffered_plaintext.
  returns_tac; done.
Qed.

(** C7. What a stream does with kernel TLS after the handshake: automatic
    installation returns, and when it reports success the stream is in one of
    two states.  Either it stays on the libssl path, and then the kernel has
    accepted no keys for either direction; or it moves to the kernel path, and
    then installation was not disabled, the library held no buffered data, and
    the kernel accepted the keys derived from this session for both directions,
    reception first.  An error leaves the stream off the kernel path, to be
    dropped. *)
Theorem auto_install_safe s :
  ∃ r s', try_auto_install_ktls s = Done (r, s') ∧ auto_post s r s'.
Proof.
  apply wp_returns; [apply returns_try_auto_install|apply wp_try_auto_install].
Qed.
End auto.

(** ** Witnesses: a stream in the scripted world *)

(** A stream whose first write blocks: the library wants the socket. *)
Definition stuck : TlsStream * Sim :=
  (with_pending (bytes_of "hello") (new_stream false),
   with_view (v_with_write [] (Some (bytes_of "hello"))) (sim0 [])).

(** A fresh stream on a socket that behaves as scripted. *)
Definition start (script : list Event) : TlsStream * Sim := (new_stream false, sim0 script).

Lemma stuck_ok : write_ok stuck.
Proof. split_and!; done. Qed.

Lemma start_ok script : write_ok (start script).
Proof. split_and!; done. Qed.

Lemma poll_write_total_witness :
  ∃ s', poll_write 5 (TaskWaker 1) (bytes_of "hello") (start [EvWrite (Some 3) []]) = Done (Ready (Ok 5), s') ∧
    taken s' = taken (start [EvWrite (Some 3) []]) ++ bytes_of "hello" ∧ pending_write s'.1 = bytes_of "hello".
Proof.
  destruct (poll_write_total 5 (TaskWaker 1) (bytes_of "hello") (start [EvWrite (Some 3) []]))
    as (p & s' & E & _ & _ & Hp); [apply start_ok|apply reader_ok_default|vm_compute; first [lia|done]|].
  exists s'. assert (p = Ready (Ok 5)) as -> by (vm_compute in E; congruence).
  split; [exact E|]. split; [apply Hp|]. by vm_compute in E; injection E as <-.
Defined.

Lemma poll_read_total_witness :
  ∃ s', poll_read 5 (TaskWaker 1) buf8 (start [EvRead (inl (bytes_of "data"))])
        = Done ((Ready (Ok tt), {| filled := bytes_of "data"; capacity := 8 |}), s') ∧
    taken s' = [].
Proof.
  destruct (poll_read_total 5 (TaskWaker 1) buf8 (start [EvRead (inl (bytes_of "data"))]))
    as (res & s' & E & _ & Ht & _);
    [apply start_ok|apply reader_ok_default|vm_compute; first [lia|done]|vm_compute; first [lia|done]|].
  exists s'. split; [|exact Ht]. vm_compute in E. by injection E as <- <-.
Defined.

Lemma poll_flush_total_witness :
  ∃ s', poll_flush 5 (TaskWaker 1) (stuck.1, with_script [EvWrite None []] stuck.2)
        = Done (Ready (Ok tt), s') ∧ v_sent (view s'.2) = bytes_of "hello".
Proof.
  destruct (poll_flush_total 5 (TaskWaker 1) (stuck.1, with_script [EvWrite None []] stuck.2))
    as (p & s' & E & _ & _ & _ & Hp); [apply stuck_ok|vm_compute; first [lia|done]|].
  exists s'. assert (p = Ready (Ok tt)) as -> by (vm_compute in E; congruence).
  split; [exact E|]. apply (Hp tt eq_refl).
Defined.



Lemma read_despite_backpressure_witness :
  ∃ buf' s', poll_read 1 (TaskWaker 1) buf8
      (stuck.1, with_script [EvWrite (Some 3) []; EvReady Pending; EvRead (inl [x61; x62])] stuck.2)
      = Done ((Ready (Ok tt), buf'), s') ∧ filled buf' = [x61; x62].
Proof.
  edestruct (read_despite_backpressure 0 (TaskWaker 1) buf8
    (stuck.1, with_script [EvWrite (Some 3) []; EvReady Pending; EvRead (inl [x61; x62])] stuck.2))
    as (buf' & E & Hf);
    [done|vm_compute; first [lia|done]|vm_compute; reflexivity|vm_compute; reflexivity|vm_compute; reflexivity|].
  eexists buf', _. split; [exact E|]. rewrite Hf. reflexivity.
Defined.

Lemma stream_fifo_witness :
  ∃ s, polls (start [EvWrite None []; EvWrite (Some 3) []]) [Wrote (bytes_of "hello"); Wrote (bytes_of "you")] s ∧
    v_sent (view s.2) ++ pending_write s.1 = bytes_of "helloyou" ∧ pending_write s.1 = bytes_of "you".
Proof.
  eexists. split; [|split].
  - eapply (polls_write 3 (TaskWaker 0) (bytes_of "hello") _ (Ready (Ok 5)));
      [vm_compute; reflexivity|].
    eapply (polls_write 3 (TaskWaker 0) (bytes_of "you") _ (Ready (Ok 3)));
      [vm_compute; reflexivity|]. apply polls_nil.
  - edestruct (stream_fifo (start [EvWrite None []; EvWrite (Some 3) []])
                 [Wrote (bytes_of "hello"); Wrote (bytes_of "you")]) as [Hs _]; [done| |exact Hs].
    eapply (polls_write 3 (TaskWaker 0) (bytes_of "hello") _ (Ready (Ok 5)));
      [vm_compute; reflexivity|].
    eapply (polls_write 3 (TaskWaker 0) (bytes_of "you") _ (Ready (Ok 3)));
      [vm_compute; reflexivity|]. apply polls_nil.
  - reflexivity.
Defined.

Lemma reader_never_forgotten_witness :
  ∃ s1 s2 buf', poll_read 3 (TaskWaker 7) buf8 (start [EvRead (inr 2); EvReady Pending])
      = Done ((Pending, buf'), s1) ∧ rtc writer_step s1 s2 ∧ slot true s2.1 = Some (TaskWaker 7).
Proof.
  eexists _, _, _. split; [vm_compute; reflexivity|]. split.
  - eapply rtc_once. left. exists 3%nat, (TaskWaker 1), [x61]. eexists. vm_compute. reflexivity.
  - edestruct (reader_never_forgotten 3 (TaskWaker 7) buf8 (start [EvRead (inr 2); EvReady Pending]))
      as (Hs & _ & _); [apply start_ok|apply reader_ok_default|done|vm_compute; first [lia|done]
      |vm_compute; reflexivity|apply rtc_refl|]. exact Hs.
Defined.

Lemma ssl_io_error_classifies_witness :
  ∃ e w', ssl_io_error "SSL_read" 1 (with_errs (λ _, [Z.shiftl 16 24 + 509]) (sim0 [])) = Done (e, w') ∧
    kind e = UnexpectedEof.
Proof.
  destruct (ssl_io_error_classifies "SSL_read" 1 (with_errs (λ _, [Z.shiftl 16 24 + 509]) (sim0 [])))
    as (e & w' & E & _ & Hk).
  exists e, w'. split; [exact E|]. vm_compute in Hk. exact Hk.
Defined.

Lemma handshake_succeeds_iff_witness :
  ∃ w'', drive_handshake 3 (sim0 [EvHandshake (-1) 2; EvReady (Ready (Ok tt)); EvHandshake 1 0])
         = Done (Ok tt, w'').
Proof.
  eexists. apply handshake_succeeds_iff.
  exists 1%nat. eexists. split; [lia|]. split.
  - eapply nsteps_l; [|apply nsteps_O].
    eapply hs_read; [reflexivity|done|reflexivity|reflexivity].
  - vm_compute. reflexivity.
Defined.

Lemma auto_install_safe_witness :
  ∃ s', try_auto_install_ktls (start []) = Done (Ok tt, s') ∧ ktls_active s'.1 = true ∧
    auto_post (start []) (Ok tt) s'.
Proof.
  destruct (auto_install_safe (start [])) as (r & s' & E & Hp).
  assert (r = Ok tt) as -> by (vm_compute in E; congruence).
  exists s'. split; [exact E|]. split; [|exact Hp]. by vm_compute in E; injection E as <-.
Defined.
