(* ===== verification/Portable.v ===== *)
(** * Where kernel TLS is not used

    The installer of targets other than Linux, the probe for host support, and what
    [ktls_eligibility] promises about installation on Linux. *)

From S2P Require Import Prelude Std Env Sim Errors Alpn Suites Session RecordIo CryptoInfo Install Stream StreamProps.

Local Open Scope Z_scope.

(** ** Other targets *)

Section portable.
Context {W : Type} `{AwsLcConsts, ErrQueue W, LibSsl W, Syscalls W, Kdf W, SslSession W}.

(** [install_ktls] under [cfg(not(target_os = "linux"))]. *)
Definition install_ktls_other : M W (Result unit) :=
  let* c := gets detect in
  match c with
  | None =>
      let* elig := gets KtlsEligibility_from_ssl in
      mret (Err (Ktls (IneligibleCipher (ke_tls_version elig) (ke_cipher elig))))
  | Some _ => mret (Err (Ktls KUnsupported))
  end.

(** The installer of a target. *)
Definition install_ktls_on (linux : bool) : M W (Result unit) :=
  if linux then install_ktls else install_ktls_other.

(** [host_ktls_available]; [exists_path] is [Path::exists]. *)
Definition host_ktls_available (linux : bool) (exists_path : string → W → bool) (w : W) : bool :=
  if linux then exists_path "/proc/net/tls_stat" w else false.

(** On a target other than Linux automatic installation always succeeds by doing
    nothing: it makes no call that could change the socket, and the stream stays
    on the libssl path. *)
Theorem other_targets_stay_userspace (s : TlsStream * W) :
  twp (auto_install_with (install_ktls_on false)) (λ r s', r = Ok tt ∧ s' = s) s.
Proof.
  destruct s as [t w]. unfold auto_install_with, check_no_buffered_plaintext, install_ktls_on,
    install_ktls_other. do 2 twp_step. cbn [fst snd].
  destruct (ktls_active t || ktls_disabled t); [by twp_step|]. do 4 twp_step. cbn [fst snd].
  destruct (negb (SSL_has_pending w =? 0)); [by do 4 twp_step|]. do 5 twp_step. cbn [fst snd].
  destruct (detect w); [by do 2 twp_step|]. by do 4 twp_step.
Qed.
End portable.

(** ** Eligibility *)

Section eligibility.
Context {W : Type} `{NetView W, !AwsLcConstsOk, SslSession W, Kdf W, !KdfView W, !KdfLaws W}.
Implicit Types w : W.

(** C35. [ktls_eligibility] says what installation will do: a session it calls
    incompatible is refused with its version and cipher in the error and without
    a word to the kernel; a compatible one is never refused for its cipher, and
    unless key derivation fails the kernel is asked first to attach the [tls]
    protocol. *)
Theorem eligibility_decides w :
  twp install_ktls
    (λ r w', let e := KtlsEligibility_from_ssl w in
       ∃ log, v_opts (view w') = v_opts (view w) ++ log ∧
       if compatible e then
         (∀ v c, r ≠ Err (Ktls (IneligibleCipher v c))) ∧
         ((∃ m, r = Err (Init m)) ∧ log = [] ∨ ∃ r0 rest, log = opt_ulp r0 :: rest)
       else r = Err (Ktls (IneligibleCipher (ke_tls_version e) (ke_cipher e))) ∧ log = []) w.
Proof.
  cbn zeta. destruct (detect w) as [c|] eqn:Ed.
  - apply twp_wp; [apply returns_install_ktls|]. eapply wp_mono; [apply wp_install_ktls|].
    intros r w' (log & Ho & _ & Hp). exists log. split; [done|]. cbn. rewrite Ed in *.
    destruct Hp as [[-> [m ->]]|(i & r0 & _ & Hl & ->)].
    + split; [done|]. left. eauto.
    + split; [|right; inversion Hl; eauto].
      intros v c'. inversion Hl; subst; cbn; try done. intros [= E]. revert E.
      unfold classify_ulp_error. cbn. by repeat case_match.
  - unfold install_ktls. do 2 twp_step. rewrite Ed. do 3 twp_step. exists [].
    rewrite app_nil_r. split; [done|]. cbn. by rewrite Ed.
Qed.
End eligibility.

(** The simulated session is one that can be offloaded. *)
Lemma eligibility_decides_witness :
  compatible (KtlsEligibility_from_ssl (sim0 [])) = true ∧
  twp install_ktls (λ r _, ∀ v c, r ≠ Err (Ktls (IneligibleCipher v c))) (sim0 []).
Proof.
  assert (compatible (KtlsEligibility_from_ssl (sim0 [])) = true) as Hc by (vm_compute; reflexivity).
  split; [exact Hc|]. eapply twp_mono; [exact (eligibility_decides (sim0 []))|].
  intros r w' (log & _ & Hr). rewrite Hc in Hr. exact (proj1 Hr).
Defined.
