(* ===== verification/Delivery.v ===== *)
(** * End to end: what one end writes is what the other end reads

    The receive half of [TlsStream::poll_read] on both data paths, and the
    composition of two streams over a TLS connection. *)

From S2P Require Import Prelude Std Env Objects Sim Errors Alpn Suites Session RecordIo RecordSpec CryptoInfo Install Stream StreamSpec StreamProps.

Local Open Scope Z_scope.

Section receive.
Context {W : Type} `{NetView W, !Strerror, !SslReadLaws W}.
Implicit Types (w : W) (s : TlsStream * W).

(** ** What a connection brings in

    The application bytes: those the record specification reads out of the
    [recvmsg] results, or those [SSL_read] returned. *)
Definition incoming s : list byte :=
  if ktls_active s.1 then (rx_run RxOpen (v_rx (view s.2))).1 else v_read (view s.2).

(** The peer's [close_notify] was received. *)
Definition close_received s : Prop :=
  if ktls_active s.1 then (rx_run RxOpen (v_rx (view s.2))).2 = RxClosed
  else v_zero (view s.2) = true.

(** What the connection was given to send. *)
Definition outgoing s : list byte :=
  if ktls_active s.1 then v_raw (view s.2) else v_sent (view s.2).

(** A step that hears [bytes], and the close if [eof]. *)
Definition heard (bytes : list byte) (eof : bool) s s' : Prop :=
  ktls_active s'.1 = ktls_active s.1 ∧
  if ktls_active s.1 then
    ∀ st, reader_tracks (ktls_reader s.1) st →
      ∃ es st', v_rx (view s'.2) = v_rx (view s.2) ++ es ∧ rx_run st es = (bytes, st') ∧
        reader_tracks (ktls_reader s'.1) st' ∧ (eof = true → st' = RxClosed)
  else
    v_read (view s'.2) = v_read (view s.2) ++ bytes ∧
    (v_zero (view s.2) = true ∨ eof = true → v_zero (view s'.2) = true).

Lemma heard_rx_same s s' :
  ktls_active s'.1 = ktls_active s.1 → rx_same s s' → heard [] false s s'.
Proof.
  intros Ha [Hr [= Hx Hrd Hz]]. split; [done|]. destruct (ktls_active s.1).
  - intros st Hst. exists [], st. by rewrite app_nil_r, Hr.
  - rewrite app_nil_r, Hz. split; [done|]. by intros [?|?].
Qed.

Lemma heard_trans bytes eof s1 s2 s3 :
  heard [] false s1 s2 → heard bytes eof s2 s3 → heard bytes eof s1 s3.
Proof.
  intros [Ha H12] [Ha' H23]. split; [congruence|]. rewrite Ha in H23. destruct (ktls_active s1.1).
  - intros st Hst. destruct (H12 st Hst) as (es1 & st1 & Hx1 & Hr1 & Ht1 & _).
    destruct (H23 st1 Ht1) as (es2 & st2 & Hx2 & Hr2 & Ht2 & He). exists (es1 ++ es2), st2.
    by rewrite Hx2, Hx1, app_assoc, rx_run_app, Hr1, Hr2.
  - destruct H12 as [Hr1 Hz1], H23 as [Hr2 Hz2]. rewrite app_nil_r in Hr1.
    rewrite Hr2, Hr1. split; [done|]. intros [Hz|He]; apply Hz2; auto.
Qed.

Lemma heard_quiet reader cx s1 s2 s3 :
  heard [] false s1 s2 → quiet reader cx s2 s3 → ktls_active s3.1 = ktls_active s2.1 →
  heard [] false s1 s3.
Proof.
  intros Hh Hq Ha. eapply heard_trans; [exact Hh|]. apply heard_rx_same; [done|]. by eapply rx_same_quiet.
Qed.

(** ** One read *)

(** The bytes a read adds to the buffer, and whether it reports the end. *)
Definition added (buf buf' : ReadBuf) : list byte := drop (length (filled buf)) (filled buf').

Definition reads_end (buf : ReadBuf) (res : poll (io_result unit) * ReadBuf) : bool :=
  match res.1 with
  | Ready (Ok _) => is_empty (added buf res.2) && negb (remaining buf =? 0)
  | _ => false
  end.

Definition read_heard (buf : ReadBuf) s (res : poll (io_result unit) * ReadBuf) s' : Prop :=
  heard (added buf res.2) (reads_end buf res) s s'.

Lemma added_app buf bytes c : added buf {| filled := filled buf ++ bytes; capacity := c |} = bytes.
Proof. unfold added. cbn [filled]. by rewrite drop_app_length. Qed.

Lemma added_same buf : added buf buf = [].
Proof. unfold added. by rewrite drop_all. Qed.

Lemma read_heard_nothing buf s s' p :
  heard [] false s s' → (∀ u, p ≠ Ready (Ok u)) → read_heard buf s (p, buf) s'.
Proof.
  intros Hh Hp. unfold read_heard, reads_end. cbn [fst snd]. rewrite added_same.
  destruct p as [[u|]|]; [by destruct (Hp u)|done..].
Qed.

Lemma prefix_buffer n c c' bytes :
  0 ≤ n ≤ c → c ≤ c' → prefix n (buffer c' bytes) = prefix n (buffer c bytes).
Proof.
  intros Hn Hc. unfold buffer, prefix. rewrite !take_take, !Nat.min_l by lia.
  replace (Z.to_nat c') with (Z.to_nat c + (Z.to_nat c' - Z.to_nat c))%nat by lia.
  rewrite repeat_app, app_assoc, take_app_le; [done|]. rewrite length_app, repeat_length. lia.
Qed.

Lemma wp_read_loop_heard fuel cx buf s :
  ktls_active s.1 = false → len (filled buf) ≤ capacity buf →
  wp (read_loop fuel cx buf) (read_heard buf s) s.
Proof.
  revert s. induction fuel as [|fuel IH]; intros [t w] Ha Hb; [done|].
  cbn [read_loop]. cbn [fst snd] in *. destruct (Z.eqb_spec (remaining buf) 0) as [Hz|Hnz].
  { wp_step. unfold read_heard, reads_end. cbn [fst snd]. rewrite added_same, Hz. cbn.
    by apply heard_rx_same. }
  assert (0 < remaining buf) as Hrem by (unfold remaining in *; lia).
  do 3 wp_step. cbn [fst snd] in *. destruct a as [n bytes].
  match goal with E : SSL_read _ _ = (_, ?y) |- _ => rename y into w1, E into Er end.
  apply SSL_read_bound in Er as Hn; [|unfold c_int_max; lia].
  apply view_SSL_read in Er as Hv. destruct (Z.ltb_spec 0 n) as [Hpos|Hneg].
  - destruct (Z.ltb_spec (remaining buf) n); [lia|]. wp_step. unfold advance.
    assert (len (prefix n (buffer (remaining buf) bytes)) = n) as Hl
      by (apply len_prefix; rewrite len_buffer; lia).
    rewrite Hl. destruct (Z.ltb_spec (capacity buf) (len (filled buf) + n)).
    { unfold remaining in *. lia. }
    do 2 wp_step. unfold read_heard, reads_end. cbn [fst snd]. rewrite added_app.
    rewrite (prefix_buffer n (Z.min (remaining buf) c_int_max)) by (unfold c_int_max in *; lia).
    split; [done|]. cbn [fst snd]. rewrite Ha, Hv. split; [done|]. cbn.
    intros [?|He]; [done|]. apply andb_prop in He as [He _]. apply is_empty_true in He.
    rewrite (prefix_buffer n (Z.min (remaining buf) c_int_max)), He in Hl by (unfold c_int_max in *; lia).
    change (len []) with 0 in Hl. lia.
  - do 3 wp_step. cbn [fst snd]. destruct (Z.eqb_spec (SSL_get_error n w1) SSL_ERROR_ZERO_RETURN).
    { wp_step. unfold read_heard, reads_end. cbn [fst snd]. rewrite added_same.
      destruct (Z.eqb_spec (remaining buf) 0); [lia|]. split; [done|]. cbn [fst snd].
      rewrite Ha, Hv, app_nil_r. by split. }
    assert (heard [] false (t, w) (t, w1)) as Hh.
    { apply heard_rx_same; [done|]. by apply rx_same_view. }
    destruct (wants_io _).
    + wp_step. apply wp_poll_ssl_ready. intros p s2 Hew Hv2 Hq _. cbn [fst snd] in *.
      destruct (except_waiters_fields _ _ Hew) as (_ & _ & _ & Ha2). cbn [fst] in Ha2. rewrite Ha in Ha2.
      assert (heard [] false (t, w) s2) as Hh2 by (eapply heard_quiet; [exact Hh|exact Hq|cbn [fst]; congruence]).
      destruct p as [[[]|e]|].
      * eapply wp_mono; [by apply IH|]. intros res s3. by apply heard_trans.
      * wp_step. by apply read_heard_nothing.
      * wp_step. by apply read_heard_nothing.
    + do 2 wp_step. cbn [fst snd]. apply wp_ssl_io_error. intros e w2 Hv2. wp_step.
      apply read_heard_nothing; [|done]. eapply heard_trans; [exact Hh|].
      apply heard_rx_same; [done|]. by apply rx_same_view.
Qed.

(** A read delivers exactly what the connection brought in, and reports the end
    of the stream only for a close that was received. *)
Lemma wp_poll_read_heard fuel cx buf s :
  write_ok s → reader_ok (ktls_reader s.1) → len (filled buf) ≤ capacity buf →
  wp (poll_read fuel cx buf) (read_heard buf s) s.
Proof.
  intros Hok Hr Hb. unfold poll_read. do 2 wp_step.
  destruct (Z.eqb_spec (remaining buf) 0) as [Hz|Hnz].
  { wp_step. unfold read_heard, reads_end. cbn [fst snd]. rewrite added_same, Hz. cbn.
    by apply heard_rx_same. }
  destruct (ktls_active s.1) eqn:Ha.
  - destruct s as [t w]. cbn [fst] in *. apply wp_intro.
    + intros msg. eapply wp_no_panic. apply wp_ktls_read; try done. unfold remaining in *. lia.
    + intros [p buf'] [t' w'] E. unfold on_reader in E. cbn [fst snd] in E.
      destruct (RecordReader_poll_read cx buf (ktls_reader t, w)) as [[[p1 b1] [r' w1]]| |] eqn:Ep;
        [|done..]. injection E as -> -> <- ->.
      split; [done|]. cbn [fst snd]. rewrite Ha. intros st Hst.
      destruct (poll_read_tracks cx buf _ w st p buf' (r', w') Hr Hst ltac:(unfold remaining in *; lia) Ep)
        as (es & bytes & st' & Hx & Hrun & Hf & _ & Ht & He). cbn [fst snd] in *.
      exists es, st'. unfold reads_end. cbn [fst snd].
      assert (added buf buf' = bytes) as -> by (unfold added; by rewrite Hf, drop_app_length).
      split_and!; try done. destruct p as [[u|]|]; [|done..].
      intros [Hbs _]%andb_prop. apply is_empty_true in Hbs. by eapply He.
  - wp_step. eapply wp_mono; [by apply wp_poll_pending_write|]. intros p s1 Hf.
    pose proof (flush_post_op _ _ _ _ _ Hf Hr) as (_ & Ha1 & _).
    destruct Hf as (Hq & _). apply rx_same_quiet in Hq.
    assert (heard [] false s s1) as Hh by by apply heard_rx_same.
    destruct p as [[[]|e]|].
    2: { wp_step. by apply read_heard_nothing. }
    all: eapply wp_mono; [apply wp_read_loop_heard; [by rewrite Ha1|done]|];
      intros res s2; by apply heard_trans.
Qed.

(** ** The whole life of the receive half *)

(** A connection on which nothing was received yet. *)
Definition silent s : Prop := rx_view (view s.2) = ([], [], false).

Definition hears s (log : list IoEvent) : Prop :=
  incoming s = got log ∧
  (ktls_active s.1 = true →
   reader_tracks (ktls_reader s.1) (rx_run RxOpen (v_rx (view s.2))).2) ∧
  (GotEof ∈ log → close_received s).

Lemma rx_run_closed es : rx_run RxClosed es = ([], RxClosed).
Proof.
  induction es as [|e es IH]; [done|]. simpl. unfold rx_entry, rx_step.
  destruct (entry_result e); by rewrite IH.
Qed.

Lemma got_app log log' : got (log ++ log') = got log ++ got log'.
Proof. unfold got. by rewrite bind_app. Qed.

Lemma hears_heard s s' log bytes eof e :
  hears s log → heard bytes eof s s' → got [e] = bytes → (e = GotEof → eof = true) →
  hears s' (log ++ [e]).
Proof.
  intros (Hi & Ht & Hc) [Ha Hh] Hg He. unfold hears, incoming, close_received in *.
  rewrite Ha, got_app, Hg. setoid_rewrite elem_of_app. rewrite list_elem_of_singleton.
  destruct (ktls_active s.1).
  - destruct (Hh _ (Ht eq_refl)) as (es & st & Hx & Hrun & Htr & Hcl).
    rewrite Hx, rx_run_app. destruct (rx_run RxOpen (v_rx (view s.2))) as [b st0] eqn:E0.
    cbn [fst snd] in *. rewrite Hrun. cbn [fst snd]. split_and!; [by rewrite Hi|done|].
    intros [Hin|Heq]; [|by apply Hcl, He].
    rewrite (Hc Hin), rx_run_closed in Hrun. by injection Hrun as _ <-.
  - destruct Hh as [Hr Hz]. rewrite Hr, Hi. split_and!; try done.
    intros [Hin|Heq]; apply Hz; auto.
Qed.

Lemma hears_quiet s s' log : hears s log → heard [] false s s' → hears s' log.
Proof.
  intros Hh Hq. pose proof (hears_heard s s' log [] false (Got []) Hh Hq eq_refl) as (Hi & Ht & Hc);
    [done|]. rewrite got_app, app_nil_r in Hi. split_and!; try done.
  intros Hin. apply Hc, elem_of_app. by left.
Qed.

Lemma hears_wrote s log bytes : hears s log → hears s (log ++ [Wrote bytes]).
Proof.
  intros (Hi & Ht & Hc). split_and!; [by rewrite got_app, app_nil_r|done|].
  intros [Hin|Hin]%elem_of_app; [auto|]. by apply list_elem_of_singleton in Hin.
Qed.

Lemma read_event_got buf res : got [read_event buf res] = added buf res.2.
Proof.
  unfold read_event. fold (added buf res.2).
  destruct (res.1) as [[]|]; [case_match eqn:E|..]; cbn; rewrite ?app_nil_r; try done.
  apply andb_prop in E as [E _]. by apply is_empty_true in E.
Qed.

Lemma read_event_eof buf res : read_event buf res = GotEof → reads_end buf res = true.
Proof.
  unfold read_event, reads_end. fold (added buf res.2).
  destruct (res.1) as [[]|]; [by case_match|done..].
Qed.

Lemma polls_hears s0 s log0 log s' bytes0 :
  polls s log s' → alive s0 s bytes0 → hears s log0 → hears s' (log0 ++ log).
Proof.
  intros Hp. revert log0 bytes0.
  induction Hp as [s|fuel cx buf s p s' log s'' E _ IH|fuel cx s p s' log s'' E _ IH
    |fuel cx s p s' log s'' E _ IH|fuel cx buf s res s' log s'' Hb E _ IH|t w w' log s Htx Hrx _ IH];
    intros log0 bytes0 Hal Hh; pose proof Hal as (Hok & Hr & _).
  - by rewrite app_nil_r.
  - destruct (wp_done _ _ _ _ _ (wp_poll_write fuel cx buf s Hok Hr) E) as (Hp & _ & _ & Hrx).
    assert (∃ more, op_ok false cx s more s') as [more Hop].
    { destruct p as [[]|]; [destruct Hp as [_ Hp]|..]; by eexists. }
    rewrite cons_middle, app_assoc. eapply IH; [by eapply alive_op|]. apply hears_wrote.
    eapply hears_quiet; [done|]. apply heard_rx_same; [|done]. by destruct Hop as (_ & ? & _).
  - pose proof (wp_done _ _ _ _ _ (wp_poll_pending_write fuel false cx s Hok) E) as Hf.
    pose proof (flush_post_op _ _ _ _ _ Hf Hr) as Hop. destruct Hf as (Hq & _).
    eapply IH; [by eapply alive_op|]. eapply hears_quiet; [done|].
    apply heard_rx_same; [by destruct Hop as (_ & ? & _)|by eapply rx_same_quiet].
  - destruct (wp_done _ _ _ _ _ (wp_poll_shutdown fuel cx s Hok Hr) E) as [[Hop Hrx] _].
    eapply IH; [by eapply alive_op|]. eapply hears_quiet; [done|].
    apply heard_rx_same; [by destruct Hop as (_ & ? & _)|done].
  - destruct (wp_done _ _ _ _ _ (wp_poll_read fuel cx buf s Hok Hr Hb) E) as [Hop _].
    pose proof (wp_done _ _ _ _ _ (wp_poll_read_heard fuel cx buf s Hok Hr Hb) E) as Hrd.
    rewrite cons_middle, app_assoc. eapply IH; [by eapply alive_op|].
    eapply hears_heard; [done|exact Hrd|apply read_event_got|apply read_event_eof].
  - eapply IH; [by eapply alive_env|]. eapply hears_quiet; [done|]. by apply heard_rx_same.
Qed.

Lemma silent_hears s : fresh s → silent s → hears s [].
Proof.
  intros (_ & _ & _ & Hr & _) [= Hx Hrd Hz]. unfold hears, incoming. rewrite Hx, Hr.
  split_and!; [by destruct (ktls_active s.1)|by left|]. by intros ?%elem_of_nil.
Qed.

(** C21. What a stream's reader gets, on both data paths and over any sequence of
    polls by both halves: exactly the application bytes the connection brought
    in (the payloads of the application records of the kernel path, the results
    of [SSL_read] otherwise), in order and once.  End of stream is reported only
    after the peer's [close_notify] was received. *)
Theorem stream_reads s0 log s :
  fresh s0 → silent s0 → polls s0 log s →
  got log = incoming s ∧ (GotEof ∈ log → close_received s).
Proof.
  intros Hf Hs Hp.
  destruct (polls_hears _ _ [] _ _ _ Hp (fresh_alive s0 Hf) (silent_hears s0 Hf Hs)) as (Hi & _ & Hc).
  by split.
Qed.
End receive.

(** ** The write half is drained before it is shut down *)

Section drained.
Context {W : Type} `{NetView W, !Strerror, !SslReadLaws W}.
Implicit Types (w : W) (s : TlsStream * W).

Local Abbreviation pending := (λ s : TlsStream * W, pending_write s.1).

Lemma pending_notify : preserves pending notify.
Proof.
  intros [t w] a s'. unfold notify, mbind, M_bind, self. cbn [fst].
  destruct (waiters t) as [ws|]; [|by intros [= _ <-]]. unfold set_self. cbn [snd].
  intros E. by apply (preserves_lift_fst pending_write) in E.
Qed.

Lemma pending_poll_ssl_ready code cx reader : preserves pending (poll_ssl_ready code cx reader).
Proof.
  intros [t w] a s'. unfold poll_ssl_ready, mbind, M_bind, self, set_self. cbn [fst snd].
  by case_match; intros E; apply (preserves_lift_fst pending_write) in E.
Qed.

Lemma pending_fail_write {A} e : preserves pending (fail_write e : M _ (poll (io_result A))).
Proof.
  pose proof pending_notify. unfold fail_write, write_failure. preserves_tac.
Qed.

Lemma pending_read_loop fuel cx buf : preserves pending (read_loop fuel cx buf).
Proof.
  pose proof pending_poll_ssl_ready. revert buf.
  induction fuel as [|fuel IH]; intros buf; [by intros ? ? ? ?|]. cbn [read_loop]. unfold advance.
  preserves_tac.
Qed.

Lemma pending_shutdown_loop fuel cx : preserves pending (shutdown_loop fuel cx).
Proof.
  pose proof pending_poll_ssl_ready. pose proof (@pending_fail_write unit).
  induction fuel as [|fuel IH]; [by intros ? ? ? ?|]. cbn [shutdown_loop].
  preserves_tac.
Qed.

(** With nothing held back a flush has nothing to do. *)
Lemma flush_nothing fuel reader cx s p s' :
  pending_write s.1 = [] → poll_pending_write fuel cx reader s = Done (p, s') → s' = s.
Proof.
  intros Hp. unfold poll_pending_write, mbind, M_bind, self.
  destruct (write_error s.1); [by intros [= _ <-]|]. destruct fuel as [|fuel]; [done|].
  cbn [pending_write_loop]. unfold mbind, M_bind, self. rewrite Hp. by intros [= _ <-].
Qed.

(** Once a shutdown has begun nothing is held back. *)
Definition drained s : Prop := shutdown s.1 ≠ ShutOpen → pending_write s.1 = [].

Lemma drained_write fuel cx buf s p s' :
  write_ok s → reader_ok (ktls_reader s.1) →
  poll_write fuel cx buf s = Done (p, s') → drained s → drained s'.
Proof.
  intros Hok Hr E Hd Hs.
  destruct (wp_done _ _ _ _ _ (wp_poll_write fuel cx buf s Hok Hr) E) as (_ & _ & Hsh & _).
  rewrite Hsh in Hs. enough (s' = s) as -> by by apply Hd.
  revert E. unfold poll_write, mbind, M_bind, self.
  destruct (is_empty buf); [by intros [= _ <-]|]. destruct (write_error s.1); [by intros [= _ <-]|].
  rewrite bool_decide_true by done. by intros [= _ <-].
Qed.

Lemma drained_flush fuel reader cx s p s' :
  write_ok s → poll_pending_write fuel cx reader s = Done (p, s') → drained s → drained s'.
Proof.
  intros Hok E Hd Hs.
  destruct (wp_done _ _ _ _ _ (wp_poll_pending_write fuel reader cx s Hok) E) as (_ & _ & _ & Hsh & _).
  rewrite Hsh in Hs. specialize (Hd Hs). by apply flush_nothing in E as ->.
Qed.

Lemma drained_read fuel cx buf s res s' :
  write_ok s → reader_ok (ktls_reader s.1) → len (filled buf) ≤ capacity buf →
  poll_read fuel cx buf s = Done (res, s') → drained s → drained s'.
Proof.
  intros Hok Hr Hb E Hd Hs.
  destruct (wp_done _ _ _ _ _ (wp_poll_read fuel cx buf s Hok Hr Hb) E) as (_ & Hsh & _).
  rewrite Hsh in Hs. specialize (Hd Hs). revert E. unfold poll_read, mbind, M_bind, self.
  case_match; [by intros [= _ <-]|]. case_match.
  - unfold on_reader. destruct (RecordReader_poll_read _ _ _) as [[? []]| |]; [|done..].
    by intros [= _ <-].
  - destruct (poll_pending_write fuel cx true s) as [[p s1]| |] eqn:Ep; [|done..].
    apply flush_nothing in Ep as ->; [|done].
    destruct p as [[]|]; [|by intros [= _ <-]|]; intros E; apply pending_read_loop in E; by rewrite E.
Qed.

Lemma drained_shutdown fuel cx s p s' :
  write_ok s → poll_shutdown fuel cx s = Done (p, s') → drained s → drained s'.
Proof.
  intros Hok E Hd. revert E. unfold poll_shutdown, mbind at 1, M_bind at 1.
  destruct (poll_pending_write fuel cx false s) as [[q s1]| |] eqn:Ep; [|done..].
  pose proof (drained_flush _ _ _ _ _ _ Hok Ep Hd) as Hd1.
  apply (wp_done _ _ _ _ _ (wp_poll_pending_write fuel false cx s Hok)) in Ep as (_ & _ & _ & _ & _ & Hres).
  destruct q as [[[]|e]|]; [|by intros [= _ <-]..]. destruct Hres as [Hpw _].
  intros E _. rewrite <- Hpw. revert E.
  pose proof (@pending_fail_write unit). pose proof (pending_shutdown_loop fuel cx).
  match goal with |- ?m s1 = _ → _ => assert (preserves pending m) as Hm; [|by apply Hm] end.
  preserves_tac.
Qed.

Lemma polls_drained s0 s log s' bytes0 :
  polls s log s' → alive s0 s bytes0 → drained s → drained s'.
Proof.
  intros Hp. revert bytes0.
  induction Hp as [s|fuel cx buf s p s' log s'' E _ IH|fuel cx s p s' log s'' E _ IH
    |fuel cx s p s' log s'' E _ IH|fuel cx buf s res s' log s'' Hb E _ IH|t w w' log s Htx Hrx _ IH];
    intros bytes0 Hal Hd; pose proof Hal as (Hok & Hr & _); [done|..].
  - destruct (wp_done _ _ _ _ _ (wp_poll_write fuel cx buf s Hok Hr) E) as [Hp _].
    assert (∃ more, op_ok false cx s more s') as [more Hop].
    { destruct p as [[]|]; [destruct Hp as [_ Hp]|..]; by eexists. }
    eapply IH; [by eapply alive_op|]. by eapply drained_write.
  - pose proof (wp_done _ _ _ _ _ (wp_poll_pending_write fuel false cx s Hok) E) as Hf.
    eapply IH; [eapply alive_op; [done|by eapply flush_post_op]|]. by eapply drained_flush.
  - destruct (wp_done _ _ _ _ _ (wp_poll_shutdown fuel cx s Hok Hr) E) as [[Hop _] _].
    eapply IH; [by eapply alive_op|]. by eapply drained_shutdown.
  - destruct (wp_done _ _ _ _ _ (wp_poll_read fuel cx buf s Hok Hr Hb) E) as [Hop _].
    eapply IH; [by eapply alive_op|]. by eapply drained_read.
  - eapply IH; [by eapply alive_env|done].
Qed.
End drained.

(** ** Two ends of a connection *)

Section duplex.
Context {W : Type} `{NetView W, !Strerror, !SslReadLaws W}.
Implicit Types (w : W) (s a b : TlsStream * W).

(** What TLS promises about the connection from [a] to [b], whichever
    implementation of the record layer each end uses: the application data that
    arrives is a prefix of what was sent, and [close_notify] arrives only if it
    was sent, and behind everything else. *)
Definition carries a b : Prop :=
  incoming b `prefix_of` outgoing a ∧
  (close_received b → (0 < v_closes (view a.2))%nat ∧ incoming b = outgoing a).

(** A connection without traffic, and a fresh stream on it. *)
Definition idle w : Prop :=
  v_sent (view w) = [] ∧ v_blocked (view w) = None ∧ v_raw (view w) = [] ∧
  rx_view (view w) = ([], [], false) ∧ v_closes (view w) = 0%nat.

Definition unused s : Prop := fresh s ∧ idle s.2.

(** What the writer of [a] was told is accepted has gone out, in order, up to the
    chunk that is held back; and all of it once the write half is closed. *)
Lemma unused_writes s0 log s :
  unused s0 → polls s0 log s →
  outgoing s `prefix_of` wrote log ∧
  ((0 < v_closes (view s.2))%nat → shutdown s.1 = ShutClosed ∧ outgoing s = wrote log).
Proof.
  intros [Hf (Hs0 & _ & Hr0 & _ & Hc0)] Hp. pose proof (fresh_alive s0 Hf) as Hal.
  destruct (polls_alive _ _ _ _ _ Hp Hal) as (_ & _ & Ha & Ht & Hl & _).
  assert (drained s) as Hd.
  { eapply polls_drained; [exact Hp|exact Hal|]. destruct Hf as (Hpw & _). by intros _. }
  destruct Hf as (Hp0 & _ & Hsh & _). unfold closed in Hl. rewrite Hsh, Hc0 in Hl. cbn in Hl.
  unfold taken, queued in Ht. rewrite Hs0, Hr0, Hp0, Ha in Ht. cbn [app] in Ht.
  unfold outgoing. rewrite Ha. destruct (ktls_active s0.1); cbn [app] in Ht; rewrite <- Ht.
  - split; [done|]. intros Hc. split; [|done]. destruct (decide (shutdown s.1 = ShutClosed)); [done|lia].
  - split; [by eexists|]. intros Hc.
    destruct (decide (shutdown s.1 = ShutClosed)) as [Hcl|]; [|lia]. split; [done|].
    by rewrite Hd, app_nil_r by by rewrite Hcl.
Qed.

(** The reader of [b] gets a prefix of what the writer of [a] was told is
    accepted; if it sees the end of the stream it has got all of it. *)
Lemma streams_deliver a0 b0 la lb a b :
  unused a0 → unused b0 → polls a0 la a → polls b0 lb b → carries a b →
  got lb `prefix_of` wrote la ∧
  (GotEof ∈ lb → shutdown a.1 = ShutClosed ∧ got lb = wrote la).
Proof.
  intros Ha0 [Hf (_ & _ & _ & Hx & _)] Hpa Hpb [Hpre Hcl].
  destruct (unused_writes _ _ _ Ha0 Hpa) as [Hout Hall].
  destruct (polls_hears _ _ [] _ _ _ Hpb (fresh_alive b0 Hf) (silent_hears b0 Hf Hx)) as (Hin & _ & He).
  cbn [app] in Hin, He. rewrite <- Hin. split; [by etrans|].
  intros [Hc Heq]%He%Hcl. destruct (Hall Hc) as [Hs Hw]. split; [done|]. congruence.
Qed.
End duplex.

(** ** Witness *)

Lemma stream_reads_witness :
  ∃ s, polls (start [EvRead (inl (bytes_of "hey")); EvRead (inr 6)]) [Got (bytes_of "hey"); GotEof] s ∧
    got [Got (bytes_of "hey"); GotEof] = incoming s ∧ close_received s.
Proof.
  assert (∃ s, polls (start [EvRead (inl (bytes_of "hey")); EvRead (inr 6)])
                 [Got (bytes_of "hey"); GotEof] s) as [s Hp].
  { eexists. eapply (polls_read 3 (TaskWaker 0) buf8 _
      (Ready (Ok tt), {| filled := bytes_of "hey"; capacity := 8 |})); [done|vm_compute; reflexivity|].
    eapply (polls_read 3 (TaskWaker 0) buf8 _ (Ready (Ok tt), buf8)); [done|vm_compute; reflexivity|].
    apply polls_nil. }
  exists s. split; [exact Hp|].
  destruct (stream_reads (start [EvRead (inl (bytes_of "hey")); EvRead (inr 6)])
    [Got (bytes_of "hey"); GotEof] s) as [Hg Hc]; [done|done|exact Hp|].
  split; [exact Hg|]. apply Hc. right. left.
Defined.
