(* ===== verification/Endpoint.v ===== *)
(** * acceptor.rs, connector.rs and hyper.rs: the two ends of a handshake

    Setting up a session on a socket, driving its handshake, and handing out
    the stream; the HTTPS connector on top; and the accessors of the peer's
    certificate in stream.rs. *)

From S2P Require Import Prelude Std Ip Env Objects Errors Ownership Alpn Suites Session RecordIo CryptoInfo Install Stream ServerConfig ClientConfig.

Local Open Scope Z_scope.

(** A stream with the session and the socket it owns. *)
Record Conn : Type := {
  conn_ssl : nat;
  conn_fd : nat;
  conn_stream : TlsStream;
}.

(** A method on an object that is local to the caller. *)
Definition run_on {T W A} (t : T) (m : M (T * W) A) : M W (A * T) := λ w,
  match m (t, w) with
  | Done (a, (t', w')) => Done ((a, t'), w')
  | Panic msg => Panic msg
  | OutOfFuel => OutOfFuel
  end.

Section endpoint.
Context {W : Type} `{AwsLcConsts, Strerror, ErrQueue W, TokioTcp W, LibSsl W, Syscalls W, Kdf W,
  SslSession W, LibSslConn W}.

Definition new_ssl (ctx : nat) : M W (Result nat) :=
  let* raw := ext (SSL_new ctx) in
  match raw with
  | Some ssl => mret (Ok ssl)
  | None => init_error "SSL_new"
  end.

Definition attach_socket_bio (ssl fd : nat) : M W (Result unit) :=
  let* bio := ext (BIO_new_socket fd BIO_NOCLOSE) in
  match bio with
  | None => init_error "BIO_new_socket"
  | Some bio =>
      do* modify (SSL_set_bio ssl bio bio) ;
      mret (Ok tt)
  end.

Definition from_parts (ssl : nat) (disabled : bool) : M W TlsStream :=
  match try_from_i32_u32 SSL_MODE_ACCEPT_MOVING_WRITE_BUFFER with
  | None => panic "SSL mode fits in u32"
  | Some mode =>
      do* modify (SSL_set_mode ssl mode) ;
      mret (new_stream disabled)
  end.

(** [TlsStream::from_parts] and [try_auto_install_ktls] after the handshake. *)
Definition into_stream (ssl fd : nat) (disabled : bool) : M W (Result Conn) :=
  let* t := from_parts ssl disabled in
  let* (r, t) := run_on t try_auto_install_ktls in
  match r with
  | Err e => mret (Err e)
  | Ok _ => mret (Ok {| conn_ssl := ssl; conn_fd := fd; conn_stream := t |})
  end.

(** [TlsAcceptor::accept].  The session and then the socket are dropped on an
    early return.  The configuration is borrowed and keeps its context alive, so
    that this [SSL_free] destroys no context ([held_ctx_survives] in Ffi.v). *)
Definition accept (fuel : nat) (cfg : ServerConfig) (fd : nat) : M W (Result Conn) :=
  or_drop (modify (close_fd fd))
    (let? ssl := new_ssl (sc_ctx cfg) in
     or_drop (modify (SSL_free ssl))
       (let? _ := attach_socket_bio ssl fd in
        do* modify (SSL_set_accept_state ssl) ;
        let? _ := drive_handshake fuel in
        into_stream ssl fd (sc_ktls_disabled cfg))).

(** The peer identity: an IP literal is checked against the certificate's IP
    names and not sent; any other name is sent as SNI and checked as DNS name. *)
Definition set_peer_name (ssl : nat) (server_name name_c : list byte) : M W (Result unit) :=
  match parse_ip server_name with
  | Some _ =>
      let* param := gets (SSL_get0_param ssl) in
      match param with
      | None => mret (Err (Init "SSL_get0_param returned null for fresh SSL"))
      | Some param =>
          setter 1 (X509_VERIFY_PARAM_set1_ip_asc param name_c)
            ("X509_VERIFY_PARAM_set1_ip_asc(" +:+ str_of server_name +:+ ")")
      end
  | None =>
      let? _ := setter 1 (SSL_set_tlsext_host_name ssl name_c)
                  ("SSL_set_tlsext_host_name(" +:+ str_of server_name +:+ ")") in
      setter 1 (SSL_set1_host ssl name_c) ("SSL_set1_host(" +:+ str_of server_name +:+ ")")
  end.

(** [TlsConnector::connect]; [server_name] is the bytes of the string. *)
Definition connect (fuel : nat) (cfg : ClientConfig) (server_name : list byte) (fd : nat) :
    M W (Result Conn) :=
  or_drop (modify (close_fd fd))
    (if is_empty server_name then mret (Err (Init "server_name must not be empty"))
     else
       let? ssl := new_ssl (cc_ctx cfg) in
       or_drop (modify (SSL_free ssl))
         (match cstring_new server_name with
          | None => mret (Err (Init "server_name contains an embedded NUL byte"))
          | Some name_c =>
              let? _ := set_peer_name ssl server_name name_c in
              let? _ := attach_socket_bio ssl fd in
              do* modify (SSL_set_connect_state ssl) ;
              let? _ := drive_handshake fuel in
              into_stream ssl fd (cc_ktls_disabled cfg)
          end)).

(** ** hyper.rs *)

(** [Option<String>] under [{:?}], for a string without characters to escape. *)
Definition quote : string := str_of [x22].
Definition debug_option_str (o : option (list byte)) : string :=
  match o with
  | None => "None"
  | Some s => "Some(" +:+ quote +:+ str_of s +:+ quote +:+ ")"
  end.

(** [host.strip_prefix('[').and_then(|h| h.strip_suffix(']')).unwrap_or(&host)] *)
Definition strip_brackets (host : list byte) : list byte :=
  match host with
  | b :: rest =>
      if bool_decide (b = x5b) && bool_decide (last rest = Some x5d)
      then take (length rest - 1) rest else host
  | [] => host
  end.

(** [HttpsConnector::call]: the scheme and host of the URI, and the TCP step of
    hyper-util's connector, which yields a connected socket or an error text. *)
Definition https_call (fuel : nat) (tls : ClientConfig) (scheme host : option (list byte))
    (http_call : W → result nat string * W) : M W (io_result Conn) :=
  if negb (bool_decide (scheme = Some (bytes_of "https"))) then
    mret (Err (Custom Other
      ("HttpsConnector requires https://; got scheme " +:+ debug_option_str scheme)))
  else
    match host with
    | None => mret (Err (Custom Other "URI is missing a host"))
    | Some host =>
        let host := strip_brackets host in
        let* tcp := ext http_call in
        match tcp with
        | Err text => mret (Err (Custom Other text))
        | Ok fd =>
            let* r := connect fuel tls host fd in
            match r with
            | Err e => mret (Err (Custom Other (fmt_Error e)))
            | Ok conn => mret (Ok conn)
            end
        end
    end.

(** [Connection::connected]: whether the connection is reported as HTTP/2. *)
Definition connected_h2 (w : W) : bool :=
  match ns_alpn (NegotiatedSession_from_ssl w) with
  | Some a => bool_decide (a = bytes_of "h2")
  | None => false
  end.

(** ** The peer's certificate (stream.rs) *)

Definition has_peer_certificate `{LibCrypto W} : M W bool :=
  let* cert := ext SSL_get_peer_certificate in
  match cert with
  | None => mret false
  | Some cert =>
      do* modify (X509_free cert) ;
      mret true
  end.

Definition i2d_error : M W (Result (option (list byte))) :=
  let* detail := last_error in
  mret (Err (Error_from_io (Custom Other ("i2d_X509: " +:+ detail)))).

Definition peer_certificate_der `{LibCrypto W} : M W (Result (option (list byte))) :=
  let* cert := ext SSL_get_peer_certificate in
  match cert with
  | None => mret (Ok None)
  | Some cert =>
      guarded (modify (X509_free cert))
        (let* (n, _) := ext (i2d_X509 cert false) in
         if n <=? 0 then i2d_error
         else
           let* (n', bytes) := ext (i2d_X509 cert true) in
           if negb (n' =? n) then i2d_error
           else mret (Ok (Some (buffer n bytes))))
  end.
End endpoint.
