(* ===== verification/Ffi.v ===== *)
(** * ffi.rs: shared ownership of contexts and sessions

    [SslCtx] is a counted reference: [Clone] takes another one and [Drop] gives it
    back.  A session holds a reference of its own, so that a context outlives the
    configuration that made it while streams are open.  Whichever reference goes
    last makes libssl destroy the context and call back for its application data.
    Configurations are shared by [Arc]s on top. *)

From S2P Require Import Prelude Std Env Objects Sim Errors Ownership ServerConfig ClientConfig Stream Endpoint.

Local Open Scope Z_scope.

(** ** The calls *)

(** [SSL_free_ex] is what [SSL_free] passes to the free function of the crate's
    application data while it runs: nothing unless a context is destroyed. *)
Class LibRefs (W : Type) : Type := {
  SSL_CTX_up_ref : nat → W → Z * W;
  SSL_free_ex : nat → W → list (option nat);
}.

(** The pointer a context carries as application data. *)
Definition ex_ptr (g : Ghost) (c : nat) : option nat :=
  (g_ctx g !! c) ≫= (λ s, snd <$> cs_ex_data s).

(** [SSL_CTX_up_ref] returns one.  A context is destroyed with the last reference
    to it. *)
Class LibRefsLaws (W : Type)
    `{ErrQueue W, LibSslCtx W, !LibSslCtxLaws W, LibCrypto W, LibRefs W} : Prop := {
  up_ref_spec c w r w' :
    SSL_CTX_up_ref c w = (r, w') → OCtx c ∈ g_refs (ghost w) →
    r = 1 ∧ ghost w' = g_take (OCtx c) (ghost w);
  ctx_free_shared c w ptrs w' :
    SSL_CTX_free c w = (ptrs, w') → OCtx c ∈ g_refs (ghost w) →
    ctx_alive c (g_drop (OCtx c) (ghost w)) → ptrs = [];
  ssl_free_ex_shared s st w :
    OSsl s ∈ g_refs (ghost w) → g_ssl (ghost w) !! s = Some st →
    ctx_alive (ss_ctx st) (g_on_ssl (delete s) (ghost w)) → SSL_free_ex s w = [];
  ssl_free_ex_last s st w :
    OSsl s ∈ g_refs (ghost w) → g_ssl (ghost w) !! s = Some st →
    ¬ ctx_alive (ss_ctx st) (g_on_ssl (delete s) (ghost w)) →
    SSL_free_ex s w = [ex_ptr (ghost w) (ss_ctx st)];
}.

(** ** The wrappers *)

Section ffi.
Context {W : Type} `{ErrQueue W, LibCrypto W, LibSslConn W, LibRefs W}.

(** [Clone for SslCtx] *)
Definition SslCtx_clone (ctx : nat) : M W nat :=
  let* ok := ext (SSL_CTX_up_ref ctx) in
  if negb (ok =? 1) then panic "SSL_CTX_up_ref failed" else mret ctx.

(** [Drop for Ssl] *)
Definition drop_ssl (ssl : nat) : M (Proc * W) unit :=
  let* ptrs := lift (gets (SSL_free_ex ssl)) in
  do* lift (modify (SSL_free ssl)) ;
  ex_free_all ptrs.

(** Dropping a [TlsStream]: its fields in the order of their declaration, the
    session and then the socket. *)
Definition drop_stream (conn : Conn) : M (Proc * W) unit :=
  do* drop_ssl (conn_ssl conn) ;
  lift (modify (close_fd (conn_fd conn))).

(** ** [Arc<ServerConfig>] and [Arc<ClientConfig>]

    The strong count of each shared configuration, by its context. *)
Definition Arcs : Type := gmap nat nat.

(** [Arc::new] *)
Definition arc_new (ctx : nat) : M (Arcs * (Proc * W)) unit := modify_self <[ctx := 1%nat]>.

(** [Arc::clone], as in [TlsAcceptor::clone] and [TlsConnector::clone]. *)
Definition arc_clone (ctx : nat) : M (Arcs * (Proc * W)) unit := modify_self (alter S ctx).

(** Dropping an [Arc]: the last one drops the configuration and with it the
    reference to the context.  A count that is gone would be a use after free. *)
Definition arc_drop (ctx : nat) : M (Arcs * (Proc * W)) unit :=
  let* arcs := self in
  match arcs !! ctx with
  | Some 1%nat =>
      do* set_self (delete ctx arcs) ;
      lift (drop_ctx ctx)
  | Some (S n) => set_self (<[ctx := n]> arcs)
  | _ => panic "use after free"
  end.
End ffi.

(** While the context is held, freeing a session calls back for nothing. *)
Lemma held_ctx_survives {W : Type} `{LibRefsLaws W} s st w :
  OSsl s ∈ g_refs (ghost w) → g_ssl (ghost w) !! s = Some st →
  OCtx (ss_ctx st) ∈ g_refs (ghost w) → SSL_free_ex s w = [].
Proof. intros Hs Hst Hc. apply (ssl_free_ex_shared s st); [done|done|by left]. Qed.

(** ** The simulated library *)

#[export] Instance ctx_alive_dec c g : Decision (ctx_alive c g).
Proof. apply _. Defined.

#[export] Instance sim_refs : LibRefs Sim := {|
  SSL_CTX_up_ref c w := (1, with_ghost (g_take (OCtx c)) w);
  SSL_free_ex s w :=
    match g_ssl (w_ghost w) !! s with
    | None => []
    | Some st =>
        if decide (ctx_alive (ss_ctx st) (g_on_ssl (delete s) (w_ghost w))) then []
        else [ex_ptr (w_ghost w) (ss_ctx st)]
    end |}.

Lemma not_sole_owner c g : ctx_alive c (g_drop (OCtx c) g) → ¬ sole_owner c g.
Proof.
  intros [Hc|(s & st & Hs & He)] [Hm Hf]; [|by apply (Hf s st)].
  cbn in Hc. rewrite elem_of_multiplicity, multiplicity_difference, multiplicity_singleton_eq in Hc. lia.
Qed.

#[export] Instance sim_refs_laws : LibRefsLaws Sim.
Proof.
  split.
  - by intros c w r w' [= <- <-] _.
  - intros c w ptrs w' [= <- <-] _ Ha%not_sole_owner. by rewrite decide_False.
  - intros s st w _ Hs Ha. cbn in *. rewrite Hs. by rewrite decide_True.
  - intros s st w _ Hs Ha. cbn in *. rewrite Hs. by rewrite decide_False.
Qed.
