(* ===== verification/EndpointProps.v ===== *)
(** * What the endpoints guarantee

    Which identity a client authenticates, what an endpoint owns when it returns,
    and what the accessors of the peer's certificate return. *)

From S2P Require Import Prelude Std Ip Env Objects Sim Errors Ownership Alpn Suites Session RecordIo CryptoInfo Install Stream StreamProps ServerConfig ClientConfig Endpoint.

Local Open Scope Z_scope.

Section props.
Context {W : Type} `{AwsLcConsts, Strerror, ErrQueue W, LibSslCtx W, !LibSslCtxLaws W,
  TokioTcp W, !TryIoLaws W, LibSsl W, Syscalls W, Kdf W, SslSession W, LibSslConn W,
  !LibSslConnLaws W, !ConnGhost W}.
Implicit Types (w : W) (g : Ghost).

(** ** Calls that leave the ghost state alone *)

Lemma ghost_last_error : preserves ghost (last_error : M W string).
Proof.
  unfold last_error, format_and_clear.
  assert (preserves ghost (ext ERR_get_error : M W Z)) by (apply preserves_ext, ghost_get_error).
  assert (preserves ghost (modify ERR_clear_error : M W unit))
    by (apply preserves_modify, ghost_clear_error).
  preserves_tac.
Qed.

Lemma ghost_try_would_block i : preserves ghost (try_io i would_block : M W (io_result unit)).
Proof.
  intros w a w'. rewrite try_io_spec. destruct (io_ready i w); [|by intros [= _ <-]].
  cbn. intros [= _ <-]. by rewrite ghost_clear_ready.
Qed.

Lemma ghost_drive_handshake fuel : preserves ghost (drive_handshake fuel : M W (Result unit)).
Proof.
  pose proof ghost_last_error. pose proof ghost_try_would_block.
  induction fuel as [|fuel IH]; [by intros ? ? ? ?|]. cbn [drive_handshake].
  assert (preserves ghost (ext SSL_do_handshake : M W Z)) by (apply preserves_ext, ghost_do_handshake).
  assert (preserves ghost (ext readable : M W (io_result unit)))
    by (apply preserves_ext, ghost_readable).
  assert (preserves ghost (ext writable : M W (io_result unit)))
    by (apply preserves_ext, ghost_writable).
  preserves_tac.
Qed.

Lemma ghost_install_ktls : preserves ghost (install_ktls : M W (Result unit)).
Proof.
  pose proof ghost_last_error.
  assert (∀ n m s i, preserves ghost (ext (HKDF_expand n m s i) : M W _))
    by (intros; apply preserves_ext; intros; apply ghost_HKDF_expand).
  assert (∀ l o v, preserves ghost (ext (setsockopt l o v) : M W _))
    by (intros; apply preserves_ext; intros; apply ghost_setsockopt).
  unfold install_ktls, install, install_rx_then_tx, set_ulp_tls, set_crypto_info,
    derive_crypto_info, tls13_traffic_secret, hkdf_expand_label, tls12_key_block,
    split_or_panic, build_aes_gcm_128, build_aes_gcm_256, build_chacha20_poly1305, copy_array.
  preserves_tac.
Qed.

Lemma ghost_auto_install :
  preserves (λ s : TlsStream * W, ghost s.2) (try_auto_install_ktls : M (TlsStream * W) (Result unit)).
Proof.
  pose proof ghost_install_ktls.
  unfold try_auto_install_ktls, auto_install_with, check_no_buffered_plaintext. preserves_tac.
Qed.

(** ** A session under construction *)

(** The crate holds the new session [s], set up as [st]; everything else is as in
    [g]. *)
Definition holds_session (s : nat) (st : SslState) (g g' : Ghost) : Prop :=
  (OSsl s ∉ g_refs g) ∧ g_ssl g !! s = None ∧ g' = g_on_ssl <[s := st]> (g_take (OSsl s) g).

Lemma holds_elem s st g g' : holds_session s st g g' → OSsl s ∈ g_refs g'.
Proof. intros (_ & _ & ->). apply g_take_elem. Qed.

Lemma alter_insert_session {A} (f : A → A) (i : nat) a (m : gmap nat A) :
  alter f i (<[i := a]> m) = <[i := f a]> m.
Proof.
  apply map_eq. intros j. destruct (decide (i = j)) as [->|Hne].
  - by rewrite lookup_alter_eq, !lookup_insert_eq.
  - by rewrite lookup_alter_ne, !lookup_insert_ne.
Qed.

Lemma holds_alter s st f g g' :
  holds_session s st g g' → holds_session s (f st) g (g_on_ssl (alter f s) g').
Proof.
  intros (Hn & Hs & ->). split_and!; [done..|]. unfold g_on_ssl. simpl.
  by rewrite alter_insert_session.
Qed.

Lemma holds_free s st g g' :
  holds_session s st g g' → g_on_ssl (delete s) (g_drop (OSsl s) g') = g.
Proof.
  intros (Hn & Hs & ->). destruct g as [r ? ? m]. unfold g_on_ssl, g_drop, g_take, g_on_refs.
  cbn in *. f_equal; [multiset_solver|]. by rewrite delete_insert_id.
Qed.

Lemma twp_new_ssl c (Q : Result nat → W → Prop) w :
  OCtx c ∈ g_refs (ghost w) →
  (∀ e w', ghost w' = ghost w → Q (Err e) w') →
  (∀ s w', holds_session s (ssl_new_state c) (ghost w) (ghost w') → Q (Ok s) w') →
  twp (new_ssl c) Q w.
Proof.
  intros Hc Herr Hok. unfold new_ssl. twp_step. twp_step. apply ssl_new_spec in Hcall; [|done].
  destruct a as [s|].
  - twp_step. by apply Hok.
  - apply twp_init_error. intros m w' Hg. apply Herr. by rewrite Hg.
Qed.

(** A step of the set-up: on an error the session is still held. *)
Definition sets_up (s : nat) (st st' : SslState) (g : Ghost) (r : Result unit) w' : Prop :=
  match r with
  | Ok _ => holds_session s st' g (ghost w')
  | Err _ => ∃ st'', holds_session s st'' g (ghost w')
  end.

Lemma twp_ssl_setter s st f call label g w :
  holds_session s st g (ghost w) →
  (∀ r w', call w = (r, w') → ssl_sets s f (r =? 1) (ghost w) (ghost w')) →
  twp (setter 1 call label) (sets_up s st (f st) g) w.
Proof.
  intros Hh Hs. unfold setter. twp_step. twp_step. apply Hs in Hcall as (f' & Hf & Hg).
  destruct (a =? 1); cbn [negb].
  - twp_step. subst f'. cbn. rewrite Hg. by apply holds_alter.
  - apply twp_init_error. intros m w' Hg'. exists (f' st). rewrite Hg', Hg. by apply holds_alter.
Qed.

Lemma twp_attach s st fd g w :
  holds_session s st g (ghost w) →
  twp (attach_socket_bio s fd) (sets_up s st (ss_set_fd fd st) g) w.
Proof.
  intros Hh. unfold attach_socket_bio. twp_step. twp_step. apply bio_new_socket_spec in Hcall.
  destruct a as [b|].
  - destruct Hcall as [Hfd Hg]. do 3 twp_step. cbn. rewrite set_bio_spec, Hg, g_drop_take, Hfd.
    + by apply holds_alter.
    + rewrite Hg. apply g_take_elem_of. by eapply holds_elem.
    + rewrite Hg. apply g_take_elem.
  - apply twp_init_error. intros m w' Hg. exists st. by rewrite Hg, Hcall.
Qed.

(** The names a session is set up with. *)
Definition with_names (name : list byte) (st : SslState) : SslState :=
  match parse_ip name with
  | Some _ => ss_set_ip name st
  | None => ss_set_host name (ss_set_sni name st)
  end.

Lemma twp_set_peer_name s st name g w :
  holds_session s st g (ghost w) →
  twp (set_peer_name s name name) (sets_up s st (with_names name st) g) w.
Proof.
  intros Hh. unfold set_peer_name, with_names. destruct (parse_ip name).
  - twp_step. twp_step. destruct (SSL_get0_param s w) as [p|] eqn:Ep; [|twp_step; by exists st].
    apply twp_ssl_setter; [done|]. intros r w' Hc. eapply set1_ip_spec; [done| |by eapply holds_elem].
    by eapply get0_param_spec.
  - twp_step. eapply twp_mono.
    { apply (twp_ssl_setter s st (ss_set_sni name)); [done|]. intros r w' Hc.
      eapply set_host_name_spec; [done|]. by eapply holds_elem. }
    intros [[]|e] w1 Hr; cbn in Hr.
    + apply (twp_ssl_setter s (ss_set_sni name st) (ss_set_host name)); [done|]. intros r w' Hc.
      eapply set1_host_spec; [done|]. by eapply holds_elem.
    + twp_step. destruct Hr as [st'' Hr]. by exists st''.
Qed.
End props.

(** ** The whole handshake *)

Section endpoints.
Context {W : Type} `{NetView W, !AwsLcConstsOk, !Strerror, SslSession W, Kdf W, !KdfView W,
  !KdfLaws W, LibSslCtx W, !LibSslCtxLaws W, LibSslConn W, !LibSslConnLaws W, !ConnGhost W,
  !SetupView W}.
Implicit Types (w : W) (g : Ghost).

Lemma wp_twp {S A} (m : M S A) (Q : A → S → Prop) s : twp m Q s → wp m Q s.
Proof. unfold twp, wp. by destruct (m s) as [[]| |]. Qed.

Lemma wp_drive_handshake fuel w :
  wp (drive_handshake fuel : M W (Result unit)) (λ _ w', ghost w' = ghost w) w.
Proof.
  apply wp_intro; [|intros ? ?; apply ghost_drive_handshake].
  revert w. induction fuel as [|fuel IH]; intros w msg; [done|].
  apply (wp_no_panic _ (λ _ _, True)). cbn [drive_handshake]. do 2 wp_step. wp_step; [by wp_step|].
  do 2 wp_step.
  assert (∀ i w1, wp (do* try_io i would_block ; drive_handshake fuel) (λ _ _, True) w1) as Hloop.
  { intros i w1. wp_step. apply wp_intro.
    - intros msg'. rewrite try_io_spec. destruct (io_ready i w1); [|done]. cbn. by destruct (is_kind _ _).
    - intros r' w2 _. by apply wp_intro; [apply IH|]. }
  wp_step; [do 2 wp_step; wp_step; [apply Hloop|by wp_step]|].
  wp_step; [do 2 wp_step; wp_step; [apply Hloop|by wp_step]|].
  wp_step; [by wp_step|]. wp_step. by apply wp_last_error; intros; wp_step.
Qed.

Lemma view_last_error : preserves view (last_error : M W string).
Proof.
  unfold last_error, format_and_clear.
  assert (preserves view (ext ERR_get_error : M W Z)) by (apply preserves_ext, view_get_error).
  assert (preserves view (modify ERR_clear_error : M W unit))
    by (apply preserves_modify, view_clear_error).
  preserves_tac.
Qed.

Lemma view_drive_handshake fuel : preserves view (drive_handshake fuel : M W (Result unit)).
Proof.
  pose proof view_last_error.
  assert (∀ i, preserves view (try_io i would_block : M W (io_result unit))).
  { intros i w a w'. rewrite try_would_block. intros [= _ <-]. unfold stale.
    by case_match; rewrite ?view_clear_ready. }
  induction fuel as [|fuel IH]; [by intros ? ? ? ?|]. cbn [drive_handshake].
  assert (preserves view (ext SSL_do_handshake : M W Z))
    by (apply preserves_ext, view_SSL_do_handshake).
  assert (preserves view (ext readable : M W (io_result unit)))
    by (apply preserves_ext, view_readable).
  assert (preserves view (ext writable : M W (io_result unit)))
    by (apply preserves_ext, view_writable).
  preserves_tac.
Qed.

(** Setting up a session does not show. *)
Lemma view_setter call label :
  (∀ w, view (call w).2 = view w) → preserves view (setter 1 call label : M W (Result unit)).
Proof.
  intros Hc. pose proof view_last_error.
  assert (preserves view (ext call : M W Z)) by by apply preserves_ext.
  unfold setter, init_error. preserves_tac.
Qed.

Lemma view_set_peer_name s name c : preserves view (set_peer_name s name c : M W (Result unit)).
Proof.
  unfold set_peer_name. preserves_tac; apply view_setter; intros w.
  - apply view_set1_ip.
  - apply view_set_host_name.
  - apply view_set1_host.
Qed.

Lemma view_attach s fd : preserves view (attach_socket_bio s fd : M W (Result unit)).
Proof.
  pose proof view_last_error.
  assert (preserves view (ext (BIO_new_socket fd BIO_NOCLOSE) : M W (option nat)))
    by (apply preserves_ext; intros; apply view_BIO_new_socket).
  assert (∀ b, preserves view (modify (SSL_set_bio s b b) : M W unit))
    by (intros; apply preserves_modify; intros; apply view_SSL_set_bio).
  unfold attach_socket_bio, init_error. preserves_tac.
Qed.

Lemma view_new_ssl c : preserves view (new_ssl c : M W (Result nat)).
Proof.
  pose proof view_last_error.
  assert (preserves view (ext (SSL_new c) : M W (option nat)))
    by (apply preserves_ext; intros; apply view_SSL_new).
  unfold new_ssl, init_error. preserves_tac.
Qed.

(** The session of a stream accepts a retry from another address. *)
Definition moving : SslState → SslState := ss_or_mode SSL_MODE_ACCEPT_MOVING_WRITE_BUFFER.

Lemma wp_from_parts s d (Q : TlsStream → W → Prop) w :
  Q (new_stream d) (SSL_set_mode s SSL_MODE_ACCEPT_MOVING_WRITE_BUFFER w) →
  wp (from_parts s d) Q w.
Proof.
  intros HQ. unfold from_parts, try_from_i32_u32. pose proof moving_mode_u32 as [Hlo Hhi].
  apply Z.leb_le in Hlo, Hhi. rewrite Hlo, Hhi. cbn [andb]. by do 3 wp_step.
Qed.

(** The stream that [into_stream] hands out. *)
Definition handed_out (ssl fd : nat) (d : bool) w (r : Result Conn) w' : Prop :=
  match r with
  | Ok conn => conn_ssl conn = ssl ∧ conn_fd conn = fd ∧
      ∃ w1, view w1 = view w ∧ auto_post (new_stream d, w1) (Ok tt) (conn_stream conn, w')
  | Err _ => True
  end.

Lemma wp_into_stream ssl fd d st g w :
  holds_session ssl st g (ghost w) →
  wp (into_stream ssl fd d)
    (λ r w', holds_session ssl (moving st) g (ghost w') ∧ handed_out ssl fd d w r w') w.
Proof.
  intros Hh. unfold into_stream. wp_step. apply wp_from_parts. wp_step.
  set (w1 := SSL_set_mode _ _ w).
  assert (holds_session ssl (moving st) g (ghost w1)) as Hh1.
  { unfold w1. rewrite set_mode_spec by by eapply holds_elem. by apply holds_alter. }
  pose proof (wp_try_auto_install (new_stream d, w1)) as Ha. unfold run_on, wp in *.
  destruct (try_auto_install_ktls _) as [[r [t w']]| |] eqn:E; [|done..].
  apply ghost_auto_install in E. cbn [snd] in E.
  destruct r as [[]|e]; cbn; rewrite E; [|done]. split_and!; try done.
  exists w1. split; [apply view_SSL_set_mode|done].
Qed.

(** A connection whose session was set up as [st], on which nothing has been sent
    or received since the view [v]. *)
Definition connected_as (st : SslState) (fd : nat) (d : bool) g (v : View) (conn : Conn) w' : Prop :=
  holds_session (conn_ssl conn) (moving st) g (ghost w') ∧ conn_fd conn = fd ∧
  ∃ w1, view w1 = v ∧ auto_post (new_stream d, w1) (Ok tt) (conn_stream conn, w').

(** How a scope that holds a session ends. *)
Definition session_scope (ssl : nat) g (P : Conn → W → Prop) (r : Result Conn) w' : Prop :=
  match r with
  | Ok conn => P conn w'
  | Err _ => ∃ st, holds_session ssl st g (ghost w')
  end.

(** The session is released when its scope is left with an error. *)
Lemma wp_or_free ssl g (body : M W (Result Conn)) (P : Conn → W → Prop) w :
  wp body (session_scope ssl g P) w →
  wp (or_drop (modify (SSL_free ssl)) body)
    (λ r w', match r with Ok conn => P conn w' | Err _ => ghost w' = g end) w.
Proof.
  intros Hb. unfold or_drop. wp_step. eapply wp_mono; [exact Hb|].
  intros [conn|e] w1; [intros; by wp_step|]. intros [st Hh]. do 3 wp_step.
  rewrite ssl_free_spec by by eapply holds_elem. by eapply holds_free.
Qed.

Lemma wp_handshake fuel ssl fd d st g w :
  holds_session ssl st g (ghost w) →
  wp (let? _ := drive_handshake fuel in into_stream ssl fd d)
    (session_scope ssl g (connected_as st fd d g (view w))) w.
Proof.
  intros Hh. wp_step.
  eapply wp_mono; [apply (wp_preserves view), wp_drive_handshake; apply view_drive_handshake|].
  intros [[]|e] w1 [Hg1 Hv1].
  - eapply wp_mono; [apply (wp_into_stream ssl fd d st g); by rewrite Hg1|].
    intros [conn|e] w2 [Hh2 Ho].
    + destruct Ho as (<- & <- & w3 & Hv3 & Ha). split_and!; [done..|].
      exists w3. split; [congruence|done].
    + by eexists.
  - wp_step. exists st. by rewrite Hg1.
Qed.

(** A set-up step in front of the rest of the scope. *)
Lemma wp_set_up ssl st st' g (m : M W (Result unit)) (k : M W (Result Conn)) (P : Conn → W → Prop) w :
  twp m (sets_up ssl st st' g) w → preserves view m →
  (∀ w', holds_session ssl st' g (ghost w') → view w' = view w →
     wp k (session_scope ssl g P) w') →
  wp (let? _ := m in k) (session_scope ssl g P) w.
Proof.
  intros Hm Hv Hk. wp_step. eapply wp_mono; [by apply (wp_preserves view), wp_twp|].
  intros [[]|e] w1 [Hs Hv1]; [by apply Hk|]. by wp_step.
Qed.

(** What an endpoint leaves behind: on success a session set up as [st] on the
    caller's socket, on an error nothing, and the socket is closed. *)
Definition endpoint_post (st : SslState) (fd : nat) (d : bool) w (r : Result Conn) w' : Prop :=
  match r with
  | Ok conn => connected_as st fd d (ghost w) (view w) conn w'
  | Err _ => ghost w' = g_drop (OFd fd) (ghost w)
  end.

Lemma wp_or_close fd st d (body : M W (Result Conn)) w :
  OFd fd ∈ g_refs (ghost w) →
  wp body (λ r w', match r with
                   | Ok conn => connected_as st fd d (ghost w) (view w) conn w'
                   | Err _ => ghost w' = ghost w
                   end) w →
  wp (or_drop (modify (close_fd fd)) body) (endpoint_post st fd d w) w.
Proof.
  intros Hfd Hb. unfold or_drop. wp_step. eapply wp_mono; [exact Hb|].
  intros [conn|e] w1 Hr; [by wp_step|]. do 3 wp_step. cbn.
  rewrite close_fd_spec by by rewrite Hr. by rewrite Hr.
Qed.

Lemma wp_new_ssl c (Q : Result nat → W → Prop) w :
  OCtx c ∈ g_refs (ghost w) →
  (∀ e w', ghost w' = ghost w → Q (Err e) w') →
  (∀ s w', holds_session s (ssl_new_state c) (ghost w) (ghost w') → view w' = view w → Q (Ok s) w') →
  wp (new_ssl c) Q w.
Proof.
  intros Hc Herr Hok. eapply wp_mono.
  { apply (wp_preserves view); [apply view_new_ssl|]. apply wp_twp.
    apply (twp_new_ssl c (λ r w', match r with
      | Ok s => holds_session s (ssl_new_state c) (ghost w) (ghost w')
      | Err _ => ghost w' = ghost w end)); auto. }
  intros [s|e] w' [? ?]; auto.
Qed.

(** The session a client sets up for a name, and the one a server sets up. *)
Definition client_session (cfg : ClientConfig) (name : list byte) (fd : nat) : SslState :=
  ss_set_accept false (ss_set_fd fd (with_names name (ssl_new_state (cc_ctx cfg)))).
Definition server_session (cfg : ServerConfig) (fd : nat) : SslState :=
  ss_set_accept true (ss_set_fd fd (ssl_new_state (sc_ctx cfg))).

Lemma cstring_new_same s c : cstring_new s = Some c → c = s.
Proof. unfold cstring_new. destruct (existsb _ s); [done|]. by intros [= ->]. Qed.

Lemma wp_connect fuel cfg name fd w :
  OCtx (cc_ctx cfg) ∈ g_refs (ghost w) → OFd fd ∈ g_refs (ghost w) →
  wp (connect fuel cfg name fd)
    (endpoint_post (client_session cfg name fd) fd (cc_ktls_disabled cfg) w) w.
Proof.
  intros Hc Hfd. unfold connect. apply wp_or_close; [done|].
  destruct (is_empty name); [by wp_step|]. wp_step. apply wp_new_ssl; [done| |].
  { intros e w' Hg. by wp_step. }
  intros ssl w1 Hh Hv1. apply wp_or_free. destruct (cstring_new name) as [name_c|] eqn:En;
    [|wp_step; by eexists].
  apply cstring_new_same in En as ->.
  eapply wp_set_up; [by apply twp_set_peer_name|apply view_set_peer_name|]. intros w2 Hh2 Hv2.
  eapply wp_set_up; [by apply twp_attach|apply view_attach|]. intros w3 Hh3 Hv3. do 2 wp_step.
  rewrite <- Hv1, <- Hv2, <- Hv3, <- (view_SSL_set_connect_state ssl w3).
  apply wp_handshake. rewrite set_connect_state_spec by by eapply holds_elem.
  by apply holds_alter.
Qed.

Lemma wp_accept fuel cfg fd w :
  OCtx (sc_ctx cfg) ∈ g_refs (ghost w) → OFd fd ∈ g_refs (ghost w) →
  wp (accept fuel cfg fd)
    (endpoint_post (server_session cfg fd) fd (sc_ktls_disabled cfg) w) w.
Proof.
  intros Hc Hfd. unfold accept. apply wp_or_close; [done|].
  wp_step. apply wp_new_ssl; [done| |].
  { intros e w' Hg. by wp_step. }
  intros ssl w1 Hh Hv1. apply wp_or_free.
  eapply wp_set_up; [by apply twp_attach|apply view_attach|]. intros w2 Hh2 Hv2. do 2 wp_step.
  rewrite <- Hv1, <- Hv2, <- (view_SSL_set_accept_state ssl w2).
  apply wp_handshake. rewrite set_accept_state_spec by by eapply holds_elem.
  by apply holds_alter.
Qed.

(** ** When an endpoint returns *)

(** A run that ends for want of fuel has done so for the reason [P]. *)
Definition ends_but (P : Prop) {S A} (m : M S A) : Prop := ∀ s, m s = OutOfFuel → P.

Lemma ends_but_bind P {S A B} (m : M S A) (k : A → M S B) :
  ends_but P m → (∀ a, ends_but P (k a)) → ends_but P (m ≫= k).
Proof.
  unfold ends_but, mbind, M_bind. intros Hm Hk s. specialize (Hm s).
  destruct (m s) as [[a s']| |]; [apply Hk|done|auto].
Qed.

Lemma ends_but_returns P {S A} (m : M S A) : returns m → ends_but P m.
Proof. intros Hr s E. by destruct (Hr s). Qed.

Lemma ends_but_or_drop P {S A E} (d : M S unit) (m : M S (result A E)) :
  returns d → ends_but P m → ends_but P (or_drop d m).
Proof.
  intros Hd Hm. apply ends_but_bind; [done|]. intros [a|e]; apply ends_but_returns; [done|].
  by apply returns_bind.
Qed.

Lemma returns_setter good (call : W → Z * W) label : returns (setter good call label).
Proof. unfold setter, init_error, last_error, format_and_clear. returns_tac. Qed.

Lemma returns_into_stream ssl fd d : returns (into_stream ssl fd d : M W (Result Conn)).
Proof.
  unfold into_stream, from_parts. apply returns_bind; [returns_tac|]. intros t.
  apply returns_bind; [|intros []; returns_tac].
  intros w. unfold run_on. pose proof (returns_try_auto_install (t, w)).
  by destruct (try_auto_install_ktls (t, w)) as [[? []]| |].
Qed.

(** The handshake of some world does not finish within the fuel. *)
Definition handshake_waits (fuel : nat) : Prop :=
  ∃ w, drive_handshake fuel w = (OutOfFuel : outcome (Result unit * W)).

Lemma returns_init_error {A} label : returns (init_error label : M W (Result A)).
Proof. unfold init_error, last_error, format_and_clear. returns_tac. Qed.

Ltac ends_tac :=
  repeat lazymatch goal with
  | |- ∀ _, _ => intros ?
  | |- ends_but _ (or_drop _ _) => apply ends_but_or_drop; [done|]
  | |- ends_but _ (mbind _ _) => apply ends_but_bind
  | |- ends_but _ (match ?x with _ => _ end) => destruct x
  | |- ends_but _ (drive_handshake _) => let E := fresh in intros ? E; eexists; exact E
  | |- ends_but _ (setter _ _ _) => apply ends_but_returns, returns_setter
  | |- ends_but _ (init_error _) => apply ends_but_returns, returns_init_error
  | |- ends_but _ (into_stream _ _ _) => apply ends_but_returns, returns_into_stream
  | |- ends_but _ _ => apply ends_but_returns; solve [auto with returns]
  end.

Lemma connect_ends fuel cfg name fd :
  ends_but (handshake_waits fuel) (connect fuel cfg name fd : M W (Result Conn)).
Proof. unfold connect, new_ssl, attach_socket_bio, set_peer_name. ends_tac. Qed.

Lemma accept_ends fuel cfg fd :
  ends_but (handshake_waits fuel) (accept fuel cfg fd : M W (Result Conn)).
Proof. unfold accept, new_ssl, attach_socket_bio. ends_tac. Qed.

(** ** Claims *)


(** [accept] returns a stream on a session of the server's context, in accept
    state, on the socket it was given, and accepts the retry of a blocked write
    from another address; on an error the session and the socket are released
    and nothing else has changed.  It does not panic and waits only for the
    handshake. *)
Theorem accept_owns fuel cfg fd w :
  OCtx (sc_ctx cfg) ∈ g_refs (ghost w) → OFd fd ∈ g_refs (ghost w) →
  wp (accept fuel cfg fd)
    (endpoint_post (server_session cfg fd) fd (sc_ktls_disabled cfg) w) w ∧
  (accept fuel cfg fd w = OutOfFuel → handshake_waits fuel).
Proof. intros Hc Hfd. split; [by apply wp_accept|apply accept_ends]. Qed.

(** The host of a URI without the brackets of an IPv6 literal. *)
Lemma strip_brackets_ipv6 addr : strip_brackets (x5b :: addr ++ [x5d]) = addr.
Proof.
  unfold strip_brackets. rewrite bool_decide_true, last_snoc, bool_decide_true by done. cbn [andb].
  rewrite length_app. simpl. rewrite Nat.add_sub. by rewrite take_app_length.
Qed.

Lemma strip_brackets_plain host : head host ≠ Some x5b → strip_brackets host = host.
Proof.
  destruct host as [|b host]; [done|]. cbn. intros Hb.
  by rewrite bool_decide_false by (by intros ->).
Qed.
End endpoints.

(** ** The peer's certificate *)

Section peer.
Context {W : Type} `{AwsLcConsts, ErrQueue W, !ErrQueueLaws W, LibSslCtx W, !LibSslCtxLaws W,
  LibCrypto W, !LibCryptoLaws W, LibSslConn W, !PeerCertLaws W}.
Implicit Types w : W.

Lemma twp_i2d_error (Q : Result (option (list byte)) → W → Prop) w :
  (∀ e w', ghost w' = ghost w → Q (Err e) w') → twp i2d_error Q w.
Proof.
  intros HQ. unfold i2d_error. twp_step. apply twp_last_error. intros. twp_step. by apply HQ.
Qed.

Lemma buffer_self bs : buffer (len bs) bs = bs.
Proof. unfold buffer, prefix, len. rewrite Nat2Z.id. by rewrite take_app_length. Qed.

(** The peer's certificate: the accessors always return and keep no reference.
    [has_peer_certificate] says whether the session has one;
    [peer_certificate_der] returns nothing exactly for a session without one,
    and bytes only if they are the encoding of that certificate, all of them. *)
Theorem peer_certificate_exact w :
  twp has_peer_certificate
    (λ b w', ghost w' = ghost w ∧ (b = true ↔ is_Some (SSL_get_peer_certificate w).1)) w ∧
  twp peer_certificate_der
    (λ r w', ghost w' = ghost w ∧
       match r with
       | Ok None => (SSL_get_peer_certificate w).1 = None
       | Ok (Some der) => x509_der <$> (SSL_get_peer_certificate w).1 = Some der
       | Err _ => is_Some (SSL_get_peer_certificate w).1
       end) w.
Proof.
  split.
  - unfold has_peer_certificate. twp_step. twp_step. apply peer_cert_spec in Hcall as Hg.
    rewrite Hcall. destruct a as [x|].
    + do 3 twp_step. split; [|by split]. rewrite x509_free_spec, Hg, g_drop_take; [done|].
      rewrite Hg. apply g_take_elem.
    + twp_step. split; [done|]. split; [done|]. by intros [].
  - unfold peer_certificate_der. twp_step. twp_step. apply peer_cert_spec in Hcall as Hg.
    rewrite Hcall. destruct a as [x|]; [|by twp_step].
    assert (∀ (r : Result (option (list byte))) w1, ghost w1 = ghost s' →
      (match r with Ok None => False | Ok (Some der) => x509_der x = der | Err _ => True end) →
      twp (do* modify (X509_free x) ; mret r)
        (λ r w', ghost w' = ghost w ∧
           match r with
           | Ok None => Some x = None
           | Ok (Some der) => x509_der <$> Some x = Some der
           | Err _ => is_Some (Some x)
           end) w1) as Hfree.
    { intros r w1 Hg1 Hr. do 3 twp_step. split.
      - rewrite x509_free_spec, Hg1, Hg, g_drop_take; [done|]. rewrite Hg1, Hg. apply g_take_elem.
      - destruct r as [[der|]|e]; [by f_equal/=|done|done]. }
    assert (OX509 x ∈ g_refs (ghost s')) as Hx by (rewrite Hg; apply g_take_elem).
    unfold guarded. do 2 twp_step. twp_step. destruct a as [n bs0].
    apply i2d_spec in Hcall0 as [Hg0 Hn]; [|done]. destruct (Z.leb_spec n 0) as [Hle|Hgt].
    + apply twp_i2d_error. intros e w1 Hg1. apply Hfree; [by rewrite Hg1|done].
    + destruct Hn as [|[Hn _]]; [lia|]. twp_step. twp_step. destruct a as [n' bs].
      apply i2d_spec in Hcall0 as [Hg1 Hn']; [|by rewrite Hg0].
      destruct (Z.eqb_spec n' n) as [->|]; cbn [negb].
      * destruct Hn' as [|[_ Hbs]]; [lia|]. twp_step. apply Hfree; [by rewrite Hg1|].
        by rewrite (Hbs eq_refl), Hn, buffer_self.
      * apply twp_i2d_error. intros e w2 Hg2. apply Hfree; [by rewrite Hg2, Hg1|done].
Qed.
End peer.

(** ** Witnesses *)

Definition dialling (script : list Event) : Sim := with_ghost (g_take (OFd 5)) (sim0 script).
Definition cfg0 : ClientConfig := {| cc_ctx := 0; cc_ktls_disabled := false |}.

Lemma dialling_refs script :
  OCtx (cc_ctx cfg0) ∈ g_refs (ghost (dialling script)) ∧ OFd 5 ∈ g_refs (ghost (dialling script)).
Proof. split; cbn; multiset_solver. Qed.


(** A handshake that the peer breaks off: the session and the socket are gone. *)
Lemma accept_owns_witness :
  ∃ e w', accept 3 {| sc_ctx := 0; sc_ktls_disabled := true |} 5 (dialling [EvHandshake (-1) 6])
          = Done (Err e, w') ∧ ghost w' = g_drop (OFd 5) (ghost (dialling [EvHandshake (-1) 6])).
Proof.
  destruct (accept_owns 3 {| sc_ctx := 0; sc_ktls_disabled := true |} 5 (dialling [EvHandshake (-1) 6]))
    as [Hw _]; [apply dialling_refs..|].
  unfold wp in Hw. destruct (accept _ _ _ _) as [[[conn|e] w']| |] eqn:E;
    [vm_compute in E; discriminate| |vm_compute in E; discriminate..].
  exists e, w'. split; [reflexivity|exact Hw].
Defined.

Lemma peer_certificate_exact_witness :
  twp peer_certificate_der (λ r w', r = Ok (Some [x30; x09]) ∧ ghost w' = ghost (sim0 [])) (sim0 []).
Proof.
  destruct (peer_certificate_exact (sim0 [])) as [_ H].
  apply twp_done in H as (r & w' & E & Hg & Hr). apply twp_done. exists r, w'. split; [exact E|].
  split; [|exact Hg]. by vm_compute in E; injection E as <- _.
Defined.
