(* ===== verification/Futures.v ===== *)
(** * The futures of accept and connect

    [TlsAcceptor::accept] and [TlsConnector::connect] as what the executor sees: a
    future that is polled until it is ready, or dropped before.  Their only await
    is inside [drive_handshake], on tokio's readiness futures, so that a future is
    in one of three states: not yet polled, suspended in the handshake, returned.
    Endpoint.v models the same functions by their resolved result. *)

From S2P Require Import Prelude Std Ip Env Objects Sim Errors Ownership Alpn Suites Session RecordIo CryptoInfo Install Stream StreamProps ServerConfig ClientConfig Endpoint EndpointProps.

Local Open Scope Z_scope.

(** The future of [TcpStream::readable] or [writable]: one poll. *)
Class ReadyFuture (W : Type) : Type :=
  poll_ready_future : Interest → Waker → W → poll (io_result unit) * W.

Section futures.
Context {W : Type} `{AwsLcConsts, Strerror, ErrQueue W, TokioTcp W, LibSsl W, Syscalls W, Kdf W,
  SslSession W, LibSslConn W} `{RF : ReadyFuture W}.

(** ** [drive_handshake] *)

(** Where the future of [drive_handshake] is: at the top of its loop, at one of its
    two awaits, or at its end. *)
Inductive HsState : Type :=
| HsCall
| HsWait (i : Interest)
| HsDone.

Definition waiting_label (i : Interest) : string :=
  match i with READABLE => "waiting readable: " | WRITABLE => "waiting writable: " end.

(** Runs on until the next await that is not ready. *)
Fixpoint poll_handshake (fuel : nat) (cx : Waker) (hs : HsState) : M W (poll (Result unit) * HsState) :=
  match fuel with
  | O => out_of_fuel
  | S fuel' =>
      match hs with
      | HsCall =>
          let* r := ext SSL_do_handshake in
          if r =? 1 then mret (Ready (Ok tt), HsDone)
          else
            let* err := gets (SSL_get_error r) in
            if err =? SSL_ERROR_WANT_READ then poll_handshake fuel' cx (HsWait READABLE)
            else if err =? SSL_ERROR_WANT_WRITE then poll_handshake fuel' cx (HsWait WRITABLE)
            else if err =? SSL_ERROR_ZERO_RETURN then
              mret (Ready (Err (Handshake "peer closed connection during handshake")), HsDone)
            else
              let* detail := last_error in
              mret (Ready (Err (Handshake
                ("SSL_do_handshake: ssl_error=" +:+ pretty err +:+ " " +:+ detail))), HsDone)
      | HsWait i =>
          let* ready := ext (poll_ready_future i cx) in
          match ready with
          | Pending => mret (Pending, HsWait i)
          | Ready (Err e) =>
              mret (Ready (Err (Handshake (waiting_label i +:+ io_to_string e))), HsDone)
          | Ready (Ok _) =>
              do* try_io i would_block ;
              poll_handshake fuel' cx HsCall
          end
      | HsDone => panic "async fn resumed after completion"
      end
  end.

(** ** [accept] and [connect] *)

(** What the two differ in: the set-up in front of the handshake, which yields the
    session, and what they own and copy. *)
Record Handshaker : Type := {
  hk_start : M W (Result nat);
  hk_fd : nat;
  hk_disabled : bool;
}.

Definition accept_future (cfg : ServerConfig) (fd : nat) : Handshaker := {|
  hk_start :=
    let? ssl := new_ssl (sc_ctx cfg) in
    or_drop (modify (SSL_free ssl))
      (let? _ := attach_socket_bio ssl fd in
       do* modify (SSL_set_accept_state ssl) ;
       mret (Ok ssl));
  hk_fd := fd;
  hk_disabled := sc_ktls_disabled cfg |}.

Definition connect_future (cfg : ClientConfig) (server_name : list byte) (fd : nat) : Handshaker := {|
  hk_start :=
    if is_empty server_name then mret (Err (Init "server_name must not be empty"))
    else
      let? ssl := new_ssl (cc_ctx cfg) in
      or_drop (modify (SSL_free ssl))
        (match cstring_new server_name with
         | None => mret (Err (Init "server_name contains an embedded NUL byte"))
         | Some name_c =>
             let? _ := set_peer_name ssl server_name name_c in
             let? _ := attach_socket_bio ssl fd in
             do* modify (SSL_set_connect_state ssl) ;
             mret (Ok ssl)
         end);
  hk_fd := fd;
  hk_disabled := cc_ktls_disabled cfg |}.

(** The states of the future; [Suspended] owns the session, and all but [Returned]
    own the socket. *)
Inductive Fut : Type :=
| Unresumed
| Suspended (ssl : nat) (hs : HsState)
| Returned.

(** [Ready(Err(e))]: the locals are dropped, the session (if any) and then the
    socket. *)
Definition fut_fail (e : Handshaker) (ssl : option nat) (err : Error) : M (Fut * W) (poll (Result Conn)) :=
  do* match ssl with Some ssl => lift (modify (SSL_free ssl)) | None => mret tt end ;
  do* lift (modify (close_fd (hk_fd e))) ;
  do* set_self Returned ;
  mret (Ready (Err err)).

(** From [drive_handshake(..).await?] to the end. *)
Definition fut_resume (fuel : nat) (cx : Waker) (e : Handshaker) (ssl : nat) (hs : HsState) :
    M (Fut * W) (poll (Result Conn)) :=
  let* (p, hs) := lift (poll_handshake fuel cx hs) in
  match p with
  | Pending =>
      do* set_self (Suspended ssl hs) ;
      mret Pending
  | Ready (Err err) => fut_fail e (Some ssl) err
  | Ready (Ok _) =>
      let* r := lift (into_stream ssl (hk_fd e) (hk_disabled e)) in
      match r with
      | Err err => fut_fail e (Some ssl) err
      | Ok conn =>
          do* set_self Returned ;
          mret (Ready (Ok conn))
      end
  end.

(** [Future::poll] *)
Definition fut_poll (fuel : nat) (cx : Waker) (e : Handshaker) : M (Fut * W) (poll (Result Conn)) :=
  let* st := self in
  match st with
  | Unresumed =>
      let* r := lift (hk_start e) in
      match r with
      | Err err => fut_fail e None err
      | Ok ssl => fut_resume fuel cx e ssl HsCall
      end
  | Suspended ssl hs => fut_resume fuel cx e ssl hs
  | Returned => panic "async fn resumed after completion"
  end.

(** Dropping the future: what it owns in its state is dropped, as in the function
    the session before the socket. *)
Definition fut_drop (e : Handshaker) : M (Fut * W) unit :=
  let* st := self in
  do* match st with
      | Unresumed => lift (modify (close_fd (hk_fd e)))
      | Suspended ssl _ =>
          do* lift (modify (SSL_free ssl)) ;
          lift (modify (close_fd (hk_fd e)))
      | Returned => mret tt
      end ;
  set_self Returned.
End futures.

Arguments Handshaker W : clear implicits.

(** ** The laws of the readiness futures

    They show neither on the connection nor on what the crate owns.  Readiness
    that was taken and cleared comes back only with a new event of the driver, of
    which one poll sees finitely many: [answers] bounds them. *)
Class ReadyFutureLaws (W : Type) `{NetView W, LibSslCtx W, !LibSslCtxLaws W, ReadyFuture W} : Type := {
  answers : W → nat;
  answers_do_handshake w : (answers (SSL_do_handshake w).2 ≤ answers w)%nat;
  answers_clear_ready i w : (answers (clear_ready i w) ≤ answers w)%nat;
  ready_future_spec i cx w p w' :
    poll_ready_future i cx w = (p, w') →
    ghost w' = ghost w ∧ view w' = view w ∧
    match p with Ready (Ok _) => answers w' < answers w | _ => True end%nat;
}.

Section facts.
Context {W : Type} `{NetView W, !AwsLcConstsOk, !Strerror, SslSession W, Kdf W, !KdfView W,
  !KdfLaws W, LibSslCtx W, !LibSslCtxLaws W, LibSslConn W, !LibSslConnLaws W, !ConnGhost W,
  !SetupView W, ReadyFuture W, !ReadyFutureLaws W}.
Implicit Types (w : W) (g : Ghost) (e : Handshaker W).

(** ** One poll of the handshake *)

Definition hs_post (cx : Waker) w (a : poll (Result unit) * HsState) w' : Prop :=
  ghost w' = ghost w ∧ view w' = view w ∧
  match a with
  | (Pending, hs) => ∃ i w1, hs = HsWait i ∧ poll_ready_future i cx w1 = (Pending, w')
  | (Ready _, _) => True
  end.

Lemma hs_post_from cx w0 w a w' :
  ghost w = ghost w0 → view w = view w0 → hs_post cx w a w' → hs_post cx w0 a w'.
Proof. intros Hg Hv (Hg' & Hv' & Ha). split_and!; [congruence..|done]. Qed.

Lemma twp_last_error_keeps w :
  twp (last_error : M W string) (λ _ w', ghost w' = ghost w ∧ view w' = view w) w.
Proof.
  apply twp_wp; [unfold last_error, format_and_clear; returns_tac|]. eapply wp_mono.
  { apply (wp_preserves view); [apply view_last_error|].
    apply (wp_preserves ghost); [apply ghost_last_error|].
    by apply (wp_last_error (λ _ _, True)). }
  by intros m w' [[_ Hg] Hv].
Qed.

(** The steps a poll needs: at most two for each answer, and two to end. *)
Definition hs_fuel (hs : HsState) w : nat :=
  2 * answers w + match hs with HsCall => 2 | _ => 1 end.

Lemma answers_stale i w : (answers (stale i w) ≤ answers w)%nat.
Proof. unfold stale. case_match; [apply answers_clear_ready|done]. Qed.

Lemma stale_keeps i w : ghost (stale i w) = ghost w ∧ view (stale i w) = view w.
Proof. unfold stale. case_match; [by rewrite ghost_clear_ready, view_clear_ready|done]. Qed.

Lemma twp_poll_handshake fuel cx hs w :
  hs ≠ HsDone → (hs_fuel hs w ≤ fuel)%nat → twp (poll_handshake fuel cx hs) (hs_post cx w) w.
Proof.
  revert hs w. induction fuel as [|fuel IH]; intros hs w Hd Hf; unfold hs_fuel in Hf;
    [destruct hs; cbn in Hf; lia|].
  destruct hs as [|i|]; [| |done]; cbn [poll_handshake].
  - do 2 twp_step. pose proof (answers_do_handshake w) as Hn.
    pose proof (ghost_do_handshake w) as Hg. pose proof (view_SSL_do_handshake w) as Hv.
    rewrite Hcall in Hn, Hg, Hv. cbn [snd] in Hn, Hg, Hv. rename s' into w1.
    assert (∀ r, hs_post cx w (Ready r, HsDone) w1) as Hend by (intros r; by split_and!).
    assert (∀ i, twp (poll_handshake fuel cx (HsWait i)) (hs_post cx w) w1) as Hwait.
    { intros i. eapply twp_mono; [apply IH; [done|unfold hs_fuel; cbn; lia]|].
      intros ? ?. by apply hs_post_from. }
    twp_step; [by twp_step|]. do 2 twp_step. twp_step; [apply Hwait|]. twp_step; [apply Hwait|].
    twp_step; [by twp_step|]. twp_step. eapply twp_mono; [apply twp_last_error_keeps|].
    intros m w2 [Hg2 Hv2]. twp_step. split_and!; [congruence..|done].
  - do 2 twp_step. pose proof (ready_future_spec _ _ _ _ _ Hcall) as (Hg & Hv & Hn). rename s' into w1.
    destruct a as [[[]|err]|]; [| |].
    + twp_step. unfold twp. rewrite try_would_block. pose proof (stale_keeps i w1) as [Hg2 Hv2].
      pose proof (answers_stale i w1). eapply twp_mono; [apply IH; [done|unfold hs_fuel; cbn; lia]|].
      intros ? ?. apply hs_post_from; congruence.
    + twp_step. by split_and!.
    + twp_step. split_and!; [done..|]. eauto.
Qed.

(** ** The set-up *)

Definition start_scope (st : SslState) g (v : View) (r : Result nat) w' : Prop :=
  match r with
  | Ok ssl => holds_session ssl st g (ghost w') ∧ view w' = v
  | Err _ => ghost w' = g
  end.

(** [e] sets up, under the context [c], sessions of the form [st]. *)
Definition starts e (c : nat) (st : SslState) : Prop := ∀ w,
  OCtx c ∈ g_refs (ghost w) → twp (hk_start e) (start_scope st (ghost w) (view w)) w.

Definition start_body (ssl : nat) (st : SslState) g (v : View) (r : Result nat) w' : Prop :=
  match r with
  | Ok ssl' => ssl' = ssl ∧ holds_session ssl st g (ghost w') ∧ view w' = v
  | Err _ => ∃ st', holds_session ssl st' g (ghost w')
  end.

Lemma twp_preserves {A} (m : M W A) (Q : A → W → Prop) w :
  preserves view m → twp m Q w → twp m (λ a w', Q a w' ∧ view w' = view w) w.
Proof.
  intros Hp Hm. unfold twp in *. destruct (m w) as [[a w']| |] eqn:E; [|done..].
  split; [done|]. by eapply Hp.
Qed.

Lemma twp_start_scope c st (body : nat → M W (Result nat)) w :
  OCtx c ∈ g_refs (ghost w) →
  (∀ ssl w', holds_session ssl (ssl_new_state c) (ghost w) (ghost w') → view w' = view w →
     twp (body ssl) (start_body ssl st (ghost w) (view w)) w') →
  twp (let? ssl := new_ssl c in or_drop (modify (SSL_free ssl)) (body ssl))
    (start_scope st (ghost w) (view w)) w.
Proof.
  intros Hc Hb. twp_step. eapply twp_mono.
  { apply twp_preserves; [apply view_new_ssl|].
    apply (twp_new_ssl c (λ r w', match r with
      | Ok s => holds_session s (ssl_new_state c) (ghost w) (ghost w')
      | Err _ => ghost w' = ghost w end)); auto. }
  intros [ssl|err] w1 [Hh Hv]; [|by twp_step]. unfold or_drop. twp_step.
  eapply twp_mono; [by apply Hb|]. intros [ssl'|err] w2 Hr.
  - destruct Hr as [-> Hr]. by twp_step.
  - destruct Hr as [st' Hr]. do 3 twp_step. cbn.
    rewrite ssl_free_spec by by eapply holds_elem. by eapply holds_free.
Qed.

Lemma twp_start_step ssl st st' st'' g v (m : M W (Result unit)) (k : M W (Result nat)) w :
  twp m (sets_up ssl st st' g) w → preserves view m → view w = v →
  (∀ w', holds_session ssl st' g (ghost w') → view w' = v → twp k (start_body ssl st'' g v) w') →
  twp (let? _ := m in k) (start_body ssl st'' g v) w.
Proof.
  intros Hm Hp <- Hk. twp_step. eapply twp_mono; [by apply twp_preserves|].
  intros [[]|err] w1 [Hr Hv]; [by apply Hk|]. by twp_step.
Qed.

Lemma accept_starts cfg fd : starts (accept_future cfg fd) (sc_ctx cfg) (server_session cfg fd).
Proof.
  intros w Hc. apply twp_start_scope; [done|]. intros ssl w1 Hh Hv.
  eapply twp_start_step; [by apply twp_attach|apply view_attach|done|]. intros w2 Hh2 Hv2.
  do 3 twp_step. split_and!; [done| |by rewrite view_SSL_set_accept_state].
  rewrite set_accept_state_spec by by eapply holds_elem. by apply holds_alter.
Qed.

Lemma connect_starts cfg name fd :
  starts (connect_future cfg name fd) (cc_ctx cfg) (client_session cfg name fd).
Proof.
  intros w Hc. unfold connect_future. cbn [hk_start]. destruct (is_empty name); [by twp_step|].
  apply twp_start_scope; [done|]. intros ssl w1 Hh Hv.
  destruct (cstring_new name) as [name_c|] eqn:En; [|twp_step; by eexists].
  apply cstring_new_same in En as ->.
  eapply twp_start_step; [by apply twp_set_peer_name|apply view_set_peer_name|done|]. intros w2 Hh2 Hv2.
  eapply twp_start_step; [by apply twp_attach|apply view_attach|done|]. intros w3 Hh3 Hv3.
  do 3 twp_step. split_and!; [done| |by rewrite view_SSL_set_connect_state].
  rewrite set_connect_state_spec by by eapply holds_elem. by apply holds_alter.
Qed.
(** ** Polls and drops *)

(** [g] is what the program owns apart from the session of the future. *)
Definition rest_of (sess : SslState) (f : Fut) w g : Prop :=
  match f with
  | Unresumed => ghost w = g
  | Suspended ssl hs => hs ≠ HsDone ∧ holds_session ssl sess g (ghost w)
  | Returned => False
  end.

(** The socket belongs to the future, the context to the configuration it borrows. *)
Definition owned e (c : nat) g : Prop := OCtx c ∈ g_refs g ∧ OFd (hk_fd e) ∈ g_refs g.

Definition fut_post e (sess : SslState) (v : View) g (cx : Waker) (p : poll (Result Conn))
    (s : Fut * W) : Prop :=
  match p with
  | Pending => ∃ ssl i w1, s.1 = Suspended ssl (HsWait i) ∧ poll_ready_future i cx w1 = (Pending, s.2) ∧
      holds_session ssl sess g (ghost s.2) ∧ view s.2 = v
  | Ready (Ok conn) => s.1 = Returned ∧ connected_as sess (hk_fd e) (hk_disabled e) g v conn s.2
  | Ready (Err _) => s.1 = Returned ∧ ghost s.2 = g_drop (OFd (hk_fd e)) g
  end.

Lemma twp_fut_fail e sess v g cx ssl st err f w :
  OFd (hk_fd e) ∈ g_refs g → holds_session ssl st g (ghost w) →
  twp (fut_fail e (Some ssl) err) (fut_post e sess v g cx) (f, w).
Proof.
  intros Hfd Hh. unfold fut_fail. do 9 twp_step. cbn [fst snd]. split; [done|]. cbn [snd].
  assert (ghost (SSL_free ssl w) = g) as Hg.
  { rewrite ssl_free_spec by by eapply holds_elem. by eapply holds_free. }
  rewrite close_fd_spec; by rewrite Hg.
Qed.

Lemma twp_fut_resume fuel cx e sess g ssl hs f w :
  OFd (hk_fd e) ∈ g_refs g → holds_session ssl sess g (ghost w) → hs ≠ HsDone →
  (hs_fuel hs w ≤ fuel)%nat →
  twp (fut_resume fuel cx e ssl hs) (fut_post e sess (view w) g cx) (f, w).
Proof.
  intros Hfd Hh Hd Hf. unfold fut_resume. do 2 twp_step. cbn [fst snd].
  eapply twp_mono; [by apply twp_poll_handshake|]. intros [p hs'] w1 (Hg & Hv & Hp).
  rewrite <- Hg in Hh. destruct p as [[[]|err]|].
  - twp_step. twp_step. cbn [fst snd]. apply twp_wp; [apply returns_into_stream|].
    eapply wp_mono; [by apply (wp_into_stream ssl _ _ sess g)|].
    intros [conn|err] w2 [Hh2 Ho]; [|by eapply twp_fut_fail].
    do 3 twp_step. destruct Ho as (Hssl & Hfd2 & w3 & Hv3 & Ha). split; [done|]. cbn [snd].
    split_and!; [by rewrite Hssl|done|]. exists w3. split; [congruence|done].
  - by eapply twp_fut_fail.
  - destruct Hp as (i & w2 & -> & Hp). do 3 twp_step. exists ssl, i, w2. by split_and!.
Qed.

Lemma fut_poll_post e c sess f w g cx :
  starts e c sess → rest_of sess f w g → owned e c g →
  ∃ n, ∀ fuel, (n ≤ fuel)%nat → twp (fut_poll fuel cx e) (fut_post e sess (view w) g cx) (f, w).
Proof.
  intros Hs Hr [Hc Hfd]. unfold fut_poll. destruct f as [|ssl hs|]; [| |done].
  - cbn in Hr. subst g. pose proof (Hs w Hc) as Hst. unfold twp in Hst.
    destruct (hk_start e w) as [[r w1]| |] eqn:E; [|done..].
    exists (hs_fuel HsCall w1). intros fuel Hf. do 2 twp_step. cbn [fst snd].
    do 2 twp_step. cbn [snd]. apply twp_done. exists r, w1. split; [done|].
    destruct r as [ssl|err].
    + destruct Hst as [Hh Hv]. rewrite <- Hv. by apply twp_fut_resume.
    + cbn in Hst. unfold fut_fail. do 7 twp_step. split; [done|]. cbn [snd fst].
      by rewrite close_fd_spec, Hst by by rewrite Hst.
  - destruct Hr as [Hd Hh]. exists (hs_fuel hs w). intros fuel Hf. do 2 twp_step. cbn [fst snd].
    by apply twp_fut_resume.
Qed.

(** Dropped at any time, a future gives back what it owns. *)
Lemma fut_drop_exact e c sess f w g :
  rest_of sess f w g → owned e c g →
  ∃ w', fut_drop e (f, w) = Done (tt, (Returned, w')) ∧ ghost w' = g_drop (OFd (hk_fd e)) g.
Proof.
  intros Hr [_ Hfd]. destruct f as [|ssl hs|]; [| |done].
  - cbn in Hr. subst g. exists (close_fd (hk_fd e) w). split; [done|]. by rewrite close_fd_spec.
  - destruct Hr as [_ Hh]. exists (close_fd (hk_fd e) (SSL_free ssl w)). split; [done|].
    assert (ghost (SSL_free ssl w) = g) as Hg.
    { rewrite ssl_free_spec by by eapply holds_elem. by eapply holds_free. }
    rewrite close_fd_spec; by rewrite Hg.
Qed.
(** ** Runs of a future *)

(** More fuel does not change a poll that ends. *)
Lemma poll_handshake_mono fuel fuel' cx hs w r :
  poll_handshake fuel cx hs w = Done r → (fuel ≤ fuel')%nat →
  poll_handshake fuel' cx hs w = (Done r : outcome (poll (Result unit) * HsState * W)).
Proof.
  revert fuel' hs w. induction fuel as [|fuel IH]; intros [|fuel'] hs w E Hf; [done|done|lia|].
  assert (∀ hs w, poll_handshake fuel cx hs w = Done r → poll_handshake fuel' cx hs w = Done r) as Hrec
    by (intros; apply IH; [done|lia]).
  revert E. destruct hs as [|i|]; [| |done]; cbn [poll_handshake]; unfold mbind, M_bind, ext, gets, mret, M_ret.
  - destruct (SSL_do_handshake w) as [a w1]. repeat (case_match; [by auto|]). done.
  - destruct (poll_ready_future i cx w) as [[[[]|]|] w1]; [|done..].
    rewrite try_would_block. apply Hrec.
Qed.

Lemma fut_poll_mono fuel fuel' cx e s r :
  fut_poll fuel cx e s = Done r → (fuel ≤ fuel')%nat → fut_poll fuel' cx e s = Done r.
Proof.
  intros E Hf. revert E.
  assert (∀ ssl hs s, fut_resume fuel cx e ssl hs s = Done r → fut_resume fuel' cx e ssl hs s = Done r) as Hr.
  { intros ssl hs s'. unfold fut_resume, mbind, M_bind, lift.
    destruct (poll_handshake fuel cx hs s'.2) as [[a w1]| |] eqn:E; [|done..].
    by rewrite (poll_handshake_mono _ _ _ _ _ _ E Hf). }
  unfold fut_poll, mbind, M_bind, self. destruct s as [[|ssl hs|] w]; cbn [fst]; [|apply Hr|done].
  unfold lift. cbn [fst snd]. destruct (hk_start e w) as [[[ssl|err] w1]| |]; [apply Hr|done..].
Qed.

(** The life of a future: it is polled, by any task and with any waker, and the
    other tasks, the reactor and the network move.  They may do anything but take
    away the session and the socket of the future or the borrowed context, or use
    its connection. *)
Inductive fut_step e (c : nat) (sess : SslState) : Fut * W → Fut * W → Prop :=
| fut_polled fuel cx p s s' :
    fut_poll fuel cx e s = Done (p, s') → fut_step e c sess s s'
| fut_others f w w' :
    view w' = view w →
    (∀ g, rest_of sess f w g → owned e c g → ∃ g', rest_of sess f w' g' ∧ owned e c g') →
    fut_step e c sess (f, w) (f, w').

Definition fut_inv e c sess v (s : Fut * W) : Prop :=
  s.1 ≠ Returned → view s.2 = v ∧ ∃ g, rest_of sess s.1 s.2 g ∧ owned e c g.

Lemma fut_step_inv e c sess v s s' :
  starts e c sess → fut_inv e c sess v s → fut_step e c sess s s' → fut_inv e c sess v s'.
Proof.
  intros Hs Hi Hst. destruct Hst as [fuel cx p [f w] [f' w'] E|f w w' Hv Ho].
  - destruct f as [|ssl hs|]; [| |done].
    1,2: destruct Hi as (Hv & g & Hr & Hw); [done|]; cbn [fst snd] in *;
      destruct (fut_poll_post e c sess _ w g cx Hs Hr Hw) as [n Hn];
      specialize (Hn (fuel `max` n)%nat ltac:(lia)); unfold twp in Hn;
      rewrite (fut_poll_mono _ _ _ _ _ _ E) in Hn by lia;
      destruct p as [[conn|err]|]; [by destruct Hn as [[= ->] _]..|];
      destruct Hn as (ssl' & i & w1 & Hf' & _ & Hh & Hv'); cbn [fst snd] in *; subst f' v;
      intros _; split; [done|]; by exists g.
  - intros Hf. destruct (Hi Hf) as (Hv0 & g & Hr & Hw). split; [by rewrite <- Hv0|]. by apply (Ho g).
Qed.

Lemma fut_run_inv e c sess v s s' :
  starts e c sess → fut_inv e c sess v s → rtc (fut_step e c sess) s s' → fut_inv e c sess v s'.
Proof. intros Hs Hi R. induction R as [|s1 s2 s3 Hst _ IH]; [done|]. by eapply IH, fut_step_inv. Qed.

(** The two kinds of futures, with the context and the session they set up. *)
Inductive endpoint_of : Handshaker W → nat → SslState → Prop :=
| of_acceptor cfg fd : endpoint_of (accept_future cfg fd) (sc_ctx cfg) (server_session cfg fd)
| of_connector cfg name fd :
    endpoint_of (connect_future cfg name fd) (cc_ctx cfg) (client_session cfg name fd).

Lemma endpoint_starts e c sess : endpoint_of e c sess → starts e c sess.
Proof. intros []; [apply accept_starts|apply connect_starts]. Qed.

(** C11. The futures of [accept] and [connect] are safe to cancel.  However often one
    has been polled, and whatever ran in between, dropping it before it is ready
    gives back its session and its socket and touches nothing else.  And the next
    poll returns: with [Pending], suspended at a readiness future that this poll
    has registered its waker with; with an error, and session and socket are
    released; or with a stream on a session set up as the resolved function does
    it, on which nothing has been sent or received. *)
Theorem futures_cancel_safe e c sess w0 f w :
  endpoint_of e c sess → owned e c (ghost w0) →
  rtc (fut_step e c sess) (Unresumed, w0) (f, w) → f ≠ Returned →
  ∃ g, rest_of sess f w g ∧ owned e c g ∧
    (∃ w', fut_drop e (f, w) = Done (tt, (Returned, w')) ∧ ghost w' = g_drop (OFd (hk_fd e)) g) ∧
    ∀ cx, ∃ n, ∀ fuel, (n ≤ fuel)%nat →
      twp (fut_poll fuel cx e) (fut_post e sess (view w0) g cx) (f, w).
Proof.
  intros He%endpoint_starts Ho R Hf.
  destruct (fut_run_inv e c sess (view w0) (Unresumed, w0) (f, w)) as (Hv & g & Hr & Hw); try done.
  { intros _. split; [done|]. by exists (ghost w0). }
  exists g. split_and!; [done..|by eapply fut_drop_exact|]. intros cx. cbn [fst snd] in *.
  rewrite <- Hv. by apply (fut_poll_post e c).
Qed.
End facts.

(** ** The resolved functions *)

(** Readiness futures that are ready whenever they are polled. *)
Definition prompt {W : Type} `{TokioTcp W} : ReadyFuture W := λ i _ w,
  let '(r, w') := match i with READABLE => readable w | WRITABLE => writable w end in (Ready r, w').

Section resolved.
Context {W : Type} `{AwsLcConsts, Strerror, ErrQueue W, TokioTcp W, !TryIoLaws W, LibSsl W, Syscalls W,
  Kdf W, SslSession W, LibSslConn W}.
Implicit Types w : W.

(** A run of a function as the first and last poll of its future. *)
Definition one_poll {A} (o : outcome (A * W)) : outcome (poll A * (Fut * W)) :=
  match o with
  | Done (r, w') => Done (Ready r, (Returned, w'))
  | Panic msg => Panic msg
  | OutOfFuel => OutOfFuel
  end.

Lemma poll_handshake_prompt fuel cx w :
  poll_handshake (RF := prompt) (2 * fuel) cx HsCall w =
  match drive_handshake fuel w with
  | Done (r, w') => Done ((Ready r, HsDone), w')
  | Panic msg => Panic msg
  | OutOfFuel => OutOfFuel
  end.
Proof.
  revert w. induction fuel as [|fuel IH]; intros w; [done|].
  replace (2 * S fuel)%nat with (S (S (2 * fuel))) by lia. cbn [drive_handshake poll_handshake].
  unfold mbind, M_bind, ext, gets, mret, M_ret, poll_ready_future, prompt.
  destruct (SSL_do_handshake w) as [r w1]. destruct (r =? 1); [done|].
  destruct (SSL_get_error r w1 =? SSL_ERROR_WANT_READ).
  { cbn. destruct (readable w1) as [[[]|e] w2]; [|done]. rewrite !try_would_block. apply IH. }
  destruct (SSL_get_error r w1 =? SSL_ERROR_WANT_WRITE).
  { cbn. destruct (writable w1) as [[[]|e] w2]; [|done]. rewrite !try_would_block. apply IH. }
  case_match; [done|]. by destruct (last_error w1) as [[]| |].
Qed.
Lemma fut_poll_prompt fuel cx (e : Handshaker W) (N : M W (Result nat)) (P : nat → M W (Result unit)) w :
  (∀ w, hk_start e w =
     (let? ssl := N in
      or_drop (modify (SSL_free ssl)) (let? _ := P ssl in mret (Ok ssl))) w) →
  fut_poll (RF := prompt) (2 * fuel) cx e (Unresumed, w) =
  one_poll (or_drop (modify (close_fd (hk_fd e)))
    (let? ssl := N in
     or_drop (modify (SSL_free ssl))
       (let? _ := P ssl in
        let? _ := drive_handshake fuel in
        into_stream ssl (hk_fd e) (hk_disabled e))) w).
Proof.
  intros Hs. unfold fut_poll, fut_resume, fut_fail, or_drop, mbind, M_bind, self, lift. cbn [fst snd].
  rewrite Hs. unfold or_drop, mbind, M_bind.
  destruct (N w) as [[[ssl|err] w1]| |]; [|done..].
  destruct (P ssl w1) as [[[[]|err] w2]| |]; [|done..]. cbn [fst snd mret M_ret].
  rewrite poll_handshake_prompt.
  destruct (drive_handshake fuel w2) as [[[[]|err] w3]| |]; [|done..].
  cbn [fst snd]. by destruct (into_stream ssl _ _ w3) as [[[conn|err] w4]| |].
Qed.

End resolved.

(** ** A future in the scripted world *)

(** The readiness futures are scripted like [poll_read_ready]. *)
#[export] Instance sim_ready_future : ReadyFuture Sim := λ i cx,
  match i with READABLE => poll_read_ready cx | WRITABLE => poll_write_ready cx end.

#[export] Instance sim_ready_future_laws : ReadyFutureLaws Sim.
Proof.
  refine {| answers w := length (w_script w) |}; [|done|].
  - intros w. apply next_script_le; [done|]. by intros [] f w' [= <-].
  - intros i cx w p w' E. unfold poll_ready_future, sim_ready_future in E.
    destruct i; cbn in E; unfold next in E; destruct (w_script w) as [|[] script] eqn:Es; simplify_eq;
      split_and!; try done; cbn; rewrite ?Es; repeat case_match; cbn; try done; lia.
Defined.

(** A server future that waits for the client's first message, and is dropped. *)
Lemma futures_cancel_safe_witness :
  let e := accept_future (W := Sim) {| sc_ctx := 0; sc_ktls_disabled := false |} 5 in
  ∃ ssl i w1 w2,
    fut_poll 5 (TaskWaker 1) e (Unresumed, dialling [EvHandshake (-1) 2])
      = Done (Pending, (Suspended ssl (HsWait i), w1)) ∧
    OSsl ssl ∈ g_refs (ghost w1) ∧
    fut_drop e (Suspended ssl (HsWait i), w1) = Done (tt, (Returned, w2)) ∧
    (OSsl ssl ∉ g_refs (ghost w2)).
Proof.
  intros e. pose (s := fut_poll 5 (TaskWaker 1) e (Unresumed, dialling [EvHandshake (-1) 2])).
  destruct s as [[p [f w1]]| |] eqn:E; [|vm_compute in E; discriminate..].
  assert (∃ ssl, p = Pending ∧ f = Suspended ssl (HsWait READABLE)) as (ssl & -> & ->).
  { exists 2%nat. vm_compute in E. by injection E as <- <- <-. }
  destruct (futures_cancel_safe e 0 (server_session {| sc_ctx := 0; sc_ktls_disabled := false |} 5)
    (dialling [EvHandshake (-1) 2]) (Suspended ssl (HsWait READABLE)) w1)
    as (g & [_ Hh] & _ & (w2 & Hd & Hg) & _); [apply of_acceptor|apply dialling_refs| |done|].
  { apply rtc_once. by apply (fut_polled _ _ _ 5 (TaskWaker 1) Pending). }
  exists ssl, READABLE, w1, w2. split_and!; [exact E|by eapply holds_elem|exact Hd|].
  rewrite Hg. destruct Hh as [Hn _]. cbn. multiset_solver.
Defined.
