(* ===== verification/HyperFutures.v ===== *)
(** * hyper.rs: the future of a call of the HTTPS connector

    [Service::call] returns a future with two awaits: the TCP connection of
    hyper-util's connector, and then [TlsConnector::connect].  Hyper drops it when
    a request is abandoned or another connection wins, at either of them. *)

From S2P Require Import Prelude Std Ip Env Objects Sim Errors Ownership Session RecordIo CryptoInfo Install Stream StreamProps ClientConfig Endpoint EndpointProps Futures.

Local Open Scope Z_scope.

(** The future of hyper-util's [HttpConnector]: one poll, and its drop.  Its errors
    are their texts. *)
Class HttpFuture (HF W : Type) : Type := {
  poll_http : Waker → HF → W → poll (result nat string) * (HF * W);
  drop_http : HF → W → W;
}.

(** A socket it yields belongs to the caller; sockets it is still connecting are its
    own. *)
Class HttpFutureLaws (HF W : Type) `{NetView W, LibSslCtx W, !LibSslCtxLaws W, HttpFuture HF W} : Prop := {
  poll_http_spec cx f w p f' w' :
    poll_http cx f w = (p, (f', w')) → view w' = view w ∧
    ghost w' = match p with Ready (Ok fd) => g_take (OFd fd) (ghost w) | _ => ghost w end;
  drop_http_spec f w : view (drop_http f w) = view w ∧ ghost (drop_http f w) = ghost w;
}.

Section https_future.
Context {HF W : Type} `{AwsLcConsts, Strerror, ErrQueue W, TokioTcp W, LibSsl W, Syscalls W, Kdf W,
  SslSession W, LibSslConn W, ReadyFuture W, HttpFuture HF W}.

Inductive HttpsFut : Type :=
| HfUnresumed
| HfDialling (host : list byte) (f : HF)
| HfConnecting (host : list byte) (fd : nat) (f : Fut)
| HfReturned.

Definition https_end (r : io_result Conn) : M (HttpsFut * W) (poll (io_result Conn)) :=
  do* set_self HfReturned ;
  mret (Ready r).

(** [tls.connect(host, tcp).await.map_err(io::Error::other)?] *)
Definition https_connecting (fuel : nat) (cx : Waker) (tls : ClientConfig) (host : list byte) (fd : nat)
    (f : Fut) : M (HttpsFut * W) (poll (io_result Conn)) :=
  let* (p, f) := lift (run_on f (fut_poll fuel cx (connect_future tls host fd))) in
  match p with
  | Pending =>
      do* set_self (HfConnecting host fd f) ;
      mret Pending
  | Ready (Err e) => https_end (Err (Custom Other (fmt_Error e)))
  | Ready (Ok conn) => https_end (Ok conn)
  end.

(** [Service::<Uri>::call(&mut http, uri).await.map_err(io::Error::other)?] *)
Definition https_dialling (fuel : nat) (cx : Waker) (tls : ClientConfig) (host : list byte) (f : HF) :
    M (HttpsFut * W) (poll (io_result Conn)) :=
  let* (p, f) := lift (λ w, let '(p, (f, w)) := poll_http cx f w in Done ((p, f), w)) in
  match p with
  | Pending =>
      do* set_self (HfDialling host f) ;
      mret Pending
  | Ready (Err text) => https_end (Err (Custom Other text))
  | Ready (Ok fd) => https_connecting fuel cx tls host fd Unresumed
  end.

(** [Future::poll]; [dial] is the future of the TCP step, which the first poll
    makes. *)
Definition https_poll (fuel : nat) (cx : Waker) (tls : ClientConfig) (scheme host : option (list byte))
    (dial : HF) : M (HttpsFut * W) (poll (io_result Conn)) :=
  let* st := self in
  match st with
  | HfUnresumed =>
      if negb (bool_decide (scheme = Some (bytes_of "https"))) then
        https_end (Err (Custom Other
          ("HttpsConnector requires https://; got scheme " +:+ debug_option_str scheme)))
      else
        match host with
        | None => https_end (Err (Custom Other "URI is missing a host"))
        | Some host => https_dialling fuel cx tls (strip_brackets host) dial
        end
  | HfDialling host f => https_dialling fuel cx tls host f
  | HfConnecting host fd f => https_connecting fuel cx tls host fd f
  | HfReturned => panic "async fn resumed after completion"
  end.

(** Dropping the future: the future it awaits is dropped with what it owns.  The
    clone of the [TlsConnector] that it holds is a count of its configuration,
    which Ffi.v models, and not part of this state. *)
Definition https_drop (tls : ClientConfig) : M (HttpsFut * W) unit :=
  let* st := self in
  do* match st with
      | HfUnresumed | HfReturned => mret tt
      | HfDialling _ f => lift (modify (drop_http f))
      | HfConnecting host fd f =>
          let* _ := lift (run_on f (fut_drop (connect_future tls host fd))) in
          mret tt
      end ;
  set_self HfReturned.
End https_future.

Arguments HttpsFut HF : clear implicits.

Section facts.
Context {HF W : Type} `{NetView W, !AwsLcConstsOk, !Strerror, SslSession W, Kdf W, !KdfView W,
  !KdfLaws W, LibSslCtx W, !LibSslCtxLaws W, LibSslConn W, !LibSslConnLaws W, !ConnGhost W,
  !SetupView W, ReadyFuture W, !ReadyFutureLaws W, HttpFuture HF W, !HttpFutureLaws HF W}.
Implicit Types (w : W) (g : Ghost) (tls : ClientConfig) (st : HttpsFut HF).

(** [g] is what the program owns apart from the future. *)
Definition https_rest tls st w g : Prop :=
  match st with
  | HfUnresumed | HfDialling _ _ => ghost w = g
  | HfConnecting host fd f => rest_of (client_session tls host fd) f w (g_take (OFd fd) g)
  | HfReturned => False
  end.

(** A future that waits has given its waker to the future it awaits. *)
Definition https_waits (cx : Waker) st w : Prop :=
  match st with
  | HfDialling _ f => ∃ f0 w0, poll_http cx f0 w0 = (Pending, (f, w))
  | HfConnecting _ _ f => ∃ ssl i w0, f = Suspended ssl (HsWait i) ∧ poll_ready_future i cx w0 = (Pending, w)
  | _ => False
  end.

(** The future is past the check of the scheme, with the host of the URI. *)
Definition https_host (scheme host : option (list byte)) st : Prop :=
  match st with
  | HfDialling h _ | HfConnecting h _ _ =>
      scheme = Some (bytes_of "https") ∧ ∃ h0, host = Some h0 ∧ h = strip_brackets h0
  | _ => True
  end.

Definition https_post tls (scheme host : option (list byte)) v g (cx : Waker) (p : poll (io_result Conn))
    (s : HttpsFut HF * W) : Prop :=
  match p with
  | Pending => view s.2 = v ∧ https_rest tls s.1 s.2 g ∧ https_host scheme host s.1 ∧ https_waits cx s.1 s.2
  | Ready (Err e) => s.1 = HfReturned ∧ kind e = Other ∧ ghost s.2 = g
  | Ready (Ok conn) => s.1 = HfReturned ∧ scheme = Some (bytes_of "https") ∧ ∃ h, host = Some h ∧
      connected_as (client_session tls (strip_brackets h) (conn_fd conn)) (conn_fd conn)
        (cc_ktls_disabled tls) (g_take (OFd (conn_fd conn)) g) v conn s.2
  end.

Lemma twp_run_on {T A} (t : T) (m : M (T * W) A) (Q : A * T → W → Prop) w :
  twp m (λ a s', Q (a, s'.1) s'.2) (t, w) → twp (run_on t m) Q w.
Proof. unfold twp, run_on. by destruct (m (t, w)) as [[a [t' w']]| |]. Qed.

Lemma owned_take tls host fd g :
  OCtx (cc_ctx tls) ∈ g_refs g → owned (W := W) (connect_future tls host fd) (cc_ctx tls) (g_take (OFd fd) g).
Proof. intros Hc. split; [by apply g_take_elem_of|apply g_take_elem]. Qed.
Lemma connecting_post cx tls h fd f st w g :
  OCtx (cc_ctx tls) ∈ g_refs g →
  rest_of (client_session tls (strip_brackets h) fd) f w (g_take (OFd fd) g) →
  ∃ n, ∀ fuel, (n ≤ fuel)%nat →
    twp (https_connecting fuel cx tls (strip_brackets h) fd f)
      (https_post tls (Some (bytes_of "https")) (Some h) (view w) g cx) (st, w).
Proof.
  intros Hc Hr. pose proof (owned_take tls (strip_brackets h) fd g Hc) as Ho.
  destruct (fut_poll_post _ _ _ f w _ cx (connect_starts tls (strip_brackets h) fd) Hr Ho) as [n Hn].
  exists n. intros fuel Hf. unfold https_connecting, https_end. do 2 twp_step. cbn [fst snd].
  apply twp_run_on. eapply twp_mono; [by apply Hn|].
  intros [[conn|e]|] [f' w'] Hp; cbn [fst snd] in Hp |- *.
  - destruct Hp as [_ Hcn]. do 3 twp_step. split_and!; [done..|]. exists h. split; [done|].
    pose proof Hcn as (_ & Hfd & _). cbn in Hfd. rewrite Hfd. done.
  - destruct Hp as [_ Hg]. cbn [snd] in Hg. do 3 twp_step. split_and!; [done..|]. cbn [snd]. by rewrite Hg, g_drop_take.
  - destruct Hp as (ssl & i & w1 & Hf' & Hp & Hh & Hv). cbn [fst snd] in *. subst f'. do 3 twp_step.
    split_and!; [done|done|by split; [|exists h]|by exists ssl, i, w1].
Qed.

Lemma dialling_post cx tls h (f : HF) st w g :
  OCtx (cc_ctx tls) ∈ g_refs g → ghost w = g →
  ∃ n, ∀ fuel, (n ≤ fuel)%nat →
    twp (https_dialling fuel cx tls (strip_brackets h) f)
      (https_post tls (Some (bytes_of "https")) (Some h) (view w) g cx) (st, w).
Proof.
  intros Hc <-. unfold https_dialling, https_end.
  destruct (poll_http cx f w) as [p [f' w']] eqn:E. apply poll_http_spec in E as Hs. destruct Hs as [Hv Hg].
  destruct p as [[fd|text]|].
  - destruct (connecting_post cx tls h fd Unresumed st w' (ghost w) Hc Hg) as [n Hn]. exists n. intros fuel Hf.
    do 2 twp_step. apply twp_done. eexists _, _. cbn [fst snd]. rewrite E. split; [done|].
    cbn beta iota. rewrite <- Hv. by apply Hn.
  - exists 0%nat. intros fuel _. do 2 twp_step. apply twp_done. eexists _, _. cbn [fst snd]. rewrite E.
    split; [done|]. cbn beta iota. do 3 twp_step. split; [done|]. by split.
  - exists 0%nat. intros fuel _. do 2 twp_step. apply twp_done. eexists _, _. cbn [fst snd]. rewrite E.
    split; [done|]. cbn beta iota. do 3 twp_step. split; [done|]. split_and!; [done|by split; [|exists h]|by exists f, w].
Qed.

Lemma https_poll_post cx tls scheme host dial st w g :
  OCtx (cc_ctx tls) ∈ g_refs g → https_rest tls st w g → https_host scheme host st →
  ∃ n, ∀ fuel, (n ≤ fuel)%nat →
    twp (https_poll fuel cx tls scheme host dial) (https_post tls scheme host (view w) g cx) (st, w).
Proof.
  intros Hc Hr Hh. unfold https_poll. destruct st as [|h f|h fd f|]; [| | |done].
  - assert (∀ e, kind e = Other → twp (https_end (HF := HF) (Err e)) (https_post tls scheme host (view w) g cx)
      (HfUnresumed, w)) as Hend by (intros e He; unfold https_end; do 3 twp_step; split; [done|]; by split).
    case_bool_decide as Hs; cbn [negb].
    + subst scheme. destruct host as [h|].
      * destruct (dialling_post cx tls h dial HfUnresumed w g Hc Hr) as [n Hn]. exists n. intros fuel Hf.
        do 2 twp_step. by apply Hn.
      * exists 0%nat. intros fuel _. do 2 twp_step. by apply Hend.
    + exists 0%nat. intros fuel _. do 2 twp_step. by apply Hend.
  - destruct Hh as (-> & h0 & -> & ->). destruct (dialling_post cx tls h0 f (HfDialling (strip_brackets h0) f) w g Hc Hr)
      as [n Hn]. exists n. intros fuel Hf. do 2 twp_step. by apply Hn.
  - destruct Hh as (-> & h0 & -> & ->).
    destruct (connecting_post cx tls h0 fd f (HfConnecting (strip_brackets h0) fd f) w g Hc Hr) as [n Hn].
    exists n. intros fuel Hf. do 2 twp_step. by apply Hn.
Qed.

Lemma https_drop_exact tls st w g :
  OCtx (cc_ctx tls) ∈ g_refs g → https_rest tls st w g →
  ∃ w', https_drop tls (st, w) = Done (tt, (HfReturned, w')) ∧ ghost w' = g.
Proof.
  intros Hc Hr. destruct st as [|h f|h fd f|]; [by exists w| |  |done].
  - exists (drop_http f w). split; [done|]. rewrite (proj2 (drop_http_spec f w)). done.
  - destruct (fut_drop_exact _ _ _ f w _ Hr (owned_take tls h fd g Hc)) as (w' & E & Hg).
    exists w'. split; [|by rewrite Hg; apply g_drop_take].
    unfold https_drop, mbind, M_bind, self, lift, run_on. cbn [fst snd]. by rewrite E.
Qed.
(** ** Runs *)

Lemma connecting_mono fuel fuel' cx tls host fd f (s : HttpsFut HF * W) r :
  https_connecting fuel cx tls host fd f s = Done r → (fuel ≤ fuel')%nat →
  https_connecting fuel' cx tls host fd f s = Done r.
Proof.
  unfold https_connecting, mbind, M_bind, lift, run_on. intros E Hf. revert E.
  destruct (fut_poll fuel cx (connect_future tls host fd) (f, s.2)) as [[a s']| |] eqn:E; [|done..].
  by rewrite (fut_poll_mono _ _ _ _ _ _ E Hf).
Qed.

Lemma dialling_mono fuel fuel' cx tls host (f : HF) (s : HttpsFut HF * W) r :
  https_dialling fuel cx tls host f s = Done r → (fuel ≤ fuel')%nat →
  https_dialling fuel' cx tls host f s = Done r.
Proof.
  unfold https_dialling, mbind, M_bind, lift. destruct (poll_http cx f s.2) as [[[fd|text]|] [f' w']]; [|done..].
  apply connecting_mono.
Qed.

Lemma https_poll_mono fuel fuel' cx tls scheme host dial (s : HttpsFut HF * W) r :
  https_poll fuel cx tls scheme host dial s = Done r → (fuel ≤ fuel')%nat →
  https_poll fuel' cx tls scheme host dial s = Done r.
Proof.
  unfold https_poll, mbind, M_bind, self. destruct s as [[|h f|h fd f|] w]; cbn [fst].
  - case_bool_decide; cbn [negb]; [|done]. destruct host; [|done]. apply dialling_mono.
  - apply dialling_mono.
  - apply connecting_mono.
  - done.
Qed.

(** The future is polled, and other tasks, reactor and network move without touching
    what it owns or the context of the configuration it holds. *)
Inductive https_step tls scheme host (dial : HF) : HttpsFut HF * W → HttpsFut HF * W → Prop :=
| https_polled fuel cx p s s' :
    https_poll fuel cx tls scheme host dial s = Done (p, s') → https_step tls scheme host dial s s'
| https_others st w w' :
    view w' = view w →
    (∀ g, https_rest tls st w g → OCtx (cc_ctx tls) ∈ g_refs g →
     ∃ g', https_rest tls st w' g' ∧ OCtx (cc_ctx tls) ∈ g_refs g') →
    https_step tls scheme host dial (st, w) (st, w').

Definition https_inv tls scheme host v (s : HttpsFut HF * W) : Prop :=
  s.1 ≠ HfReturned → view s.2 = v ∧ https_host scheme host s.1 ∧
    ∃ g, https_rest tls s.1 s.2 g ∧ OCtx (cc_ctx tls) ∈ g_refs g.

Lemma https_step_inv tls scheme host dial v s s' :
  https_inv tls scheme host v s → https_step tls scheme host dial s s' → https_inv tls scheme host v s'.
Proof.
  intros Hi Hs. destruct Hs as [fuel cx p [st w] [st' w'] E|st w w' Hv Ho]; intros Hne.
  - assert (st ≠ HfReturned) as Hst by by intros ->.
    destruct (Hi Hst) as (Hv & Hh & g & Hr & Hc). cbn [fst snd] in *.
    destruct (https_poll_post cx tls scheme host dial st w g Hc Hr Hh) as [n Hn].
    specialize (Hn (fuel `max` n)%nat ltac:(lia)). unfold twp in Hn.
    rewrite (https_poll_mono _ _ _ _ _ _ _ _ _ E) in Hn by lia.
    destruct p as [[conn|e]|]; [by destruct Hn as [[= ->] _]..|].
    destruct Hn as (Hv' & Hr' & Hh' & _). cbn [fst snd] in *. split_and!; [congruence|done|by exists g].
  - destruct (Hi Hne) as (Hv0 & Hh & g & Hr & Hc). cbn [fst snd] in *.
    split_and!; [congruence|done|by apply (Ho g)].
Qed.

(** C33. The future of a call of the HTTPS connector is safe to cancel.  However often
    it has been polled, and whatever ran in between, dropping it at either await
    leaves no socket and no session behind.  And the next poll returns: with
    [Pending], the waker of this poll given to the future that is awaited; with an
    error, and nothing is left; or with a stream, only for the scheme https, that
    authenticates the host of the URI without IPv6 brackets. *)
Theorem https_future_cancel_safe tls scheme host dial w0 st w :
  OCtx (cc_ctx tls) ∈ g_refs (ghost w0) →
  rtc (https_step tls scheme host dial) (HfUnresumed, w0) (st, w) → st ≠ HfReturned →
  ∃ g, https_rest tls st w g ∧
    (∃ w', https_drop tls (st, w) = Done (tt, (HfReturned, w')) ∧ ghost w' = g) ∧
    ∀ cx, ∃ n, ∀ fuel, (n ≤ fuel)%nat →
      twp (https_poll fuel cx tls scheme host dial) (https_post tls scheme host (view w0) g cx) (st, w).
Proof.
  intros Hc R Hst. assert (https_inv tls scheme host (view w0) (st, w)) as Hi.
  { remember (HfUnresumed, w0) as s eqn:Es. assert (https_inv tls scheme host (view w0) s) as Hi.
    { subst s. intros _. split_and!; [done..|]. by exists (ghost w0). }
    clear Es. induction R as [|s1 s2 s3 Hs _ IH]; [done|]. by eapply IH, https_step_inv. }
  destruct (Hi Hst) as (Hv & Hh & g & Hr & Hg). cbn [fst snd] in *. exists g.
  split_and!; [done|by apply https_drop_exact|]. intros cx. rewrite <- Hv. by apply https_poll_post.
Qed.
End facts.

(** ** An abandoned request in the scripted world *)

(** A TCP step that is pending for the given number of polls. *)
#[export] Instance sim_http_future : HttpFuture nat Sim := {|
  poll_http _ f w :=
    match f with
    | S f' => (Pending, (f', w))
    | O => (Ready (Ok 7%nat), (O, with_ghost (g_take (OFd 7)) w))
    end;
  drop_http _ w := w |}.

#[export] Instance sim_http_future_laws : HttpFutureLaws nat Sim.
Proof. split; [|done]. intros cx [|f] w p f' w' E; cbn in E; by simplify_eq. Qed.

(** Polled once while the TCP step is pending and once more into the handshake, then
    dropped. *)
Lemma https_future_cancel_safe_witness :
  let uri_scheme := Some (bytes_of "https") in
  let uri_host := Some (bytes_of "[::1]") in
  let s0 := (HfUnresumed, sim0 [EvHandshake (-1) 2]) in
  ∃ s1 st w w',
    https_poll 9 (TaskWaker 1) cfg0 uri_scheme uri_host 1%nat s0 = Done (Pending, s1) ∧
    https_poll 9 (TaskWaker 2) cfg0 uri_scheme uri_host 1%nat s1 = Done (Pending, (st, w)) ∧
    https_drop cfg0 (st, w) = Done (tt, (HfReturned, w')) ∧
    https_rest cfg0 st w (ghost w').
Proof.
  intros uri_scheme uri_host s0.
  destruct (https_poll 9 (TaskWaker 1) cfg0 uri_scheme uri_host 1%nat s0) as [[p s1]| |] eqn:E1;
    [|vm_compute in E1; discriminate..].
  assert (p = Pending) as -> by (vm_compute in E1; congruence).
  destruct (https_poll 9 (TaskWaker 2) cfg0 uri_scheme uri_host 1%nat s1) as [[p [st w]]| |] eqn:E2;
    [|vm_compute in E1; injection E1 as <-; vm_compute in E2; discriminate..].
  assert (p = Pending ∧ st ≠ HfReturned) as [-> Hst].
  { vm_compute in E1. injection E1 as <-. vm_compute in E2. by injection E2 as <- <- _. }
  destruct (https_future_cancel_safe cfg0 uri_scheme uri_host 1%nat (sim0 [EvHandshake (-1) 2]) st w)
    as (g & Hr & (w' & Hd & Hg) & _); [cbn; multiset_solver| |exact Hst|].
  { eapply rtc_l; [by eapply https_polled; exact E1|]. apply rtc_once. by eapply https_polled; exact E2. }
  exists s1, st, w, w'. split_and!; [done|exact E2|exact Hd|]. by rewrite Hg.
Defined.
