(* ===== verification/Hyper.v ===== *)
(** * hyper.rs: the adapters

    The acceptor for hyper's server side only wraps the crate's own.  The connector
    for its client side pairs a [TlsConnector] with hyper-util's [HttpConnector],
    which opens the TCP connection; that connector is a parameter. *)

From S2P Require Import Prelude Std Ip Env Objects Sim Errors Ownership Alpn Suites Session RecordIo CryptoInfo Install Stream StreamProps ServerConfig ClientConfig Endpoint EndpointProps.

Local Open Scope Z_scope.

(** ** The server side *)

(** [TlsAcceptor] and [TlsConnector] are a configuration behind an [Arc]. *)
Record HyperAcceptor : Type := { ha_inner : ServerConfig }.

Definition HyperAcceptor_new (acceptor : ServerConfig) : HyperAcceptor := {| ha_inner := acceptor |}.

(** [From<TlsAcceptor> for HyperAcceptor] *)
Definition HyperAcceptor_from (acceptor : ServerConfig) : HyperAcceptor := HyperAcceptor_new acceptor.

(** [TokioIo<TlsStream>]: a wrapper that forwards. *)
Record TokioIo (T : Type) : Type := TokioIo_new { io_inner : T }.
Arguments TokioIo_new {_} _.
Arguments io_inner {_} _.

Section server.
Context {W : Type} `{AwsLcConsts, Strerror, ErrQueue W, TokioTcp W, LibSsl W, Syscalls W, Kdf W,
  SslSession W, LibSslConn W}.

Definition HyperAcceptor_accept (fuel : nat) (self : HyperAcceptor) (tcp : nat) :
    M W (Result (TokioIo Conn)) :=
  let? stream := accept fuel (ha_inner self) tcp in
  mret (Ok (TokioIo_new stream)).
End server.

(** ** The client side *)

(** [Uri], as far as the connector looks at it. *)
Record Uri : Type := { uri_scheme : option (list byte); uri_host : option (list byte) }.

(** hyper-util's [HttpConnector]: errors are their texts. *)
Class HttpConnector (H W : Type) : Type := {
  HttpConnector_new : H;
  enforce_http : bool → H → H;
  http_poll_ready : H → Waker → W → poll (result unit string) * (H * W);
  http_call : H → Uri → W → result nat string * W;
}.

(** Whether it insists on the scheme [http], which it does unless told otherwise;
    then any other scheme is an error before anything is opened.  A connector
    that is not stopped hands out a socket the caller owns. *)
Class HttpConnectorLaws (H W : Type)
    `{ErrQueue W, LibSslCtx W, !LibSslCtxLaws W, HttpConnector H W} : Type := {
  enforced : H → bool;
  enforced_new : enforced HttpConnector_new = true;
  enforced_set b h : enforced (enforce_http b h) = b;
  http_call_enforced h uri w :
    enforced h = true → uri_scheme uri ≠ Some (bytes_of "http") →
    ∃ text, http_call h uri w = (Err text, w);
  http_call_owns h uri w r w' :
    http_call h uri w = (r, w') →
    ghost w' = match r with Ok fd => g_take (OFd fd) (ghost w) | Err _ => ghost w end;
}.

Record HttpsConnector (H : Type) : Type := { hc_http : H; hc_tls : ClientConfig }.
Arguments hc_http {_} _.
Arguments hc_tls {_} _.

Section client.
Context {H W : Type} `{HttpConnector H W}.

Definition HttpsConnector_new (tls : ClientConfig) : HttpsConnector H :=
  let http := HttpConnector_new in
  let http := enforce_http false http in
  {| hc_http := http; hc_tls := tls |}.

Definition with_http_connector (http : H) (tls : ClientConfig) : HttpsConnector H :=
  {| hc_http := http; hc_tls := tls |}.

(** [From<TlsConnector> for HttpsConnector] *)
Definition HttpsConnector_from (tls : ClientConfig) : HttpsConnector H := HttpsConnector_new tls.

(** [Service::poll_ready] *)
Definition HttpsConnector_poll_ready (cx : Waker) : M (HttpsConnector H * W) (poll (io_result unit)) := λ s,
  let '(r, (http, w)) := http_poll_ready (hc_http s.1) cx s.2 in
  Done (match r with
        | Pending => Pending
        | Ready r => Ready (map_err (Custom Other) r)
        end, ({| hc_http := http; hc_tls := hc_tls s.1 |}, w)).

Context `{AwsLcConsts, Strerror, ErrQueue W, TokioTcp W, LibSsl W, Syscalls W, Kdf W,
  SslSession W, LibSslConn W}.

(** [Service::call]: the future works on clones of the two connectors. *)
Definition HttpsConnector_call (fuel : nat) (self : HttpsConnector H) (uri : Uri) :
    M W (io_result (TokioIo Conn)) :=
  let* r := https_call fuel (hc_tls self) (uri_scheme uri) (uri_host uri) (http_call (hc_http self) uri) in
  match r with
  | Ok conn => mret (Ok (TokioIo_new conn))
  | Err e => mret (Err e)
  end.
End client.

(** ** What a connector does *)

Section props.
Context {H W : Type} `{NetView W, !AwsLcConstsOk, !Strerror, SslSession W, Kdf W, !KdfView W,
  !KdfLaws W, LibSslCtx W, !LibSslCtxLaws W, LibSslConn W, !LibSslConnLaws W, !ConnGhost W,
  !SetupView W, HttpConnector H W, !HttpConnectorLaws H W}.
Implicit Types w : W.

Lemma wp_https_connector fuel (c : HttpsConnector H) uri h w :
  OCtx (cc_ctx (hc_tls c)) ∈ g_refs (ghost w) → uri_scheme uri = Some (bytes_of "https") →
  uri_host uri = Some h →
  wp (https_call fuel (hc_tls c) (uri_scheme uri) (uri_host uri) (http_call (hc_http c) uri))
    (λ r w', match r with
             | Ok conn => enforced (hc_http c) = false ∧ ∃ v,
                 connected_as (client_session (hc_tls c) (strip_brackets h) (conn_fd conn)) (conn_fd conn)
                   (cc_ktls_disabled (hc_tls c)) (g_take (OFd (conn_fd conn)) (ghost w)) v conn w'
             | Err e => kind e = Other ∧ ghost w' = ghost w
             end) w.
Proof.
  intros Hc Hs Hh. unfold https_call. rewrite Hs, bool_decide_true by done. cbn [negb]. rewrite Hh.
  wp_step. apply wp_ext. intros a w1 Hcall. pose proof (http_call_owns _ _ _ _ _ Hcall) as Hg.
  destruct a as [fd|text]; [|by wp_step]. wp_step.
  eapply wp_mono; [apply wp_connect; rewrite Hg|]; [by apply g_take_elem_of|apply g_take_elem|].
  intros [conn|e] w2 Hp; wp_step; cbn in Hp |- *; rewrite Hg in Hp.
  - destruct Hp as (Hho & <- & Ha). split; [|eexists; by split_and!].
    destruct (enforced (hc_http c)) eqn:Ee; [|done].
    destruct (http_call_enforced (hc_http c) uri w Ee) as [text Ht]; [by rewrite Hs|congruence].
  - split; [done|]. by rewrite Hp, g_drop_take.
Qed.


(** The acceptor adapter hands on what the acceptor does. *)
Lemma wp_hyper_accept fuel cfg fd w :
  OCtx (sc_ctx cfg) ∈ g_refs (ghost w) → OFd fd ∈ g_refs (ghost w) →
  wp (HyperAcceptor_accept fuel (HyperAcceptor_from cfg) fd)
    (λ r w', endpoint_post (server_session cfg fd) fd (sc_ktls_disabled cfg) w
       (match r with Ok io => Ok (io_inner io) | Err e => Err e end) w') w.
Proof.
  intros Hc Hfd. unfold HyperAcceptor_accept. wp_step. eapply wp_mono; [by apply wp_accept|].
  intros [conn|e] w' Hp; by wp_step.
Qed.
End props.

(** ** Witness: a URI with an IPv6 literal *)

(** A connector that knows one socket; its state is the flag. *)
#[export] Instance sim_http : HttpConnector bool Sim := {|
  HttpConnector_new := true;
  enforce_http b _ := b;
  http_poll_ready h _ w := (Ready (Ok tt), (h, w));
  http_call h uri w :=
    if h && negb (bool_decide (uri_scheme uri = Some (bytes_of "http")))
    then (Err "invalid URL, scheme is not http"%string, w)
    else (Ok 5%nat, with_ghost (g_take (OFd 5)) w) |}.

#[export] Instance sim_http_laws : HttpConnectorLaws bool Sim.
Proof.
  refine {| enforced := id |}.
  - done.
  - done.
  - intros h uri w Hh Hu. cbn in *. subst h. rewrite bool_decide_false by done. by eexists.
  - intros h uri w r w'. cbn. case_match; by intros [= <- <-].
Defined.

