(* ===== verification/EndToEnd.v ===== *)
(** * A whole session: handshake, data, shutdown

    The endpoints and the streams together. *)

From S2P Require Import Prelude Std Env Objects Sim Errors Ownership RecordIo RecordSpec Install Stream StreamSpec StreamProps Delivery ServerConfig ClientConfig Endpoint EndpointProps.

Local Open Scope Z_scope.

Section session.
Context {W : Type} `{NetView W, !AwsLcConstsOk, !Strerror, SslSession W, Kdf W, !KdfView W,
  !KdfLaws W, LibSslCtx W, !LibSslCtxLaws W, LibSslConn W, !LibSslConnLaws W, !ConnGhost W,
  !SetupView W, !SslReadLaws W}.
Implicit Types (w : W) (s : TlsStream * W).

(** What an endpoint hands out is a fresh stream on a connection without
    traffic, whichever data path installation chose. *)
Lemma connected_unused st fd d w conn w' :
  idle w → connected_as st fd d (ghost w) (view w) conn w' → unused (conn_stream conn, w').
Proof.
  intros (Hs & Hb & Hr & Hx & Hc) (_ & _ & w1 & Hv & log & _ & (Hs' & Hb' & Hr' & Hx' & Hc' & _) & Hp).
  cbn [snd] in *. rewrite Hv in *. unfold unused, fresh, idle. cbn [fst snd] in *.
  rewrite Hs', Hb', Hr', Hx', Hc'. destruct Hp as [[-> _]|(-> & _)]; by split_and!.
Qed.

(** C1. A whole session: a server that accepts and a client that connects, each on
    a connection without traffic, followed by any polls of the two streams.
    Whichever data path each end ends up on, and provided only that TLS carries
    records in order and [close_notify] behind them, what either side reads is a
    prefix of what the other was told is accepted for writing; and a side that
    sees the end of the stream has got all of it, from a peer that has shut its
    write half down. *)
Theorem sessions_deliver n m scfg ccfg name fds fdc ws wc sc cc ws' wc' ls lc s c :
  OCtx (sc_ctx scfg) ∈ g_refs (ghost ws) → OFd fds ∈ g_refs (ghost ws) → idle ws →
  OCtx (cc_ctx ccfg) ∈ g_refs (ghost wc) → OFd fdc ∈ g_refs (ghost wc) → idle wc →
  accept n scfg fds ws = Done (Ok sc, ws') → polls (conn_stream sc, ws') ls s →
  connect m ccfg name fdc wc = Done (Ok cc, wc') → polls (conn_stream cc, wc') lc c →
  carries s c → carries c s →
  (got lc `prefix_of` wrote ls ∧
   (GotEof ∈ lc → shutdown s.1 = ShutClosed ∧ got lc = wrote ls)) ∧
  (got ls `prefix_of` wrote lc ∧
   (GotEof ∈ ls → shutdown c.1 = ShutClosed ∧ got ls = wrote lc)).
Proof.
  intros Hsc Hsf Hsi Hcc Hcf Hci Ea Hps Ec Hpc Hsc' Hcs'.
  apply (wp_done _ _ _ _ _ (wp_accept n scfg fds ws Hsc Hsf)) in Ea.
  apply (wp_done _ _ _ _ _ (wp_connect m ccfg name fdc wc Hcc Hcf)) in Ec.
  apply connected_unused in Ea, Ec; [|done..].
  split; [exact (streams_deliver _ _ _ _ _ _ Ea Ec Hps Hpc Hsc')|].
  exact (streams_deliver _ _ _ _ _ _ Ec Ea Hpc Hps Hcs').
Qed.
End session.

(** ** Witness: a server on the libssl path, a client on the kernel path *)

Definition server_script : list Event :=
  [EvHandshake 1 0; EvWrite None []; EvShutdown 0 0; EvRead (inl (bytes_of "ping"))].
Definition client_script : list Event :=
  [EvHandshake 1 0; EvTcpWrite (Ok 4); recvd x17 (bytes_of "pong"); recvd x15 [x01; x00]].

Definition server_log : list IoEvent := [Wrote (bytes_of "pong"); Got (bytes_of "ping")].
Definition client_log : list IoEvent := [Wrote (bytes_of "ping"); Got (bytes_of "pong"); GotEof].

Lemma server_run :
  ∃ sc w' s, accept 2 {| sc_ctx := 0; sc_ktls_disabled := true |} 5 (dialling server_script) = Done (Ok sc, w') ∧
    polls (conn_stream sc, w') server_log s ∧ outgoing s = bytes_of "pong" ∧
    incoming s = bytes_of "ping" ∧ ¬ close_received s ∧ v_closes (view s.2) = 1%nat.
Proof.
  do 3 eexists. split; [vm_compute; reflexivity|]. split.
  { eapply (polls_write 2 (TaskWaker 0) (bytes_of "pong") _ (Ready (Ok 4))); [vm_compute; reflexivity|].
    eapply (polls_shutdown 2 (TaskWaker 0) _ (Ready (Ok tt))); [vm_compute; reflexivity|].
    eapply (polls_read 2 (TaskWaker 0) buf8 _
      (Ready (Ok tt), {| filled := bytes_of "ping"; capacity := 8 |})); [done|vm_compute; reflexivity|].
    apply polls_nil. }
  by split_and!.
Qed.

Lemma client_run :
  ∃ cc w' s, connect 2 cfg0 (bytes_of "x") 5 (dialling client_script) = Done (Ok cc, w') ∧
    polls (conn_stream cc, w') client_log s ∧ outgoing s = bytes_of "ping" ∧
    incoming s = bytes_of "pong" ∧ close_received s.
Proof.
  do 3 eexists. split; [vm_compute; reflexivity|]. split.
  { eapply (polls_write 2 (TaskWaker 0) (bytes_of "ping") _ (Ready (Ok 4))); [vm_compute; reflexivity|].
    eapply (polls_read 2 (TaskWaker 0) buf8 _
      (Ready (Ok tt), {| filled := bytes_of "pong"; capacity := 8 |})); [done|vm_compute; reflexivity|].
    eapply (polls_read 2 (TaskWaker 0) buf8 _ (Ready (Ok tt), buf8)); [done|vm_compute; reflexivity|].
    apply polls_nil. }
  by split_and!.
Qed.

Lemma sessions_deliver_witness : got client_log = wrote server_log.
Proof.
  destruct server_run as (sc & ws & s & Ea & Hps & Hos & His & Hcs & Hvs).
  destruct client_run as (cc & wc & c & Ec & Hpc & Hoc & Hic & Hcc).
  destruct (sessions_deliver 2 2 {| sc_ctx := 0; sc_ktls_disabled := true |} cfg0 (bytes_of "x") 5 5
    (dialling server_script) (dialling client_script) sc cc ws wc server_log client_log s c) as [[_ Hc] _];
    [apply (dialling_refs server_script)|apply (dialling_refs server_script)|by repeat split
    |apply (dialling_refs client_script)|apply (dialling_refs client_script)|by repeat split|exact Ea|exact Hps|exact Ec|exact Hpc
    |split; [by rewrite Hos, Hic|intros _; split; [by rewrite Hvs; apply Nat.lt_0_1|congruence]]
    |split; [by rewrite Hoc, His|by intros ?]|].
  destruct Hc as [_ Hc]; [by apply (bool_decide_unpack _)|exact Hc].
Defined.
