(* ===== verification/Conformance.v ===== *)
(** * The polls of stream.rs follow the wakeup protocol

    [Wakeups] is a step relation for the polls of a stream whose reactor runs on
    another thread; [Stream] is the code.  This file connects them: each call
    that a poll makes is a step of the relation, followed by whatever the network
    and the reactor do before the next call.  What holds of the relation thus
    holds of the code. *)

From S2P Require Import Prelude Std Env Sim Errors RecordIo Stream Wakeups.

(** ** The part of a world that the protocol is about *)

Record Core : Type := {
  c_avail : Interest → bool;
  c_event : Interest → bool;
  c_ready : Interest → bool;
  c_armed : Interest → bool;
  c_inflight : nat;
}.

Definition core_of (s : Sys) : Core :=
  {| c_avail := avail s; c_event := event s; c_ready := ready s; c_armed := armed s;
     c_inflight := inflight s |}.

Definition with_core (c : Core) (s : Sys) : Sys :=
  {| slots := slots s; status := status s; running := running s; avail := c_avail c;
     event := c_event c; ready := c_ready c; armed := c_armed c; inflight := c_inflight c |}.

Definition c_with_avail (f : Interest → bool) (c : Core) : Core :=
  {| c_avail := f; c_event := c_event c; c_ready := c_ready c; c_armed := c_armed c;
     c_inflight := c_inflight c |}.
Definition c_arm (i : Interest) (c : Core) : Core :=
  {| c_avail := c_avail c; c_event := c_event c; c_ready := c_ready c;
     c_armed := upd i true (c_armed c); c_inflight := c_inflight c |}.
Definition c_clear (i : Interest) (c : Core) : Core :=
  {| c_avail := c_avail c; c_event := c_event c; c_ready := upd i false (c_ready c);
     c_armed := c_armed c; c_inflight := c_inflight c |}.

(** What happens beside the poll: the network makes an offer, or the reactor
    caches the readiness of a direction and begins to call its waker.  (A call of
    the shared waker changes the slots of the stream; it is a step between
    polls.) *)
Inductive env_step (c : Core) : Core → Prop :=
| env_arrive i :
    env_step c {| c_avail := upd i true (c_avail c); c_event := upd i true (c_event c);
                  c_ready := c_ready c; c_armed := c_armed c; c_inflight := c_inflight c |}
| env_dispatch i :
    c_event c i = true →
    env_step c {| c_avail := c_avail c; c_event := upd i false (c_event c);
                  c_ready := upd i true (c_ready c); c_armed := upd i false (c_armed c);
                  c_inflight := c_inflight c + if c_armed c i then 1 else 0 |}.

(** The direction that a code of [SSL_get_error] asks for. *)
Definition want_dir `{AwsLcConsts} (code : Z) : option Interest :=
  if (code =? SSL_ERROR_WANT_READ)%Z then Some READABLE
  else if (code =? SSL_ERROR_WANT_WRITE)%Z then Some WRITABLE else None.

(** A library call may use up what the socket offers; if it reports that it is
    blocked on a direction, there was nothing in it. *)
Definition call_effect (blocked : option Interest) (c c' : Core) : Prop :=
  ∃ f, (∀ i, f i = true → c_avail c i = true) ∧ (∀ i, blocked = Some i → f i = false) ∧
    rtc env_step (c_with_avail f c) c'.

(** A poll for readiness looks at the cache and, if the direction is not ready,
    registers the waker, in one step. *)
Definition ready_effect (i : Interest) (r : poll (io_result unit)) (c c' : Core) : Prop :=
  match r with
  | Ready (Ok _) => c_ready c i = true ∧ rtc env_step c c'
  | Ready (Err _) => rtc env_step c c'
  | Pending => c_ready c i = false ∧ rtc env_step (c_arm i c) c'
  end.

Class WakeLaws (W : Type)
    `{AwsLcConsts, ErrQueue W, TokioTcp W, !TryIoLaws W, LibSsl W} : Type := {
  core : W → Core;
  core_ready i w : io_ready i w = c_ready (core w) i;
  core_get_error w : rtc env_step (core w) (core (ERR_get_error w).2);
  core_clear_error w : rtc env_step (core w) (core (ERR_clear_error w));
  core_wake wk w : rtc env_step (core w) (core (wake wk w));
  core_clear_ready i w : rtc env_step (c_clear i (core w)) (core (clear_ready i w));
  core_poll_read_ready w r w' :
    poll_read_ready SharedWaker w = (r, w') → ready_effect READABLE r (core w) (core w');
  core_poll_write_ready w r w' :
    poll_write_ready SharedWaker w = (r, w') → ready_effect WRITABLE r (core w) (core w');
  core_SSL_write bytes w n w' :
    SSL_write bytes w = (n, w') → call_effect (want_dir (SSL_get_error n w')) (core w) (core w');
  core_SSL_read cap w n bs w' :
    SSL_read cap w = ((n, bs), w') → call_effect (want_dir (SSL_get_error n w')) (core w) (core w');
  core_SSL_shutdown w n w' :
    SSL_shutdown w = (n, w') → call_effect (want_dir (SSL_get_error n w')) (core w) (core w');
}.

(** ** Steps beside the poll *)

Lemma env_sys_step c c' s : env_step c c' → sys_step (with_core c s) (with_core c' s).
Proof.
  intros [i|i He]; right; [right; exact (step_arrive i (with_core c s))|left].
  exact (step_dispatch i (with_core c s) He).
Qed.

Lemma env_sys c c' s : rtc env_step c c' → rtc sys_step (with_core c s) (with_core c' s).
Proof. induction 1; [done|]. eapply rtc_l; [by apply env_sys_step|done]. Qed.

Lemma with_core_of s : with_core (core_of s) s = s.
Proof. by destruct s. Qed.

Lemma env_ready c c' i : rtc env_step c c' → c_ready c i = true → c_ready c' i = true.
Proof.
  induction 1 as [|c1 c2 c3 Hs _ IH]; [done|]. intros Hr. apply IH.
  destruct Hs as [j|j _]; cbn; [done|]. unfold upd. by case_decide.
Qed.

(** ** Running code and the protocol side by side *)

(** [upon m Q s]: if [m] returns from [s], then in [Q]. *)
Definition upon {S A} (m : M S A) (Q : A → S → Prop) (s : S) : Prop :=
  ∀ a s', m s = Done (a, s') → Q a s'.

Section upon.
Context {S : Type}.
Implicit Types s : S.

Lemma upon_bind {A B} (m : M S A) (k : A → M S B) (Q : B → S → Prop) s :
  upon m (λ a, upon (k a) Q) s → upon (m ≫= k) Q s.
Proof. intros H b s' (a & s1 & E1 & E2)%bind_done. by apply (H a s1). Qed.

Lemma upon_mono {A} (m : M S A) (P Q : A → S → Prop) s :
  upon m P s → (∀ a s', P a s' → Q a s') → upon m Q s.
Proof. intros H HPQ a s' E. by apply HPQ, H. Qed.

Lemma upon_ret {A} (a : A) (Q : A → S → Prop) s : Q a s → upon (mret a) Q s.
Proof. by intros HQ a' s' [= <- <-]. Qed.
End upon.

Section upon_self.
Context {T W : Type}.
Implicit Types s : T * W.

Lemma upon_self (Q : T → T * W → Prop) s : Q s.1 s → upon self Q s.
Proof. by intros HQ a s' [= <- <-]. Qed.

Lemma upon_modify_self (f : T → T) (Q : unit → T * W → Prop) s :
  Q tt (f s.1, s.2) → upon (modify_self f) Q s.
Proof. by intros HQ a s' [= <- <-]. Qed.

Lemma upon_set_self t (Q : unit → T * W → Prop) s : Q tt (t, s.2) → upon (set_self t) Q s.
Proof. by intros HQ a s' [= <- <-]. Qed.

Lemma upon_lift {A} (m : M W A) (Q : A → T * W → Prop) s :
  upon m (λ a w, Q a (s.1, w)) s.2 → upon (lift m) Q s.
Proof. intros H a s' (w & E & ->)%lift_done. by apply H. Qed.

Lemma upon_lift_ext {A} (f : W → A * W) (Q : A → T * W → Prop) s :
  (∀ a w, f s.2 = (a, w) → Q a (s.1, w)) → upon (lift (ext f)) Q s.
Proof. intros H a s' (w & [= E] & ->)%lift_done. by apply H. Qed.

Lemma upon_lift_gets {A} (f : W → A) (Q : A → T * W → Prop) s :
  Q (f s.2) s → upon (lift (gets f)) Q s.
Proof. destruct s as [t w]. by intros HQ a s' [= <- <-]. Qed.
End upon_self.

Section conformance.
Context {W : Type} `{AwsLcConsts, !AwsLcConstsOk, Strerror, ErrQueue W, TokioTcp W, !TryIoLaws W,
  LibSsl W, Syscalls W, !WakeLaws W}.
Implicit Types (t : TlsStream) (w : W) (s : Sys) (h : bool) (cx : Waker).

(** The socket and the slots of the stream are those of the protocol's state. *)
Definition conforms t w s : Prop :=
  core_of s = core w ∧ slots s = default IoWaiters_default (waiters t).

(** A poll of half [h] with context [cx] is running and stands at [pc]. *)
Definition polling h cx (pc : Pc) t w s : Prop :=
  conforms t w s ∧ status s h = Runnable ∧
  ∃ r, running s = Some r ∧ run_reader r = h ∧ run_waker r = cx ∧ run_pc r = pc.

(** It has just been told that direction [i] is not ready. *)
Definition told_pending h cx t w s : Prop :=
  ∃ i r, running s = Some r ∧ run_reader r = h ∧ run_waker r = cx ∧ run_pc r = PcReady i ∧
    status s h = Runnable ∧ slots s = default IoWaiters_default (waiters t) ∧
    ready s i = false ∧ rtc env_step (c_arm i (core_of s)) (core w).

(** The poll has returned: with a result, or the half sleeps unless its waker was
    called meanwhile. *)
Definition ended t w s : Prop := conforms t w s ∧ running s = None.

(** A result that ends the poll. *)
Definition over h t w s : Prop := ended t w s ∧ status s h = Runnable.

Definition asleep h cx s : Prop :=
  status s h = Runnable ∨ ∃ i ws, status s h = Parked cx (i :: ws).

Definition leads (P : Sys → Prop) s : Prop := ∃ s', rtc sys_step s s' ∧ P s'.

Lemma leads_refl (P : Sys → Prop) s : P s → leads P s.
Proof. intros HP. exists s. by split. Qed.

Lemma leads_trans (P Q : Sys → Prop) s : leads P s → (∀ s', P s' → leads Q s') → leads Q s.
Proof.
  intros (s1 & R1 & HP) HPQ. destruct (HPQ s1 HP) as (s2 & R2 & HQ). exists s2. split; [|done].
  by etrans.
Qed.

Lemma leads_poll (P : Sys → Prop) s s' : poll_step s s' → leads P s' → leads P s.
Proof. intros Hs (s2 & R & HP). exists s2. split; [|done]. eapply rtc_l; [by left|done]. Qed.

(** The state of the protocol after steps beside the poll. *)
Lemma leads_env (P : Sys → Prop) c s :
  rtc env_step (core_of s) c → P (with_core c s) → leads P s.
Proof.
  intros Hc HP. exists (with_core c s). split; [|done].
  rewrite <- (with_core_of s) at 1. by apply env_sys.
Qed.

Lemma polling_env h cx pc t w w' s :
  polling h cx pc t w s → rtc env_step (core w) (core w') → leads (polling h cx pc t w') s.
Proof.
  intros ([Hc Hs] & Hst & r & Hr) He. eapply (leads_env _ (core w')); [by rewrite Hc|].
  split_and!; [by split; [destruct (core w')|]|done|by exists r].
Qed.

(** ** The calls *)

Lemma polling_call h cx t w w' o s :
  polling h cx PcCall t w s → call_effect o (core w) (core w') →
  leads (polling h cx PcCall t w') s.
Proof.
  intros ([Hc Hs] & Hst & r & Hr & Hh & Hcx & Hpc) (f & Hf & _ & He).
  eapply leads_poll; [apply (step_continue r false f); [done|done|]|].
  { intros i Hi. specialize (Hf i Hi). by rewrite <- Hc in Hf. }
  cbn. eapply (leads_env _ (core w')); [by rewrite <- Hc in He|].
  split_and!; [by split; [destruct (core w')|]|done|by exists r].
Qed.

Lemma polling_blocked h cx t w w' i s :
  polling h cx PcCall t w s → call_effect (Some i) (core w) (core w') →
  leads (polling h cx (PcRegister i) t w') s.
Proof.
  intros ([Hc Hs] & Hst & r & Hr & Hh & Hcx & Hpc) (f & Hf & Hb & He).
  eapply leads_poll; [apply (step_blocked r i f); [done|done| |by apply Hb]|].
  { intros j Hj. specialize (Hf j Hj). by rewrite <- Hc in Hf. }
  eapply (leads_env _ (core w')); [by rewrite <- Hc in He|].
  split_and!; [by split; [destruct (core w')|]|done|]. by eexists.
Qed.

(** Notifying is part of the call that ends. *)
Lemma polling_notify h cx t w s :
  polling h cx PcCall t w s →
  leads (polling h cx PcCall (with_waiters (Some IoWaiters_default) t) w) s.
Proof.
  intros ([Hc Hs] & Hst & r & Hr & Hh & Hcx & Hpc).
  eapply leads_poll; [by apply (step_continue r true (avail s))|]. apply leads_refl.
  split_and!; [by split; [rewrite <- Hc|]|cbn; by rewrite Hst|].
  exists (wake_running (slot_wakers (slots s)) r). cbn. by rewrite Hr.
Qed.

Lemma polling_ends h cx t w s :
  polling h cx PcCall t w s → leads (over h t w) s.
Proof.
  intros ([Hc Hs] & Hst & r & Hr & Hh & Hcx & Hpc).
  eapply leads_poll; [by apply (step_done r false (avail s))|]. apply leads_refl.
  split; [|done]. split; [|done]. by split; [rewrite <- Hc|].
Qed.

Lemma told_parks h cx t w s :
  told_pending h cx t w s → leads (λ s', ended t w s' ∧ asleep h cx s') s.
Proof.
  intros (i & r & Hr & Hh & Hcx & Hpc & Hst & Hs & Hrd & He).
  eapply leads_poll; [by apply (step_pending r i)|].
  eapply (leads_env _ (core w)); [done|]. split; [split; [|done]|].
  - by split; [destruct (core w)|].
  - unfold asleep. cbn. rewrite Hh, upd_eq. destruct (run_notified r); [by left|right].
    rewrite Hcx. by eexists _, _.
Qed.

Lemma told_reads_on cx t w s :
  told_pending true cx t w s → leads (polling true cx PcCall t w) s.
Proof.
  intros (i & r & Hr & Hh & Hcx & Hpc & Hst & Hs & Hrd & He).
  eapply leads_poll; [by apply (step_read_on r i)|].
  eapply (leads_env _ (core w)); [done|].
  split_and!; [by split; [destruct (core w)|]|done|]. by eexists.
Qed.

Lemma polling_frame h cx pc t t' w s :
  waiters t' = waiters t → polling h cx pc t w s → polling h cx pc t' w s.
Proof. intros Ht ([Hc Hs] & Hr). split; [|done]. split; [done|]. by rewrite Ht. Qed.

(** ** The helpers *)

Lemma upon_last_error w : upon last_error (λ _ w', rtc env_step (core w) (core w')) w.
Proof.
  apply upon_bind. intros code w1 [= E]. pose proof (core_get_error w) as Hc. rewrite E in Hc.
  cbn [snd] in Hc. destruct (code =? 0)%Z; [by apply upon_ret|].
  intros a w' E'. rewrite format_and_clear_done in E'. injection E' as <- <-.
  etrans; [exact Hc|apply core_clear_error].
Qed.

Lemma upon_ssl_io_error op code w :
  upon (ssl_io_error op code) (λ _ w', rtc env_step (core w) (core w')) w.
Proof.
  unfold ssl_io_error. apply upon_bind. intros ? ? [= <- <-]. apply upon_bind. intros ? ? [= <- <-].
  apply upon_bind. eapply upon_mono; [apply upon_last_error|]. intros detail w' He.
  repeat case_match; by apply upon_ret.
Qed.

Lemma upon_wake_all sl w : upon (wake_all sl) (λ _ w', rtc env_step (core w) (core w')) w.
Proof.
  unfold wake_all. apply upon_bind. intros [] w1 E1.
  assert (rtc env_step (core w) (core w1)) as H1'.
  { destruct (slot_writer sl); injection E1 as <-; [apply core_wake|done]. }
  intros [] w2 E2. etrans; [exact H1'|].
  destruct (slot_reader sl); injection E2 as <-; [apply core_wake|done].
Qed.

(** The slots after [notify]. *)
Definition notified t : TlsStream :=
  match waiters t with
  | None => t
  | Some _ => with_waiters (Some IoWaiters_default) t
  end.

Lemma upon_notify (Q : unit → TlsStream * W → Prop) t w :
  (∀ w', rtc env_step (core w) (core w') → Q tt (notified t, w')) → upon notify Q (t, w).
Proof.
  intros HQ. unfold notify. apply upon_bind, upon_self. cbn [fst].
  unfold notified in HQ. destruct (waiters t) as [sl|]; [|by apply upon_ret, HQ].
  apply upon_bind, upon_set_self, upon_lift. cbn [fst snd].
  eapply upon_mono; [apply upon_wake_all|]. intros [] w' He. by apply HQ.
Qed.

Lemma polling_notified h cx t w s :
  polling h cx PcCall t w s → leads (polling h cx PcCall (notified t) w) s.
Proof.
  intros Hp. unfold notified. destruct (waiters t); [by apply polling_notify|by apply leads_refl].
Qed.

Lemma leads_ended_env h t w w' s :
  over h t w s → rtc env_step (core w) (core w') →
  leads (over h t w') s.
Proof.
  intros [[[Hc Hs] Hr] Hst] He. eapply (leads_env _ (core w')); [by rewrite Hc|].
  split; [|done]. split; [|done]. by split; [destruct (core w')|].
Qed.

(** A failed readiness poll of a write: the halves are notified. *)
Lemma polling_fails h cx i t w s :
  polling h cx (PcReady i) t w s → leads (over h (notified t) w) s.
Proof.
  intros ([Hc Hs] & Hst & r & Hr & Hh & Hcx & Hpc). unfold notified.
  destruct (waiters t) as [sl|] eqn:Ew.
  - eapply leads_poll; [by apply (step_failed r i true)|]. apply leads_refl.
    split; [|cbn; by rewrite Hst]. split; [|done]. by split; [rewrite <- Hc|].
  - eapply leads_poll; [by apply (step_failed r i false)|]. apply leads_refl.
    split; [|done]. split; [|done]. by split; [rewrite <- Hc|rewrite Ew].
Qed.

Lemma polling_fails_read h cx i t w s :
  polling h cx (PcReady i) t w s → leads (over h t w) s.
Proof.
  intros ([Hc Hs] & Hst & r & Hr & Hh & Hcx & Hpc).
  eapply leads_poll; [by apply (step_failed r i false)|]. apply leads_refl.
  split; [|done]. split; [|done]. by split; [rewrite <- Hc|].
Qed.

Lemma upon_fail_write {A} h cx pc error t w s :
  (pc = PcCall ∨ ∃ i, pc = PcReady i) → polling h cx pc t w s →
  upon (fail_write (A := A) error)
    (λ r p, (∃ e, r = Ready (Err e)) ∧ leads (over h p.1 p.2) s) (t, w).
Proof.
  intros Hpc Hp. unfold fail_write, write_failure. apply upon_bind, upon_bind, upon_modify_self.
  cbn [fst snd]. apply upon_bind, upon_notify. intros w' He. do 2 apply upon_ret. cbn [fst snd].
  split; [by eexists|]. apply (polling_frame _ _ _ _ (with_write_error (duplicate_io_error error) t)) in Hp;
    [|done].
  destruct Hpc as [->|[i ->]].
  - eapply leads_trans; [by apply polling_notified|]. intros s1 Hs1.
    eapply leads_trans; [by eapply polling_env|]. intros s2 Hs2. by eapply polling_ends.
  - eapply leads_trans; [by eapply polling_fails|]. intros s1 Hs1. by eapply leads_ended_env.
Qed.

(** ** [poll_ssl_ready] *)

Lemma want_dir_wants code : wants_io code = true → is_Some (want_dir code).
Proof.
  unfold wants_io, want_dir. intros [->| ->]%orb_prop; [by eexists|]. case_match; by eexists.
Qed.

(** What [poll_clear_read_ready] and [poll_clear_write_ready] do. *)
Definition ready_post h cx i t s (r : poll (io_result unit)) w : Prop :=
  leads (match r with
         | Ready (Ok _) => polling h cx PcCall t w
         | Ready (Err _) => polling h cx (PcReady i) t w
         | Pending => told_pending h cx t w
         end) s.

Lemma polling_cleared h cx i t w w' s :
  polling h cx (PcClear i) t w s → rtc env_step (c_clear i (core w)) (core w') →
  leads (polling h cx PcCall t w') s.
Proof.
  intros ([Hc Hs] & Hst & r & Hr & Hh & Hcx & Hpc) He.
  eapply leads_poll; [by apply (step_clear r i)|].
  eapply (leads_env _ (core w')); [by rewrite <- Hc in He|].
  split_and!; [by split; [destruct (core w')|]|done|]. by eexists.
Qed.

Lemma polling_ready_effect h cx i t w r w' s :
  polling h cx (PcReady i) t w s → ready_effect i r (core w) (core w') →
  match r with
  | Ready (Ok _) =>
      leads (polling h cx (PcClear i) t w') s ∧ c_ready (core w') i = true
  | Ready (Err _) => leads (polling h cx (PcReady i) t w') s
  | Pending => leads (told_pending h cx t w') s
  end.
Proof.
  intros Hp. pose proof Hp as ([Hc Hs] & Hst & r' & Hr & Hh & Hcx & Hpc).
  assert (ready s i = c_ready (core w) i) as Hrd by by rewrite <- Hc.
  destruct r as [[[]|e]|]; cbn [ready_effect].
  - intros [Ha He]. split; [|by eapply env_ready].
    eapply leads_poll; [apply (step_ready r' i); [done|done|by rewrite Hrd]|].
    eapply (leads_env _ (core w')); [by rewrite <- Hc in He|].
    split_and!; [by split; [destruct (core w')|]|done|]. by eexists.
  - intros He. by eapply polling_env.
  - intros [Ha He]. apply leads_refl. exists i, r'. rewrite Hrd, Ha, Hc. by split_and!.
Qed.

Lemma upon_try_clear i w :
  c_ready (core w) i = true →
  upon (try_io i would_block) (λ _ w', rtc env_step (c_clear i (core w)) (core w')) w.
Proof.
  intros Hr a w'. rewrite try_io_spec, core_ready, Hr. cbn. intros [= <- <-].
  apply core_clear_ready.
Qed.

(** [poll_clear_read_ready] and [poll_clear_write_ready]. *)
Lemma upon_clear h cx i (call : W → poll (io_result unit) * W) t w s :
  (∀ r w', call w = (r, w') → ready_effect i r (core w) (core w')) →
  polling h cx (PcReady i) t w s →
  upon (let* r := ext call in
        match r with
        | Ready (Ok _) => do* try_io i would_block ; mret (Ready (Ok tt))
        | other => mret other
        end) (ready_post h cx i t s) w.
Proof.
  intros Hcall Hp. apply upon_bind. intros r w1 [= E]. apply Hcall in E.
  pose proof (polling_ready_effect _ _ _ _ _ _ _ _ Hp E) as Hl.
  destruct r as [[[]|e]|]; [|by apply upon_ret..]. destruct Hl as [Hl Hr].
  apply upon_bind. eapply upon_mono; [by apply upon_try_clear|]. intros x w2 He. apply upon_ret.
  eapply leads_trans; [exact Hl|]. intros s1 Hs1. by eapply polling_cleared.
Qed.

Lemma polling_registers h cx i t w s :
  polling h cx (PcRegister i) t w s →
  leads (polling h cx (PcReady i)
    (with_waiters (Some (register h cx (default IoWaiters_default (waiters t)))) t) w) s.
Proof.
  intros ([Hc Hs] & Hst & r & Hr & Hh & Hcx & Hpc).
  eapply leads_poll; [by apply (step_register r i)|]. apply leads_refl.
  split_and!; [|done|by eexists]. split; [by rewrite <- Hc|]. cbn. by rewrite Hs, Hh, Hcx.
Qed.

(** The library call was blocked: the poll registers, asks for readiness, and goes
    on, fails or is told to wait. *)
Lemma upon_poll_ssl_ready h cx code i t w s :
  want_dir code = Some i → polling h cx (PcRegister i) t w s →
  upon (poll_ssl_ready code cx h) (λ r p, ready_post h cx i p.1 s r p.2) (t, w).
Proof.
  intros Hd Hp. unfold poll_ssl_ready. apply upon_bind, upon_self. cbn [fst]. cbn zeta.
  apply upon_bind, upon_set_self. cbn [fst snd].
  apply polling_registers in Hp as (s1 & R1 & Hp).
  assert (∀ t' r w', ready_post h cx i t' s1 r w' → ready_post h cx i t' s r w') as Hback.
  { intros t' r w' (s2 & R2 & HQ). exists s2. split; [by etrans|done]. }
  unfold want_dir in Hd. destruct (code =? SSL_ERROR_WANT_READ)%Z eqn:Er.
  - injection Hd as <-. apply upon_lift. cbn [fst snd].
    eapply upon_mono; [apply (upon_clear h cx READABLE); [apply core_poll_read_ready|exact Hp]|]. intros. by apply Hback.
  - destruct (code =? SSL_ERROR_WANT_WRITE)%Z; [|done]. injection Hd as <-.
    apply upon_lift. cbn [fst snd].
    eapply upon_mono; [apply (upon_clear h cx WRITABLE); [apply core_poll_write_ready|exact Hp]|]. intros. by apply Hback.
Qed.

(** ** The loops *)

(** A flush that is part of a poll. *)
Definition flushing_post h cx s (r : poll (io_result unit)) (p : TlsStream * W) : Prop :=
  leads (match r with
         | Ready (Ok _) => polling h cx PcCall p.1 p.2
         | Ready (Err _) => over h p.1 p.2
         | Pending => told_pending h cx p.1 p.2
         end) s.

Lemma leads_back (P : Sys → Prop) s s' : rtc sys_step s s' → leads P s' → leads P s.
Proof. intros R (s2 & R2 & HP). exists s2. split; [by etrans|done]. Qed.

(** A library call that asks to be repeated, and [poll_ssl_ready] after it. *)
Lemma upon_blocked {A} h cx code t w w' s
    (k : poll (io_result unit) → M (TlsStream * W) A) (Q : A → TlsStream * W → Prop) :
  wants_io code = true → polling h cx PcCall t w s →
  call_effect (want_dir code) (core w) (core w') →
  (∀ i r t' w'' s', rtc sys_step s s' →
     match r with
     | Ready (Ok _) => polling h cx PcCall t' w'' s'
     | Ready (Err _) => polling h cx (PcReady i) t' w'' s'
     | Pending => told_pending h cx t' w'' s'
     end → upon (k r) Q (t', w'')) →
  upon (let* r := poll_ssl_ready code cx h in k r) Q (t, w').
Proof.
  intros Hw Hp Hc Hk. destruct (want_dir_wants code Hw) as [i Hi]. rewrite Hi in Hc.
  eapply polling_blocked in Hp as (s1 & R1 & Hp); [|exact Hc]. apply upon_bind.
  eapply upon_mono; [by eapply upon_poll_ssl_ready|]. intros r [t' w''] (s2 & R2 & HQ).
  apply (Hk i r t' w'' s2); [by etrans|by destruct r as [[]|]].
Qed.

Lemma upon_pending_write_loop h cx fuel t w s :
  polling h cx PcCall t w s → upon (pending_write_loop fuel cx h) (flushing_post h cx s) (t, w).
Proof.
  revert t w s. induction fuel as [|fuel IH]; intros t w s Hp; [done|]. cbn [pending_write_loop].
  apply upon_bind, upon_self. cbn [fst].
  destruct (is_empty (pending_write t)); [by apply upon_ret, leads_refl|].
  destruct (try_from_max _ _) as [n|]; [|done].
  apply upon_bind, upon_lift_ext. cbn [fst snd]. intros m w1 E. apply core_SSL_write in E.
  destruct (m =? n)%Z.
  - apply upon_bind, upon_modify_self. cbn [fst snd]. apply upon_bind, upon_notify. intros w2 He.
    apply upon_ret. eapply leads_trans; [by eapply polling_call|]. intros s1 Hs1.
    apply (polling_frame _ _ _ _ (with_pending [] t)) in Hs1; [|done].
    eapply leads_trans; [by apply polling_notified|]. intros s2 Hs2. by eapply polling_env.
  - apply upon_bind, upon_lift_gets. cbn [fst snd].
    destruct (wants_io (SSL_get_error m w1)) eqn:Ew.
    + eapply upon_blocked; [exact Ew|exact Hp|exact E|]. intros i r t' w2 s2 R Hr.
      destruct r as [[[]|e]|].
      * eapply upon_mono; [by apply (IH _ _ s2)|]. intros a p' Hl. by eapply leads_back.
      * eapply upon_mono; [by eapply (upon_fail_write h cx (PcReady i)); [right; eexists|]|].
        intros a p' [[x ->] Hl]. by eapply leads_back.
      * apply upon_ret. exists s2. by split.
    + apply upon_bind, upon_lift. cbn [fst snd]. eapply upon_mono; [apply upon_ssl_io_error|].
      intros e w2 He. eapply polling_call in Hp as (s1 & R1 & Hp); [|exact E].
      eapply polling_env in Hp as (s2 & R2 & Hp); [|exact He].
      eapply upon_mono; [by eapply (upon_fail_write h cx PcCall); [left|]|].
      intros a p' [[x ->] Hl]. eapply leads_back; [|exact Hl]. by etrans.
Qed.

Lemma upon_poll_pending_write h cx fuel t w s :
  polling h cx PcCall t w s → upon (poll_pending_write fuel cx h) (flushing_post h cx s) (t, w).
Proof.
  intros Hp. unfold poll_pending_write. apply upon_bind, upon_self. cbn [fst].
  destruct (write_error t); [|by apply upon_pending_write_loop].
  apply upon_ret. by eapply polling_ends.
Qed.

(** A whole poll. *)
Definition poll_post {A} h cx s (r : poll A) (p : TlsStream * W) : Prop :=
  leads (match r with
         | Ready _ => over h p.1 p.2
         | Pending => λ s', ended p.1 p.2 s' ∧ asleep h cx s'
         end) s.

Lemma poll_post_back {A} h cx s s' (r : poll A) p :
  rtc sys_step s s' → poll_post h cx s' r p → poll_post h cx s r p.
Proof. apply leads_back. Qed.

Lemma flush_is_poll h cx s r p : flushing_post h cx s r p → poll_post h cx s r p.
Proof.
  intros Hf. eapply leads_trans; [exact Hf|]. intros s' Hs'. destruct r as [[[]|e]|].
  - by eapply polling_ends.
  - by apply leads_refl.
  - by apply told_parks.
Qed.

(** ** The polls *)

Lemma upon_read_loop cx fuel buf t w s :
  polling true cx PcCall t w s →
  upon (read_loop fuel cx buf) (λ r, poll_post true cx s r.1) (t, w).
Proof.
  revert buf t w s. induction fuel as [|fuel IH]; intros buf t w s Hp; [done|]. cbn [read_loop].
  destruct (remaining buf =? 0)%Z; [apply upon_ret; by eapply polling_ends|].
  apply upon_bind, upon_lift_ext. cbn [fst snd]. intros [n bytes] w1 E. apply core_SSL_read in E.
  assert (leads (polling true cx PcCall t w1) s) as (s1 & R1 & Hp1) by by eapply polling_call.
  destruct (0 <? n)%Z.
  { destruct (remaining buf <? n)%Z; [done|]. apply upon_bind. unfold advance.
    case_match; [done|]. do 2 apply upon_ret. eapply leads_back; [exact R1|]. by eapply polling_ends. }
  apply upon_bind, upon_lift_gets. cbn [fst snd].
  destruct (SSL_get_error n w1 =? SSL_ERROR_ZERO_RETURN)%Z.
  { apply upon_ret. eapply leads_back; [exact R1|]. by eapply polling_ends. }
  destruct (wants_io (SSL_get_error n w1)) eqn:Ew.
  - eapply upon_blocked; [exact Ew|exact Hp|exact E|]. intros i r t' w2 s2 R Hr.
    destruct r as [[[]|e]|].
    + eapply upon_mono; [by apply (IH _ _ _ s2)|]. intros a p' Hl. by eapply poll_post_back.
    + apply upon_ret. eapply leads_back; [exact R|]. by eapply polling_fails_read.
    + apply upon_ret. eapply leads_back; [exact R|]. by apply told_parks.
  - apply upon_bind, upon_lift. cbn [fst snd]. eapply upon_mono; [apply upon_ssl_io_error|].
    intros e w2 He. apply upon_ret. eapply leads_back; [exact R1|].
    eapply polling_env in Hp1 as (s2 & R2 & Hp2); [|exact He].
    eapply leads_back; [exact R2|]. by eapply polling_ends.
Qed.

Lemma upon_poll_read cx fuel buf t w s :
  ktls_active t = false → polling true cx PcCall t w s →
  upon (poll_read fuel cx buf) (λ r, poll_post true cx s r.1) (t, w).
Proof.
  intros Ha Hp. unfold poll_read. apply upon_bind, upon_self. cbn [fst].
  destruct (remaining buf =? 0)%Z; [apply upon_ret; by eapply polling_ends|]. rewrite Ha.
  apply upon_bind. eapply upon_mono; [by apply upon_poll_pending_write|].
  intros r [t' w'] (s1 & R1 & Hr). cbn [fst snd] in Hr. destruct r as [[[]|e]|].
  - eapply upon_mono; [by apply (upon_read_loop _ _ _ _ _ s1)|]. intros. by eapply poll_post_back.
  - apply upon_ret. by exists s1.
  - apply told_reads_on in Hr as (s2 & R2 & Hr).
    eapply upon_mono; [by apply (upon_read_loop _ _ _ _ _ s2)|].
    intros a p' Hl. eapply poll_post_back; [|exact Hl]. by etrans.
Qed.

Lemma upon_poll_write cx fuel buf t w s :
  ktls_active t = false → polling false cx PcCall t w s →
  upon (poll_write fuel cx buf) (poll_post false cx s) (t, w).
Proof.
  intros Ha Hp. assert (leads (over false t w) s) as Hover by by eapply polling_ends.
  unfold poll_write. apply upon_bind, upon_self. cbn [fst].
  destruct (is_empty buf); [by apply upon_ret|].
  destruct (write_error t); [by apply upon_ret|].
  destruct (bool_decide _); [by apply upon_ret|]. rewrite Ha.
  apply upon_bind. eapply upon_mono; [by apply upon_poll_pending_write|].
  intros r [t1 w1] (s1 & R1 & Hr). cbn [fst snd] in Hr. destruct r as [[[]|e]|].
  2: { apply upon_ret. by exists s1. }
  2: { apply upon_ret. eapply leads_back; [exact R1|]. by apply told_parks. }
  cbn zeta. destruct (try_from_max _ _); [|done].
  apply upon_bind, upon_lift_ext. cbn [fst snd]. intros n w2 E. apply core_SSL_write in E.
  eapply polling_call in Hr as (s2 & R2 & Hr); [|exact E].
  destruct (0 <? n)%Z.
  { apply upon_ret. eapply leads_back; [by etrans|]. by eapply polling_ends. }
  apply upon_bind, upon_lift_gets. cbn [fst snd].
  destruct (wants_io (SSL_get_error n w2)).
  - apply upon_bind, upon_modify_self. cbn [fst snd]. apply upon_ret.
    eapply leads_back; [by etrans|]. eapply polling_ends, polling_frame; [|exact Hr]. done.
  - apply upon_bind, upon_lift. cbn [fst snd]. eapply upon_mono; [apply upon_ssl_io_error|].
    intros e w3 He. eapply polling_env in Hr as (s3 & R3 & Hr); [|exact He].
    eapply upon_mono; [by eapply (upon_fail_write false cx PcCall); [left|]|].
    intros a p' [[x ->] Hl]. eapply leads_back; [|exact Hl]. by do 2 (etrans; [done|]).
Qed.

Lemma upon_shutdown_loop cx fuel t w s :
  polling false cx PcCall t w s → upon (shutdown_loop fuel cx) (poll_post false cx s) (t, w).
Proof.
  revert t w s. induction fuel as [|fuel IH]; intros t w s Hp; [done|]. cbn [shutdown_loop].
  apply upon_bind, upon_lift_ext. cbn [fst snd]. intros n w1 E. apply core_SSL_shutdown in E.
  assert (leads (polling false cx PcCall t w1) s) as (s1 & R1 & Hp1) by by eapply polling_call.
  destruct (0 <=? n)%Z.
  { apply upon_bind, upon_modify_self. cbn [fst snd]. apply upon_ret.
    eapply leads_back; [exact R1|]. eapply polling_ends, polling_frame; [|exact Hp1]. done. }
  apply upon_bind, upon_lift_gets. cbn [fst snd].
  destruct (wants_io (SSL_get_error n w1)) eqn:Ew.
  - eapply upon_blocked; [exact Ew|exact Hp|exact E|]. intros i r t' w2 s2 R Hr.
    destruct r as [[[]|e]|].
    + eapply upon_mono; [by apply (IH _ _ s2)|]. intros a p' Hl. by eapply poll_post_back.
    + eapply upon_mono; [by eapply (upon_fail_write false cx (PcReady i)); [right; eexists|]|].
      intros a p' [[x ->] Hl]. by eapply leads_back.
    + apply upon_ret. eapply leads_back; [exact R|]. by apply told_parks.
  - apply upon_bind, upon_lift. cbn [fst snd]. eapply upon_mono; [apply upon_ssl_io_error|].
    intros e w2 He. eapply polling_env in Hp1 as (s2 & R2 & Hp1); [|exact He].
    eapply upon_mono; [by eapply (upon_fail_write false cx PcCall); [left|]|].
    intros a p' [[x ->] Hl]. eapply leads_back; [|exact Hl]. by etrans.
Qed.

(** The data path does not change under a flush. *)
Lemma preserves_notify : preserves (λ p : TlsStream * W, ktls_active p.1) notify.
Proof.
  intros [t w] a p' E. apply bind_done in E as (? & ? & [= <- <-] & E). cbn [fst] in E.
  destruct (waiters t); [|by injection E as <- <-].
  apply bind_done in E as (? & ? & [= <- <-] & E). by apply (preserves_lift_fst ktls_active) in E.
Qed.

Lemma preserves_poll_ssl_ready code cx h :
  preserves (λ p : TlsStream * W, ktls_active p.1) (poll_ssl_ready code cx h).
Proof.
  intros [t w] a p' E. apply bind_done in E as (? & ? & [= <- <-] & E). cbn zeta in E.
  apply bind_done in E as (? & ? & [= <- <-] & E).
  case_match; by apply (preserves_lift_fst ktls_active) in E.
Qed.

Lemma preserves_fail_write {A} e :
  preserves (λ p : TlsStream * W, ktls_active p.1) (fail_write (A := A) e).
Proof.
  unfold fail_write, write_failure. preserves_tac. apply preserves_notify.
Qed.

Lemma preserves_flush fuel cx h :
  preserves (λ p : TlsStream * W, ktls_active p.1) (poll_pending_write fuel cx h).
Proof.
  unfold poll_pending_write. preserves_tac.
  induction fuel as [|fuel IH]; [done|]. cbn [pending_write_loop].
  preserves_tac; try exact IH; try apply preserves_fail_write; try apply preserves_poll_ssl_ready;
    apply preserves_notify.
Qed.

Lemma upon_poll_shutdown cx fuel t w s :
  ktls_active t = false → polling false cx PcCall t w s →
  upon (poll_shutdown fuel cx) (poll_post false cx s) (t, w).
Proof.
  intros Ha Hp. unfold poll_shutdown. apply upon_bind. intros r [t1 w1] E.
  pose proof (preserves_flush _ _ _ _ _ _ E) as Ha1. cbn [fst] in Ha1.
  apply (upon_poll_pending_write _ _ _ _ _ _ Hp) in E as (s1 & R1 & Hr). cbn [fst snd] in Hr.
  destruct r as [[[]|e]|].
  2: { apply upon_ret. by exists s1. }
  2: { apply upon_ret. eapply leads_back; [exact R1|]. by apply told_parks. }
  apply upon_bind, upon_self. cbn [fst].
  destruct (bool_decide _); [apply upon_ret; eapply leads_back; [exact R1|]; by eapply polling_ends|].
  apply upon_bind, upon_modify_self. cbn [fst snd]. rewrite Ha1, Ha.
  eapply upon_mono; [apply (upon_shutdown_loop _ _ _ _ s1); by eapply polling_frame, Hr|].
  intros. by eapply poll_post_back.
Qed.

(** ** Any poll *)

Inductive Call : Type :=
| CallRead (buf : ReadBuf)
| CallWrite (buf : list byte)
| CallFlush
| CallShutdown.

(** The half that polls; the reader's is [true]. *)
Definition half_of (c : Call) : bool := match c with CallRead _ => true | _ => false end.

Definition is_pending {A} (p : poll A) : bool := match p with Pending => true | Ready _ => false end.

(** Whether the poll is pending. *)
Definition poll_of (fuel : nat) (cx : Waker) (c : Call) : M (TlsStream * W) bool :=
  match c with
  | CallRead buf => let* r := poll_read fuel cx buf in mret (is_pending r.1)
  | CallWrite buf => let* r := poll_write fuel cx buf in mret (is_pending r)
  | CallFlush => let* r := poll_flush fuel cx in mret (is_pending r)
  | CallShutdown => let* r := poll_shutdown fuel cx in mret (is_pending r)
  end.

Definition call_post h cx s (pending : bool) (p : TlsStream * W) : Prop :=
  leads (λ s', ended p.1 p.2 s' ∧ if pending then asleep h cx s' else status s' h = Runnable) s.

Lemma poll_post_call {A} h cx s (r : poll A) p :
  poll_post h cx s r p → call_post h cx s (is_pending r) p.
Proof.
  intros (s' & R & HP). exists s'. split; [done|]. by destruct r.
Qed.

Lemma upon_poll_of cx fuel c t w s :
  ktls_active t = false → polling (half_of c) cx PcCall t w s →
  upon (poll_of fuel cx c) (call_post (half_of c) cx s) (t, w).
Proof.
  intros Ha Hp. destruct c; apply upon_bind.
  - eapply upon_mono; [by apply upon_poll_read|]. intros r p Hr. by apply upon_ret, poll_post_call.
  - eapply upon_mono; [by apply upon_poll_write|]. intros r p Hr. by apply upon_ret, poll_post_call.
  - eapply upon_mono; [by apply upon_poll_pending_write|].
    intros r p Hr. by apply upon_ret, poll_post_call, flush_is_poll.
  - eapply upon_mono; [by apply upon_poll_shutdown|].
    intros r p Hr. by apply upon_ret, poll_post_call.
Qed.

Lemma poll_starts h cx t w s :
  conforms t w s → running s = None → leads (polling h cx PcCall t w) s.
Proof.
  intros [Hc Hs] Hr. eapply leads_poll; [by apply (step_poll h cx)|]. apply leads_refl.
  split_and!; [by split; [rewrite <- Hc|]|cbn; by rewrite upd_eq|]. by eexists.
Qed.

Lemma poll_of_conforms cx fuel c t w s pending t' w' :
  ktls_active t = false → conforms t w s → running s = None →
  poll_of fuel cx c (t, w) = Done (pending, (t', w')) →
  ∃ s', rtc sys_step s s' ∧ ended t' w' s' ∧
    if pending then asleep (half_of c) cx s' else status s' (half_of c) = Runnable.
Proof.
  intros Ha Hc Hr E. destruct (poll_starts (half_of c) cx t w s Hc Hr) as (s1 & R1 & Hp).
  destruct (upon_poll_of cx fuel c t w s1 Ha Hp _ _ E) as (s2 & R2 & HQ).
  exists s2. split; [by etrans|done].
Qed.

(** ** A stream in use

    Polls of either half with any waker, with the network and the reactor at work
    in between and while they run.  [act_wake] is [Wake for IoWaiters], called by
    the reactor's thread. *)

Inductive act : TlsStream * W → TlsStream * W → Prop :=
| act_poll fuel cx c pending p p' :
    ktls_active p.1 = false → poll_of fuel cx c p = Done (pending, p') → act p p'
| act_env t w w' : rtc env_step (core w) (core w') → act (t, w) (t, w')
| act_wake t w w' n :
    c_inflight (core w) = S n →
    core w' = {| c_avail := c_avail (core w); c_event := c_event (core w);
                 c_ready := c_ready (core w); c_armed := c_armed (core w); c_inflight := n |} →
    act (t, w) (notified t, w').

(** A stream that has not been polled on the libssl path, while the reactor is not
    in the middle of a call. *)
Definition unpolled (p : TlsStream * W) : Prop := waiters p.1 = None ∧ c_inflight (core p.2) = 0.

(** The protocol reaches a state that matches the stream. *)
Definition reached (p : TlsStream * W) s : Prop :=
  ∃ s0, initial s0 ∧ rtc sys_step s0 s ∧ ended p.1 p.2 s.

Lemma reached_unpolled p : unpolled p → ∃ s, reached p s.
Proof.
  intros [Hw Hi]. exists (with_core (core p.2) idle_sys), (with_core (core p.2) idle_sys).
  split_and!; [done|done|]. split; [|done]. split; [by destruct (core p.2)|]. by rewrite Hw.
Qed.

Lemma reached_act p p' s : reached p s → act p p' → ∃ s', reached p' s'.
Proof.
  intros (s0 & Hi & R & Hc & Hr) Ha. destruct Ha as [fuel cx c pending [t w] [t' w'] Ha E|t w w' He|t w w' n Hn Hw].
  - destruct (poll_of_conforms cx fuel c t w s pending t' w' Ha Hc Hr E) as (s' & R' & He & _).
    exists s', s0. split_and!; [done|by etrans|done].
  - destruct Hc as [Hc Hs]. exists (with_core (core w') s), s0. split_and!; [done| |].
    + etrans; [exact R|]. rewrite <- (with_core_of s) at 1. apply env_sys. by rewrite Hc.
    + split; [|done]. split; [cbn [snd]; by destruct (core w')|done].
  - destruct Hc as [Hc Hs]. cbn [fst snd] in Hc, Hs. exists (with_inflight n (notify_all s)), s0. split_and!; [done| |].
    + eapply rtc_r; [exact R|]. right. left. apply step_wake.
      change (inflight s) with (c_inflight (core_of s)). by rewrite Hc.
    + split; [|cbn; by rewrite Hr]. split; [cbn [snd]; rewrite Hw, <- Hc; reflexivity|].
      unfold notified. cbn.
      by destruct (waiters t) eqn:Ew; [|rewrite Ew].
Qed.

Lemma reached_acts p p' s : reached p s → rtc act p p' → ∃ s', reached p' s'.
Proof.
  intros Hs R. revert s Hs. induction R as [|p1 p2 p3 Ha _ IH]; [by eauto|].
  intros s Hs. destruct (reached_act _ _ _ Hs Ha) as [s' Hs']. by eapply IH.
Qed.

End conformance.

(** ** A concrete world

    A socket with tokio's cache of its readiness.  [SSL_write] needs room and
    [SSL_read] data; the library takes what there is. *)

Record Sock : Type := { k_core : Core; k_code : Z }.

Definition k_blocked (i : Interest) (code : Z) (w : Sock) : Sock :=
  {| k_core := c_with_avail (upd i false (c_avail (k_core w))) (k_core w); k_code := code |}.

Definition k_poll_ready (i : Interest) (w : Sock) : poll (io_result unit) * Sock :=
  if c_ready (k_core w) i then (Ready (Ok tt), w)
  else (Pending, {| k_core := c_arm i (k_core w); k_code := k_code w |}).

Definition k_clear (i : Interest) (w : Sock) : Sock :=
  {| k_core := c_clear i (k_core w); k_code := k_code w |}.

Definition k_try_io {A} (i : Interest) (f : M Sock (io_result A)) : M Sock (io_result A) := λ w,
  if c_ready (k_core w) i then
    match f w with
    | Done (Err e, w') => Done (Err e, if is_kind WouldBlock e then k_clear i w' else w')
    | o => o
    end
  else Done (Err (Simple WouldBlock), w).

#[export] Instance sock_err : ErrQueue Sock := {|
  ERR_get_error w := (0, w)%Z; ERR_peek_error _ := 0%Z; ERR_peek_last_error _ := 0%Z;
  ERR_clear_error w := w; ERR_error_string_n _ _ _ := [] |}.

#[export] Instance sock_tcp : TokioTcp Sock := {|
  poll_read_ready _ := k_poll_ready READABLE;
  poll_write_ready _ := k_poll_ready WRITABLE;
  try_io A := k_try_io;
  try_write _ w := (Err (Simple WouldBlock), w);
  tcp_poll_shutdown _ w := (Ready (Ok tt), w);
  readable w := (Ok tt, w);
  writable w := (Ok tt, w);
  wake _ w := w |}.

#[export] Instance sock_ssl : LibSsl Sock := {|
  SSL_write bytes w :=
    if c_avail (k_core w) WRITABLE then (len bytes, {| k_core := k_core w; k_code := 0 |})
    else (-1, k_blocked WRITABLE SSL_ERROR_WANT_WRITE w)%Z;
  SSL_read cap w :=
    if c_avail (k_core w) READABLE then ((1, [x2a]), {| k_core := k_core w; k_code := 0 |})%Z
    else ((-1, []), k_blocked READABLE SSL_ERROR_WANT_READ w)%Z;
  SSL_get_error _ w := k_code w;
  SSL_shutdown w := (1, {| k_core := k_core w; k_code := 0 |})%Z;
  SSL_do_handshake w := (1, w)%Z;
  SSL_has_pending _ := 0%Z;
  SSL_pending _ := 0%Z |}.

#[export] Instance sock_sys : Syscalls Sock := {|
  errno _ := 0%Z;
  recvmsg _ _ _ w := (stalled_recv, w);
  sendmsg _ _ _ _ w := (-1, w)%Z;
  setsockopt _ _ _ w := (-1, w)%Z |}.

#[export] Instance sock_try_io : TryIoLaws Sock.
Proof.
  refine {| io_ready i w := c_ready (k_core w) i; clear_ready := k_clear |}.
  intros A i f w. cbn. unfold k_try_io. by destruct (c_ready (k_core w) i).
Defined.

Lemma sock_call_done o c : o = None → call_effect o c c.
Proof. intros ->. exists (c_avail c). split_and!; [done|done|]. by destruct c. Qed.

Lemma sock_call_blocked i c :
  call_effect (Some i) c (c_with_avail (upd i false (c_avail c)) c).
Proof.
  exists (upd i false (c_avail c)). split_and!; [|by intros j [= <-]; apply upd_eq|done].
  intros j. unfold upd. by case_decide.
Qed.

Lemma sock_poll_ready i w r w' :
  k_poll_ready i w = (r, w') → ready_effect i r (k_core w) (k_core w').
Proof. unfold k_poll_ready. destruct (c_ready (k_core w) i) eqn:E; by intros [= <- <-]. Qed.

#[export] Instance sock_wake : WakeLaws Sock.
Proof.
  refine {| core := k_core |}; intros; try done; try by apply sock_poll_ready.
  - cbn in H. destruct (c_avail (k_core w) WRITABLE); injection H as <- <-;
      [by apply sock_call_done|apply sock_call_blocked].
  - cbn in H. destruct (c_avail (k_core w) READABLE); injection H as <- <- <-;
      [by apply sock_call_done|apply sock_call_blocked].
  - cbn in H. injection H as <- <-. by apply sock_call_done.
Defined.

(** Nothing to read and no room to write, and a stale readiness for reading that
    the first poll clears. *)
Definition sock0 : Sock :=
  {| k_core := {| c_avail := λ _, false; c_event := λ _, false;
                  c_ready := λ i, bool_decide (i = READABLE); c_armed := λ _, false;
                  c_inflight := 0 |}; k_code := 0 |}.

