(* ===== verification/Lifecycle.v ===== *)
(** * The life of contexts, sessions and their boxes

    Configurations are built, cloned, shared and dropped, streams come and go, in
    any order.  A context with an ALPN list is reached from a raw pointer in
    libssl, so nothing but the discipline of ffi.rs keeps that list alive: this
    file shows that it is there as long as a handshake can ask for it, that it is
    freed once, and that nothing is left when the last handle is gone. *)

From S2P Require Import Prelude Std Ip Env Objects Sim Errors Ownership Alpn Suites Loaders LoaderProps ServerConfig ClientConfig ConfigProps ClientProps Session RecordIo CryptoInfo Install Stream StreamProps Endpoint Ffi EndpointProps.

Local Open Scope Z_scope.

(** ** References to contexts *)

Section alive.
Implicit Types (g : Ghost) (c : nat).

Lemma ctx_alive_held c g : OCtx c ∈ g_refs g → ctx_alive c g.
Proof. by left. Qed.

(** The context is destroyed by the drop of its only reference. *)
Lemma last_sole_owner c g :
  OCtx c ∈ g_refs g → ¬ ctx_alive c (g_drop (OCtx c) g) → sole_owner c g.
Proof.
  intros Hc Hn. split.
  - destruct (decide (multiplicity (OCtx c) (g_refs g) = 1%nat)) as [|Hne]; [done|]. destruct Hn. left.
    cbn. rewrite elem_of_multiplicity in *. rewrite multiplicity_difference, multiplicity_singleton_eq. lia.
  - intros s st Hs He. destruct Hn. right. by exists s, st.
Qed.

Lemma ctx_alive_drop c c' g :
  ctx_alive c' (g_drop (OCtx c) g) → ctx_alive c' g.
Proof.
  intros [Hc|Hs]; [left|by right]. cbn in Hc. rewrite elem_of_multiplicity in *.
  rewrite multiplicity_difference in Hc. lia.
Qed.

Lemma ctx_alive_drop_ne c c' g : c' ≠ c → ctx_alive c' g → ctx_alive c' (g_drop (OCtx c) g).
Proof.
  intros Hne [Hc|Hs]; [left|by right]. cbn. rewrite elem_of_multiplicity in *.
  rewrite multiplicity_difference, multiplicity_singleton_ne by congruence. lia.
Qed.

Lemma ctx_alive_close c s g : ctx_alive c (g_on_ssl (delete s) g) → ctx_alive c g.
Proof.
  intros [Hc|(s' & st & Hs & He)]; [by left|]. right. cbn in Hs.
  apply lookup_delete_Some in Hs as [_ Hs]. by exists s', st.
Qed.

Lemma ctx_alive_close_ne c s st g :
  g_ssl g !! s = Some st → ss_ctx st ≠ c → ctx_alive c g → ctx_alive c (g_on_ssl (delete s) g).
Proof.
  intros Hs Hne [Hc|(s' & st' & Hs' & He)]; [by left|]. right. exists s', st'. split; [|done].
  cbn. rewrite lookup_delete_ne; [done|]. intros ->. congruence.
Qed.
End alive.

(** ** The boxes *)

(** The configured list [wire] of a live context is where the callback looks for
    it; each box belongs to one live context. *)
Definition list_kept (lists : gmap nat (list byte)) (p : Proc) (g : Ghost) (c : nat) : Prop :=
  ∃ st, g_ctx g !! c = Some st ∧
    match lists !! c with
    | None => cs_ex_data st = None
    | Some wire => ∃ i k, cs_ex_data st = Some (i, k) ∧ alpn_idx p = Some i ∧ boxes p !! k = Some wire
    end.

Record boxes_ok (lists : gmap nat (list byte)) (p : Proc) (g : Ghost) : Prop := {
  bo_list c : ctx_alive c g → list_kept lists p g c;
  bo_owned k : is_Some (boxes p !! k) → ∃ c, ctx_alive c g ∧ ex_ptr g c = Some k;
  bo_once c1 c2 k : ctx_alive c1 g → ctx_alive c2 g → ex_ptr g c1 = Some k → ex_ptr g c2 = Some k → c1 = c2;
  bo_wf : proc_wf p;
}.

Section boxes.
Implicit Types (lists : gmap nat (list byte)) (p : Proc) (g : Ghost).

Lemma ex_ptr_agree g g' c : g_ctx g' !! c = g_ctx g !! c → ex_ptr g' c = ex_ptr g c.
Proof. unfold ex_ptr. by intros ->. Qed.

Lemma ex_ptr_ok lists p g c : boxes_ok lists p g → ctx_alive c g →
  ∀ k, ex_ptr g c = Some k → is_Some (boxes p !! k).
Proof.
  intros Hok Ha k. destruct (bo_list _ _ _ Hok c Ha) as (st & Hst & Hl). unfold ex_ptr. rewrite Hst.
  simpl. destruct (lists !! c) as [wire|].
  - destruct Hl as (i & k' & -> & _ & Hk). intros [= <-]. eauto.
  - by rewrite Hl.
Qed.

(** A step that neither allocates nor destroys a context. *)
Lemma boxes_ok_same lists p p' g g' :
  (∀ c, ctx_alive c g' ↔ ctx_alive c g) → (∀ c, ctx_alive c g → g_ctx g' !! c = g_ctx g !! c) →
  boxes p' = boxes p → idx_kept p p' → proc_wf p' → boxes_ok lists p g → boxes_ok lists p' g'.
Proof.
  intros Hal Hctx Hb Hi Hwf Hok. split; [| | |done].
  - intros c Ha%Hal. destruct (bo_list _ _ _ Hok c Ha) as (st & Hst & Hl). exists st.
    rewrite Hctx by done. split; [done|]. destruct (lists !! c) as [wire|]; [|done].
    destruct Hl as (i & k & He & Hx & Hk). exists i, k. rewrite Hb. split_and!; [done|by apply Hi|done].
  - rewrite Hb. intros k (c & Ha & He)%(bo_owned _ _ _ Hok). exists c. split; [by apply Hal|].
    rewrite <- He. by apply ex_ptr_agree, Hctx.
  - intros c1 c2 k A1%Hal A2%Hal. rewrite (ex_ptr_agree g g' c1), (ex_ptr_agree g g' c2) by by apply Hctx.
    by eapply (bo_once _ _ _ Hok).
Qed.

(** A context gives up a reference and is destroyed if it was the last. *)
Lemma boxes_ok_release lists p p' g g' c :
  boxes_ok lists p g → ctx_alive c g → g_ctx g' = g_ctx g →
  (∀ c', ctx_alive c' g' → ctx_alive c' g) → (∀ c', c' ≠ c → ctx_alive c' g → ctx_alive c' g') →
  (ctx_alive c g' → boxes p' = boxes p) →
  (¬ ctx_alive c g' → boxes p' = match ex_ptr g c with Some k => delete k (boxes p) | None => boxes p end) →
  alpn_idx p' = alpn_idx p → next_box p' = next_box p → boxes_ok lists p' g'.
Proof.
  intros Hok Hac Hctx Hal Hne Hlive Hdead Hi Hn.
  assert (∀ c, ex_ptr g' c = ex_ptr g c) as Hptr by (intros; apply ex_ptr_agree; by rewrite Hctx).
  assert (∀ c' k, ctx_alive c' g' → ex_ptr g c' = Some k → boxes p' !! k = boxes p !! k) as Hkeep.
  { intros c' k Ha Hk. destruct (decide (ctx_alive c g')) as [Hc|Hc]; [by rewrite Hlive|].
    rewrite Hdead by done. destruct (ex_ptr g c) as [k'|] eqn:Ek; [|done].
    rewrite lookup_delete_ne; [done|]. intros ->.
    assert (c = c') as -> by by eapply (bo_once _ _ _ Hok); eauto. done. }
  assert (∀ k, is_Some (boxes p' !! k) → is_Some (boxes p !! k) ∧ (¬ ctx_alive c g' → ex_ptr g c ≠ Some k)) as Hsub.
  { intros k Hk. destruct (decide (ctx_alive c g')) as [Hc|Hc]; [by rewrite <- Hlive|].
    rewrite Hdead in Hk by done. destruct (ex_ptr g c) as [k'|]; [|done].
    apply lookup_delete_is_Some in Hk as [? ?]. split; [done|congruence]. }
  split.
  - intros c' Ha. destruct (bo_list _ _ _ Hok c' (Hal _ Ha)) as (st & Hst & Hl). exists st.
    rewrite Hctx. split; [done|]. destruct (lists !! c') as [wire|]; [|done].
    destruct Hl as (i & k & He & Hx & Hk). exists i, k. rewrite Hi. split_and!; [done|done|].
    rewrite (Hkeep c'); [done|done|]. unfold ex_ptr. by rewrite Hst; simpl; rewrite He.
  - intros k [Hk Hx]%Hsub. destruct (bo_owned _ _ _ Hok k Hk) as (c' & Ha & He). exists c'.
    rewrite Hptr. split; [|done]. destruct (decide (c' = c)) as [->|]; [|by apply Hne].
    destruct (decide (ctx_alive c g')); [done|]. by destruct Hx.
  - intros c1 c2 k A1 A2. rewrite !Hptr. eapply (bo_once _ _ _ Hok); auto.
  - intros k [Hk _]%Hsub. rewrite Hn. by apply (bo_wf _ _ _ Hok).
Qed.
End boxes.

(** A new context, with or without a list. *)
Definition new_list (new : option (Z * nat * list byte)) : option (list byte) := snd <$> new.

Definition new_box (new : option (Z * nat * list byte)) (p p' : Proc) : Prop :=
  match new with
  | None => boxes p' = boxes p
  | Some (i, k, wire) =>
      boxes p !! k = None ∧ boxes p' = <[k := wire]> (boxes p) ∧ alpn_idx p' = Some i
  end.

Lemma owns_new_alive c c' g g' : owns_new c g g' → ctx_alive c' g' ↔ c' = c ∨ ctx_alive c' g.
Proof.
  intros (Hr & Hs & _ & _). unfold ctx_alive. rewrite Hr, Hs. split.
  - intros [Hc|?]; [|by auto]. apply gmultiset_elem_of_disj_union in Hc as [?|Hc]; [by auto|].
    apply gmultiset_elem_of_singleton in Hc. left. congruence.
  - intros [->|[?|?]]; [left; multiset_solver|left; multiset_solver|by right].
Qed.

Lemma boxes_ok_new lists p p' g g' c st new :
  boxes_ok lists p g → owns_new c g g' → g_ctx g' !! c = Some st →
  cs_ex_data st = fst <$> new → new_box new p p' → idx_kept p p' → proc_wf p' →
  boxes_ok (partial_alter (λ _, new_list new) c lists) p' g'.
Proof.
  intros Hok Ho Hst Hex Hb Hi Hwf.
  assert (∀ c', ctx_alive c' g' → c' = c ∨ c' ≠ c ∧ ctx_alive c' g) as Hal.
  { intros c' Ha. destruct (decide (c' = c)); [by left|right]. split; [done|].
    by apply (owns_new_alive _ _ _ _ Ho) in Ha as [|]. }
  assert (ex_ptr g' c = snd ∘ fst <$> new) as Hp.
  { unfold ex_ptr. rewrite Hst. simpl. rewrite Hex. by destruct new. }
  assert (∀ c', c' ≠ c → ex_ptr g' c' = ex_ptr g c') as Hne by (intros; by apply ex_ptr_agree, Ho).
  assert (∀ k wire, boxes p !! k = Some wire → boxes p' !! k = Some wire) as Hkeep.
  { intros k wire Hk. destruct new as [[[i k'] wire']|]; cbn in Hb; [|by rewrite Hb].
    destruct Hb as (Hf & -> & _). rewrite lookup_insert_ne; [done|]. congruence. }
  assert (∀ c' k, ctx_alive c' g → ex_ptr g c' = Some k → ex_ptr g' c ≠ Some k) as Hfresh.
  { intros c' k Ha Hk. destruct (ex_ptr_ok _ _ _ _ Hok Ha k Hk) as [wire Hw]. rewrite Hp.
    destruct new as [[[i k'] wire']|]; cbn; [|done]. destruct Hb as (Hf & _). congruence. }
  split; [| | |done].
  - intros c' [->|[Hne' Ha]]%Hal; unfold list_kept.
    + exists st. split; [done|]. rewrite lookup_partial_alter_eq, Hex.
      destruct new as [[[i k] wire]|]; cbn; [|done]. destruct Hb as (_ & -> & Hx).
      exists i, k. by rewrite lookup_insert_eq.
    + destruct (bo_list _ _ _ Hok c' Ha) as (st' & Hst' & Hl). exists st'.
      destruct Ho as (_ & _ & Hfr & _). rewrite Hfr, lookup_partial_alter_ne by done.
      split; [done|]. destruct (lists !! c') as [wire|]; [|done].
      destruct Hl as (i & k & He & Hx & Hk). exists i, k. split_and!; [done|by apply Hi|by apply Hkeep].
  - intros k Hk. assert (ex_ptr g' c = Some k ∨ is_Some (boxes p !! k)) as [He|Hk'].
    { destruct new as [[[i k'] wire]|]; cbn in Hb; [|rewrite <- Hb; by right].
      destruct Hb as (_ & Hb & _). rewrite Hb in Hk.
      apply lookup_insert_is_Some in Hk as [->|[_ ?]]; [by left|by right]. }
    + exists c. split; [|done]. apply (owns_new_alive _ _ _ _ Ho). by left.
    + destruct (bo_owned _ _ _ Hok k Hk') as (c' & Ha & He). exists c'. split.
      * apply (owns_new_alive _ _ _ _ Ho). by right.
      * rewrite Hne; [done|]. intros ->. by apply (owns_new_dead _ _ _ Ho).
  - intros c1 c2 k [->|[N1 A1]]%Hal [->|[N2 A2]]%Hal; intros E1 E2; try done.
    + rewrite Hne in E2 by done. by destruct (Hfresh c2 k).
    + rewrite Hne in E1 by done. by destruct (Hfresh c1 k).
    + rewrite Hne in E1, E2 by done. by eapply (bo_once _ _ _ Hok).
Qed.

(** ** The sessions *)

(** Sessions are owned once, each with a socket of its own, which is open. *)
Record socks_ok (g : Ghost) : Prop := {
  so_ssl s : multiplicity (OSsl s) (g_refs g) =
    match g_ssl g !! s with Some _ => 1%nat | None => 0%nat end;
  so_fd fd : (multiplicity (OFd fd) (g_refs g) ≤ 1)%nat;
  so_sock s st : g_ssl g !! s = Some st → ∃ fd, ss_fd st = Some fd ∧ OFd fd ∈ g_refs g;
  so_once s1 s2 st1 st2 :
    g_ssl g !! s1 = Some st1 → g_ssl g !! s2 = Some st2 → ss_fd st1 = ss_fd st2 → s1 = s2;
}.

(** A descriptor that no session uses. *)
Definition free_fd (fd : nat) (g : Ghost) : Prop :=
  OFd fd ∈ g_refs g ∧ map_Forall (λ _ st, ss_fd st ≠ Some fd) (g_ssl g).

Ltac refs_tac :=
  cbn in *; rewrite ?elem_of_multiplicity in *;
  rewrite ?multiplicity_difference, ?multiplicity_disj_union, ?multiplicity_singleton in *;
  repeat case_decide; simplify_eq; try lia.

Section socks.
Implicit Types g : Ghost.

(** A change of the references to other objects. *)
Lemma socks_ok_refs g g' :
  g_ssl g' = g_ssl g →
  (∀ s, multiplicity (OSsl s) (g_refs g') = multiplicity (OSsl s) (g_refs g)) →
  (∀ fd, multiplicity (OFd fd) (g_refs g') = multiplicity (OFd fd) (g_refs g)) →
  socks_ok g → socks_ok g'.
Proof.
  intros Hs Hr Hf [Hssl Hfd Hso Hon]. split; rewrite ?Hs; auto.
  - intros s. by rewrite Hr.
  - intros fd. by rewrite Hf.
  - intros s st (fd & ? & Hin)%Hso. exists fd. split; [done|]. by rewrite elem_of_multiplicity, Hf.
Qed.

Lemma socks_ok_socket fd g : OFd fd ∉ g_refs g → socks_ok g → socks_ok (g_take (OFd fd) g).
Proof.
  intros Hn [Hssl Hfd Hso Hon]. split; [|..|done].
  - intros s. cbn. rewrite <- Hssl. refs_tac.
  - intros fd'. specialize (Hfd fd'). refs_tac.
  - intros s st (fd' & ? & Hin)%Hso. exists fd'. split; [done|]. refs_tac.
Qed.

Lemma socks_ok_close fd g : free_fd fd g → socks_ok g → socks_ok (g_drop (OFd fd) g).
Proof.
  intros [Hin Hfree] [Hssl Hfd Hso Hon]. split; [|..|done].
  - intros s. cbn. rewrite <- Hssl. refs_tac.
  - intros fd'. specialize (Hfd fd'). refs_tac.
  - intros s st Hs. destruct (Hso s st Hs) as (fd' & Hx & ?). exists fd'. split; [done|].
    assert (fd' ≠ fd) by (intros ->; by apply (Hfree s st)). refs_tac.
Qed.

Lemma socks_ok_open s st fd g g' :
  holds_session s st g g' → ss_fd st = Some fd → free_fd fd g → socks_ok g → socks_ok g'.
Proof.
  intros (Hn & Hs & ->) Hst [Hin Hfree] [Hssl Hfd Hso Hon]. split; cbn.
  - intros s'. specialize (Hssl s'). destruct (decide (s' = s)) as [->|Hne].
    + rewrite lookup_insert_eq. rewrite Hs in Hssl. refs_tac.
    + rewrite lookup_insert_ne by done. refs_tac.
  - intros fd'. specialize (Hfd fd'). refs_tac.
  - intros s' st' [[<- <-]|[Hne Hs']]%lookup_insert_Some.
    + exists fd. split; [done|]. refs_tac.
    + destruct (Hso s' st' Hs') as (fd' & ? & ?). exists fd'. split; [done|]. refs_tac.
  - intros s1 s2 st1 st2 [[<- <-]|[? H1]]%lookup_insert_Some [[<- <-]|[? H2]]%lookup_insert_Some He;
      [done| | |by eapply Hon].
    + destruct (Hfree s2 st2); [done|congruence].
    + destruct (Hfree s1 st1); [done|congruence].
Qed.

Lemma socks_ok_hangup s st fd g :
  g_ssl g !! s = Some st → ss_fd st = Some fd → socks_ok g →
  free_fd fd (g_on_ssl (delete s) (g_drop (OSsl s) g)) ∧
  socks_ok (g_on_ssl (delete s) (g_drop (OSsl s) g)).
Proof.
  intros Hs Hst Hok. pose proof Hok as [Hssl Hfd Hso Hon]. split.
  - split.
    + destruct (Hso s st Hs) as (fd' & ? & ?). refs_tac.
    + cbn. intros s' st' [Hne Hs']%lookup_delete_Some He. destruct Hne. eapply (Hon s s'); eauto. congruence.
  - split; cbn.
    + intros s'. specialize (Hssl s'). destruct (decide (s' = s)) as [->|Hne].
      * rewrite lookup_delete_eq. rewrite Hs in Hssl. refs_tac.
      * rewrite lookup_delete_ne by done. refs_tac.
    + intros fd'. specialize (Hfd fd'). refs_tac.
    + intros s' st' [_ Hs']%lookup_delete_Some. destruct (Hso s' st' Hs') as (fd' & ? & ?).
      exists fd'. split; [done|]. refs_tac.
    + intros s1 s2 st1 st2 [_ H1]%lookup_delete_Some [_ H2]%lookup_delete_Some. by eapply Hon.
Qed.
End socks.

(** ** The handles *)

Section handles.
Context {W : Type} `{NetView W, !AwsLcConstsOk, !ErrQueueLaws W, !Strerror, SslSession W, Kdf W,
  !KdfView W, !KdfLaws W, LibSslCtx W, !LibSslCtxLaws W, LibCrypto W, !LibCryptoLaws W,
  !ExIndexAllocates W, LibSslConn W, !LibSslConnLaws W, !ConnGhost W, !SetupView W, LibRefs W,
  !LibRefsLaws W}.
Implicit Types (w : W) (s : Proc * W) (lists : gmap nat (list byte)).

(** [assert_eq!(ok, 1)] holds. *)
Lemma twp_SslCtx_clone c (Q : nat → W → Prop) w :
  OCtx c ∈ g_refs (ghost w) → (∀ w', ghost w' = g_take (OCtx c) (ghost w) → Q c w') →
  twp (SslCtx_clone c) Q w.
Proof.
  intros Hc HQ. unfold SslCtx_clone. twp_step. twp_step.
  apply up_ref_spec in Hcall as [-> Hg]; [|done]. cbn [Z.eqb Pos.eqb negb]. twp_step. by apply HQ.
Qed.

Lemma twp_no_ex_free s (Q : unit → Proc * W → Prop) : Q tt s → twp (ex_free_all []) Q s.
Proof. intros HQ. unfold ex_free_all. cbn [foldr]. by twp_step. Qed.

Lemma ctx_dropped_boxes lists p p' g g' c :
  boxes_ok lists p g → ctx_alive c g → ¬ ctx_alive c g' → g_ctx g' = g_ctx g →
  (∀ c', ctx_alive c' g' → ctx_alive c' g) → (∀ c', c' ≠ c → ctx_alive c' g → ctx_alive c' g') →
  alpn_idx p' = alpn_idx p → next_box p' = next_box p →
  (∀ st, g_ctx g !! c = Some st → boxes p' = free_ex (cs_ex_data st) p) →
  boxes_ok lists p' g'.
Proof.
  intros Hok Ha Hna Hctx Hal Hne Hi Hn Hb. destruct (bo_list _ _ _ Hok c Ha) as (st & Hst & _).
  eapply (boxes_ok_release _ p _ g _ c); try done. intros _. rewrite (Hb st Hst).
  unfold ex_ptr, free_ex. rewrite Hst. simpl. by destruct (cs_ex_data st) as [[]|].
Qed.

(** Dropping a handle of a context never frees a box twice. *)
Lemma twp_drop_handle c lists s (Q : unit → Proc * W → Prop) :
  OCtx c ∈ g_refs (ghost s.2) → boxes_ok lists s.1 (ghost s.2) →
  (∀ s', ghost s'.2 = g_drop (OCtx c) (ghost s.2) → boxes_ok lists s'.1 (ghost s'.2) → Q tt s') →
  twp (drop_ctx c) Q s.
Proof.
  intros Hc Hok HQ. pose proof (ctx_alive_held _ _ Hc) as Ha.
  destruct (bo_list _ _ _ Hok c Ha) as (st & Hst & _).
  destruct (decide (ctx_alive c (g_drop (OCtx c) (ghost s.2)))) as [Hl|Hl].
  - unfold drop_ctx. do 3 twp_step. destruct s as [p w]. cbn [fst snd] in *.
    pose proof (ctx_free_shared _ _ _ _ Hcall Hc Hl) as ->.
    apply ctx_free_spec in Hcall as [Hg _]; [|done]. apply twp_no_ex_free, HQ; cbn [fst snd]; [done|].
    rewrite Hg. eapply (boxes_ok_release _ p _ (ghost w) _ c); try done;
      [intros ?; apply ctx_alive_drop|by intros; apply ctx_alive_drop_ne].
  - eapply twp_drop_ctx; [done|by apply last_sole_owner|done| |].
    + intros i k Hk. eapply ex_ptr_ok; [done|done|]. unfold ex_ptr. by rewrite Hst; simpl; rewrite Hk.
    + intros p' w' Hi Hn Hb Hg. apply HQ; [done|]. cbn [fst snd]. rewrite Hg.
      eapply (ctx_dropped_boxes _ s.1 _ (ghost s.2) _ c); try done;
        [intros ?; apply ctx_alive_drop|by intros; apply ctx_alive_drop_ne|].
      rewrite Hst. by intros ? [= <-].
Qed.

(** The references of a session. *)
Lemma ctx_alive_ssl_ref c x g : ctx_alive c (g_drop (OSsl x) g) ↔ ctx_alive c g.
Proof.
  unfold ctx_alive. cbn. rewrite !elem_of_multiplicity, multiplicity_difference,
    multiplicity_singleton_ne by done. by rewrite Nat.sub_0_r.
Qed.

(** Dropping a session, which may be what kept its context alive. *)
Lemma twp_drop_ssl x st lists s (Q : unit → Proc * W → Prop) :
  OSsl x ∈ g_refs (ghost s.2) → g_ssl (ghost s.2) !! x = Some st → boxes_ok lists s.1 (ghost s.2) →
  (∀ s', ghost s'.2 = g_on_ssl (delete x) (g_drop (OSsl x) (ghost s.2)) →
     boxes_ok lists s'.1 (ghost s'.2) → Q tt s') →
  twp (drop_ssl x) Q s.
Proof.
  intros Hx Hs Hok HQ. set (g' := g_on_ssl (delete x) (g_drop (OSsl x) (ghost s.2))) in HQ.
  assert (ctx_alive (ss_ctx st) (ghost s.2)) as Ha by (right; by exists x, st).
  destruct (bo_list _ _ _ Hok _ Ha) as (cst & Hst & _).
  assert (∀ c, ctx_alive c g' ↔ ctx_alive c (g_on_ssl (delete x) (ghost s.2))) as Hal
    by (intros c; exact (ctx_alive_ssl_ref c x (g_on_ssl (delete x) (ghost s.2)))).
  assert (∀ c, ctx_alive c g' → ctx_alive c (ghost s.2)) as Hup
    by (intros c Hc%Hal; by eapply ctx_alive_close).
  assert (∀ c, c ≠ ss_ctx st → ctx_alive c (ghost s.2) → ctx_alive c g') as Hne
    by (intros c Hn Hc; apply Hal; by eapply ctx_alive_close_ne).
  unfold drop_ssl. do 6 twp_step. destruct s as [p w]. cbn [fst snd] in *.
  pose proof (ssl_free_spec x w Hx) as Hg.
  destruct (decide (ctx_alive (ss_ctx st) g')) as [Hl|Hl].
  - rewrite (ssl_free_ex_shared x st w) by (try done; by apply Hal).
    apply twp_no_ex_free, HQ; cbn [fst snd]; [done|]. rewrite Hg.
    by eapply (boxes_ok_release _ p _ (ghost w) _ (ss_ctx st)).
  - rewrite (ssl_free_ex_last x st w) by (try done; by rewrite <- Hal).
    replace (ex_ptr (ghost w) (ss_ctx st)) with (snd <$> cs_ex_data cst)
      by (unfold ex_ptr; by rewrite Hst).
    apply twp_ex_free.
    + intros i k Hk. eapply ex_ptr_ok; [done|exact Ha|]. unfold ex_ptr. by rewrite Hst; simpl; rewrite Hk.
    + intros p' Hi Hn Hb. apply HQ; cbn [fst snd]; [done|]. rewrite Hg.
      eapply (ctx_dropped_boxes _ p _ (ghost w) _ (ss_ctx st)); try done. rewrite Hst. by intros ? [= <-].
Qed.

(** ** Programs

    What a program that uses the crate holds, and the lists it configured. *)
Record Life : Type := {
  l_arcs : Arcs;
  l_lists : gmap nat (list byte);
  l_st : Proc * W;
}.

Definition l_ghost (l : Life) : Ghost := ghost (l_st l).2.

(** A reference to the context besides the one behind the [Arc]s. *)
Definition spare (c : nat) (l : Life) : Prop :=
  (match l_arcs l !! c with Some _ => 1 | None => 0 end < multiplicity (OCtx c) (g_refs (l_ghost l)))%nat.

Definition set_st (s : Proc * W) (l : Life) : Life :=
  {| l_arcs := l_arcs l; l_lists := l_lists l; l_st := s |}.
Definition with_list (c : nat) (o : option (list byte)) (l : Life) : Life :=
  {| l_arcs := l_arcs l; l_lists := partial_alter (λ _, o) c (l_lists l); l_st := l_st l |}.

(** The wire form of the configured protocols. *)
Definition wire_of (b : ServerConfigBuilder) : option (list byte) :=
  if is_empty (sb_alpn_protocols b) then None
  else match encode_alpn_wire (sb_alpn_protocols b) with Ok wire => Some wire | Err _ => None end.

(** One use of the crate, or of a handle that the program owns. *)
Inductive life_step (l : Life) : Life → Prop :=
| life_server_ok m b cfg s :
    server_wf b → with_material m b (l_st l) = Done (Ok cfg, s) →
    life_step l (with_list (sc_ctx cfg) (wire_of b) (set_st s l))
| life_server_err m b e s :
    server_wf b → with_material m b (l_st l) = Done (Err e, s) → life_step l (set_st s l)
| life_client_ok b cfg s :
    client_wf b → client_build b (l_st l) = Done (Ok cfg, s) →
    life_step l (with_list (cc_ctx cfg) None (set_st s l))
| life_client_err b e s :
    client_wf b → client_build b (l_st l) = Done (Err e, s) → life_step l (set_st s l)
| life_clone c s :
    OCtx c ∈ g_refs (l_ghost l) → lift (SslCtx_clone c) (l_st l) = Done (c, s) →
    life_step l (set_st s l)
| life_drop c s :
    spare c l → drop_ctx c (l_st l) = Done (tt, s) → life_step l (set_st s l)
| life_share c arcs s :
    spare c l → l_arcs l !! c = None → arc_new c (l_arcs l, l_st l) = Done (tt, (arcs, s)) →
    life_step l {| l_arcs := arcs; l_lists := l_lists l; l_st := s |}
| life_arc_clone c arcs s :
    is_Some (l_arcs l !! c) → arc_clone c (l_arcs l, l_st l) = Done (tt, (arcs, s)) →
    life_step l {| l_arcs := arcs; l_lists := l_lists l; l_st := s |}
| life_arc_drop c arcs s :
    is_Some (l_arcs l !! c) → arc_drop c (l_arcs l, l_st l) = Done (tt, (arcs, s)) →
    life_step l {| l_arcs := arcs; l_lists := l_lists l; l_st := s |}
(** A connected socket comes from the listener or the dialler. *)
| life_socket fd w :
    OFd fd ∉ g_refs (l_ghost l) → ghost w = g_take (OFd fd) (l_ghost l) →
    life_step l (set_st ((l_st l).1, w) l)
| life_accept fuel cfg fd r s :
    OCtx (sc_ctx cfg) ∈ g_refs (l_ghost l) → free_fd fd (l_ghost l) →
    lift (accept fuel cfg fd) (l_st l) = Done (r, s) → life_step l (set_st s l)
| life_connect fuel cfg name fd r s :
    OCtx (cc_ctx cfg) ∈ g_refs (l_ghost l) → free_fd fd (l_ghost l) →
    lift (connect fuel cfg name fd) (l_st l) = Done (r, s) → life_step l (set_st s l)
| life_hangup conn st s :
    g_ssl (l_ghost l) !! conn_ssl conn = Some st → ss_fd st = Some (conn_fd conn) →
    drop_stream conn (l_st l) = Done (tt, s) → life_step l (set_st s l)
(** Input and output on the streams. *)
| life_io w :
    ghost w = l_ghost l → life_step l (set_st ((l_st l).1, w) l).

(** A program that has not used the crate yet. *)
Definition unborn (l : Life) : Prop :=
  l_arcs l = ∅ ∧ boxes (l_st l).1 = ∅ ∧ g_refs (l_ghost l) = ∅ ∧ g_ssl (l_ghost l) = ∅.

Definition arcs_ok (arcs : Arcs) (g : Ghost) : Prop :=
  map_Forall (λ c n, (1 ≤ n)%nat ∧ OCtx c ∈ g_refs g) arcs.

Record life_ok (l : Life) : Prop := {
  lo_boxes : boxes_ok (l_lists l) (l_st l).1 (l_ghost l);
  lo_socks : socks_ok (l_ghost l);
  lo_arcs : arcs_ok (l_arcs l) (l_ghost l);
}.

Lemma unborn_ok l : unborn l → life_ok l.
Proof.
  intros (Ha & Hb & Hr & Hs). unfold arcs_ok.
  assert (∀ c, ¬ ctx_alive c (l_ghost l)) as Hd.
  { intros c [Hc|(x & st & Hx & _)]; [rewrite Hr in Hc; multiset_solver|by rewrite Hs in Hx]. }
  split.
  - split.
    + by intros c ?%Hd.
    + intros k. rewrite Hb. by intros [? ?].
    + by intros c1 c2 k ?%Hd.
    + intros k. rewrite Hb. by intros [? ?].
  - split; rewrite ?Hs, ?Hr; try done; intros; rewrite multiplicity_empty; (done || lia).
  - by rewrite Ha.
Qed.

(** ** Every step keeps the program sound *)

Lemma arcs_ok_mono arcs g g' :
  (∀ c, is_Some (arcs !! c) → OCtx c ∈ g_refs g → OCtx c ∈ g_refs g') →
  arcs_ok arcs g → arcs_ok arcs g'.
Proof. intros Hc Ha c n Hn. destruct (Ha c n Hn). split; [done|]. apply Hc; eauto. Qed.

(** What a build stores for its context. *)
Lemma alpn_stored_new b cert key roots ex p p' :
  alpn_stored b ex p p' → ∃ new,
    cs_ex_data (server_ctx b cert key roots ex) = fst <$> new ∧ new_box new p p' ∧
    new_list new = wire_of b.
Proof.
  unfold alpn_stored, wire_of. destruct (is_empty _).
  - intros [-> Hb]. exists None. cbn. by rewrite ctx_init_ex.
  - intros (i & k & wire & -> & -> & Hk & Hb & Hi). by exists (Some (i, k, wire)).
Qed.

Lemma life_new l s c st new :
  owns_new c (l_ghost l) (ghost s.2) → g_ctx (ghost s.2) !! c = Some st →
  cs_ex_data st = fst <$> new → new_box new (l_st l).1 s.1 → idx_kept (l_st l).1 s.1 → proc_wf s.1 →
  life_ok l → life_ok (with_list c (new_list new) (set_st s l)).
Proof.
  intros Ho Hst Hex Hb Hi Hwf [Hbx Hso Har]. pose proof Ho as (Hr & Hs & _). split; cbn.
  - by eapply boxes_ok_new.
  - eapply socks_ok_refs; [exact Hs|..|done]; intros; unfold l_ghost; cbn;
      rewrite Hr, multiplicity_disj_union, multiplicity_singleton_ne by done; unfold l_ghost; lia.
  - eapply arcs_ok_mono; [|done]. intros c' _. unfold l_ghost. cbn. rewrite Hr. multiset_solver.
Qed.

(** A step that leaves the handles alone. *)
Lemma life_same l s : nothing_left (l_st l) s → life_ok l → life_ok (set_st s l).
Proof.
  intros (Hr & Hs & Hb & Hwf & Hi & Hc) [Hbx Hso Har]. split; unfold l_ghost in *; cbn.
  - eapply boxes_ok_same; [|exact Hc|done..]. intros c. unfold ctx_alive. by rewrite Hr, Hs.
  - eapply socks_ok_refs; [exact Hs|..|done]; intros; by rewrite Hr.
  - eapply arcs_ok_mono; [|done]. intros c' _. by rewrite Hr.
Qed.

(** A step that changes the ghost state only, and keeps the contexts. *)
Lemma life_ghost l w :
  (∀ c, ctx_alive c (ghost w) ↔ ctx_alive c (l_ghost l)) → g_ctx (ghost w) = g_ctx (l_ghost l) →
  (∀ c, OCtx c ∈ g_refs (l_ghost l) → OCtx c ∈ g_refs (ghost w)) →
  socks_ok (ghost w) → life_ok l → life_ok (set_st ((l_st l).1, w) l).
Proof.
  intros Hal Hc Hr Hs [Hbx _ Har]. split; cbn; [|done|].
  - eapply boxes_ok_same; [exact Hal|by intros; unfold l_ghost; cbn; rewrite Hc|done|done| |done].
    by apply (bo_wf _ _ _ Hbx).
  - eapply arcs_ok_mono; [|done]. auto.
Qed.

Lemma life_endpoint l st fd d r w :
  OCtx (ss_ctx st) ∈ g_refs (l_ghost l) → ss_fd st = Some fd → free_fd fd (l_ghost l) →
  endpoint_post st fd d (l_st l).2 r w → life_ok l → life_ok (set_st ((l_st l).1, w) l).
Proof.
  intros Hc Hfd Hfree Hpost Hok. pose proof (lo_socks _ Hok) as Hso. destruct r as [conn|e]; cbn in Hpost.
  - destruct Hpost as (Hh & _). pose proof Hh as (Hn & Hs & Hg). change (ghost (l_st l).2) with (l_ghost l) in *.
    apply life_ghost; [| | |by eapply socks_ok_open|done]; rewrite Hg; cbn; [|done|multiset_solver].
    intros c. unfold ctx_alive. cbn. split.
    + intros [Hx|Hx]; [left; clear -Hx; multiset_solver|].
      apply map_Exists_insert in Hx; [|done]. destruct Hx as [Hx|Hx]; [left; cbn in Hx; by subst c|by right].
    + intros [Hx|Hx]; [left; multiset_solver|right]. by apply map_Exists_insert_2_2.
  - change (ghost (l_st l).2) with (l_ghost l) in *. destruct Hfree as [Hin Hf].
    apply life_ghost; rewrite ?Hpost; cbn; try done.
    + intros c. unfold ctx_alive. cbn. rewrite !elem_of_multiplicity, multiplicity_difference,
        multiplicity_singleton_ne, Nat.sub_0_r by done. done.
    + intros c. refs_tac.
    + by apply socks_ok_close.
Qed.

(** A handle that is dropped. *)
Lemma life_dropped l c arcs s :
  (∀ n, arcs !! c = Some n → 1 < multiplicity (OCtx c) (g_refs (l_ghost l)))%nat →
  map_Forall (λ c' n, (1 ≤ n)%nat ∧ OCtx c' ∈ g_refs (l_ghost l)) arcs →
  ghost s.2 = g_drop (OCtx c) (l_ghost l) → boxes_ok (l_lists l) s.1 (ghost s.2) →
  socks_ok (l_ghost l) → life_ok {| l_arcs := arcs; l_lists := l_lists l; l_st := s |}.
Proof.
  intros Hsp Har Hg Hb Hs. split; cbn; unfold l_ghost; cbn; [done|..]; rewrite Hg.
  - apply (socks_ok_refs (l_ghost l)); [done|..|done]; intros; cbn;
      rewrite multiplicity_difference, multiplicity_singleton_ne by done; lia.
  - intros c' n Hn. destruct (Har c' n Hn) as [? Hin]. split; [done|]. cbn.
    rewrite elem_of_multiplicity in *. rewrite multiplicity_difference.
    destruct (decide (c' = c)) as [->|Hne].
    + apply Hsp in Hn. rewrite multiplicity_singleton_eq. lia.
    + rewrite multiplicity_singleton_ne by congruence. lia.
Qed.

Lemma twp_life_drop l c (Q : unit → Proc * W → Prop) :
  life_ok l → spare c l →
  (∀ s, ghost s.2 = g_drop (OCtx c) (l_ghost l) → life_ok (set_st s l) → Q tt s) →
  twp (drop_ctx c) Q (l_st l).
Proof.
  intros [Hb Hs Ha] Hsp HQ. unfold spare in Hsp.
  eapply twp_drop_handle; [|exact Hb|].
  - rewrite elem_of_multiplicity. unfold l_ghost in *. lia.
  - intros s Hg Hb'. apply HQ; [done|]. eapply (life_dropped l c); try done.
    intros n Hn. rewrite Hn in Hsp. done.
Qed.

(** The last [Arc] drops the configuration, the others only count. *)
Lemma twp_life_arc_drop l c n (Q : unit → Arcs * (Proc * W) → Prop) :
  life_ok l → l_arcs l !! c = Some n →
  (∀ arcs s, life_ok {| l_arcs := arcs; l_lists := l_lists l; l_st := s |} →
     arcs = (if decide (n = 1%nat) then delete c (l_arcs l) else <[c := pred n]> (l_arcs l)) →
     ghost s.2 = (if decide (n = 1%nat) then g_drop (OCtx c) (l_ghost l) else l_ghost l) →
     Q tt (arcs, s)) →
  twp (arc_drop c) Q (l_arcs l, l_st l).
Proof.
  intros [Hb Hs Ha] Hn HQ. pose proof (Ha c n Hn) as [Hpos Hc]. unfold arc_drop. do 2 twp_step.
  cbn [fst]. rewrite Hn. destruct n as [|[|n]]; [lia|..].
  - do 3 twp_step. cbn [fst snd]. eapply twp_drop_handle; [exact Hc|exact Hb|].
    intros s Hg Hb'. apply HQ; [|done..]. eapply (life_dropped l c); try done.
    + intros n Hd. cbn in Hd. by apply lookup_delete_Some in Hd as [? _].
    + intros c' n Hd. cbn in Hd. apply lookup_delete_Some in Hd as [_ Hd]. by apply Ha.
  - twp_step. apply HQ; [|done..]. split; cbn; [done|done|]. intros c' n'.
    intros [[<- <-]|[_ Hc']]%lookup_insert_Some; [split; [lia|done]|by apply Ha].
Qed.

(** Dropping a stream frees its session while its socket is still open. *)
Lemma twp_life_hangup l conn st (Q : unit → Proc * W → Prop) :
  life_ok l → g_ssl (l_ghost l) !! conn_ssl conn = Some st → ss_fd st = Some (conn_fd conn) →
  (∀ s, life_ok (set_st s l) →
     ghost s.2 = g_drop (OFd (conn_fd conn))
                   (g_on_ssl (delete (conn_ssl conn)) (g_drop (OSsl (conn_ssl conn)) (l_ghost l))) →
     Q tt s) →
  twp (drop_stream conn) Q (l_st l).
Proof.
  intros [Hb Hs Ha] Hx Hfd HQ. destruct (socks_ok_hangup _ _ _ _ Hx Hfd Hs) as [Hfree Hs'].
  unfold drop_stream. twp_step. eapply twp_drop_ssl; [|exact Hx|exact Hb|].
  { rewrite elem_of_multiplicity. pose proof (so_ssl _ Hs (conn_ssl conn)) as Hm.
    unfold l_ghost in *. rewrite Hx in Hm. lia. }
  intros s1 Hg1 Hb1. do 2 twp_step. change (ghost (l_st l).2) with (l_ghost l) in *.
  rewrite <- Hg1 in Hfree, Hs'. pose proof (close_fd_spec (conn_fd conn) s1.2 (proj1 Hfree)) as Hg2.
  apply HQ; [|cbn; by rewrite Hg2, Hg1].
  assert (life_ok (set_st s1 l)) as Hok1.
  { split; cbn; [done|done|]. eapply arcs_ok_mono; [|done]. intros c _ Hin.
    change (OCtx c ∈ g_refs (ghost s1.2)). rewrite Hg1. clear -Hin. refs_tac. }
  apply (life_ghost (set_st s1 l)); unfold l_ghost; cbn; rewrite ?Hg2; cbn; try done.
  - intros c. unfold ctx_alive. cbn. rewrite !elem_of_multiplicity, multiplicity_difference,
      multiplicity_singleton_ne, Nat.sub_0_r by done. done.
  - intros c. refs_tac.
  - by apply socks_ok_close.
Qed.

(** One more reference to a context that is held. *)
Lemma life_clone_ok l c w :
  life_ok l → OCtx c ∈ g_refs (l_ghost l) → ghost w = g_take (OCtx c) (l_ghost l) →
  life_ok (set_st ((l_st l).1, w) l).
Proof.
  intros Hok Hc E. assert (socks_ok (ghost w)) as Hs.
  { rewrite E. apply (socks_ok_refs (l_ghost l)); [done|..|by apply lo_socks]; intros; cbn;
      rewrite multiplicity_disj_union, multiplicity_singleton_ne by done; lia. }
  apply life_ghost; [| | |exact Hs|done]; rewrite E; cbn; [|done|multiset_solver].
  intros c'. split; [|intros [?|?]; [left; cbn; multiset_solver|by right]].
  intros [Hc'|?]; [left|by right]. cbn in Hc'.
  apply gmultiset_elem_of_disj_union in Hc' as [?|?%gmultiset_elem_of_singleton]; congruence.
Qed.

Lemma life_step_ok l l' : life_step l l' → life_ok l → life_ok l'.
Proof.
  intros Hstep Hok. pose proof (bo_wf _ _ _ (lo_boxes _ Hok)) as Hpwf. destruct Hstep as [m b cfg s Hb E|m b e s Hb E|b cfg s Hb E|b e s Hb E|c s Hc E
    |c s Hc E|c arcs s Hc Hn E|c arcs s [n Hn] E|c arcs s [n Hn] E|fd w Hfd Hg|fuel cfg fd r s Hc Hfd E
    |fuel cfg name fd r s Hc Hfd E|conn st s Hx Hfd E|w Hg].
  - eapply wp_done in E; [|by apply wp_twp, twp_with_material].
    destruct E as (cert & key & roots & ex & _ & _ & _ & Hex & Hwf & Hi & Ho & Hst).
    destruct (alpn_stored_new b cert key roots _ _ _ Hex) as (new & He & Hn & <-). by eapply life_new.
  - eapply wp_done in E; [|by apply wp_twp, twp_with_material]. by apply life_same.
  - eapply wp_done in E; [|by apply wp_twp, twp_client_build].
    destruct E as (i & _ & _ & Hp & Ho & Hst). change (@None (list byte)) with (new_list None).
    eapply life_new; [exact Ho|exact Hst|apply ctx_init_ex|cbn; by rewrite Hp|by rewrite Hp|by rewrite Hp|done].
  - eapply wp_done in E; [|by apply wp_twp, twp_client_build]. by apply life_same.
  - apply lift_done in E as (w & E & ->).
    eapply (wp_done _ (λ _ w', ghost w' = g_take (OCtx c) (l_ghost l))) in E;
      [|by apply wp_twp, twp_SslCtx_clone].
    by apply (life_clone_ok _ c).
  - eapply (wp_done _ (λ _ s', life_ok (set_st s' l))) in E; [done|].
    by apply wp_twp, (twp_life_drop l c).
  - injection E as <- <-. destruct Hok as [Hb Hs Ha]. split; cbn; [done|done|].
    intros c' n [[<- <-]|[_ Hc']]%lookup_insert_Some; [|by apply Ha]. split; [done|].
    unfold spare in Hc. rewrite elem_of_multiplicity. unfold l_ghost in *. cbn. lia.
  - injection E as <- <-. destruct Hok as [Hb Hs Ha]. split; cbn; [done|done|].
    intros c' n' Hal. cbn in Hal.
    apply lookup_alter_Some in Hal as [(<- & m & Hm & ->)|[_ Hc']]; [|by apply Ha].
    destruct (Ha _ _ Hm). split; [lia|done].
  - eapply (wp_done _ (λ _ x, life_ok {| l_arcs := x.1; l_lists := l_lists l; l_st := x.2 |})) in E;
      [done|]. by apply wp_twp, (twp_life_arc_drop l c n).
  - apply life_ghost; rewrite ?Hg; cbn; try done; [|multiset_solver|].
    + intros c. unfold ctx_alive. cbn. rewrite !elem_of_multiplicity, multiplicity_disj_union,
        multiplicity_singleton_ne, Nat.add_0_r by done. done.
    + apply socks_ok_socket; [done|by apply lo_socks].
  - apply lift_done in E as (w & E & ->). eapply wp_done in E; [|apply wp_accept; [done|apply Hfd]].
    by eapply (life_endpoint _ (server_session cfg fd)).
  - apply lift_done in E as (w & E & ->). eapply wp_done in E; [|apply wp_connect; [done|apply Hfd]].
    eapply (life_endpoint _ (client_session cfg name fd)); try done; cbn; unfold with_names;
      by destruct (parse_ip name).
  - eapply (wp_done _ (λ _ s', life_ok (set_st s' l))) in E; [done|].
    by apply wp_twp, (twp_life_hangup l conn st).
  - apply life_ghost; rewrite ?Hg; try done. by apply lo_socks.
Qed.

Lemma reachable_life_ok l0 l : unborn l0 → rtc life_step l0 l → life_ok l.
Proof.
  intros Hu%unborn_ok Hs. induction Hs as [|l1 l2 l3 Hst _ IH]; [done|]. by eapply IH, life_step_ok.
Qed.

(** C10. Whatever a program does with the crate, in whatever order, its handles stay
    sound: cloning a context takes one more reference and its assertion holds;
    dropping a context handle, the last or any other [Arc] of a configuration, or a
    stream gives back exactly the references of that handle, and never frees the
    ALPN box a second time; and every session has a descriptor of its own that is
    open until the session is gone. *)
Theorem handles_release l0 l :
  unborn l0 → rtc life_step l0 l →
  (∀ c, OCtx c ∈ g_refs (l_ghost l) →
     twp (SslCtx_clone c) (λ c' w', c' = c ∧ ghost w' = g_take (OCtx c) (l_ghost l)) (l_st l).2) ∧
  (∀ c, spare c l →
     twp (drop_ctx c) (λ _ s', ghost s'.2 = g_drop (OCtx c) (l_ghost l)) (l_st l)) ∧
  (∀ c n, l_arcs l !! c = Some n →
     twp (arc_drop c)
       (λ _ x, x.1 = (if decide (n = 1%nat) then delete c (l_arcs l) else <[c := pred n]> (l_arcs l)) ∧
               ghost x.2.2 = if decide (n = 1%nat) then g_drop (OCtx c) (l_ghost l) else l_ghost l)
       (l_arcs l, l_st l)) ∧
  (∀ conn st, g_ssl (l_ghost l) !! conn_ssl conn = Some st → ss_fd st = Some (conn_fd conn) →
     twp (drop_stream conn)
       (λ _ s', ghost s'.2 = g_drop (OFd (conn_fd conn))
          (g_on_ssl (delete (conn_ssl conn)) (g_drop (OSsl (conn_ssl conn)) (l_ghost l)))) (l_st l)) ∧
  (∀ x st, g_ssl (l_ghost l) !! x = Some st → ∃ fd, ss_fd st = Some fd ∧ OFd fd ∈ g_refs (l_ghost l)).
Proof.
  intros Hu Hrun. pose proof (reachable_life_ok _ _ Hu Hrun) as Hok. split_and!.
  - intros c Hc. by apply twp_SslCtx_clone.
  - intros c Hc. by apply (twp_life_drop l c).
  - intros c n Hn. by apply (twp_life_arc_drop l c n).
  - intros conn st Hx Hfd. by apply (twp_life_hangup l conn st).
  - apply (so_sock _ (lo_socks _ Hok)).
Qed.

Lemma list_kept_found lists s c wire :
  list_kept lists s.1 (ghost s.2) c → lists !! c = Some wire → ctx_alpn_list s c = Some wire.
Proof.
  intros (st & Hst & Hl) Hw. rewrite Hw in Hl. destruct Hl as (i & k & He & Hi & Hk).
  unfold ctx_alpn_list. rewrite Hi, (get_ex_data_spec _ _ _ _ Hst), He, Z.eqb_refl. done.
Qed.

(** C9. The ALPN list of a server configuration lives exactly as long as it can be
    asked for.  While a handle or a session keeps the context alive, also after
    the configuration itself was dropped, the selection callback finds the list
    that was configured; every box belongs to a context that is alive; and when
    the last context handle and the last stream are gone, no box is left. *)
Theorem lists_outlive_handles l0 l :
  unborn l0 → rtc life_step l0 l →
  (∀ c wire, ctx_alive c (l_ghost l) → l_lists l !! c = Some wire →
     ctx_alpn_list (l_st l) c = Some wire) ∧
  (∀ k, is_Some (boxes (l_st l).1 !! k) → ∃ c, ctx_alive c (l_ghost l) ∧ ex_ptr (l_ghost l) c = Some k) ∧
  ((∀ c, OCtx c ∉ g_refs (l_ghost l)) → (∀ x, OSsl x ∉ g_refs (l_ghost l)) →
   boxes (l_st l).1 = ∅).
Proof.
  intros Hu Hrun. pose proof (reachable_life_ok _ _ Hu Hrun) as [Hb Hs _]. split_and!.
  - intros c wire Ha. by apply list_kept_found, (bo_list _ _ _ Hb).
  - apply (bo_owned _ _ _ Hb).
  - intros Hc Hx. apply map_empty. intros k. apply eq_None_not_Some.
    intros (c & [Ha|(x & st & Hst & _)] & _)%(bo_owned _ _ _ Hb); [by destruct (Hc c)|].
    destruct (Hx x). rewrite elem_of_multiplicity. pose proof (so_ssl _ Hs x) as Hm. rewrite Hst in Hm. lia.
Qed.
End handles.

(** ** Witnesses: a stream that outlives its configuration *)

Definition newborn : Sim :=
  with_ghost (λ _, {| g_refs := ∅; g_ctx := ∅; g_bio := ∅; g_ssl := ∅ |}) (sim0 [EvHandshake 1 0]).

Definition born : Life := {| l_arcs := ∅; l_lists := ∅; l_st := (proc0, newborn) |}.

Lemma born_unborn : unborn born.
Proof. done. Qed.

Definition h2_server : ServerConfigBuilder :=
  server_set_alpn_protocols [bytes_of "h2"] server_builder.

(** Build, accept, drop the configuration: the session is all that is left. *)
Lemma orphan_run :
  ∃ l conn (c : nat), rtc (A := Life (W := Sim)) life_step born l ∧
    l_lists l !! c = Some (x02 :: bytes_of "h2") ∧ (OCtx c ∉ g_refs (l_ghost l)) ∧
    ∃ st, g_ssl (l_ghost l) !! conn_ssl conn = Some st ∧ ss_ctx st = c ∧ ss_fd st = Some (conn_fd conn).
Proof.
  assert (∃ cfg s1 conn s2 s3, with_material demo_material h2_server (proc0, newborn) = Done (Ok cfg, s1) ∧
    (OFd 5 ∉ g_refs (ghost s1.2)) ∧ OCtx (sc_ctx cfg) ∈ g_refs (ghost s1.2) ∧ g_ssl (ghost s1.2) = ∅ ∧
    lift (accept 3 cfg 5) (s1.1, with_ghost (g_take (OFd 5)) s1.2) = Done (Ok conn, s2) ∧
    multiplicity (OCtx (sc_ctx cfg)) (g_refs (ghost s2.2)) = 1%nat ∧
    drop_ctx (sc_ctx cfg) s2 = Done (tt, s3) ∧
    (OCtx (sc_ctx cfg) ∉ g_refs (ghost s3.2)) ∧
    ∃ st, g_ssl (ghost s3.2) !! conn_ssl conn = Some st ∧ ss_ctx st = sc_ctx cfg ∧
          ss_fd st = Some (conn_fd conn)) as
    (cfg & s1 & conn & s2 & s3 & E1 & Hfd & Hc & Hs & E2 & Hm & E3 & Hn & Hst).
  { do 5 eexists. split; [vm_compute; reflexivity|].
    split; [by apply (bool_decide_unpack _)|]. split; [by apply (bool_decide_unpack _)|].
    split; [reflexivity|]. split; [vm_compute; reflexivity|]. split; [reflexivity|].
    split; [vm_compute; reflexivity|]. split; [by apply (bool_decide_unpack _)|].
    eexists. split; [vm_compute; reflexivity|]. done. }
  eexists _, conn, (sc_ctx cfg). split.
  { eapply rtc_l; [by apply (life_server_ok born demo_material h2_server cfg s1)|].
    eapply rtc_l; [by apply (life_socket _ 5 (with_ghost (g_take (OFd 5)) s1.2))|].
    eapply rtc_l; [apply (life_accept _ 3 cfg 5 (Ok conn) s2); [cbn; multiset_solver| |done]|].
    { split; [cbn; multiset_solver|]. cbn. change (w_ghost s1.2) with (ghost s1.2). by rewrite Hs. }
    eapply rtc_l; [apply (life_drop _ (sc_ctx cfg) s3); [|done]|apply rtc_refl].
    unfold spare, l_ghost. cbn -[multiplicity ghost]. rewrite Hm. apply Nat.lt_0_1. }
  cbn -[ghost]. rewrite lookup_partial_alter_eq. split_and!; [done|done|exact Hst].
Qed.

Lemma handles_release_witness :
  ∃ l conn c, rtc (A := Life (W := Sim)) life_step born l ∧ (OCtx c ∉ g_refs (l_ghost l)) ∧
    twp (drop_stream conn) (λ _ s', g_ssl (ghost s'.2) !! conn_ssl conn = None) (l_st l).
Proof.
  destruct orphan_run as (l & conn & c & Hrun & _ & Hn & st & Hst & _ & Hfd).
  exists l, conn, c. split; [exact Hrun|]. split; [exact Hn|].
  destruct (handles_release born l born_unborn Hrun) as (_ & _ & _ & Hdrop & _).
  eapply twp_mono; [exact (Hdrop conn st Hst Hfd)|]. cbn beta. intros _ s' ->.
  apply lookup_delete_eq.
Defined.

Lemma lists_outlive_handles_witness :
  ∃ l c, rtc (A := Life (W := Sim)) life_step born l ∧ (OCtx c ∉ g_refs (l_ghost l)) ∧
    ctx_alpn_list (l_st l) c = Some (x02 :: bytes_of "h2").
Proof.
  destruct orphan_run as (l & conn & c & Hrun & Hl & Hn & st & Hst & Hc & _).
  exists l, c. split; [exact Hrun|]. split; [exact Hn|].
  destruct (lists_outlive_handles born l born_unborn Hrun) as (Hlist & _ & _).
  apply Hlist; [|exact Hl]. right. by exists (conn_ssl conn), st.
Defined.
