(* ===== verification/Examples.v ===== *)
(** * examples/: an echo server and an HTTPS client

    The example programs use a stream through tokio's extension methods [read],
    [write_all], [read_to_end] and [shutdown].  Those are an interface here, with
    what tokio documents of them; the programs are verified against the
    interface, and then run on the streams of this crate. *)

From S2P Require Import Prelude Std Ip Env Objects Sim Errors Ownership Alpn Suites Session RecordIo RecordSpec CryptoInfo Install Stream StreamSpec StreamProps Delivery ServerConfig ClientConfig Endpoint EndpointProps EndToEnd.

Local Open Scope Z_scope.

(** ** The interface *)

(** [AsyncReadExt] and [AsyncWriteExt], each call run to the end of its future. *)
Class AsyncExt (T : Type) : Type := {
  (** The bytes put into a buffer of this size. *)
  ext_read : Z → M T (io_result (list byte));
  ext_write_all : list byte → M T (io_result unit);
  (** The bytes appended to the vector. *)
  ext_read_to_end : M T (io_result (list byte));
  ext_shutdown : M T (io_result unit);
}.

Definition quiet (log : list IoEvent) : Prop := got log = [] ∧ (GotEof ∉ log).

(** What tokio documents: [read] returns what one successful [poll_read] put into
    the buffer, nothing meaning the end of the stream; [write_all] writes until
    the whole buffer is taken or a write fails; [read_to_end] reads up to the end.
    [run s log s'] relates two states with what the polls in between report. *)
Class AsyncExtLaws (T : Type) `{AsyncExt T} (run : T → list IoEvent → T → Prop) : Prop := {
  run_nil s : run s [] s;
  run_app s l s' l' s'' : run s l s' → run s' l' s'' → run s (l ++ l') s'';
  read_runs n s r s' :
    0 < n → ext_read n s = Done (r, s') →
    ∃ log, run s log s' ∧ wrote log = [] ∧
      match r with
      | Ok [] => got log = [] ∧ GotEof ∈ log
      | Ok bytes => got log = bytes
      | Err _ => True
      end;
  write_all_runs bytes s r s' :
    ext_write_all bytes s = Done (r, s') →
    ∃ log, run s log s' ∧ quiet log ∧
      match r with Ok _ => wrote log = bytes | Err _ => wrote log `prefix_of` bytes end;
  read_to_end_runs s r s' :
    ext_read_to_end s = Done (r, s') →
    ∃ log, run s log s' ∧ wrote log = [] ∧
      match r with Ok bytes => got log = bytes ∧ GotEof ∈ log | Err _ => True end;
  shutdown_runs s r s' :
    ext_shutdown s = Done (r, s') → ∃ log, run s log s' ∧ quiet log ∧ wrote log = [];
}.

Lemma quiet_nil : quiet [].
Proof. split; [done|]. by intros ?%elem_of_nil. Qed.
Lemma quiet_wrote bytes : quiet [Wrote bytes].
Proof. split; [done|]. by intros ?%list_elem_of_singleton. Qed.

Lemma wrote_app l l' : wrote (l ++ l') = wrote l ++ wrote l'.
Proof. apply bind_app. Qed.

(** ** The echo loop *)

Section echo.
Context {T : Type} `{AsyncExt T}.

(** [echo] *)
Fixpoint echo (fuel : nat) : M T (io_result unit) :=
  match fuel with
  | O => out_of_fuel
  | S fuel =>
      let* r := ext_read 4096 in
      match r with
      | Err e => mret (Err e)
      | Ok bytes =>
          if len bytes =? 0 then mret (Ok tt)
          else
            let* r := ext_write_all bytes in
            match r with
            | Err e => mret (Err e)
            | Ok _ => echo fuel
            end
      end
  end.

Context {run : T → list IoEvent → T → Prop} `{!AsyncExtLaws T run}.

(** What an echo reports: it writes what it got and no more, and when it ends
    without an error it has written all of it and met the end of the stream. *)
Definition echoed (r : io_result unit) (log : list IoEvent) : Prop :=
  wrote log `prefix_of` got log ∧ (r = Ok tt → wrote log = got log ∧ GotEof ∈ log).

Lemma echo_step r bytes l1 l2 l3 :
  wrote l1 = [] → got l1 = bytes → quiet l2 → wrote l2 = bytes → echoed r l3 → echoed r (l1 ++ l2 ++ l3).
Proof.
  intros H1 H2 [H3 _] H4 [Hp Hok]. unfold echoed. rewrite !got_app, !wrote_app, H1, H2, H3, H4. cbn [app].
  split; [by apply prefix_app|]. intros [-> He]%Hok. split; [done|]. rewrite !elem_of_app. auto.
Qed.

Lemma echo_runs fuel s r s' :
  echo fuel s = Done (r, s') → ∃ log, run s log s' ∧ echoed r log.
Proof.
  revert s. induction fuel as [|fuel IH]; intros s; [done|]. cbn [echo]. unfold mbind, M_bind.
  destruct (ext_read 4096 s) as [[[bytes|e] s1]| |] eqn:E1; [| |done..];
    apply read_runs in E1 as (l1 & R1 & W1 & G1); [|done| |done].
  - destruct (Z.eqb_spec (len bytes) 0) as [Hz|Hnz].
    + intros [= <- <-]. exists l1. split; [done|]. destruct bytes; [|by unfold len in Hz; simpl in Hz].
      destruct G1 as [G1 He]. unfold echoed. by rewrite W1, G1.
    + assert (got l1 = bytes) as G by (by destruct bytes as [|? ?]; [destruct G1|]).
      destruct (ext_write_all bytes s1) as [[[[]|e] s2]| |] eqn:E2; [| |done..];
        apply write_all_runs in E2 as (l2 & R2 & Q2 & W2).
      * intros (l3 & R3 & He)%IH. exists (l1 ++ l2 ++ l3). split; [|by eapply echo_step].
        eapply run_app; [done|]. by eapply run_app.
      * intros [= <- <-]. exists (l1 ++ l2). split; [by eapply run_app|]. unfold echoed.
        rewrite got_app, wrote_app, W1, G. destruct Q2 as [-> _]. by rewrite app_nil_r.
  - intros [= <- <-]. exists l1. split; [done|]. unfold echoed. rewrite W1. split; [apply prefix_nil|done].
Qed.

(** The loop ends when the peer's data does: one round per byte is enough. *)
Lemma echo_returns bound fuel s :
  (∀ s, ∃ r s', ext_read 4096 s = Done (r, s')) →
  (∀ bytes s, ∃ r s', ext_write_all bytes s = Done (r, s')) →
  (∀ log s', run s log s' → (length (got log) ≤ bound)%nat) →
  (bound < fuel)%nat → ∃ r s', echo fuel s = Done (r, s').
Proof.
  intros Hr Hw. revert bound s. induction fuel as [|fuel IH]; intros bound s Hb Hf; [lia|].
  cbn [echo]. unfold mbind, M_bind. destruct (Hr s) as (r1 & s1 & E1). rewrite E1.
  apply read_runs in E1 as (l1 & R1 & W1 & G1); [|done]. destruct r1 as [bytes|e]; [|by eexists _, _].
  destruct (Z.eqb_spec (len bytes) 0) as [Hz|Hnz]; [by eexists _, _|].
  assert (got l1 = bytes) as G by (by destruct bytes as [|? ?]; [destruct G1|]).
  destruct (Hw bytes s1) as (r2 & s2 & E2). rewrite E2.
  apply write_all_runs in E2 as (l2 & R2 & [Q2 _] & _). destruct r2 as [[]|e]; [|by eexists _, _].
  assert (1 ≤ length bytes)%nat by (destruct bytes; [by destruct Hnz|simpl; lia]).
  assert (1 ≤ bound)%nat by (specialize (Hb l1 s1 R1); rewrite G in Hb; lia).
  apply (IH (bound - 1)%nat); [|lia]. intros log s' R3.
  specialize (Hb (l1 ++ l2 ++ log) s'). rewrite !got_app, !length_app, G, Q2 in Hb. simpl in Hb.
  assert (run s (l1 ++ l2 ++ log) s') as R by (eapply run_app; [done|]; by eapply run_app).
  apply Hb in R. lia.
Qed.
End echo.

(** ** The programs *)

(** How a program reports a failure: [Box<dyn Error>]. *)
Inductive BoxError : Type := FromTls (e : Error) | FromIo (e : io_error) | FromText (text : string).

Section programs.
Context {W : Type} `{AwsLcConsts, Strerror, ErrQueue W, TokioTcp W, LibSsl W, Syscalls W, Kdf W,
  SslSession W, LibSslConn W, AsyncExt (TlsStream * W)}.

Definition with_stream (t : TlsStream) (conn : Conn) : Conn :=
  {| conn_ssl := conn_ssl conn; conn_fd := conn_fd conn; conn_stream := t |}.

(** The task of a connection in examples/echo-server.rs, up to the drop of the
    stream at its end; what it prints is its result. *)
Definition serve_echo (fuel rounds : nat) (cfg : ServerConfig) (tcp : nat) :
    M W (result (io_result unit * Conn) Error) :=
  let? tls := accept fuel cfg tcp in
  let* (r, t) := run_on (conn_stream tls)
    (let* r := echo rounds in
     let* _ := ext_shutdown in
     mret r) in
  mret (Ok (r, with_stream t tls)).

Definition crlf : list byte := [x0d; x0a].

(** The request of examples/https-get.rs. *)
Definition get_request (host : list byte) : list byte :=
  bytes_of "GET / HTTP/1.1" ++ crlf ++ bytes_of "Host: " ++ host ++ crlf ++
  bytes_of "Connection: close" ++ crlf ++ bytes_of "User-Agent: tokio-aws-lc-example/0.1" ++ crlf ++ crlf.

(** Its configuration; [ca] is the content of the file given with [--ca]. *)
Definition get_builder (ca : option (list byte)) : ClientConfigBuilder :=
  let builder := client_set_alpn_protocols [bytes_of "http/1.1"] client_builder in
  match ca with
  | Some pem => with_root_certs_pem_bytes pem builder
  | None => with_system_root_certs builder
  end.

(** The exchange: the request, everything up to the end of the stream, and a
    shutdown whose result is ignored. *)
Definition https_get (fuel : nat) (cfg : ClientConfig) (host : list byte) (tcp : nat) :
    M W (result (list byte * Conn) BoxError) :=
  let* r := connect fuel cfg host tcp in
  match r with
  | Err e => mret (Err (FromTls e))
  | Ok tls =>
      let* (r, t) := run_on (conn_stream tls)
        (let? _ := ext_write_all (get_request host) in
         let? body := ext_read_to_end in
         let* _ := ext_shutdown in
         mret (Ok body)) in
      match r with
      | Err e => mret (Err (FromIo e))
      | Ok body => mret (Ok (body, with_stream t tls))
      end
  end.
End programs.

Lemma run_on_done {T W A} (t : T) (m : M (T * W) A) w a t' w' :
  run_on t m w = Done ((a, t'), w') → m (t, w) = Done (a, (t', w')).
Proof. unfold run_on. destruct (m (t, w)) as [[a0 [t0 w0]]| |]; [|done..]. by intros [= -> -> ->]. Qed.

(** ** The programs on the crate's streams *)

Section end_to_end.
Context {W : Type} `{NetView W, !AwsLcConstsOk, !Strerror, SslSession W, Kdf W, !KdfView W,
  !KdfLaws W, LibSslCtx W, !LibSslCtxLaws W, LibSslConn W, !LibSslConnLaws W, !ConnGhost W,
  !SetupView W, !SslReadLaws W, AsyncExt (TlsStream * W), !AsyncExtLaws (TlsStream * W) polls}.
Implicit Types (w : W) (s : TlsStream * W).

(** What a connection task did to the stream it was handed. *)
Lemma serve_echo_runs n m cfg fd w r conn w' :
  serve_echo n m cfg fd w = Done (Ok (r, conn), w') →
  ∃ tls w1 log, accept n cfg fd w = Done (Ok tls, w1) ∧
    polls (conn_stream tls, w1) log (conn_stream conn, w') ∧ echoed r log.
Proof.
  unfold serve_echo. intros ([tls|e] & w1 & Ea & E)%bind_done; [|done].
  apply bind_done in E as ([r1 t] & w2 & E & Er).
  apply run_on_done in E. injection Er as <- <- <-. exists tls, w1.
  apply bind_done in E as (r2 & s2 & (l1 & R1 & He)%echo_runs & E).
  apply bind_done in E as (r3 & s3 & (l2 & R2 & [Hg _] & Hw)%shutdown_runs & [= -> ->]).
  exists (l1 ++ l2). split_and!; [done|by eapply run_app|]. destruct He as [Hp Hok]. unfold echoed.
  rewrite got_app, wrote_app, Hg, Hw, !app_nil_r. split; [done|]. intros [? ?]%Hok.
  split; [done|]. apply elem_of_app. by left.
Qed.

Lemma https_get_runs n cfg host fd w body conn w' :
  https_get n cfg host fd w = Done (Ok (body, conn), w') →
  ∃ tls w1 log, connect n cfg host fd w = Done (Ok tls, w1) ∧
    polls (conn_stream tls, w1) log (conn_stream conn, w') ∧
    wrote log = get_request host ∧ got log = body ∧ GotEof ∈ log.
Proof.
  unfold https_get. intros ([tls|e] & w1 & Ea & E)%bind_done; [|done].
  apply bind_done in E as ([[b|e] t] & w2 & E & Er); [|done].
  apply run_on_done in E. injection Er as <- <- <-.
  exists tls, w1.
  apply bind_done in E as ([[]|e] & s2 & (l1 & R1 & [G1 _] & W1)%write_all_runs & E); [|done].
  apply bind_done in E as ([b'|e] & s3 & E2 & E); [|done].
  apply read_to_end_runs in E2 as (l2 & R2 & W2 & G2 & He).
  apply bind_done in E as (r4 & s4 & (l3 & R3 & [G3 _] & W3)%shutdown_runs & [= -> ->]).
  exists (l1 ++ l2 ++ l3). rewrite !got_app, !wrote_app, G1, G2, G3, W1, W2, W3, !app_nil_r.
  split_and!; [done| |done|done|].
  - eapply run_app; [done|]. by eapply run_app.
  - rewrite !elem_of_app. auto.
Qed.

(** C18. A client of the echo server reads back its own bytes: whatever data paths
    the two ends use, and however the client reads and writes, what it has got is
    a prefix of what it was told is accepted; and if the server's loop ended
    without an error and the client sees the end of the stream, all of it came
    back. *)
Theorem echo_comes_back n k m scfg ccfg name fds fdc ws wc r sc cc ws' wc' lc c :
  OCtx (sc_ctx scfg) ∈ g_refs (ghost ws) → OFd fds ∈ g_refs (ghost ws) → idle ws →
  OCtx (cc_ctx ccfg) ∈ g_refs (ghost wc) → OFd fdc ∈ g_refs (ghost wc) → idle wc →
  serve_echo n k scfg fds ws = Done (Ok (r, sc), ws') →
  connect m ccfg name fdc wc = Done (Ok cc, wc') → polls (conn_stream cc, wc') lc c →
  carries (conn_stream sc, ws') c → carries c (conn_stream sc, ws') →
  got lc `prefix_of` wrote lc ∧ (r = Ok tt → GotEof ∈ lc → got lc = wrote lc).
Proof.
  intros Hsc Hsf Hsi Hcc Hcf Hci Hse Ec Hpc Hsc' Hcs'.
  apply serve_echo_runs in Hse as (tls & w1 & ls & Ea & Hps & He & Hok).
  apply (wp_done _ _ _ _ _ (wp_accept n scfg fds ws Hsc Hsf)) in Ea.
  apply (wp_done _ _ _ _ _ (wp_connect m ccfg name fdc wc Hcc Hcf)) in Ec.
  apply connected_unused in Ea, Ec; [|done..].
  destruct (streams_deliver _ _ _ _ _ _ Ea Ec Hps Hpc Hsc') as [Hp1 He1].
  destruct (streams_deliver _ _ _ _ _ _ Ec Ea Hpc Hps Hcs') as [Hp2 He2].
  split; [by repeat (etrans; [done|])|]. intros [Hw Hes]%Hok [_ Hg1]%He1.
  destruct (He2 Hes) as [_ Hg2]. congruence.
Qed.

(** C19. The response that the HTTPS client prints is complete: the exchange succeeds
    only with everything the server was told is accepted, from a server that has
    shut its write half down; a truncated response is an error.  The server has
    got a prefix of the request. *)
Theorem https_get_complete n m scfg ccfg host fds fdc ws wc sc body cc ws' wc' ls s :
  OCtx (sc_ctx scfg) ∈ g_refs (ghost ws) → OFd fds ∈ g_refs (ghost ws) → idle ws →
  OCtx (cc_ctx ccfg) ∈ g_refs (ghost wc) → OFd fdc ∈ g_refs (ghost wc) → idle wc →
  accept n scfg fds ws = Done (Ok sc, ws') → polls (conn_stream sc, ws') ls s →
  https_get m ccfg host fdc wc = Done (Ok (body, cc), wc') →
  carries s (conn_stream cc, wc') → carries (conn_stream cc, wc') s →
  body = wrote ls ∧ shutdown s.1 = ShutClosed ∧ got ls `prefix_of` get_request host.
Proof.
  intros Hsc Hsf Hsi Hcc Hcf Hci Ea Hps Hget Hsc' Hcs'.
  apply https_get_runs in Hget as (tls & w1 & lc & Ec & Hpc & Hw & <- & He).
  apply (wp_done _ _ _ _ _ (wp_accept n scfg fds ws Hsc Hsf)) in Ea.
  apply (wp_done _ _ _ _ _ (wp_connect m ccfg host fdc wc Hcc Hcf)) in Ec.
  apply connected_unused in Ea, Ec; [|done..].
  destruct (streams_deliver _ _ _ _ _ _ Ea Ec Hps Hpc Hsc') as [_ He1].
  destruct (streams_deliver _ _ _ _ _ _ Ec Ea Hpc Hps Hcs') as [Hp2 _].
  destruct (He1 He) as [Hsh Hg]. rewrite Hw in Hp2. by split_and!.
Qed.
End end_to_end.

(** ** The simulated tokio *)

(** Futures that are polled by one task with a budget; a poll that is pending ends
    the program here, where tokio would wait. *)
Section sim_ext.
Context {W : Type} `{NetView W, !Strerror}.

Definition empty_buf (n : Z) : ReadBuf := {| filled := []; capacity := n |}.

Definition poll_once {A} (m : M (TlsStream * W) (poll A)) : M (TlsStream * W) A :=
  let* p := m in
  match p with Ready a => mret a | Pending => out_of_fuel end.

Definition read_once (n : Z) : M (TlsStream * W) (io_result (list byte)) :=
  let* (p, buf) := poll_read 4 (TaskWaker 0) (empty_buf n) in
  match p with
  | Ready (Ok _) => mret (Ok (filled buf))
  | Ready (Err e) => mret (Err e)
  | Pending => out_of_fuel
  end.

Fixpoint read_all (fuel : nat) : M (TlsStream * W) (io_result (list byte)) :=
  match fuel with
  | O => out_of_fuel
  | S fuel =>
      let? bytes := read_once 4096 in
      if is_empty bytes then mret (Ok [])
      else
        let? rest := read_all fuel in
        mret (Ok (bytes ++ rest))
  end.

Fixpoint write_loop (fuel : nat) (bytes : list byte) : M (TlsStream * W) (io_result unit) :=
  match fuel with
  | O => out_of_fuel
  | S fuel =>
      if is_empty bytes then mret (Ok tt)
      else
        let? n := poll_once (poll_write 4 (TaskWaker 0) bytes) in
        if n =? 0 then mret (Err (Custom WriteZero "failed to write whole buffer"))
        else write_loop fuel (drop (Z.to_nat n) bytes)
  end.

Context `{!SslReadLaws W}.

#[export] Instance sim_ext : AsyncExt (TlsStream * W) := {|
  ext_read n := read_once n;
  ext_write_all bytes := write_loop 8 bytes;
  ext_read_to_end := read_all 8;
  ext_shutdown := poll_once (poll_shutdown 4 (TaskWaker 0)) |}.

Lemma polls_app s l s' l' s'' : polls s l s' → polls s' l' s'' → polls s (l ++ l') s''.
Proof. induction 1; intros R; cbn [app]; eauto using polls. Qed.

Lemma wrote_read buf res : wrote [read_event buf res] = [].
Proof. unfold read_event. by repeat case_match. Qed.

Lemma read_once_runs n s r s' :
  0 < n → read_once n s = Done (r, s') →
  ∃ log, polls s log s' ∧ wrote log = [] ∧
    match r with Ok [] => got log = [] ∧ GotEof ∈ log | Ok bytes => got log = bytes | Err _ => True end.
Proof.
  intros Hn. unfold read_once. intros ([p buf] & s1 & E & Er)%bind_done.
  exists [read_event (empty_buf n) (p, buf)].
  assert (polls s [read_event (empty_buf n) (p, buf)] s1) as Hp.
  { eapply polls_read; [|exact E|apply polls_nil]. unfold len. cbn. lia. }
  destruct p as [[[]|e]|]; [| |done]; injection Er as <- <-;
    (split; [done|]); (split; [apply wrote_read|]); [|done].
  unfold read_event, remaining. cbn. rewrite drop_0. unfold len. cbn [length].
  destruct (Z.eqb_spec (n - Z.of_nat 0) 0); [lia|].
  destruct (filled buf); cbn; [by repeat constructor|]. by rewrite app_nil_r.
Qed.

Lemma write_loop_runs fuel bytes s r s' :
  write_loop fuel bytes s = Done (r, s') →
  ∃ log, polls s log s' ∧ quiet log ∧
    match r with Ok _ => wrote log = bytes | Err _ => wrote log `prefix_of` bytes end.
Proof.
  revert bytes s. induction fuel as [|fuel IH]; intros bytes s; [done|]. cbn [write_loop].
  destruct (is_empty bytes) eqn:Ee.
  { apply is_empty_true in Ee as ->. intros [= <- <-]. exists []. split; [apply polls_nil|].
    split; [apply quiet_nil|done]. }
  intros (r1 & s1 & E1 & E)%bind_done. apply bind_done in E1 as (p & s2 & E2 & E1).
  destruct p as [r2|]; [|done]. injection E1 as -> ->.
  pose proof (polls_write 4 (TaskWaker 0) bytes s _ _ _ _ E2 (polls_nil _)) as Hp.
  destruct r1 as [n|e].
  - destruct (n =? 0).
    + injection E as <- <-. eexists. split; [exact Hp|]. split; [apply quiet_wrote|].
      cbn. rewrite app_nil_r. apply prefix_take.
    + apply IH in E as (log & R & [Hg He] & Hw). eexists. split; [by eapply polls_app|].
      split; [by split; [|intros [|]%elem_of_cons]|].
      assert (wrote ([Wrote (prefix n bytes)] ++ log) = take (Z.to_nat n) bytes ++ wrote log) as -> by done.
      destruct r; [by rewrite Hw, take_drop|]. rewrite <- (take_drop (Z.to_nat n) bytes) at 2.
      by apply prefix_app.
  - injection E as <- <-. eexists. split; [exact Hp|]. split; [apply quiet_wrote|]. apply prefix_nil.
Qed.

Lemma read_all_runs fuel s r s' :
  read_all fuel s = Done (r, s') →
  ∃ log, polls s log s' ∧ wrote log = [] ∧
    match r with Ok bytes => got log = bytes ∧ GotEof ∈ log | Err _ => True end.
Proof.
  revert s r s'. induction fuel as [|fuel IH]; intros s r s'; [done|]. cbn [read_all].
  intros (r1 & s1 & E1 & E)%bind_done. apply read_once_runs in E1 as (l1 & R1 & W1 & G1); [|done].
  destruct r1 as [bytes|e]; [|injection E as <- <-; by exists l1].
  destruct (is_empty bytes) eqn:Ee.
  { apply is_empty_true in Ee as ->. injection E as <- <-. by exists l1. }
  apply bind_done in E as (r2 & s2 & E2 & E). apply IH in E2 as (l2 & R2 & W2 & G2).
  exists (l1 ++ l2). rewrite wrote_app, got_app, W1, W2.
  destruct r2 as [rest|e]; injection E as <- <-; (split; [by eapply polls_app|]); split; try done.
  destruct G2 as [-> He]. destruct bytes as [|b bytes]; [done|]. rewrite G1.
  split; [done|]. apply elem_of_app. by right.
Qed.

#[export] Instance sim_ext_laws : AsyncExtLaws (TlsStream * W) polls.
Proof.
  split.
  - apply polls_nil.
  - apply polls_app.
  - apply read_once_runs.
  - apply write_loop_runs.
  - apply read_all_runs.
  - intros s r s'. cbn. intros (p & s1 & E & Er)%bind_done. destruct p; [|done].
    injection Er as _ ->. exists []. split; [|split; [apply quiet_nil|done]].
    eapply polls_shutdown; [exact E|apply polls_nil].
Qed.
End sim_ext.

(** ** Witnesses *)

(** The echo server reads [ping] and the end of the stream; the client is on the
    kernel path. *)
Definition echo_script : list Event :=
  [EvHandshake 1 0; EvRead (inl (bytes_of "ping")); EvWrite None []; EvRead (inr 6); EvShutdown 0 0].
Definition echo_client_script : list Event :=
  [EvHandshake 1 0; EvTcpWrite (Ok 4); EvSend 2 0; recvd x17 (bytes_of "ping"); recvd x15 [x01; x00]].
Definition echo_client_log : list IoEvent := [Wrote (bytes_of "ping"); Got (bytes_of "ping"); GotEof].

Definition echo_cfg : ServerConfig := {| sc_ctx := 0; sc_ktls_disabled := true |}.

Lemma echo_server_run :
  ∃ sc w', serve_echo 2 3 echo_cfg 5 (dialling echo_script) = Done (Ok (Ok tt, sc), w') ∧
    outgoing (conn_stream sc, w') = bytes_of "ping" ∧ incoming (conn_stream sc, w') = bytes_of "ping" ∧
    v_closes (view w') = 1%nat.
Proof. do 2 eexists. split; [vm_compute; reflexivity|]. by split_and!. Qed.

Lemma echo_client_run :
  ∃ cc w' c, connect 2 cfg0 (bytes_of "x") 5 (dialling echo_client_script) = Done (Ok cc, w') ∧
    polls (conn_stream cc, w') echo_client_log c ∧ outgoing c = bytes_of "ping" ∧
    incoming c = bytes_of "ping" ∧ v_closes (view c.2) = 1%nat.
Proof.
  do 3 eexists. split; [vm_compute; reflexivity|]. split.
  { eapply (polls_write 2 (TaskWaker 0) (bytes_of "ping") _ (Ready (Ok 4))); [vm_compute; reflexivity|].
    eapply (polls_shutdown 2 (TaskWaker 0) _ (Ready (Ok tt))); [vm_compute; reflexivity|].
    eapply (polls_read 2 (TaskWaker 0) buf8 _
      (Ready (Ok tt), {| filled := bytes_of "ping"; capacity := 8 |})); [done|vm_compute; reflexivity|].
    eapply (polls_read 2 (TaskWaker 0) buf8 _ (Ready (Ok tt), buf8)); [done|vm_compute; reflexivity|].
    apply polls_nil. }
  by split_and!.
Qed.

Lemma dialling_idle script : idle (dialling script).
Proof. by repeat split. Qed.

Lemma echo_comes_back_witness : got echo_client_log = wrote echo_client_log.
Proof.
  destruct echo_server_run as (sc & ws & Es & Hos & His & Hvs).
  destruct echo_client_run as (cc & wc & c & Ec & Hpc & Hoc & Hic & Hvc).
  destruct (echo_comes_back 2 3 2 echo_cfg cfg0 (bytes_of "x") 5 5 (dialling echo_script)
    (dialling echo_client_script) (Ok tt) sc cc ws wc echo_client_log c) as [_ Hc];
    [apply (dialling_refs echo_script)|apply (dialling_refs echo_script)|apply dialling_idle
    |apply (dialling_refs echo_client_script)|apply (dialling_refs echo_client_script)|apply dialling_idle
    |exact Es|exact Ec|exact Hpc
    |split; [by rewrite Hos, Hic|intros _; split; [cbn [snd]; rewrite Hvs; apply Nat.lt_0_1|congruence]]
    |split; [by rewrite Hoc, His|intros _; split; [cbn [snd]; rewrite Hvc; apply Nat.lt_0_1|congruence]]|].
  apply Hc; [reflexivity|]. by apply (bool_decide_unpack _).
Defined.

(** A server that reads a little, answers and closes; the client fetches it. *)
Definition answer_script : list Event :=
  [EvHandshake 1 0; EvRead (inl (bytes_of "GET")); EvWrite None []; EvShutdown 0 0].
Definition fetch_script : list Event :=
  [EvHandshake 1 0; EvTcpWrite (Ok (len (get_request (bytes_of "x")))); recvd x17 (bytes_of "hi");
   recvd x15 [x01; x00]; EvSend 2 0].
Definition answer_log : list IoEvent := [Got (bytes_of "GET"); Wrote (bytes_of "hi")].

Lemma answer_run :
  ∃ sc w' s, accept 2 echo_cfg 5 (dialling answer_script) = Done (Ok sc, w') ∧
    polls (conn_stream sc, w') answer_log s ∧ outgoing s = bytes_of "hi" ∧
    incoming s = bytes_of "GET" ∧ (¬ close_received s) ∧ v_closes (view s.2) = 1%nat.
Proof.
  do 3 eexists. split; [vm_compute; reflexivity|]. split.
  { eapply (polls_read 2 (TaskWaker 0) buf8 _
      (Ready (Ok tt), {| filled := bytes_of "GET"; capacity := 8 |})); [done|vm_compute; reflexivity|].
    eapply (polls_write 2 (TaskWaker 0) (bytes_of "hi") _ (Ready (Ok 2))); [vm_compute; reflexivity|].
    eapply (polls_shutdown 2 (TaskWaker 0) _ (Ready (Ok tt))); [vm_compute; reflexivity|].
    apply polls_nil. }
  by split_and!.
Qed.

Lemma fetch_run :
  ∃ cc w', https_get 2 cfg0 (bytes_of "x") 5 (dialling fetch_script) = Done (Ok (bytes_of "hi", cc), w') ∧
    outgoing (conn_stream cc, w') = get_request (bytes_of "x") ∧
    incoming (conn_stream cc, w') = bytes_of "hi".
Proof. do 2 eexists. split; [vm_compute; reflexivity|]. split; vm_compute; reflexivity. Qed.

Lemma https_get_complete_witness : bytes_of "hi" = wrote answer_log.
Proof.
  destruct answer_run as (sc & ws & s & Ea & Hps & Hos & His & Hcs & Hvs).
  destruct fetch_run as (cc & wc & Ec & Hoc & Hic).
  assert (carries s (conn_stream cc, wc)) as C1.
  { split; [by rewrite Hos, Hic|]. intros _. rewrite Hvs, Hos, Hic. split; [apply Nat.lt_0_1|reflexivity]. }
  assert (carries (conn_stream cc, wc) s) as C2.
  { split; [|intros Hx; destruct (Hcs Hx)]. rewrite Hoc, His. by apply (bool_decide_unpack _). }
  destruct (https_get_complete 2 2 echo_cfg cfg0 (bytes_of "x") 5 5 (dialling answer_script)
    (dialling fetch_script) sc (bytes_of "hi") cc ws wc answer_log s
    (proj1 (dialling_refs answer_script)) (proj2 (dialling_refs answer_script))
    (dialling_idle answer_script) (proj1 (dialling_refs fetch_script))
    (proj2 (dialling_refs fetch_script)) (dialling_idle fetch_script) Ea Hps Ec C1 C2) as [Hb _].
  exact Hb.
Defined.
