(* ===== verification/Mains.v ===== *)
(** * examples/: the main functions

    Arguments, configuration, sockets and tasks of the three example programs.
    The listener, the resolver behind [TcpStream::connect], the file system and
    hyper's connection builder are an interface.  A spawned task runs beside the
    main function, so that a main function is modelled by the tasks it spawns and
    the error it ends with. *)

From S2P Require Import Prelude Std Ip Env Objects Sim Errors Ownership Alpn Suites Session RecordIo CryptoInfo Install Stream StreamProps ServerConfig ClientConfig ConfigProps ClientProps Endpoint EndpointProps Ffi Hyper Examples.

Local Open Scope Z_scope.

(** ** The host *)

Class Host (W : Type) : Type := {
  fs_read : list byte → W → io_result (list byte) * W;
  (** [TcpListener::bind] and [TcpListener::accept]; the peer's address is only
      printed. *)
  tcp_bind : list byte → W → io_result nat * W;
  tcp_accept : nat → W → io_result nat * W;
  (** [TcpStream::connect((host, port))] *)
  tcp_connect : list byte → Z → W → io_result nat * W;
}.

(** A socket that is handed out belongs to the program; nothing else of the crate's
    is touched. *)
Class HostLaws (W : Type) `{ErrQueue W, LibSslCtx W, !LibSslCtxLaws W, Host W} : Prop := {
  fs_read_spec path w r w' : fs_read path w = (r, w') → ghost w' = ghost w;
  tcp_bind_spec addr w r w' : tcp_bind addr w = (r, w') → ghost w' = ghost w;
  tcp_accept_spec l w r w' :
    tcp_accept l w = (r, w') →
    ghost w' = match r with Ok fd => g_take (OFd fd) (ghost w) | Err _ => ghost w end;
  tcp_connect_spec host port w r w' :
    tcp_connect host port w = (r, w') →
    ghost w' = match r with Ok fd => g_take (OFd fd) (ghost w) | Err _ => ghost w end;
}.

(** ** Arguments *)

(** [str::parse::<u16>]: an optional plus sign and decimal digits. *)
Fixpoint parse_digits (acc : Z) (s : list byte) : option Z :=
  match s with
  | [] => Some acc
  | b :: s' =>
      match to_digit 10 b with
      | None => None
      | Some d =>
          let acc := acc * 10 + d in
          if acc <=? u16_max then parse_digits acc s' else None
      end
  end.

Definition parse_u16 (s : list byte) : option Z :=
  let digits := match s with b :: s' => if bool_decide (b = x2b) then s' else s | [] => s end in
  if is_empty digits then None else parse_digits 0 digits.

(** [args.next().map_or_else(|| default, ..)] and the arguments behind it. *)
Definition next_arg (dflt : string) (args : list (list byte)) : list byte * list (list byte) :=
  match args with a :: rest => (a, rest) | [] => (bytes_of dflt, []) end.

(** The servers: address, certificate chain and key. *)
Definition server_args (args : list (list byte)) : list byte * list byte * list byte :=
  let '(bind, args) := next_arg "127.0.0.1:8443" args in
  let '(cert, args) := next_arg "tests/data/cert.pem" args in
  let '(key, _) := next_arg "tests/data/key.pem" args in
  (bind, cert, key).

(** The client: host, port and the flags behind them. *)
Definition get_args (args : list (list byte)) : list byte * Z * list (list byte) :=
  let '(host, args) := next_arg "example.com" args in
  match args with
  | [] => (host, 443, [])
  | port :: args => (host, default 443 (parse_u16 port), args)
  end.

Section mains.
Context {W : Type} `{AwsLcConsts, Strerror, ErrQueue W, TokioTcp W, LibSsl W, Syscalls W, Kdf W,
  SslSession W, LibSslCtx W, LibCrypto W, LibSslConn W, Host W, AsyncExt (TlsStream * W)}.

(** [while let Some(flag) = args.next() { .. }]; a later [--ca] replaces an earlier
    one. *)
Fixpoint ca_loop (args : list (list byte)) (ca : option (list byte)) :
    M W (result (option (list byte)) BoxError) :=
  match args with
  | [] => mret (Ok ca)
  | flag :: args =>
      if bool_decide (flag = bytes_of "--ca") then
        match args with
        | [] => mret (Err (FromText "--ca requires a path argument"))
        | path :: args =>
            let* r := ext (fs_read path) in
            match r with
            | Err e => mret (Err (FromIo e))
            | Ok pem => ca_loop args (Some pem)
            end
        end
      else mret (Err (FromText ("unknown argument: " +:+ str_of flag)))
  end.

(** ** The servers *)

(** [let (tcp, peer) = listener.accept().await?; let acceptor = acceptor.clone();
    tokio::spawn(..)], until accepting fails.  The result is the error and the
    sockets of the tasks that were spawned, oldest first. *)
Fixpoint accept_loop (fuel : nat) (ctx listener : nat) (spawned : list nat) :
    M (Arcs * (Proc * W)) (BoxError * list nat) :=
  match fuel with
  | O => out_of_fuel
  | S fuel =>
      let* r := lift (lift (ext (tcp_accept listener))) in
      match r with
      | Err e => mret (FromIo e, spawned)
      | Ok tcp =>
          do* arc_clone ctx ;
          accept_loop fuel ctx listener (spawned ++ [tcp])
      end
  end.

(** [main] of echo-server.rs and hyper-server.rs, which differ in the protocols they
    offer and in their tasks; up to the drop of its locals. *)
Definition server_main (fuel : nat) (protos : list (list byte)) (args : list (list byte)) :
    M (Arcs * (Proc * W)) (BoxError * list nat) :=
  let '(bind, cert, key) := server_args args in
  let builder := server_set_alpn_protocols protos server_builder in
  let* r := lift (with_pem_files cert key builder) in
  match r with
  | Err e => mret (FromTls e, [])
  | Ok cfg =>
      do* arc_new (sc_ctx cfg) ;
      let* r := lift (lift (ext (tcp_bind bind))) in
      match r with
      | Err e => mret (FromIo e, [])
      | Ok listener => accept_loop fuel (sc_ctx cfg) listener []
      end
  end.

Definition echo_main (fuel : nat) : list (list byte) → M (Arcs * (Proc * W)) (BoxError * list nat) :=
  server_main fuel [bytes_of "echo/1"].

Definition hyper_main (fuel : nat) : list (list byte) → M (Arcs * (Proc * W)) (BoxError * list nat) :=
  server_main fuel [bytes_of "h2"; bytes_of "http/1.1"].

(** ** The client *)

Definition get_main (fuel : nat) (args : list (list byte)) :
    M (Proc * W) (result (list byte * Conn) BoxError) :=
  let '(host, port, args) := get_args args in
  let* r := lift (ca_loop args None) in
  match r with
  | Err e => mret (Err e)
  | Ok ca =>
      let* r := client_build (get_builder ca) in
      match r with
      | Err e => mret (Err (FromTls e))
      | Ok cfg =>
          let* r := lift (ext (tcp_connect host port)) in
          match r with
          | Err e => mret (Err (FromIo e))
          | Ok tcp => lift (https_get fuel cfg host tcp)
          end
      end
  end.
End mains.

(** ** hyper-server.rs: the task *)

(** A request, as far as the handler looks at it. *)
Record Request : Type := { req_method : string; req_path : string }.

Definition newline : string := str_of [x0a].

Definition hello (req : Request) : string :=
  "hello " +:+ req_method req +:+ " " +:+ req_path req +:+ newline.

(** [auto::Builder::new(..).serve_connection(io, service_fn(f))] *)
Class ServeConnection (W : Type) : Type :=
  serve_connection : TokioIo Conn → (Request → string) → M W (result unit string).

Definition serve_hyper {W : Type} `{AwsLcConsts, Strerror, ErrQueue W, TokioTcp W, LibSsl W,
    Syscalls W, Kdf W, SslSession W, LibSslConn W, ServeConnection W}
    (fuel : nat) (acceptor : HyperAcceptor) (tcp : nat) : M W (result (result unit string) Error) :=
  let? io := HyperAcceptor_accept fuel acceptor tcp in
  let* r := serve_connection io hello in
  mret (Ok r).

(** ** The port *)

(** The number that a decimal text denotes. *)
Definition digit_value (b : byte) : Z := byte_Z b - 48.
Definition decimal_value (digits : list byte) : Z := foldl (λ acc b, acc * 10 + digit_value b) 0 digits.
Definition is_decimal (b : byte) : bool := in_range 48 57 b.

Lemma to_digit_10 b : to_digit 10 b = if is_decimal b then Some (digit_value b) else None.
Proof. by destruct b. Qed.

Lemma digit_value_range b : is_decimal b = true → 0 ≤ digit_value b ≤ 9.
Proof.
  unfold is_decimal, in_range, digit_value. intros [?%Z.leb_le ?%Z.leb_le]%andb_prop. lia.
Qed.

Lemma decimal_from_mono acc digits :
  0 ≤ acc → Forall (λ b, is_decimal b = true) digits →
  acc ≤ foldl (λ acc b, acc * 10 + digit_value b) acc digits.
Proof.
  revert acc. induction digits as [|b digits IH]; intros acc Ha Hd; cbn [foldl]; [lia|].
  apply Forall_cons in Hd as [Hb Hd]. pose proof (digit_value_range b Hb).
  specialize (IH (acc * 10 + digit_value b) ltac:(lia) Hd). lia.
Qed.

Lemma parse_digits_spec acc digits n :
  0 ≤ acc ≤ u16_max →
  parse_digits acc digits = Some n ↔
  Forall (λ b, is_decimal b = true) digits ∧
  n = foldl (λ acc b, acc * 10 + digit_value b) acc digits ∧ n ≤ u16_max.
Proof.
  revert acc. induction digits as [|b digits IH]; intros acc Ha; cbn [parse_digits foldl].
  { rewrite Forall_nil. split; [intros [= <-]; split_and!; [done|done|lia]|by intros (_ & -> & _)]. }
  rewrite to_digit_10, Forall_cons. destruct (is_decimal b) eqn:Eb; [|naive_solver].
  pose proof (digit_value_range b Eb). cbn zeta.
  destruct (Z.leb_spec (acc * 10 + digit_value b) u16_max) as [Hle|Hgt]; [rewrite IH by lia; naive_solver|].
  split; [done|]. intros ([_ Hd] & -> & Hn).
  pose proof (decimal_from_mono (acc * 10 + digit_value b) digits ltac:(lia) Hd). lia.
Qed.

(** [parse::<u16>] accepts exactly the decimal texts, with or without a plus sign,
    of the numbers below 65536. *)
Lemma parse_u16_spec s n :
  parse_u16 s = Some n ↔
  ∃ digits, (s = digits ∨ s = x2b :: digits) ∧ digits ≠ [] ∧
    Forall (λ b, is_decimal b = true) digits ∧ n = decimal_value digits ∧ n ≤ u16_max.
Proof.
  assert (∀ digits, (if is_empty digits then None else parse_digits 0 digits) = Some n ↔
    digits ≠ [] ∧ Forall (λ b, is_decimal b = true) digits ∧ n = decimal_value digits ∧ n ≤ u16_max) as Hd.
  { intros digits. destruct digits as [|b digits]; [by split; [|intros [? _]]|]. cbn [is_empty].
    rewrite parse_digits_spec by done. naive_solver. }
  unfold parse_u16. cbn zeta. rewrite Hd. split.
  - intros Hx. destruct s as [|b s]; [by destruct Hx|]. case_bool_decide; subst; eauto.
  - intros (digits & [->| ->] & Hne & Hf & Hn); [|by rewrite bool_decide_true].
    destruct digits as [|b digits]; [done|]. apply Forall_cons in Hf as Hb.
    rewrite bool_decide_false; [done|]. intros ->. by destruct Hb.
Qed.

(** ** What the main functions do *)

Section server_mains.
Context {W : Type} `{AwsLcConsts, Strerror, ErrQueue W, TokioTcp W, LibSsl W, Syscalls W, Kdf W,
  SslSession W, LibSslCtx W, !LibSslCtxLaws W, LibCrypto W, LibSslConn W, Host W, !HostLaws W}.
Implicit Types (w : W) (arcs : Arcs) (p : Proc).

(** The sockets of the spawned tasks, as references of the program. *)
Definition fds (tcps : list nat) : gmultiset Obj := list_to_set_disj (OFd <$> tcps).

Lemma fds_cons tcp tcps : fds (tcp :: tcps) = {[+ OFd tcp +]} ⊎ fds tcps.
Proof. unfold fds. by rewrite fmap_cons, list_to_set_disj_cons. Qed.

Lemma refs_fds_nil (g : Ghost) : g_on_refs (λ m, m ⊎ fds []) g = g.
Proof.
  unfold g_on_refs, fds. rewrite fmap_nil, list_to_set_disj_nil, (right_id_L ∅ (⊎)). by destruct g.
Qed.

Lemma accept_loop_spawns fuel c l spawned arcs p w e spawned' arcs' p' w' k :
  accept_loop fuel c l spawned (arcs, (p, w)) = Done ((e, spawned'), (arcs', (p', w'))) →
  arcs !! c = Some k →
  ∃ new err, e = FromIo err ∧ spawned' = spawned ++ new ∧ p' = p ∧
    arcs' !! c = Some (k + length new)%nat ∧ (∀ c', c' ≠ c → arcs' !! c' = arcs !! c') ∧
    ghost w' = g_on_refs (λ m, m ⊎ fds new) (ghost w).
Proof.
  revert spawned arcs w k. induction fuel as [|fuel IH]; intros spawned arcs w k E Hk; [done|].
  cbn [accept_loop] in E. unfold mbind, M_bind, lift, ext in E. cbn [fst snd] in E.
  destruct (tcp_accept l w) as [[tcp|err] w1] eqn:Et; apply tcp_accept_spec in Et as Hg; cbn -[alter arc_clone] in E.
  - unfold arc_clone, modify_self in E. cbn [fst snd] in E. unfold Arcs in *.
    apply IH with (k := Datatypes.S k) in E as (new & err & -> & -> & -> & Ha & Hne & Hw);
      [|by rewrite lookup_alter_eq, Hk].
    exists (tcp :: new), err. split_and!; [done|by rewrite <- app_assoc|done| | |].
    + rewrite Ha. f_equal. cbn. lia.
    + intros c' Hc'. rewrite Hne, lookup_alter_ne by done. done.
    + rewrite Hw, Hg. unfold g_take, g_on_refs. cbn [g_refs g_ctx g_bio g_ssl]. by rewrite fds_cons, (assoc_L (⊎)).
  - injection E as <- <- <- <- <-. exists [], err. rewrite app_nil_r. split_and!; try done.
    + rewrite Hk. f_equal. cbn. lia.
    + by rewrite refs_fds_nil.
Qed.
End server_mains.

(** A server that gives its configuration to one task per accepted socket. *)
Section server_main_facts.
Context {W : Type} `{AwsLcConsts, !AwsLcConstsOk, Strerror, ErrQueue W, !ErrQueueLaws W, TokioTcp W,
  LibSsl W, Syscalls W, Kdf W, SslSession W, LibSslCtx W, !LibSslCtxLaws W, LibCrypto W,
  !LibCryptoLaws W, !ExIndexAllocates W, LibSslConn W, Host W, !HostLaws W}.
Implicit Types (w : W) (p : Proc).


Context `{AsyncExt (TlsStream * W)}.

(** The HTTPS client talks only to a server that it verifies: the body it prints
    comes from an exchange with the host of its arguments, on a socket connected
    to that host and port, under a configuration that verifies the peer against
    the bundle given with [--ca] or the system's roots. *)
Theorem get_main_verifies fuel args p w body conn s' :
  proc_wf p →
  get_main fuel args (p, w) = Done (Ok (body, conn), s') →
  let '(host, port, flags) := get_args args in
  ∃ ca cfg i tcp w1 p2 w2 w3,
    ca_loop flags None w = Done (Ok ca, w1) ∧
    client_build (get_builder ca) (p, w1) = Done (Ok cfg, (p2, w2)) ∧
    g_ctx (ghost w2) !! cc_ctx cfg = Some (client_ctx (get_builder ca) i) ∧
    cs_verify (client_ctx (get_builder ca) i) = SSL_VERIFY_PEER ∧
    anchors_ok (cb_roots (get_builder ca)) (ci_anchors i) ∧
    tcp_connect host port w2 = (Ok tcp, w3) ∧
    https_get fuel cfg host tcp w3 = Done (Ok (body, conn), s'.2).
Proof.
  intros Hwf. unfold get_main. destruct (get_args args) as [[host port] flags]. intros E.
  apply bind_done in E as (r & s1 & (w1 & Eca & ->)%lift_done & E). cbn [fst snd] in *.
  destruct r as [ca|x]; [|done]. apply bind_done in E as (r & [p2 w2] & Eb & E).
  destruct r as [cfg|x]; [|done].
  assert (client_wf (get_builder ca)) as Hb by by destruct ca.
  pose proof (twp_client_build (get_builder ca) (p, w1) Hb Hwf) as Ht.
  apply twp_done in Ht as (r' & s2 & E' & Hbuilt). rewrite Eb in E'. injection E' as <- <-.
  destruct Hbuilt as (i & (Ha & _) & _ & _ & _ & Hst).
  apply bind_done in E as (r & s3 & (w3 & [= Et] & ->)%lift_done & E). cbn [fst snd] in *.
  destruct r as [tcp|x]; [|done]. apply lift_done in E as (w4 & Eh & ->).
  exists ca, cfg, i, tcp, w1, p2, w2, w3. split_and!; try done. by destruct ca.
Qed.
End server_main_facts.

(** ** A host on which clients connect *)

#[export] Instance sim_host : Host Sim := {|
  fs_read path w := (Ok path, w);
  tcp_bind addr w := (Ok 0%nat, w);
  tcp_accept _ w :=
    if Nat.ltb (w_next w) 13 then (Ok (w_next w), with_ghost (g_take (OFd (w_next w))) w)
    else (Err (Os 24), w);
  tcp_connect host port w := (Ok (w_next w), with_ghost (g_take (OFd (w_next w))) w) |}.

#[export] Instance sim_host_laws : HostLaws Sim.
Proof.
  split; cbn; intros; simplify_eq; try done. by case_match; simplify_eq.
Qed.

