(* ===== verification/Testing.v ===== *)
(** * The assertions of the crate's unit tests

    A test is a program of the model: a failed assertion, [unwrap] or
    [unwrap_err] is a panic, as in Rust, and a test passes if it returns.  The
    files [Tests*] translate the [mod tests] of the sources one function at a
    time, and run the model on them. *)

From S2P Require Import Prelude Std.

Local Open Scope Z_scope.

Section assertions.
Context {S : Type}.

(** [assert!(b)] *)
Definition assert_that (b : bool) : M S unit :=
  if b then mret tt else panic "assertion failed".

(** [assert_eq!(x, y)] and [assert_ne!(x, y)] *)
Definition assert_eq {A} `{EqDecision A} (x y : A) : M S unit := assert_that (bool_decide (x = y)).
Definition assert_ne {A} `{EqDecision A} (x y : A) : M S unit := assert_that (bool_decide (x ≠ y)).

(** [Result::unwrap], [Result::unwrap_err] and [Option::unwrap] *)
Definition unwrap {A E} (r : result A E) : M S A :=
  match r with Ok a => mret a | Err _ => panic "called unwrap on an Err value" end.
Definition unwrap_err {A E} (r : result A E) : M S E :=
  match r with Ok _ => panic "called unwrap_err on an Ok value" | Err e => mret e end.
Definition unwrap_opt {A} (o : option A) : M S A :=
  match o with Some a => mret a | None => panic "called unwrap on a None value" end.

(** [for x in l { body }] *)
Fixpoint for_each {A} (l : list A) (body : A → M S unit) : M S unit :=
  match l with
  | [] => mret tt
  | x :: l' => do* body x ; for_each l' body
  end.
End assertions.

Definition is_err {A E} (r : result A E) : bool := negb (is_ok r).

(** [lo..hi] and [lo..=hi] *)
Definition range (lo hi : Z) : list Z := seqZ lo (hi - lo).
Definition range_incl (lo hi : Z) : list Z := seqZ lo (hi + 1 - lo).

Definition usize_max : Z := 2 ^ 64 - 1.

(** A size rounded up to an alignment, as [#[repr(C)]] does. *)
Definition round_up (align n : Z) : Z := (n + align - 1) / align * align.

(** [s.contains(needle)] *)
Fixpoint str_contains (needle s : string) : bool :=
  String.prefix needle s ||
  match s with EmptyString => false | String _ s' => str_contains needle s' end.

(** A test passes if it returns. *)
Definition passes {S A} (test : M S A) (s : S) : bool :=
  match test s with Done _ => true | _ => false end.

(** ** Reasoning about tests whose data are not closed *)

Lemma bind_to {S A B} (m : M S A) (k : A → M S B) (s : S) a s' r :
  m s = Done (a, s') → k a s' = r → (m ≫= k) s = r.
Proof. unfold mbind, M_bind. by intros -> <-. Qed.

Lemma for_each_same {S A} (l : list A) (body : A → M S unit) (s : S) :
  (∀ x, body x s = Done (tt, s)) → for_each l body s = Done (tt, s).
Proof.
  intros Hb. induction l as [|x l IH]; [done|]. cbn [for_each]. unfold mbind, M_bind. by rewrite Hb.
Qed.

Lemma assert_that_true {S} (b : bool) : b = true → assert_that (S := S) b = mret tt.
Proof. by intros ->. Qed.

Lemma assert_eq_refl {S A} `{EqDecision A} (x : A) : assert_eq (S := S) x x = mret tt.
Proof. unfold assert_eq. by rewrite bool_decide_eq_true_2. Qed.

(** The assertion in the part of a text behind one that is not known. *)
Lemma str_contains_app_r needle a b :
  str_contains needle b = true → str_contains needle (a +:+ b) = true.
Proof.
  intros Hb. induction a as [|c a IH]; [done|].
  change (String.prefix needle (String c (a +:+ b)) || str_contains needle (a +:+ b) = true).
  by rewrite IH, orb_true_r.
Qed.

Lemma str_contains_spec needle s :
  str_contains needle s = true ↔ ∃ a b, s = a +:+ needle +:+ b.
Proof.
  assert (∀ n t, String.prefix n t = true ↔ ∃ b, t = n +:+ b) as Hp.
  { induction n as [|c n IH]; intros t; [by split; [exists t|destruct t]|].
    destruct t as [|d t]; cbn [String.prefix]; [by split; [|intros (b & ?)]|].
    destruct (Ascii.ascii_dec c d) as [->|Hd].
    - rewrite IH. split; intros (b & Hb); exists b; [by rewrite Hb|by injection Hb].
    - split; [done|]. by intros (b & [= ? ?]). }
  induction s as [|c s IH].
  - cbn [str_contains]. rewrite orb_false_r, Hp. split.
    + intros (b & Hb). by exists "", b.
    + intros (a & b & Hab). destruct a; [by exists b|done].
  - cbn [str_contains]. rewrite orb_true_iff, Hp, IH. split.
    + intros [(b & Hb)|(a & b & ->)]; [by exists "", b|by exists (String c a), b].
    + intros (a & b & Hab). destruct a as [|d a]; [left; by exists b|].
      right. injection Hab as -> ->. by exists a, b.
Qed.
