(* ===== verification/Hkdf.v ===== *)
(** * HKDF-Expand over SHA-2, executable

    [HKDF_expand] belongs to AWS-LC and is a parameter of the model.  This file
    gives the function the parameter stands for, from its specifications
    (FIPS 180-4, RFC 2104, RFC 5869), so that the known-answer tests of
    [ktls/derive.rs] can run: the round constants are computed as the
    fractional parts of roots of primes that FIPS 180-4 defines them to be. *)

From S2P Require Import Prelude Std Env Sim.

Local Open Scope Z_scope.

(** ** Constants from primes *)

Definition is_prime (n : Z) : bool := forallb (λ d, negb (n mod d =? 0)) (seqZ 2 (n - 2)).

Definition primes (n : nat) : list Z := take n (filter is_prime (seqZ 2 410)).

(** The largest [r] below [2 ^ bits] with [r ^ e <= n], bit by bit. *)
Fixpoint root_loop (e n : Z) (bits : nat) (r : Z) : Z :=
  match bits with
  | O => r
  | S bits' =>
      let r' := r + 2 ^ Z.of_nat bits' in
      root_loop e n bits' (if r' ^ e <=? n then r' else r)
  end.

Definition frac_root (e w p : Z) : Z := root_loop e (p * 2 ^ (e * w)) 80 0 mod 2 ^ w.

(** ** SHA-2 *)

Record Sha : Type := {
  sha_w : Z;
  sha_rounds : nat;
  sha_big0 : Z * Z * Z;
  sha_big1 : Z * Z * Z;
  (** The third amount of the small functions is a shift. *)
  sha_small0 : Z * Z * Z;
  sha_small1 : Z * Z * Z;
  sha_init : list Z;
  sha_k : list Z;
  sha_out : Z;
}.

Definition sha256 : Sha := Eval vm_compute in {|
  sha_w := 32; sha_rounds := 64;
  sha_big0 := (2, 13, 22); sha_big1 := (6, 11, 25);
  sha_small0 := (7, 18, 3); sha_small1 := (17, 19, 10);
  sha_init := frac_root 2 32 <$> primes 8;
  sha_k := frac_root 3 32 <$> primes 64; sha_out := 32 |}.

Definition sha384 : Sha := Eval vm_compute in {|
  sha_w := 64; sha_rounds := 80;
  sha_big0 := (28, 34, 39); sha_big1 := (14, 18, 41);
  sha_small0 := (1, 8, 7); sha_small1 := (19, 61, 6);
  sha_init := frac_root 2 64 <$> drop 8 (primes 16);
  sha_k := frac_root 3 64 <$> primes 80; sha_out := 48 |}.

Section sha.
Context (h : Sha).

Definition wrap (x : Z) : Z := x mod 2 ^ sha_w h.
Definition rotr (n x : Z) : Z := Z.lor (Z.shiftr x n) (wrap (Z.shiftl x (sha_w h - n))).

Definition big (r : Z * Z * Z) (x : Z) : Z :=
  let '(a, b, c) := r in Z.lxor (Z.lxor (rotr a x) (rotr b x)) (rotr c x).
Definition small (r : Z * Z * Z) (x : Z) : Z :=
  let '(a, b, c) := r in Z.lxor (Z.lxor (rotr a x) (rotr b x)) (Z.shiftr x c).

Definition Ch (x y z : Z) : Z := Z.lxor (Z.land x y) (Z.land (Z.lxor x (2 ^ sha_w h - 1)) z).
Definition Maj (x y z : Z) : Z := Z.lxor (Z.lxor (Z.land x y) (Z.land x z)) (Z.land y z).

(** The message schedule, newest word first. *)
Fixpoint schedule (n : nat) (ws : list Z) : list Z :=
  match n with
  | O => ws
  | S n' =>
      let at_ i := default 0 (ws !! i) in
      schedule n' (wrap (small (sha_small1 h) (at_ 1%nat) + at_ 6%nat
                         + small (sha_small0 h) (at_ 14%nat) + at_ 15%nat) :: ws)
  end.

Definition round (v : list Z) (kw : Z * Z) : list Z :=
  match v with
  | [a; b; c; d; e; f; g; x] =>
      let t1 := x + big (sha_big1 h) e + Ch e f g + kw.1 + kw.2 in
      let t2 := big (sha_big0 h) a + Maj a b c in
      [wrap (t1 + t2); a; b; c; wrap (d + t1); e; f; g]
  | _ => v
  end.

Definition compress (state : list Z) (block : list Z) : list Z :=
  let ws := reverse (schedule (sha_rounds h - 16) (reverse block)) in
  zip_with (λ x y, wrap (x + y)) state (foldl round state (zip (sha_k h) ws)).

(** Bytes to words and blocks. *)
Definition word_bytes : nat := Z.to_nat (sha_w h / 8).

Fixpoint chunks {A} (fuel n : nat) (l : list A) : list (list A) :=
  match fuel, l with
  | S fuel', _ :: _ => take n l :: chunks fuel' n (drop n l)
  | _, _ => []
  end.

Definition block_bytes : Z := 2 * sha_w h.

Definition pad (msg : list byte) : list byte :=
  let tail := 1 + sha_w h / 4 in
  msg ++ [x80] ++ repeat x00 (Z.to_nat ((- (len msg + tail)) mod block_bytes))
    ++ to_be_bytes (Z.to_nat (sha_w h / 4)) (8 * len msg).

Definition sha (msg : list byte) : list byte :=
  let words := from_be_bytes <$> chunks (length (pad msg)) word_bytes (pad msg) in
  let blocks := chunks (length words) 16 words in
  prefix (sha_out h) (mjoin (to_be_bytes word_bytes <$> foldl compress (sha_init h) blocks)).

(** ** HMAC and HKDF-Expand *)

Definition xor_pad (c : Z) (key : list byte) : list byte :=
  (λ b, u8 (Z.lxor (byte_Z b) c)) <$> (key ++ repeat x00 (Z.to_nat (block_bytes - len key))).

Definition hmac (key msg : list byte) : list byte :=
  let key := if block_bytes <? len key then sha key else key in
  sha (xor_pad 0x5c key ++ sha (xor_pad 0x36 key ++ msg)).

Fixpoint expand_blocks (n : nat) (i : Z) (prk info t : list byte) : list byte :=
  match n with
  | O => []
  | S n' =>
      let t := hmac prk (t ++ info ++ [u8 i]) in
      t ++ expand_blocks n' (i + 1) prk info t
  end.
End sha.

Definition sha_of (md : EvpMd) : Sha :=
  match md with EVP_sha256 => sha256 | EVP_sha384 => sha384 end.

(** [n] bytes of output; more than 255 blocks are an error. *)
Definition hkdf_blocks (n : Z) (md : EvpMd) : Z := (n + sha_out (sha_of md) - 1) / sha_out (sha_of md).

Definition rfc5869_expand (n : Z) (md : EvpMd) (secret info : list byte) : list byte :=
  prefix n (expand_blocks (sha_of md) (Z.to_nat (hkdf_blocks n md)) 1 secret info []).

(** [HKDF_expand] with this function behind it, on the simulated world. *)
Definition rfc5869_kdf : Kdf Sim := {|
  HKDF_expand n md secret info w :=
    if hkdf_blocks n md <=? 255 then ((1, rfc5869_expand n md secret info), w)
    else ((0, []), with_errs (λ q, q ++ [Z.shiftl 31 24 + 100]) w);
  SSL_export_keying_material n label c clen use w := ((1, prefix n label), w) |}.

(** It satisfies what the development assumes of the parameter. *)
Definition rfc5869_kdf_laws : KdfLaws Sim (H := rfc5869_kdf).
Proof.
  refine (Build_KdfLaws Sim rfc5869_kdf rfc5869_expand _).
  intros n md secret info w out w'. cbn. case_match; intros [=]; congruence.
Defined.

(** ** The example values of the specifications *)

(** FIPS 180-4: the messages "abc" and the empty one. *)
Example sha256_abc :
  sha sha256 (bytes_of "abc") = to_be_bytes 32 0xba7816bf8f01cfea414140de5dae2223b00361a396177a9cb410ff61f20015ad.
Proof. vm_compute. reflexivity. Qed.

Example sha384_abc :
  sha sha384 (bytes_of "abc") = to_be_bytes 48 0xcb00753f45a35e8bb5a03d699ac65007272c32ab0eded1631a8b605a43ff5bed8086072ba1e7cc2358baeca134c825a7.
Proof. vm_compute. reflexivity. Qed.

(** RFC 5869, test case 1: 42 bytes, two blocks. *)
Example rfc5869_case1 :
  rfc5869_expand 42 EVP_sha256
    (to_be_bytes 32 0x077709362c2e32df0ddc3f0dc47bba6390b6c73bb50f9c3122ec844ad7c2b3e5)
    (to_be_bytes 10 0xf0f1f2f3f4f5f6f7f8f9)
  = to_be_bytes 42 0x3cb25f25faacd57a90434f64d0362f2a2d2d0a90cf1a5a4c5db02d56ecc4c5bf34007208d5b887185865.
Proof. vm_compute. reflexivity. Qed.
