(* ===== verification/Handles.v ===== *)
(** * ffi.rs: the owning wrappers, and its unit tests

    Each wrapper is a [NonNull] pointer that its [Drop] releases.  A raw pointer
    is an [option]; null is [None].  The tests of ffi.rs become theorems about any
    world that satisfies the laws, with any number of rounds. *)

From S2P Require Import Prelude Std Env Objects Sim Errors Ownership ServerConfig ClientConfig ConfigProps Stream Endpoint Ffi Lifecycle Testing.

Local Open Scope Z_scope.

(** ** The wrappers *)

Record SslCtx : Type := { ctx_nn : nat }.
Record Ssl : Type := { ssl_nn : nat }.
Record Bio : Type := { bio_nn : nat }.
Record EvpPkey : Type := { pkey_nn : nat }.
Record X509 : Type := { x509_nn : nat }.

(** [NonNull::new(ptr).map(Self)] *)
Definition SslCtx_from_raw (ptr : option nat) : option SslCtx := Build_SslCtx <$> ptr.
Definition Ssl_from_raw (ptr : option nat) : option Ssl := Build_Ssl <$> ptr.
Definition Bio_from_raw (ptr : option nat) : option Bio := Build_Bio <$> ptr.
Definition EvpPkey_from_raw (ptr : option nat) : option EvpPkey := Build_EvpPkey <$> ptr.
Definition X509_from_raw (ptr : option nat) : option X509 := Build_X509 <$> ptr.

Definition SslCtx_as_ptr (h : SslCtx) : option nat := Some (ctx_nn h).
Definition Ssl_as_ptr (h : Ssl) : option nat := Some (ssl_nn h).
Definition Bio_as_ptr (h : Bio) : option nat := Some (bio_nn h).
Definition EvpPkey_as_ptr (h : EvpPkey) : option nat := Some (pkey_nn h).
Definition X509_as_ptr (h : X509) : option nat := Some (x509_nn h).

(** [mem::forget]: the value is gone and its [Drop] does not run. *)
Definition Bio_into_raw (h : Bio) : option nat := Bio_as_ptr h.

Section drops.
Context {W : Type} `{ErrQueue W, LibCrypto W, LibSslConn W, LibRefs W}.

Definition SslCtx_drop (h : SslCtx) : M (Proc * W) unit := drop_ctx (ctx_nn h).
Definition Ssl_drop (h : Ssl) : M (Proc * W) unit := drop_ssl (ssl_nn h).
Definition Bio_drop (h : Bio) : M (Proc * W) unit := lift (modify (BIO_free (bio_nn h))).
Definition EvpPkey_drop (h : EvpPkey) : M (Proc * W) unit := lift (modify (EVP_PKEY_free (pkey_nn h))).
Definition X509_drop (h : X509) : M (Proc * W) unit := lift (modify (X509_free (x509_nn h))).

Definition SslCtx_clone_handle (h : SslCtx) : M (Proc * W) SslCtx :=
  let* c := lift (SslCtx_clone (ctx_nn h)) in
  mret {| ctx_nn := c |}.
End drops.

(** ** The tests *)

(** [BIO_new(BIO_s_mem())] *)
Class BioNew (W : Type) : Type := BIO_new_mem : W → option nat * W.

Class BioNewLaws (W : Type)
    `{ErrQueue W, LibSslCtx W, !LibSslCtxLaws W, BioNew W} : Prop := {
  bio_new_mem_spec w r w' :
    BIO_new_mem w = (r, w') →
    ghost w' = match r with
               | None => ghost w
               | Some b => g_on_bio <[b := []]> (g_take (OBio b) (ghost w))
               end;
}.

Section tests.
Context {W : Type} `{ErrQueue W, LibCrypto W, LibSslConn W, LibRefs W, BioNew W}.

(** [new_server_ctx] ([true]) and [new_client_ctx]. *)
Definition new_ctx (server : bool) : M (Proc * W) SslCtx :=
  let* raw := lift (ext (SSL_CTX_new server)) in
  unwrap_opt (SslCtx_from_raw raw).

(** [server_ctx_constructs_and_drops] and its client twin. *)
Definition ctx_constructs_and_drops (server : bool) : M (Proc * W) unit :=
  let* ctx := new_ctx server in
  do* assert_ne (SslCtx_as_ptr ctx) None ;
  SslCtx_drop ctx.

Definition new_ssl_handle (ctx : SslCtx) : M (Proc * W) Ssl :=
  let* raw := lift (ext (SSL_new (ctx_nn ctx))) in
  unwrap_opt (Ssl_from_raw raw).

(** Locals are dropped in the reverse order of their declaration. *)
Definition ssl_handle_round_trips_through_ctx : M (Proc * W) unit :=
  let* ctx := new_ctx true in
  let* ssl := new_ssl_handle ctx in
  do* assert_ne (Ssl_as_ptr ssl) None ;
  do* Ssl_drop ssl ;
  SslCtx_drop ctx.

Definition from_raw_null_returns_none : M (Proc * W) unit :=
  do* assert_that (match SslCtx_from_raw None with None => true | _ => false end) ;
  do* assert_that (match Ssl_from_raw None with None => true | _ => false end) ;
  assert_that (match Bio_from_raw None with None => true | _ => false end).

Definition bio_mem_constructs_and_drops : M (Proc * W) unit :=
  let* raw := lift (ext BIO_new_mem) in
  let* bio := unwrap_opt (Bio_from_raw raw) in
  do* assert_ne (Bio_as_ptr bio) None ;
  Bio_drop bio.

Definition bio_into_raw_releases_ownership : M (Proc * W) unit :=
  let* raw := lift (ext BIO_new_mem) in
  let* bio := unwrap_opt (Bio_from_raw raw) in
  let leaked := Bio_into_raw bio in
  do* assert_eq leaked raw ;
  let* retaken := unwrap_opt (Bio_from_raw leaked) in
  Bio_drop retaken.

(** The test has 1024 rounds. *)
Definition many_contexts_do_not_leak_under_repeated_construction (rounds : nat) :
    M (Proc * W) unit :=
  for_each (seq 0 rounds) (λ _,
    let* ctx := new_ctx true in
    SslCtx_drop ctx).

Definition ssl_ctx_clone_shares_underlying_handle : M (Proc * W) unit :=
  let* ctx := new_ctx true in
  let raw := SslCtx_as_ptr ctx in
  let* cloned := SslCtx_clone_handle ctx in
  do* assert_eq (SslCtx_as_ptr cloned) raw ;
  do* SslCtx_drop ctx ;
  let* ssl := new_ssl_handle cloned in
  do* Ssl_drop ssl ;
  SslCtx_drop cloned.

(** The test has 512 rounds. *)
Definition ssl_ctx_clone_then_drop_all_does_not_leak (rounds : nat) : M (Proc * W) unit :=
  for_each (seq 0 rounds) (λ _,
    let* ctx := new_ctx true in
    let* a := SslCtx_clone_handle ctx in
    let* b := SslCtx_clone_handle ctx in
    do* SslCtx_drop ctx ;
    do* SslCtx_drop a ;
    SslCtx_drop b).
End tests.

(** ** They pass unless an allocation fails, and leave nothing behind

    [expect m Q s]: [m] returns with [Q], or one of its [expect]s found null. *)

Definition expect {S A} (m : M S A) (Q : A → S → Prop) (s : S) : Prop :=
  match m s with
  | Done (a, s') => Q a s'
  | Panic msg => msg = "called unwrap on a None value"%string
  | OutOfFuel => False
  end.

Section expect.
Context {S : Type}.
Implicit Types s : S.

Lemma expect_bind {A B} (m : M S A) (k : A → M S B) (Q : B → S → Prop) s :
  expect m (λ a, expect (k a) Q) s → expect (m ≫= k) Q s.
Proof. unfold expect, mbind, M_bind. by destruct (m s) as [[]| |]. Qed.

Lemma twp_expect {A} (m : M S A) (Q : A → S → Prop) s : twp m Q s → expect m Q s.
Proof. unfold twp, expect. by destruct (m s) as [[]| |]. Qed.

Lemma expect_mono {A} (m : M S A) (P Q : A → S → Prop) s :
  expect m P s → (∀ a s', P a s' → Q a s') → expect m Q s.
Proof. unfold expect. destruct (m s) as [[]| |]; auto. Qed.

Lemma expect_for_each {A} (l : list A) (body : A → M S unit) (I : S → Prop) s :
  (∀ a s, I s → expect (body a) (λ _, I) s) → I s → expect (for_each l body) (λ _, I) s.
Proof.
  intros Hb. revert s. induction l as [|a l IH]; intros s Hs; [exact Hs|].
  apply expect_bind. eapply expect_mono; [by apply Hb|]. intros [] s' Hs'. by apply IH.
Qed.
End expect.

Lemma refs_back (o : Obj) (m : gmultiset Obj) : (m ⊎ {[+ o +]}) ∖ {[+ o +]} = m.
Proof. multiset_solver. Qed.

Lemma refs_in (o : Obj) (m : gmultiset Obj) : o ∈ m ⊎ {[+ o +]}.
Proof. multiset_solver. Qed.

Section handle_facts.
Context {W : Type} `{NetView W, !AwsLcConstsOk, !ErrQueueLaws W, LibSslCtx W, !LibSslCtxLaws W,
  LibCrypto W, !LibCryptoLaws W, LibSslConn W, !LibSslConnLaws W, LibRefs W, !LibRefsLaws W, BioNew W,
  !BioNewLaws W}.
Implicit Types (w : W) (s : Proc * W).

(** The references and sessions are [g]'s, and every box has its context. *)
Definition balanced (g : Ghost) s : Prop :=
  g_refs (ghost s.2) = g_refs g ∧ g_ssl (ghost s.2) = g_ssl g ∧
  ∃ lists, boxes_ok lists s.1 (ghost s.2).

Lemma expect_new_ctx server g (Q : SslCtx → Proc * W → Prop) s :
  balanced g s →
  (∀ c s' lists, g_refs (ghost s'.2) = g_refs g ⊎ {[+ OCtx c +]} → g_ssl (ghost s'.2) = g_ssl g →
     boxes_ok lists s'.1 (ghost s'.2) → Q {| ctx_nn := c |} s') →
  expect (new_ctx server) Q s.
Proof.
  intros (Hr & Hs & lists & Hb) HQ. destruct s as [p w]. cbn [fst snd] in *.
  unfold new_ctx, expect, mbind, M_bind, lift, ext. cbn [fst snd].
  destruct (SSL_CTX_new server w) as [r w1] eqn:E. apply ctx_new_spec in E.
  destruct r as [c|]; [|done]. destruct E as (Hn & Hf & Hg). cbn.
  assert (owns_new c (ghost w) (ghost w1)) as Ho.
  { rewrite Hg. split_and!; [done|done|intros c' Hne; cbn; by rewrite lookup_insert_ne|].
    split; [|done]. cbn. rewrite multiplicity_disj_union, multiplicity_singleton_eq.
    apply not_elem_of_multiplicity in Hn. lia. }
  eapply HQ; cbn [fst snd]; [by rewrite Hg; cbn; rewrite Hr|by rewrite Hg|].
  eapply (boxes_ok_new _ p p _ _ c (ctx_init server) None Hb Ho); [|apply ctx_init_ex|done|done|apply Hb].
  rewrite Hg. cbn. by rewrite lookup_insert_eq.
Qed.

Lemma twp_clone_handle c lists (Q : SslCtx → Proc * W → Prop) s :
  OCtx c ∈ g_refs (ghost s.2) → boxes_ok lists s.1 (ghost s.2) →
  (∀ s', ghost s'.2 = g_take (OCtx c) (ghost s.2) → boxes_ok lists s'.1 (ghost s'.2) →
     Q {| ctx_nn := c |} s') →
  twp (SslCtx_clone_handle {| ctx_nn := c |}) Q s.
Proof.
  intros Hc Hb HQ. unfold SslCtx_clone_handle. twp_step. apply twp_lift.
  apply twp_SslCtx_clone; [done|]. intros w' Hg. twp_step. apply HQ; cbn [fst snd]; [done|].
  rewrite Hg. eapply (boxes_ok_same _ s.1 _ (ghost s.2)); [|done|done|by intros ?|apply Hb|exact Hb].
  intros c'. unfold ctx_alive. cbn. split; intros [Hin|?]; try by right.
  - apply gmultiset_elem_of_disj_union in Hin as [?|Hin]; [by left|].
    apply gmultiset_elem_of_singleton in Hin as [= ->]. by left.
  - left. by apply gmultiset_elem_of_disj_union; left.
Qed.

Lemma expect_new_ssl c lists (Q : Ssl → Proc * W → Prop) s :
  OCtx c ∈ g_refs (ghost s.2) → boxes_ok lists s.1 (ghost s.2) →
  (∀ x s', g_ssl (ghost s.2) !! x = None →
     ghost s'.2 = g_on_ssl <[x := ssl_new_state c]> (g_take (OSsl x) (ghost s.2)) →
     boxes_ok lists s'.1 (ghost s'.2) → Q {| ssl_nn := x |} s') →
  expect (new_ssl_handle {| ctx_nn := c |}) Q s.
Proof.
  intros Hc Hb HQ. destruct s as [p w]. cbn [fst snd] in *.
  unfold new_ssl_handle, expect, mbind, M_bind, lift, ext. cbn [fst snd ctx_nn].
  destruct (SSL_new c w) as [r w1] eqn:E. apply ssl_new_spec in E; [|done].
  destruct r as [x|]; [|done]. destruct E as (Hn & Hx & Hg). cbn. apply HQ; [done|done|].
  cbn [fst snd]. rewrite Hg. eapply (boxes_ok_same _ p _ (ghost w)); [|done|done|by intros ?|apply Hb|exact Hb].
  intros c'. unfold ctx_alive. cbn. split.
  - intros [Hin|(x' & st & Hl & He)].
    + left. apply gmultiset_elem_of_disj_union in Hin as [?|Hin]; [done|].
      by apply gmultiset_elem_of_singleton in Hin.
    + apply lookup_insert_Some in Hl as [[<- <-]|[? ?]]; [left; cbn in He; by subst|].
      right. by exists x', st.
  - intros [Hin|(x' & st & Hl & He)]; [left; by apply gmultiset_elem_of_disj_union; left|].
    right. exists x', st. split; [|done]. rewrite lookup_insert_ne; [done|]. intros ->. congruence.
Qed.

(** A handle of a context is dropped. *)
Lemma expect_drop_ctx c lists (Q : unit → Proc * W → Prop) s :
  OCtx c ∈ g_refs (ghost s.2) → boxes_ok lists s.1 (ghost s.2) →
  (∀ s', ghost s'.2 = g_drop (OCtx c) (ghost s.2) → boxes_ok lists s'.1 (ghost s'.2) → Q tt s') →
  expect (SslCtx_drop {| ctx_nn := c |}) Q s.
Proof. intros. by apply twp_expect; eapply twp_drop_handle. Qed.

Lemma expect_bio_test (body : option nat → Bio → M (Proc * W) unit) g s :
  balanced g s →
  (∀ b, body (Some b) {| bio_nn := b |} = Bio_drop {| bio_nn := b |}) →
  expect (let* raw := lift (ext BIO_new_mem) in
          let* bio := unwrap_opt (Bio_from_raw raw) in body raw bio) (λ _, balanced g) s.
Proof.
  intros (Hr & Hs & lists & Hb) Hbody. destruct s as [p w]. cbn [fst snd] in *.
  unfold expect, mbind, M_bind, lift, ext. cbn [fst snd].
  destruct (BIO_new_mem w) as [r w1] eqn:E. apply bio_new_mem_spec in E.
  destruct r as [b|]; [|done]. cbn. rewrite Hbody. unfold Bio_drop, lift, modify. cbn.
  pose proof (bio_free_spec b w1) as Hf. rewrite E in Hf. specialize (Hf (refs_in _ _)).
  unfold balanced. cbn [fst snd]. rewrite Hf. cbn. rewrite refs_back. split_and!; [done|done|]. exists lists.
  eapply (boxes_ok_same _ p _ (ghost w)); [|done|done|by intros ?|apply Hb|exact Hb].
  intros c. unfold ctx_alive. cbn. by rewrite refs_back.
Qed.

(** ** Each test gives back what it took *)

Lemma new_drop_balanced server g s :
  balanced g s →
  expect (let* ctx := new_ctx server in SslCtx_drop ctx) (λ _, balanced g) s.
Proof.
  intros Hs. apply expect_bind, (expect_new_ctx _ g); [done|]. intros c s1 l1 Hr1 Hs1 Hb1.
  eapply expect_drop_ctx; [rewrite Hr1; apply refs_in|done|]. intros s2 Hg2 Hb2.
  split_and!; [rewrite Hg2; cbn; by rewrite Hr1, refs_back|by rewrite Hg2|by exists l1].
Qed.

Lemma clones_balanced g s :
  balanced g s →
  expect (let* ctx := new_ctx true in
          let* a := SslCtx_clone_handle ctx in
          let* b := SslCtx_clone_handle ctx in
          do* SslCtx_drop ctx ;
          do* SslCtx_drop a ;
          SslCtx_drop b) (λ _, balanced g) s.
Proof.
  intros Hs. apply expect_bind, (expect_new_ctx _ g); [done|]. intros c s1 l Hr1 Hs1 Hb1.
  apply expect_bind, twp_expect, (twp_clone_handle _ l); [rewrite Hr1; apply refs_in|done|].
  intros s2 Hg2 Hb2.
  apply expect_bind, twp_expect, (twp_clone_handle _ l); [rewrite Hg2; apply refs_in|done|].
  intros s3 Hg3 Hb3.
  apply expect_bind, (expect_drop_ctx _ l); [rewrite Hg3; apply refs_in|done|]. intros s4 Hg4 Hb4.
  assert (g_refs (ghost s4.2) = g_refs g ⊎ {[+ OCtx c +]} ⊎ {[+ OCtx c +]}) as Hr4.
  { rewrite Hg4. cbn. rewrite Hg3. cbn. by rewrite refs_back, Hg2; cbn; rewrite Hr1. }
  apply expect_bind, (expect_drop_ctx _ l); [rewrite Hr4; apply refs_in|done|]. intros s5 Hg5 Hb5.
  assert (g_refs (ghost s5.2) = g_refs g ⊎ {[+ OCtx c +]}) as Hr5.
  { rewrite Hg5. cbn. by rewrite Hr4, refs_back. }
  apply (expect_drop_ctx _ l); [rewrite Hr5; apply refs_in|done|]. intros s6 Hg6 Hb6.
  split_and!; [rewrite Hg6; cbn; by rewrite Hr5, refs_back| |by exists l].
  rewrite Hg6. cbn. rewrite Hg5. cbn. rewrite Hg4. cbn. rewrite Hg3. cbn. by rewrite Hg2.
Qed.

(** A session on a context, dropped before it. *)
Lemma session_balanced (check : Ssl → M (Proc * W) unit) c g lists s :
  (∀ x s, check x s = Done (tt, s)) →
  g_refs (ghost s.2) = g_refs g ⊎ {[+ OCtx c +]} → g_ssl (ghost s.2) = g_ssl g →
  boxes_ok lists s.1 (ghost s.2) →
  expect (let* ssl := new_ssl_handle {| ctx_nn := c |} in
          do* check ssl ;
          do* Ssl_drop ssl ;
          SslCtx_drop {| ctx_nn := c |}) (λ _, balanced g) s.
Proof.
  intros Hch Hr Hs Hb. apply expect_bind, (expect_new_ssl _ lists); [rewrite Hr; apply refs_in|done|].
  intros x s1 Hx Hg1 Hb1. apply expect_bind. unfold expect at 1. rewrite Hch.
  change (expect (do* Ssl_drop {| ssl_nn := x |}; SslCtx_drop {| ctx_nn := c |}) (λ _, balanced g) s1).
  apply expect_bind, twp_expect.
  eapply (twp_drop_ssl x (ssl_new_state c) lists); [rewrite Hg1; apply refs_in| |done|].
  { rewrite Hg1. cbn. by rewrite lookup_insert_eq. }
  intros s2 Hg2 Hb2.
  assert (g_refs (ghost s2.2) = g_refs g ⊎ {[+ OCtx c +]}) as Hr2.
  { rewrite Hg2. cbn. rewrite Hg1. cbn. by rewrite refs_back. }
  apply (expect_drop_ctx _ lists); [rewrite Hr2; apply refs_in|done|]. intros s3 Hg3 Hb3.
  split_and!; [rewrite Hg3; cbn; by rewrite Hr2, refs_back| |by exists lists].
  rewrite Hg3. cbn. rewrite Hg2. cbn. rewrite Hg1. cbn. by rewrite delete_insert_id.
Qed.

Lemma clone_shares_balanced g s :
  balanced g s → expect ssl_ctx_clone_shares_underlying_handle (λ _, balanced g) s.
Proof.
  intros Hs. apply expect_bind, (expect_new_ctx _ g); [done|]. intros c s1 l Hr1 Hs1 Hb1. cbn zeta.
  apply expect_bind, twp_expect, (twp_clone_handle _ l); [rewrite Hr1; apply refs_in|done|].
  intros s2 Hg2 Hb2. rewrite assert_eq_refl. apply expect_bind.
  change (expect (do* SslCtx_drop {| ctx_nn := c |};
    let* ssl := new_ssl_handle {| ctx_nn := c |} in
    do* Ssl_drop ssl; SslCtx_drop {| ctx_nn := c |}) (λ _, balanced g) s2).
  apply expect_bind, (expect_drop_ctx _ l); [rewrite Hg2; apply refs_in|done|]. intros s3 Hg3 Hb3.
  assert (expect (let* ssl := new_ssl_handle {| ctx_nn := c |} in do* mret tt;
    do* Ssl_drop ssl; SslCtx_drop {| ctx_nn := c |}) (λ _, balanced g) s3) as Hx; [|exact Hx].
  apply (session_balanced (λ _, mret tt) c g l s3); [done| | |done].
  - rewrite Hg3. cbn. by rewrite Hg2; cbn; rewrite refs_back.
  - rewrite Hg3. cbn. by rewrite Hg2.
Qed.

Definition ffi_tests (rounds : nat) : list (M (Proc * W) unit) := [
  ctx_constructs_and_drops true; ctx_constructs_and_drops false;
  ssl_handle_round_trips_through_ctx; from_raw_null_returns_none; bio_mem_constructs_and_drops;
  bio_into_raw_releases_ownership; many_contexts_do_not_leak_under_repeated_construction rounds;
  ssl_ctx_clone_shares_underlying_handle; ssl_ctx_clone_then_drop_all_does_not_leak rounds ].

End handle_facts.

(** ** The simulated library *)

#[export] Instance sim_bio_new : BioNew Sim := BIO_new_mem_buf [].

#[export] Instance sim_bio_new_laws : BioNewLaws Sim.
Proof. split. intros w r w' E. by apply bio_new_spec in E. Qed.

Lemma sim0_boxes_ok script : boxes_ok ∅ proc0 (ghost (sim0 script)).
Proof.
  assert (∀ c, ctx_alive c (ghost (sim0 script)) → c = 0%nat) as Hc.
  { intros c [Hc|(x & st & Hx & _)]; [|done]. apply gmultiset_elem_of_singleton in Hc. congruence. }
  split.
  - intros c ->%Hc. by exists (ctx0 true).
  - intros k [x Hk]. change ((∅ : gmap nat (list byte)) !! k = Some x) in Hk. by rewrite lookup_empty in Hk.
  - by intros c1 c2 k ->%Hc ->%Hc.
  - apply proc0_wf.
Qed.

