(* ===== verification/Regressions.v ===== *)
(** * tests/stream_regressions.rs: the writer's side

    The helpers with which the crate's stream regressions stall a writer, account
    for what it was told is accepted, and repeat a shutdown, as programs over the
    polls of a stream.  In the tests the peer and the kernel decide how the polls
    go; here they are any world that satisfies the laws, so that what the helpers
    assert becomes a theorem. *)

From S2P Require Import Prelude Std Env Sim Errors RecordIo RecordSpec Install Stream StreamSpec StreamProps Testing.

Local Open Scope Z_scope.

Definition RECORD : Z := 16 * 1024.

(** The low 64 bits. *)
Definition u64 (z : Z) : Z := Z.land z (Z.ones 64).

(** [state.to_le_bytes()[0]] is the low byte. *)
Fixpoint pattern (len : nat) (state : Z) : list byte :=
  match len with
  | O => []
  | S len' =>
      let state := Z.lxor state (u64 (Z.shiftl state 13)) in
      let state := Z.lxor state (Z.shiftr state 7) in
      let state := Z.lxor state (u64 (Z.shiftl state 17)) in
      u8 state :: pattern len' state
  end.

Section regressions.
Context {W : Type} `{AwsLcConsts, Strerror, ErrQueue W, TokioTcp W, LibSsl W, Syscalls W}.

(** [tokio::task::yield_now().await]: whatever happens in between. *)
Context (yield_now : W → W).

(** One poll of the future of [stream.write(bytes)], which is then dropped. *)
Definition write_once (fuel : nat) (cx : Waker) (bytes : list byte) :
    M (TlsStream * W) (poll (io_result Z)) :=
  poll_write fuel cx bytes.

Definition flush_once (fuel : nat) (cx : Waker) : M (TlsStream * W) (poll (io_result unit)) :=
  poll_flush fuel cx.

Definition shutdown_once (fuel : nat) (cx : Waker) : M (TlsStream * W) (poll (io_result unit)) :=
  poll_shutdown fuel cx.

(** [expected] is returned with what was accepted. *)
Definition record_accepted (result : io_result Z) (bytes expected : list byte) :
    M (TlsStream * W) (list byte) :=
  let* n := unwrap result in
  do* assert_that ((0 <? n) && (n <=? Z.min (len bytes) RECORD)) ;
  mret (expected ++ prefix n bytes).

(** The loop over the sequence numbers.  The overwriting of the caller's buffers
    has no counterpart: a byte string of the model has no address. *)
Fixpoint stall_loop (fuel : nat) (cx : Waker) (sequences : list Z) (expected : list byte) :
    M (TlsStream * W) (list byte) :=
  match sequences with
  | [] => panic "paused peer never produced a pending write AND pending flush"
  | sequence :: rest =>
      let bytes := pattern (Z.to_nat (3 * RECORD + 37)) sequence in
      let next (expected : list byte) : M (TlsStream * W) (list byte) :=
        do* lift (modify yield_now) ;
        stall_loop fuel cx rest expected in
      let* w := write_once fuel cx bytes in
      match w with
      | Ready result =>
          let* expected := record_accepted result bytes expected in
          next expected
      | Pending =>
          let* w := write_once fuel cx bytes in
          match w with
          | Ready result =>
              let* expected := record_accepted result bytes expected in
              next expected
          | Pending =>
              let* f := flush_once fuel cx in
              match f with
              | Pending =>
                  do* assert_ne expected [] ;
                  mret expected
              | Ready result =>
                  do* unwrap result ;
                  next expected
              end
          end
      end
  end.

Definition stall_writer (fuel : nat) (cx : Waker) : M (TlsStream * W) (list byte) :=
  stall_loop fuel cx (range_incl 1 1024) [].

(** A future that is expected to be ready at its first poll. *)
Definition ready_now {A} (m : M (TlsStream * W) (poll A)) : M (TlsStream * W) A :=
  let* p := m in
  match p with Ready a => mret a | Pending => out_of_fuel end.

Definition assert_shutdown_idempotent (fuel : nat) (cx : Waker) : M (TlsStream * W) unit :=
  do* for_each (range 0 3) (λ _,
    let* p := shutdown_once fuel cx in
    match p with
    | Ready result => unwrap result
    | Pending => panic "completed shutdown must be immediately idempotent"
    end) ;
  let* r := ready_now (poll_write fuel cx (bytes_of "write after shutdown")) in
  let* error := unwrap_err r in
  do* assert_eq (kind error) BrokenPipe ;
  let* r := ready_now (poll_flush fuel cx) in
  unwrap r.
End regressions.

(** ** Their assertions hold *)

(** [m] returns with [Q], runs out of fuel, or panics with one of [msgs]. *)
Definition up_to {S A} (msgs : list string) (m : M S A) (Q : A → S → Prop) (s : S) : Prop :=
  match m s with
  | Done (a, s') => Q a s'
  | Panic msg => msg ∈ msgs
  | OutOfFuel => True
  end.

Section up_to.
Context {S : Type} (msgs : list string).
Implicit Types s : S.

Lemma up_to_bind {A B} (m : M S A) (k : A → M S B) (Q : B → S → Prop) s :
  up_to msgs m (λ a s', up_to msgs (k a) Q s') s → up_to msgs (m ≫= k) Q s.
Proof. unfold up_to, mbind, M_bind. by destruct (m s) as [[]| |]. Qed.

Lemma up_to_wp {A} (m : M S A) (P Q : A → S → Prop) s :
  wp m P s → (∀ a s', P a s' → Q a s') → up_to msgs m Q s.
Proof. unfold up_to, wp. destruct (m s) as [[]| |]; naive_solver. Qed.

Lemma up_to_mono {A} (m : M S A) (P Q : A → S → Prop) s :
  up_to msgs m P s → (∀ a s', P a s' → Q a s') → up_to msgs m Q s.
Proof. unfold up_to. destruct (m s) as [[]| |]; naive_solver. Qed.

Lemma up_to_unwrap {A E} (r : result A E) (Q : A → S → Prop) s :
  "called unwrap on an Err value"%string ∈ msgs → (∀ a, r = Ok a → Q a s) → up_to msgs (unwrap r) Q s.
Proof. intros Hm HQ. destruct r; [by apply HQ|done]. Qed.
End up_to.

Section facts.
Context {W : Type} `{NetView W, !Strerror, !ReadyBudget W, !SslReadLaws W}.
Implicit Types (w : W) (s : TlsStream * W).

Lemma flush_waits fuel cx reader s :
  write_ok s → wp (poll_pending_write fuel cx reader) (λ p _, p = Pending → pending_write s.1 ≠ []) s.
Proof.
  intros Hok. destruct (decide (pending_write s.1 = [])) as [Hp|Hp];
    [|by eapply wp_mono; [apply wp_poll_pending_write|]].
  unfold poll_pending_write. do 2 wp_step. destruct (write_error s.1); [by wp_step|].
  destruct fuel as [|fuel]; [done|]. cbn [pending_write_loop]. do 2 wp_step. rewrite Hp. by wp_step.
Qed.

(** What a write to the libssl path takes: one record at most and not nothing; and
    it waits only behind a record that was taken before. *)
Lemma poll_write_takes fuel cx buf s :
  write_ok s → reader_ok (ktls_reader s.1) → ktls_active s.1 = false → buf ≠ [] →
  wp (poll_write fuel cx buf) (λ p s', match p with
    | Ready (Ok n) => 0 < n ≤ Z.min (len buf) MAX_PLAINTEXT
    | Ready (Err _) => True
    | Pending => pending_write s.1 ≠ []
    end) s.
Proof.
  intros Hok Hr Ha Hne. unfold poll_write. do 2 wp_step. destruct (is_empty buf) eqn:Eb.
  { by apply is_empty_true in Eb. }
  destruct (write_error s.1) as [e|] eqn:He; [by wp_step|]. case_bool_decide; [by wp_step|].
  rewrite Ha. wp_step. eapply wp_mono.
  { apply wp_and; [by apply wp_poll_pending_write|by apply (flush_waits fuel cx false s Hok)]. }
  intros p [t1 w1] [Hf Hw]. pose proof (flush_post_op _ _ _ _ _ Hf Hr) as (Hok1 & Ha1 & _ & _ & Hr1 & _).
  destruct Hf as (_ & _ & _ & _ & _ & Hres). destruct p as [[[]|e]|]; [|by wp_step|wp_step; by apply Hw].
  destruct Hres as [Hp1 He1]. cbn [fst] in *.
  destruct (chunk_bounds buf Hne) as (Hc1 & Hc2 & Hc3 & Hc4).
  set (chunk := prefix (Z.min (len buf) MAX_PLAINTEXT) buf) in *.
  unfold try_from_max. destruct (Z.leb_spec (len chunk) c_int_max) as [_|Hbad];
    [|unfold MAX_PLAINTEXT, c_int_max in *; lia].
  eapply wp_mono; [apply (wp_write_chunk cx chunk t1 w1); try done; congruence|].
  intros [[n|e]|] s3 [_ Hp]; [|done..]. destruct Hp as [-> _]. pose proof (len_pos chunk Hc1). lia.
Qed.
Lemma length_pattern n state : length (pattern n state) = n.
Proof. revert state. induction n as [|n IH]; intros state; [done|]. cbn. by rewrite IH. Qed.

(** The writer between two polls: everything taken since [s0] is in [expected]. *)
Definition stalling s0 (expected : list byte) s : Prop :=
  write_ok s ∧ reader_ok (ktls_reader s.1) ∧ ktls_active s.1 = false ∧
  taken s = taken s0 ++ expected ∧ (expected = [] → pending_write s.1 = []).

Lemma stalling_op s0 expected cx s bytes s' :
  stalling s0 expected s → op_ok false cx s bytes s' → expected ++ bytes ≠ [] →
  stalling s0 (expected ++ bytes) s'.
Proof.
  intros (_ & _ & Ha & Ht & _) (Hok & Ha' & _ & _ & Hr & Ht') Hne.
  split_and!; [done|done|congruence|by rewrite Ht', Ht, app_assoc|done].
Qed.

Lemma stalling_write s0 expected fuel cx buf s :
  stalling s0 expected s → buf ≠ [] →
  wp (write_once fuel cx buf) (λ p s', match p with
    | Ready (Ok n) => 0 < n ≤ Z.min (len buf) RECORD ∧ stalling s0 (expected ++ prefix n buf) s'
    | Ready (Err _) => True
    | Pending => expected ≠ [] ∧ stalling s0 expected s'
    end) s.
Proof.
  intros Hst Hne. pose proof Hst as (Hok & Hr & Ha & _ & Hp). unfold write_once. eapply wp_mono.
  { apply wp_and; [by apply wp_poll_write|by apply poll_write_takes]. }
  intros [[n|e]|] s' [[Hpost _] Hn]; [|done|].
  - destruct Hpost as [_ Hop]. split; [done|]. eapply stalling_op; [done..|].
    intros [_ Hnil]%app_eq_nil. apply (f_equal len) in Hnil. rewrite len_prefix in Hnil by lia.
    unfold len in Hnil. cbn in Hnil. lia.
  - assert (expected ≠ []) as He by naive_solver. split; [done|].
    rewrite <- (app_nil_r expected). eapply stalling_op; [done..|]. by rewrite app_nil_r.
Qed.

Lemma stalling_view s0 expected t w w' :
  view w' = view w → stalling s0 expected (t, w) → stalling s0 expected (t, w').
Proof.
  intros Hv (Hok & Hr & Ha & Ht & Hp). split_and!; try done; [by eapply write_ok_view|].
  rewrite <- Ht. unfold taken, queued. cbn [fst snd]. by rewrite Hv.
Qed.
(** The ways in which the helper may give up: an operation of the stream failed, or
    the peer was never stalled. *)
Definition gives_up : list string := [
  "called unwrap on an Err value";
  "paused peer never produced a pending write AND pending flush"]%string.

Lemma up_to_record_accepted s0 expected n buf (Q : list byte → TlsStream * W → Prop) s :
  0 < n ≤ Z.min (len buf) RECORD → Q (expected ++ prefix n buf) s →
  up_to gives_up (record_accepted (Ok n) buf expected) Q s.
Proof.
  intros [Hlo Hhi] HQ. unfold record_accepted. apply Z.ltb_lt in Hlo. apply Z.leb_le in Hhi.
  apply up_to_bind. cbn [unwrap]. apply up_to_bind. by rewrite Hlo, Hhi.
Qed.

(** One write of the loop, in front of what follows if it is taken ([next]) or not. *)
Lemma up_to_write s0 expected fuel cx buf s (next : list byte → M (TlsStream * W) (list byte))
    (k : M (TlsStream * W) (list byte)) (Q : list byte → TlsStream * W → Prop) :
  stalling s0 expected s → buf ≠ [] →
  (∀ expected' s', stalling s0 expected' s' → up_to gives_up (next expected') Q s') →
  (∀ s', expected ≠ [] → stalling s0 expected s' → up_to gives_up k Q s') →
  up_to gives_up (let* p := write_once fuel cx buf in
                  match p with
                  | Ready result => let* x := record_accepted result buf expected in next x
                  | Pending => k
                  end) Q s.
Proof.
  intros Hs Hne Hnext Hk. apply up_to_bind. eapply up_to_wp; [by apply stalling_write|].
  intros [[n|e]|] s2 Hp; [|by left|by apply Hk; apply Hp].
  destruct Hp as [Hn Hs2]. apply up_to_bind, up_to_record_accepted; [done|done|]. by apply Hnext.
Qed.

Lemma pattern_nonempty q : pattern (Z.to_nat (3 * RECORD + 37)) q ≠ [].
Proof.
  intros E%(f_equal length). rewrite length_pattern in E. cbn [length] in E. unfold RECORD in E. lia.
Qed.

Lemma stall_loop_accounts yield_now fuel cx sequences s0 expected s :
  (∀ w, view (yield_now w) = view w) → stalling s0 expected s →
  up_to gives_up (stall_loop yield_now fuel cx sequences expected)
    (λ expected' s', expected' ≠ [] ∧ stalling s0 expected' s') s.
Proof.
  intros Hy. revert expected s. induction sequences as [|q sequences IH]; intros expected s Hst.
  { by right; left. }
  cbn [stall_loop]. pose proof (pattern_nonempty q) as Hne. set (buf := pattern _ q) in *. clearbody buf.
  assert (∀ expected s, stalling s0 expected s →
    up_to gives_up (do* lift (modify yield_now) ; stall_loop yield_now fuel cx sequences expected)
      (λ expected' s', expected' ≠ [] ∧ stalling s0 expected' s') s) as Hnext.
  { intros x [t w] Hx. apply up_to_bind. apply IH. apply (stalling_view s0 x t w); [apply Hy|done]. }
  apply (up_to_write s0); [done..|]. intros s1 Hexp Hs1.
  apply (up_to_write s0); [done..|]. intros s2 _ Hs2.
  apply up_to_bind. pose proof Hs2 as (Hok2 & Hr2 & _).
  eapply up_to_wp; [by apply (wp_poll_pending_write fuel false cx)|].
  intros p s3 Hf. apply flush_post_op in Hf; [|done].
  assert (stalling s0 expected s3) as Hs3.
  { rewrite <- (app_nil_r expected). eapply stalling_op; [done..|]. by rewrite app_nil_r. }
  destruct p as [r|].
  - apply up_to_bind, up_to_unwrap; [by left|]. intros [] _. by apply Hnext.
  - apply up_to_bind. unfold assert_ne. by rewrite bool_decide_true.
Qed.

(** After a flush or a shutdown that is ready, everything taken has gone out. *)
Lemma drained s : ktls_active s.1 = false → pending_write s.1 = [] → v_sent (view s.2) = taken s.
Proof. intros Ha Hp. unfold taken, queued. by rewrite Ha, Hp, app_nil_r. Qed.

Lemma stall_loop_drains yield_now fuel cx sequences s :
  (∀ w, view (yield_now w) = view w) →
  write_ok s → reader_ok (ktls_reader s.1) → ktls_active s.1 = false → pending_write s.1 = [] →
  up_to gives_up (stall_loop yield_now fuel cx sequences []) (λ expected s',
    expected ≠ [] ∧ taken s' = taken s ++ expected ∧
    wp (flush_once fuel cx) (λ p s'', ∀ u, p = Ready (Ok u) → v_sent (view s''.2) = taken s ++ expected) s' ∧
    wp (shutdown_once fuel cx) (λ p s'', ∀ u, p = Ready (Ok u) → v_sent (view s''.2) = taken s ++ expected) s') s.
Proof.
  intros Hy Hok Hr Ha Hp. assert (stalling s [] s) as Hst by by split_and!; rewrite ?app_nil_r.
  pose proof (stall_loop_accounts yield_now fuel cx sequences s [] s Hy Hst) as Hl.
  unfold up_to in *. destruct (stall_loop _ _ _ _ _ s) as [[expected s']| |]; [|done..].
  destruct Hl as (Hne & Hok' & Hr' & Ha' & Ht & _). split_and!; [done..| |].
  - eapply wp_mono; [by apply (wp_poll_pending_write fuel false cx)|]. intros p s'' Hf u ->.
    pose proof (flush_post_op _ _ _ _ _ Hf Hr') as (_ & Ha2 & _ & _ & _ & Ht2).
    destruct Hf as (_ & _ & _ & _ & _ & Hp2 & _). rewrite app_nil_r in Ht2.
    rewrite drained by (done || congruence). congruence.
  - eapply wp_mono; [by apply (wp_poll_shutdown fuel cx)|].
    intros p s'' [[(_ & Ha2 & _ & _ & _ & Ht2) _] Hp2] u ->. destruct Hp2 as [_ Hp2]. rewrite app_nil_r in Ht2.
    rewrite drained by (done || congruence). congruence.
Qed.

(** The accounting of the stream regressions holds in every world: however peer,
    kernel and library answer the polls, no assertion of [stall_writer] about the
    bytes fails; it gives up only on an I/O error, or if no write is ever pending.
    Each accepted write has between one byte and one record, a write that is
    [Pending] has taken nothing, also when it is repeated from another buffer,
    and waits behind bytes that were accepted; the bytes reported as accepted are
    exactly what the stream has taken; and a flush or a shutdown that is ready
    has handed all of them to the library. *)
Theorem stall_writer_accounts yield_now fuel cx s :
  (∀ w, view (yield_now w) = view w) →
  write_ok s → reader_ok (ktls_reader s.1) → ktls_active s.1 = false → pending_write s.1 = [] →
  up_to gives_up (stall_writer yield_now fuel cx) (λ expected s',
    expected ≠ [] ∧ taken s' = taken s ++ expected ∧
    wp (flush_once fuel cx) (λ p s'', ∀ u, p = Ready (Ok u) → v_sent (view s''.2) = taken s ++ expected) s' ∧
    wp (shutdown_once fuel cx) (λ p s'', ∀ u, p = Ready (Ok u) → v_sent (view s''.2) = taken s ++ expected) s') s.
Proof. apply stall_loop_drains. Qed.

(** A ready shutdown remembers no failure. *)
Lemma poll_ssl_ready_error code cx reader :
  preserves (λ s : TlsStream * W, write_error s.1) (poll_ssl_ready code cx reader).
Proof.
  unfold poll_ssl_ready. intros s a s'. unfold mbind, M_bind, self, set_self. cbn [fst snd].
  destruct (code =? SSL_ERROR_WANT_READ); unfold lift; cbn [fst snd];
    [destruct (poll_clear_read_ready _ _) as [[]| |]|destruct (poll_clear_write_ready _ _) as [[]| |]];
    by intros [= <- <-].
Qed.

Ltac ended E := first [discriminate E | by injection E as <-].

Lemma fail_write_not_ok e s s' : fail_write e s ≠ Done (Ready (Ok tt) : poll (io_result unit), s').
Proof. intros E. apply bind_done in E as (? & ? & _ & E). discriminate E. Qed.

Lemma shutdown_loop_clean fuel cx s s' :
  write_error s.1 = None → shutdown_loop fuel cx s = Done (Ready (Ok tt), s') → write_error s'.1 = None.
Proof.
  revert s. induction fuel as [|fuel IH]; intros s He E; [done|]. cbn [shutdown_loop] in E.
  apply bind_done in E as (r & s1 & (w1 & _ & ->)%lift_done & E).
  destruct (0 <=? r); [ended E|].
  apply bind_done in E as (err & s2 & (w2 & _ & ->)%lift_done & E). cbn [fst snd] in *.
  destruct (wants_io err).
  - apply bind_done in E as (r2 & s3 & E3 & E). apply poll_ssl_ready_error in E3. cbn [fst] in E3.
    rewrite He in E3. destruct r2 as [[[]|e]|]; [by eapply IH|by apply fail_write_not_ok in E|ended E].
  - apply bind_done in E as (? & ? & _ & E). by apply fail_write_not_ok in E.
Qed.

Lemma poll_shutdown_clean fuel cx s s' :
  write_ok s → poll_shutdown fuel cx s = Done (Ready (Ok tt), s') → write_error s'.1 = None.
Proof.
  intros Hok E. unfold poll_shutdown in E. apply bind_done in E as (r & s1 & E1 & E).
  pose proof (wp_poll_pending_write fuel false cx s Hok) as Hf. unfold wp in Hf. rewrite E1 in Hf.
  destruct Hf as (_ & _ & _ & _ & _ & Hres). destruct r as [[[]|e]|]; [|ended E..].
  destruct Hres as [_ He]. apply bind_done in E as (t & s2 & [= <- <-] & E).
  case_bool_decide; [ended E|]. apply bind_done in E as ([] & s3 & [= <-] & E).
  destruct (ktls_active s1.1); [|by eapply shutdown_loop_clean in E].
  apply bind_done in E as (r & s3 & (w1 & _ & ->)%lift_done & E).
  destruct r as [[[]|e]|]; [|by apply fail_write_not_ok in E|ended E].
  apply bind_done in E as ([] & s4 & [= <-] & E).
  apply bind_done in E as (r & s5 & (w2 & _ & ->)%lift_done & E).
  destruct r as [[[]|e]|]; [ended E|by apply fail_write_not_ok in E|ended E].
Qed.

(** A stream that has been shut down. *)
Definition shut s : Prop :=
  shutdown s.1 = ShutClosed ∧ pending_write s.1 = [] ∧ write_error s.1 = None.

Lemma shut_flush fuel cx reader s :
  shut s → poll_pending_write (S fuel) cx reader s = Done (Ready (Ok tt), s).
Proof.
  intros (_ & Hp & He). unfold poll_pending_write. eapply bind_to; [done|]. rewrite He.
  cbn [pending_write_loop]. eapply bind_to; [done|]. by rewrite Hp.
Qed.

Lemma shut_shutdown fuel cx s : shut s → poll_shutdown (S fuel) cx s = Done (Ready (Ok tt), s).
Proof.
  intros Hs. unfold poll_shutdown. eapply bind_to; [by apply shut_flush|]. eapply bind_to; [done|].
  by rewrite bool_decide_true by apply Hs.
Qed.

Lemma shut_write fuel cx buf s :
  shut s → buf ≠ [] →
  poll_write fuel cx buf s = Done (Ready (Err (Custom BrokenPipe "TLS write half is shut down")), s).
Proof.
  intros (Hs & _ & He) Hne. unfold poll_write. eapply bind_to; [done|].
  destruct buf; [done|]. cbn [is_empty]. rewrite He. by rewrite bool_decide_true by congruence.
Qed.

Lemma shut_idempotent fuel cx s : shut s → assert_shutdown_idempotent (S fuel) cx s = Done (tt, s).
Proof.
  intros Hs. unfold assert_shutdown_idempotent. eapply bind_to.
  { apply for_each_same. intros x. eapply bind_to; [by apply shut_shutdown|]. reflexivity. }
  eapply bind_to.
  { eapply bind_to; [by apply shut_write|]. reflexivity. }
  eapply bind_to; [reflexivity|].
  eapply bind_to; [by rewrite assert_eq_refl|].
  eapply bind_to.
  { eapply bind_to; [by apply shut_flush|]. reflexivity. }
  reflexivity.
Qed.

(** C29. A shutdown that is done stays done, on both data paths: the assertions of
    [assert_shutdown_idempotent] hold after it, at the first poll each, and the
    repeated shutdowns, the refused write and the flush change nothing, so that no
    further record goes out. *)
Theorem shutdown_is_idempotent fuel cx s s' :
  write_ok s → reader_ok (ktls_reader s.1) →
  shutdown_once fuel cx s = Done (Ready (Ok tt), s') →
  assert_shutdown_idempotent fuel cx s' = Done (tt, s').
Proof.
  intros Hok Hr E. pose proof (poll_shutdown_clean _ _ _ _ Hok E) as He.
  pose proof (wp_poll_shutdown fuel cx s Hok Hr) as Hw. unfold shutdown_once, wp in *. rewrite E in Hw.
  destruct Hw as [_ [Hs Hp]]. destruct fuel as [|fuel]; [|by apply shut_idempotent].
  apply bind_done in E as (r & s1 & E1 & E). apply bind_done in E1 as (t & s2 & _ & E1).
  destruct (write_error t); [|done]. injection E1 as <- <-. discriminate E.
Qed.
End facts.

(** ** A stalled writer and a repeated shutdown in the scripted world *)

Definition blocked_write : Event := EvWrite (Some 3) [].

(** A fresh stream whose library takes no record; what follows is whatever the world
    does. *)
Lemma stall_writer_accounts_witness :
  up_to gives_up (stall_writer id 5 (TaskWaker 1)) (λ expected s', expected ≠ [] ∧ taken s' = expected)
    (start [blocked_write; blocked_write; blocked_write; blocked_write]).
Proof.
  eapply up_to_mono; [exact (stall_writer_accounts id 5 (TaskWaker 1)
    (start [blocked_write; blocked_write; blocked_write; blocked_write]) (λ _, eq_refl) (start_ok _)
    reader_ok_default eq_refl eq_refl)|].
  intros expected s' (Hne & Ht & _). split; [exact Hne|exact Ht].
Defined.

Lemma shutdown_is_idempotent_witness :
  ∃ s', shutdown_once 5 (TaskWaker 1) (start [EvShutdown 0 0]) = Done (Ready (Ok tt), s') ∧
    assert_shutdown_idempotent 5 (TaskWaker 1) s' = Done (tt, s').
Proof.
  eexists. split; [vm_compute; reflexivity|].
  apply (shutdown_is_idempotent 5 (TaskWaker 1) (start [EvShutdown 0 0]));
    [apply start_ok|apply reader_ok_default|vm_compute; reflexivity].
Defined.
