(* ===== verification/Accessors.v ===== *)
(** * The accessors of the public types

    What a user reads back from a stream, a session view or a hyper adapter
    (session.rs, stream.rs, hyper.rs), with the unit tests of hyper.rs, and how the
    accessors of a stream agree about kernel TLS. *)

From S2P Require Import Prelude Std Env Objects Sim Errors Ownership Alpn Suites Session RecordIo CryptoInfo Install Stream StreamProps ServerConfig ClientConfig ConfigProps Portable Endpoint Ffi Hyper Testing.

Local Open Scope Z_scope.

(** ** session.rs *)

Definition KtlsEligibility_tls_version (self : KtlsEligibility) : string := ke_tls_version self.
Definition KtlsEligibility_cipher (self : KtlsEligibility) : string := ke_cipher self.
Definition is_compatible (self : KtlsEligibility) : bool := compatible self.

Definition NegotiatedSession_version (self : NegotiatedSession) : string := ns_version self.
Definition NegotiatedSession_cipher (self : NegotiatedSession) : string := ns_cipher self.
Definition NegotiatedSession_alpn (self : NegotiatedSession) : option (list byte) := ns_alpn self.
Definition NegotiatedSession_sni (self : NegotiatedSession) : option string := ns_sni self.

(** ** stream.rs *)

Section stream_accessors.
Context {W : Type} `{AwsLcConsts, ErrQueue W, SslSession W, Kdf W}.

Definition TlsStream_negotiated : M (TlsStream * W) NegotiatedSession :=
  lift (gets NegotiatedSession_from_ssl).

Definition TlsStream_ktls_eligibility : M (TlsStream * W) KtlsEligibility :=
  lift (gets KtlsEligibility_from_ssl).

Definition TlsStream_ktls_active : M (TlsStream * W) bool :=
  let* self := self in
  mret (ktls_active self).

Definition TlsStream_ktls_disabled : M (TlsStream * W) bool :=
  let* self := self in
  mret (ktls_disabled self).

Definition TlsStream_export_keying_material (out label : list byte) (context : option (list byte)) :
    M (TlsStream * W) (Result unit * list byte) :=
  lift (export_keying_material out label context).
End stream_accessors.

(** [{:?}] of a stream and of a client configuration. *)
Definition debug_TlsStream (self : Conn) : string :=
  "TlsStream { fd: " +:+ pretty (Z.of_nat (conn_fd self)) +:+ ", ktls_active: "
    +:+ (if ktls_active (conn_stream self) then "true" else "false") +:+ ", .. }".

Definition debug_ClientConfig (self : ClientConfig) : string := "ClientConfig { .. }".

(** ** hyper.rs *)

Definition HyperAcceptor_inner (self : HyperAcceptor) : ServerConfig := ha_inner self.
Definition HttpsConnector_tls {H} (self : HttpsConnector H) : ClientConfig := hc_tls self.
Definition HttpsConnector_http {H} (self : HttpsConnector H) : H := hc_http self.

(** The tests of hyper.rs.  [let _ = x] drops [x] at once; a clone of an adapter is a
    clone of the [Arc] in it. *)
Section hyper_tests.
Context {H W : Type} `{Strerror, AwsLcConsts, ErrQueue W, LibSslCtx W, LibCrypto W, HttpConnector H W}.
Context (TEST_CERT_PEM TEST_KEY_PEM : list byte).

Definition test_acceptor : M (Arcs * (Proc * W)) ServerConfig :=
  let* r := lift (with_pem_bytes TEST_CERT_PEM TEST_KEY_PEM server_builder) in
  let* cfg := unwrap r in
  do* arc_new (sc_ctx cfg) ;
  mret cfg.

Definition test_connector : M (Arcs * (Proc * W)) ClientConfig :=
  let* r := lift (client_build (with_root_certs_pem_bytes TEST_CERT_PEM client_builder)) in
  let* cfg := unwrap r in
  do* arc_new (cc_ctx cfg) ;
  mret cfg.

Definition hyper_acceptor_from_and_inner : M (Arcs * (Proc * W)) unit :=
  let* a := test_acceptor in
  let h := HyperAcceptor_from a in
  do* arc_clone (sc_ctx (HyperAcceptor_inner h)) ;
  do* arc_drop (sc_ctx (HyperAcceptor_inner h)) ;
  do* arc_clone (sc_ctx (ha_inner h)) ;
  do* arc_drop (sc_ctx (ha_inner h)) ;
  arc_drop (sc_ctx (ha_inner h)).

Definition https_connector_default_constructor : M (Arcs * (Proc * W)) unit :=
  let* tls := test_connector in
  let c : HttpsConnector H := HttpsConnector_new tls in
  let _ := HttpsConnector_tls c in
  let _ := HttpsConnector_http c in
  do* arc_clone (cc_ctx (hc_tls c)) ;
  do* arc_drop (cc_ctx (hc_tls c)) ;
  arc_drop (cc_ctx (hc_tls c)).

Definition https_connector_with_custom_http_connector : M (Arcs * (Proc * W)) unit :=
  let http : H := HttpConnector_new in
  let http := enforce_http false http in
  let* tls := test_connector in
  let c := with_http_connector http tls in
  let _ := HttpsConnector_http c in
  arc_drop (cc_ctx (hc_tls c)).

Definition hyper_tests : list (M (Arcs * (Proc * W)) unit) := [
  hyper_acceptor_from_and_inner; https_connector_default_constructor;
  https_connector_with_custom_http_connector ].
End hyper_tests.

(** The tests pass, and the clones and adapters they drop leave no count and no
    reference. *)
Lemma hyper_tests_pass :
  Forall (λ t, ∃ arcs p w, t (∅, (proc0, sim0 [])) = Done (tt, (arcs, (p, w))) ∧ arcs = ∅ ∧
                 g_refs (ghost w) = g_refs (ghost (sim0 [])))
    (hyper_tests (H := bool) (W := Sim) [x30; x01] [x31; x01]).
Proof.
  repeat constructor; eexists _, _, _; (split; [vm_compute; reflexivity|]);
    (split; [reflexivity|vm_compute; reflexivity]).
Qed.

(** ** The accessors of a stream agree *)

Section agreement.
Context {W : Type} `{NetView W, !AwsLcConstsOk, SslSession W, Kdf W, !KdfView W, !KdfLaws W}.

(** After the automatic installation of a stream that was not active, the stream
    says that it is active only if it does not say that it is disabled and its
    session was called compatible. *)
Theorem accessors_agree (s : TlsStream * W) :
  ktls_active s.1 = false →
  twp (let* e := TlsStream_ktls_eligibility in
       do* try_auto_install_ktls ;
       let* a := TlsStream_ktls_active in
       let* d := TlsStream_ktls_disabled in
       mret (e, a, d))
    (λ r _, let '(e, a, d) := r in a = true → d = false ∧ is_compatible e = true) s.
Proof.
  intros Ha. unfold TlsStream_ktls_eligibility. do 4 twp_step. cbn [fst snd].
  apply twp_wp; [apply returns_try_auto_install|]. eapply wp_mono; [apply wp_try_auto_install|].
  intros r s' (log & _ & _ & Hr). unfold TlsStream_ktls_active, TlsStream_ktls_disabled.
  repeat twp_step. cbn [fst snd] in *. intros Ht. destruct r as [[]|e]; [|congruence].
  destruct Hr as [[Hs _]|(Hs & Hd & _ & c & i & Hc & _)]; rewrite Hs in *; [congruence|].
  split; [done|]. unfold is_compatible. cbn. by rewrite Hc.
Qed.
End agreement.
