(* ===== verification/TestsIo.v ===== *)
(** * The unit tests of ktls/io.rs

    The state of a test is its [reader]. *)

From S2P Require Import Prelude Std Env Errors RecordIo Testing.

Local Open Scope Z_scope.

Definition SOL_SOCKET : Z := 1.

(** ** Walking an ancillary buffer

    [CMSG_FIRSTHDR], [CMSG_DATA] and [CMSG_NXTHDR] of [cmsg(3)] on an array of
    [Control]s of which [msg_controllen] bytes are announced.  A header is named
    by its offset in the buffer. *)

Definition header_at (ctl : list Control) (off : Z) : option Control :=
  if off mod CONTROL_SPACE =? 0 then ctl !! Z.to_nat (off / CONTROL_SPACE) else None.

Definition CMSG_FIRSTHDR (controllen : Z) : option Z :=
  if sizeof_cmsghdr <=? controllen then Some 0 else None.

Definition CMSG_NXTHDR (ctl : list Control) (controllen off : Z) : option Z :=
  match header_at ctl off with
  | None => None
  | Some c =>
      if cmsg_len c <? sizeof_cmsghdr then None
      else
        let next := off + CMSG_ALIGN (cmsg_len c) in
        if controllen <? next + sizeof_cmsghdr then None
        else
          match header_at ctl next with
          | None => None
          | Some n => if controllen <? next + CMSG_ALIGN (cmsg_len n) then None else Some next
          end
  end.

Definition CMSG_DATA (ctl : list Control) (off : Z) : option byte := payload0 <$> header_at ctl off.

#[export] Instance ReadOutcome_eq_dec : EqDecision ReadOutcome.
Proof. solve_decision. Defined.

Definition with_cmsg_len (n : Z) (c : Control) : Control :=
  {| cmsg_len := n; cmsg_level := cmsg_level c; cmsg_type := cmsg_type c;
     ctl_payload := ctl_payload c |}.
Definition with_cmsg_level (n : Z) (c : Control) : Control :=
  {| cmsg_len := cmsg_len c; cmsg_level := n; cmsg_type := cmsg_type c;
     ctl_payload := ctl_payload c |}.
Definition with_cmsg_type (n : Z) (c : Control) : Control :=
  {| cmsg_len := cmsg_len c; cmsg_level := cmsg_level c; cmsg_type := n;
     ctl_payload := ctl_payload c |}.

Definition rx_control (record_type : byte) : Control :=
  with_cmsg_type TLS_GET_RECORD_TYPE (set_record_type record_type Control_new).

(** [control.0[index] = f(control.0[index])] *)
Definition on_index (index : Z) (f : Control → Control) (c : RecvControl) : RecvControl :=
  if index =? 0 then (f c.1, c.2) else (c.1, f c.2).

(** ** Layout

    [#[repr(C)]] on a 64-bit target: [cmsghdr] starts with a [size_t], and a byte
    array has no alignment of its own. *)

Definition size_of_usize : Z := 8.
Definition align_of_cmsghdr : Z := 8.
Definition align_of_Control : Z := Z.max align_of_cmsghdr 1.

Definition offset_of_payload : Z := round_up 1 sizeof_cmsghdr.
Definition size_of_Control : Z := round_up align_of_Control (offset_of_payload + size_of_usize).
Definition size_of_RecvControl : Z := 2 * size_of_Control.

(** [const _: () = { assert!(..); .. }] *)
Definition layout_asserts : bool :=
  (offset_of_payload =? CMSG_LEN 0) && (offset_of_payload =? sizeof_cmsghdr)
  && (size_of_Control =? CONTROL_SPACE).

(** Test data: the record types every loop runs over, and byte strings. *)
Definition kinds : list byte := [ALERT; HANDSHAKE; APPLICATION_DATA; xff].
Definition bytes (s : string) : list byte := bytes_of s.

Section tests.
Context `{Strerror}.

(** [let mut reader = RecordReader::default()] *)
Definition fresh_reader : M RecordReader unit := put_state RecordReader_default.

(** [assert_eq!(reader.consume(..).unwrap(), outcome)] *)
Definition consumes (record_type : option byte) (flags : Z) (payload : list byte)
    (outcome : ReadOutcome) : M RecordReader unit :=
  let* r := consume record_type flags payload in
  let* o := unwrap r in
  assert_eq o outcome.

(** [reader.consume(..).unwrap_err()] *)
Definition consume_err (record_type : option byte) (flags : Z) (payload : list byte) :
    M RecordReader io_error :=
  let* r := consume record_type flags payload in
  unwrap_err r.

Definition assert_sticky_error (first : io_error) : M RecordReader unit :=
  let* later := consume_err (Some APPLICATION_DATA) MSG_EOR (bytes "hidden") in
  do* assert_eq (kind later) (kind first) ;
  do* assert_eq (io_to_string later) (io_to_string first) ;
  assert_eq (raw_os_error later) (raw_os_error first).

(** ** Ancillary data *)

Definition ancillary_storage_matches_libc_macros : M RecordReader unit :=
  let control := set_record_type ALERT Control_new in
  let controllen := Control_message_controllen in
  do* assert_eq controllen CONTROL_SPACE ;
  do* assert_that (align_of_cmsghdr <=? align_of_Control) ;
  let* header := unwrap_opt (CMSG_FIRSTHDR controllen) in
  do* assert_eq header 0 ;
  let* h := unwrap_opt (header_at [control] header) in
  do* assert_eq (cmsg_level h) SOL_TLS ;
  do* assert_eq (cmsg_type h) TLS_SET_RECORD_TYPE ;
  do* assert_eq (cmsg_len h) CONTROL_LEN ;
  do* assert_eq (CMSG_DATA [control] header) (Some ALERT) ;
  assert_eq (CMSG_NXTHDR [control] controllen header) None.

Definition ancillary_missing_or_valid_record_type : M RecordReader unit :=
  let* t := unwrap (Control_record_type Control_new 0 0) in
  do* assert_eq t None ;
  for_each kinds (λ kind,
    for_each (range_incl CONTROL_LEN CONTROL_SPACE) (λ len,
      let* t := unwrap (Control_record_type (rx_control kind) len 0) in
      assert_eq t (Some kind))).

Definition receive_ancillary_storage_holds_two_aligned_messages : M RecordReader unit :=
  let control := [rx_control APPLICATION_DATA; rx_control APPLICATION_DATA] in
  let controllen := RecvControl_message_controllen in
  do* assert_eq controllen (2 * CONTROL_SPACE) ;
  do* assert_eq size_of_RecvControl (2 * CONTROL_SPACE) ;
  let* first := unwrap_opt (CMSG_FIRSTHDR controllen) in
  do* assert_eq first 0 ;
  let* second := unwrap_opt (CMSG_NXTHDR control controllen first) in
  do* assert_eq second CONTROL_SPACE ;
  do* assert_eq (CMSG_DATA control first) (Some APPLICATION_DATA) ;
  do* assert_eq (CMSG_DATA control second) (Some APPLICATION_DATA) ;
  assert_eq (CMSG_NXTHDR control controllen second) None.

Definition receive_ancillary_accepts_missing_single_and_duplicate_application_types :
    M RecordReader unit :=
  let* t := unwrap (RecvControl_record_type RecvControl_new 0 0) in
  do* assert_eq t None ;
  do* for_each kinds (λ kind,
    let control := (rx_control kind, Control_new) in
    for_each (range_incl CONTROL_LEN CONTROL_SPACE) (λ len,
      let* t := unwrap (RecvControl_record_type control len 0) in
      assert_eq t (Some kind))) ;
  let control := (rx_control APPLICATION_DATA, rx_control APPLICATION_DATA) in
  for_each (range_incl (CONTROL_SPACE + CONTROL_LEN) (2 * CONTROL_SPACE)) (λ len,
    for_each [0; MSG_EOR] (λ flags,
      let* kind := unwrap (RecvControl_record_type control len flags) in
      do* fresh_reader ;
      consumes kind flags (bytes "upload") (Data 6))).

(** [let first = reader.fail(error); assert_sticky_error(&mut reader, &first)] on
    a fresh reader. *)
Definition fails_sticky (error : io_error) : M RecordReader unit :=
  do* fresh_reader ;
  let* first := fail error in
  assert_sticky_error first.

Definition receive_ancillary_rejects_conflicting_or_duplicate_control_types :
    M RecordReader unit :=
  for_each kinds (λ first,
    for_each kinds (λ second,
      if bool_decide (first = APPLICATION_DATA) && bool_decide (second = APPLICATION_DATA)
      then mret tt
      else
        let control := (rx_control first, rx_control second) in
        let* error := unwrap_err (RecvControl_record_type control (2 * CONTROL_SPACE) 0) in
        do* assert_eq (kind error) InvalidData ;
        fails_sticky error)).

Definition receive_ancillary_rejects_incomplete_malformed_or_truncated_messages :
    M RecordReader unit :=
  let valid := rx_control APPLICATION_DATA in
  let control := (valid, valid) in
  do* for_each (range 1 CONTROL_LEN ++ range (CONTROL_SPACE + 1) (CONTROL_SPACE + CONTROL_LEN)
                ++ [2 * CONTROL_SPACE + 1; usize_max]) (λ len,
    assert_that (is_err (RecvControl_record_type control len 0))) ;
  do* for_each [MSG_CTRUNC; MSG_TRUNC] (λ flags,
    for_each [0; CONTROL_SPACE; 2 * CONTROL_SPACE] (λ len,
      let* error := unwrap_err (RecvControl_record_type control len flags) in
      fails_sticky error)) ;
  for_each [0; 1] (λ index,
    do* for_each [0; CONTROL_LEN - 1; CONTROL_LEN + 1; usize_max] (λ len,
      let control := on_index index (with_cmsg_len len) control in
      assert_that (is_err (RecvControl_record_type control (2 * CONTROL_SPACE) 0))) ;
    let control := on_index index (λ _, with_cmsg_level SOL_SOCKET valid) control in
    do* assert_that (is_err (RecvControl_record_type control (2 * CONTROL_SPACE) 0)) ;
    let control := on_index index (λ _, with_cmsg_type TLS_SET_RECORD_TYPE valid) control in
    assert_that (is_err (RecvControl_record_type control (2 * CONTROL_SPACE) 0))).

Definition ancillary_rejects_malformed_lengths_and_unrelated_headers : M RecordReader unit :=
  let control := rx_control ALERT in
  do* for_each (range 1 CONTROL_LEN ++ [CONTROL_SPACE + 1; usize_max]) (λ len,
    assert_that (is_err (Control_record_type control len 0))) ;
  do* for_each [0; CONTROL_LEN - 1; CONTROL_LEN + 1; CONTROL_SPACE + 1] (λ len,
    assert_that (is_err (Control_record_type (with_cmsg_len len control) CONTROL_SPACE 0))) ;
  do* assert_that (is_err (Control_record_type
        (with_cmsg_level SOL_SOCKET (rx_control ALERT)) CONTROL_SPACE 0)) ;
  assert_that (is_err (Control_record_type
        (with_cmsg_type TLS_SET_RECORD_TYPE (rx_control ALERT)) CONTROL_SPACE 0)).

Definition truncated_ancillary_or_payload_is_terminal : M RecordReader unit :=
  for_each [MSG_CTRUNC; MSG_TRUNC] (λ flags,
    do* for_each [0; CONTROL_SPACE] (λ len,
      let* error := unwrap_err (Control_record_type (rx_control ALERT) len flags) in
      fails_sticky error) ;
    do* fresh_reader ;
    let* first := consume_err (Some ALERT) (Z.lor flags MSG_EOR) CLOSE_NOTIFY in
    assert_sticky_error first).

(** The parts of the message that the test looks for. *)
Definition recv_error_fields (flags control_len : Z) : list string := [
  "msg_flags=" +:+ hex_c_int flags;
  "MSG_CTRUNC=" +:+ display_bool (has_flag flags MSG_CTRUNC);
  "MSG_TRUNC=" +:+ display_bool (has_flag flags MSG_TRUNC);
  "MSG_EOR=" +:+ display_bool (has_flag flags MSG_EOR);
  "received=3, capacity=8";
  "msg_controllen=" +:+ pretty control_len;
  "control_capacity=" +:+ pretty RecvControl_message_controllen;
  "cmsg_len=" +:+ pretty CONTROL_LEN;
  "cmsg_level=" +:+ pretty SOL_TLS;
  "cmsg_type=" +:+ pretty TLS_GET_RECORD_TYPE;
  "first_record_type=" +:+
    debug_option_u8 (if negb (control_len =? 0) then Some APPLICATION_DATA else None) ].

Definition receive_errors_include_flags_lengths_and_record_metadata : M RecordReader unit :=
  for_each [MSG_CTRUNC; MSG_TRUNC; Z.lor (Z.lor MSG_CTRUNC MSG_TRUNC) MSG_EOR] (λ flags,
    for_each [0; CONTROL_SPACE] (λ control_len,
      let control := (rx_control APPLICATION_DATA, Control_new) in
      let msg := {| rr_n := 3; rr_bytes := repeat x00 8; rr_control := control;
                    rr_controllen := control_len; rr_flags := flags |} in
      let* error := unwrap_err (RecvControl_record_type control control_len flags) in
      let error := recv_error error msg 3 8 in
      do* assert_eq (kind error) InvalidData ;
      let message := io_to_string error in
      do* assert_that
        (String.prefix "truncated kTLS recvmsg payload or ancillary data" message) ;
      do* for_each (recv_error_fields flags control_len) (λ field,
        assert_that (str_contains field message)) ;
      fails_sticky error)).

(** ** The record reader *)

Definition application_data_does_not_require_a_type_or_record_boundary : M RecordReader unit :=
  do* fresh_reader ;
  for_each [None; Some APPLICATION_DATA] (λ kind,
    for_each [0; MSG_EOR] (λ flags,
      do* consumes kind flags (bytes "x") (Data 1) ;
      consumes kind flags (bytes "hello") (Data 5))).

Definition close_notify_accepts_both_defined_levels_and_is_sticky : M RecordReader unit :=
  for_each [x01; x02] (λ level,
    do* fresh_reader ;
    do* consumes (Some ALERT) MSG_EOR [level; x00] Eof ;
    do* for_each [None; Some APPLICATION_DATA; Some HANDSHAKE] (λ kind,
      consumes kind 0 (bytes "hidden") Eof) ;
    consumes None 0 [] Eof).

Definition close_notify_can_span_two_one_byte_reads : M RecordReader unit :=
  for_each [x01; x02] (λ level,
    do* fresh_reader ;
    do* consumes (Some ALERT) 0 [level] More ;
    let* reader := get_state in
    do* assert_that (match finished reader with None => true | Some _ => false end) ;
    do* assert_eq (alert_len reader) 1 ;
    consumes (Some ALERT) MSG_EOR [x00] Eof).

Definition close_prefix_without_record_boundary_is_not_eof : M RecordReader unit :=
  for_each [false; true] (λ split,
    do* fresh_reader ;
    let* payload :=
      (if split : bool then
         do* consumes (Some ALERT) 0 [x01] More ;
         mret [x00]
       else mret CLOSE_NOTIFY) in
    let* first := consume_err (Some ALERT) 0 payload in
    do* assert_eq (kind first) InvalidData ;
    assert_sticky_error first).

Definition short_oversized_and_non_close_alerts_are_terminal : M RecordReader unit :=
  for_each [[]; [x01]; [x00; x00]; [x03; x00]; [xff; x00]; [x01; x0a]; [x02; x28];
            [x01; x00; x00]; [x01; x00; x01; x00]] (λ payload,
    do* fresh_reader ;
    let* first := consume_err (Some ALERT) MSG_EOR payload in
    do* assert_eq (kind first) InvalidData ;
    assert_sticky_error first).

Definition split_alert_cannot_switch_record_type_or_exceed_two_bytes : M RecordReader unit :=
  do* for_each [None; Some APPLICATION_DATA; Some HANDSHAKE; Some x14] (λ kind,
    do* fresh_reader ;
    do* consumes (Some ALERT) 0 [x01] More ;
    let* first := consume_err kind MSG_EOR [x00] in
    assert_sticky_error first) ;
  do* fresh_reader ;
  do* consumes (Some ALERT) 0 [x01] More ;
  let* first := consume_err (Some ALERT) MSG_EOR [x00; x00] in
  assert_sticky_error first.

Definition bare_fin_including_mid_alert_is_sticky_unexpected_eof : M RecordReader unit :=
  for_each [false; true] (λ partial_alert,
    do* fresh_reader ;
    do* (if partial_alert : bool then consumes (Some ALERT) 0 [x01] More else mret tt) ;
    let* first := consume_err None 0 [] in
    do* assert_eq (kind first) UnexpectedEof ;
    assert_sticky_error first).

Definition zero_payload_with_record_metadata_is_not_transport_eof : M RecordReader unit :=
  do* for_each [0; MSG_EOR] (λ flags,
    do* fresh_reader ;
    do* consumes (Some APPLICATION_DATA) flags [] More ;
    let* reader := get_state in
    assert_that (match finished reader with None => true | Some _ => false end)) ;
  do* for_each [Some ALERT; Some HANDSHAKE] (λ record_type,
    for_each [0; MSG_EOR] (λ flags,
      do* fresh_reader ;
      let* first := consume_err record_type flags [] in
      do* assert_eq (kind first) InvalidData ;
      assert_sticky_error first)) ;
  do* fresh_reader ;
  let* e := consume_err None MSG_EOR [] in
  assert_eq (kind e) InvalidData.

Definition every_handshake_control_fails_closed_without_parsing : M RecordReader unit :=
  for_each [[x04; x00; x00; x00]; [x18; x00; x00; x01; x00]; [xff]] (λ payload,
    for_each [0; MSG_EOR] (λ flags,
      do* fresh_reader ;
      let* first := consume_err (Some HANDSHAKE) flags payload in
      do* assert_eq (kind first) Unsupported ;
      assert_sticky_error first)).

Definition unknown_record_types_are_terminal : M RecordReader unit :=
  for_each [x00; x14; x18; xff] (λ record_type,
    do* fresh_reader ;
    let* first := consume_err (Some record_type) MSG_EOR [x01] in
    do* assert_eq (kind first) InvalidData ;
    assert_sticky_error first).

Definition socket_errors_keep_errno_and_remain_terminal : M RecordReader unit :=
  do* fresh_reader ;
  let* first := fail (Os EBADMSG) in
  do* assert_eq (raw_os_error first) (Some EBADMSG) ;
  assert_sticky_error first.

Definition close_notify_send_must_accept_both_bytes_at_once : M RecordReader unit :=
  do* assert_that (is_ok (check_close_notify_write 2)) ;
  let* e := unwrap_err (check_close_notify_write 0) in
  do* assert_eq (kind e) WriteZero ;
  for_each [1; 3] (λ sent,
    let* e := unwrap_err (check_close_notify_write sent) in
    assert_eq (kind e) InvalidData).

(** ** All of them *)

Definition io_tests_closed : list (M RecordReader unit) := [
  ancillary_storage_matches_libc_macros;
  ancillary_missing_or_valid_record_type;
  receive_ancillary_storage_holds_two_aligned_messages;
  receive_ancillary_accepts_missing_single_and_duplicate_application_types;
  receive_ancillary_rejects_conflicting_or_duplicate_control_types;
  receive_ancillary_rejects_incomplete_malformed_or_truncated_messages;
  ancillary_rejects_malformed_lengths_and_unrelated_headers;
  truncated_ancillary_or_payload_is_terminal;
  receive_errors_include_flags_lengths_and_record_metadata;
  application_data_does_not_require_a_type_or_record_boundary;
  close_notify_accepts_both_defined_levels_and_is_sticky;
  close_notify_can_span_two_one_byte_reads;
  close_prefix_without_record_boundary_is_not_eof;
  short_oversized_and_non_close_alerts_are_terminal;
  split_alert_cannot_switch_record_type_or_exceed_two_bytes;
  bare_fin_including_mid_alert_is_sticky_unexpected_eof;
  zero_payload_with_record_metadata_is_not_transport_eof;
  every_handshake_control_fails_closed_without_parsing;
  unknown_record_types_are_terminal;
  close_notify_send_must_accept_both_bytes_at_once ].

Definition io_tests : list (M RecordReader unit) :=
  io_tests_closed ++ [socket_errors_keep_errno_and_remain_terminal].
End tests.

(** ** They pass

    The general fact behind [assert_sticky_error]: whatever the error, the reader
    that failed with it shows it again, and nothing else. *)

Lemma copy_error_copy `{Strerror} e : copy_error (copy_error e) = copy_error e.
Proof. by destruct e. Qed.

Lemma fails_sticky_passes `{Strerror} e r : passes (fails_sticky e) r = true.
Proof.
  unfold passes, fails_sticky, assert_sticky_error.
  unfold consume_err, consume, fail, fresh_reader, finished, mbind, M_bind, put_state, modify, get_state.
  cbn [terminal set_terminal mret M_ret unwrap_err]. rewrite copy_error_copy.
  destruct e; cbn [copy_error raw_os_error io_to_string]; rewrite !assert_eq_refl; done.
Qed.

(** The text of an OS error is the host's, so this test does not evaluate. *)
Lemma socket_errors_pass `{Strerror} r :
  passes socket_errors_keep_errno_and_remain_terminal r = true.
Proof. exact (fails_sticky_passes (Os EBADMSG) r). Qed.

Theorem io_tests_pass `{Strerror} r : forallb (λ t, passes t r) io_tests = true.
Proof.
  change io_tests with (io_tests_closed ++ [socket_errors_keep_errno_and_remain_terminal]).
  rewrite forallb_app, andb_true_iff. split; [vm_compute; reflexivity|].
  cbn [forallb]. by rewrite socket_errors_pass.
Qed.
