(* ===== verification/TestsKtls.v ===== *)
(** * The unit tests of src/ktls/ (cipher.rs, crypto_info.rs, derive.rs, mod.rs)
    and of the error classification in stream.rs *)

From S2P Require Import Prelude Std Env Objects Sim Errors Alpn Suites Session RecordIo CryptoInfo Install Stream Portable Testing Hkdf.

Local Open Scope Z_scope.

(** ** cipher.rs *)

Section cipher.
Context `{AwsLcConsts}.

Definition tls13_aead_suites_recognised : M unit unit :=
  do* assert_eq (from_ids TLS1_3_VERSION 0x1301) (Some Tls13Aes128Gcm) ;
  do* assert_eq (from_ids TLS1_3_VERSION 0x1302) (Some Tls13Aes256Gcm) ;
  assert_eq (from_ids TLS1_3_VERSION 0x1303) (Some Tls13Chacha20Poly1305).

Definition tls12_aead_suites_recognised : M unit unit :=
  do* for_each [0xC02B; 0xC02F] (λ id,
    assert_eq (from_ids TLS1_2_VERSION id) (Some Tls12Aes128Gcm)) ;
  do* for_each [0xC02C; 0xC030] (λ id,
    assert_eq (from_ids TLS1_2_VERSION id) (Some Tls12Aes256Gcm)) ;
  for_each [0xCCA8; 0xCCA9] (λ id,
    assert_eq (from_ids TLS1_2_VERSION id) (Some Tls12Chacha20Poly1305)).

Definition non_aead_tls12_rejected : M unit unit :=
  assert_eq (from_ids TLS1_2_VERSION 0xC013) None.

Definition tls13_with_tls12_cipher_rejected : M unit unit :=
  assert_eq (from_ids TLS1_3_VERSION 0xC02F) None.

Definition pre_tls12_rejected : M unit unit :=
  do* assert_eq (from_ids 0x0301 0x1301) None ;
  assert_eq (from_ids 0x0302 0xC02F) None.
End cipher.

(** ** crypto_info.rs

    [#[repr(C)]]: two [u16]s and byte arrays, aligned to two. *)

Definition size_of_tls_crypto_info : Z := round_up 2 (2 + 2).
Definition size_of_aes_gcm_128 : Z :=
  round_up 2 (size_of_tls_crypto_info + AES_GCM_IV_LEN + AES_GCM_128_KEY_LEN + AES_GCM_SALT_LEN
              + TLS_REC_SEQ_LEN).
Definition size_of_aes_gcm_256 : Z :=
  round_up 2 (size_of_tls_crypto_info + AES_GCM_IV_LEN + AES_GCM_256_KEY_LEN + AES_GCM_SALT_LEN
              + TLS_REC_SEQ_LEN).
Definition size_of_chacha20_poly1305 : Z :=
  round_up 2 (size_of_tls_crypto_info + CHACHA20_POLY1305_IV_LEN + CHACHA20_POLY1305_KEY_LEN
              + CHACHA20_POLY1305_SALT_LEN + TLS_REC_SEQ_LEN).

(** [const _: () = assert!(..)] *)
Definition crypto_info_asserts : bool :=
  (size_of_tls_crypto_info =? 4) && (size_of_aes_gcm_128 =? 40) && (size_of_aes_gcm_256 =? 56)
  && (size_of_chacha20_poly1305 =? 56).

Definition aes_gcm_128_size : M unit unit := assert_eq size_of_aes_gcm_128 40.
Definition aes_gcm_256_size : M unit unit := assert_eq size_of_aes_gcm_256 56.
Definition chacha20_poly1305_size : M unit unit := assert_eq size_of_chacha20_poly1305 56.

Definition version_constants_match_aws_lc `{AwsLcConsts} : M unit unit :=
  do* assert_eq TLS_1_2_VERSION TLS1_2_VERSION ;
  assert_eq TLS_1_3_VERSION TLS1_3_VERSION.

(** The bytes handed to the kernel are the whole structure. *)
Lemma built_sizes {S} version key salt iv seq (s : S) :
  (∀ c s', build_aes_gcm_128 version key salt iv seq s = Done (c, s') →
     len (g128_bytes c) = size_of_aes_gcm_128) ∧
  (∀ c s', build_aes_gcm_256 version key salt iv seq s = Done (c, s') →
     len (g256_bytes c) = size_of_aes_gcm_256) ∧
  (∀ c s', build_chacha20_poly1305 version key iv seq s = Done (c, s') →
     len (cc_bytes c) = size_of_chacha20_poly1305).
Proof.
  assert (∀ i, len (info_bytes i) = 4) as Hi by done.
  split_and!; intros c s'; unfold build_aes_gcm_128, build_aes_gcm_256, build_chacha20_poly1305,
    copy_array, mbind, M_bind, mret, M_ret, panic; repeat case_match; intros [=]; subst;
    unfold g128_bytes, g256_bytes, cc_bytes;
    cbn [g128_info g128_iv g128_key g128_salt g128_rec_seq g256_info g256_iv g256_key g256_salt
         g256_rec_seq cc_info cc_iv cc_key cc_salt cc_rec_seq];
    simplify_eq; rewrite !len_app, Hi;
    repeat match goal with H : (_ =? _) = true |- _ => apply Z.eqb_eq in H; rewrite H end; reflexivity.
Qed.

(** ** derive.rs *)

Section derive.
Context {W : Type} `{AwsLcConsts, ErrQueue W, Kdf W}.

Definition hkdf_expand_label_sha256_known_answer_key : M W unit :=
  let secret := repeat x00 32 in
  let* r := hkdf_expand_label Sha256 secret "key" 16 in
  let* out := unwrap r in
  let expected := to_be_bytes 16 0xcbee7571c611039ca327a2e879dfcd45 in
  assert_eq out expected.

Definition hkdf_expand_label_sha384_known_answer_key : M W unit :=
  let secret := repeat x00 48 in
  let* r := hkdf_expand_label Sha384 secret "key" 32 in
  let* out := unwrap r in
  let expected := to_be_bytes 32
    0xf603d68cd6fccabbaa4969a9a6661434e018f296f4cd0369c934363a589a69ea in
  assert_eq out expected.

Definition hkdf_expand_label_truncates : M W unit :=
  let secret := repeat xab 32 in
  let* r := hkdf_expand_label Sha256 secret "iv" 12 in
  let* out := unwrap r in
  assert_that (existsb (λ b, negb (byte_Z b =? 0)) out).
End derive.

Definition test_key_block : list byte :=
  repeat x11 4 ++ repeat x22 4 ++ repeat xaa 2 ++ repeat xbb 2.

Definition split_tls12_key_block_server_perspective : M unit unit :=
  let* (wk, wi, rk, ri) := unwrap_opt (split_tls12_key_block test_key_block 4 2 true) in
  do* assert_eq wk (repeat x22 4) ;
  do* assert_eq wi (repeat xbb 2) ;
  do* assert_eq rk (repeat x11 4) ;
  assert_eq ri (repeat xaa 2).

Definition split_tls12_key_block_client_perspective : M unit unit :=
  let* (wk, wi, rk, ri) := unwrap_opt (split_tls12_key_block test_key_block 4 2 false) in
  do* assert_eq wk (repeat x11 4) ;
  do* assert_eq wi (repeat xaa 2) ;
  do* assert_eq rk (repeat x22 4) ;
  assert_eq ri (repeat xbb 2).

(** ** mod.rs

    The state is the vector of directions that the closure saw. *)

(** [directions.push(direction)] *)
Definition push (direction : Z) : M (list Z) unit := modify (λ ds, ds ++ [direction]).

Definition crypto_install_is_rx_then_tx : M (list Z) unit :=
  do* put_state [] ;
  let* r := install_rx_then_tx (λ direction,
    do* push direction ;
    mret (Ok tt)) in
  do* unwrap r ;
  let* directions := get_state in
  assert_eq directions [TLS_RX; TLS_TX].

(** [matches!(result, Err(V(e)) if e.raw_os_error() == Some(errno))] for a variant
    [V] of [KtlsError]. *)
Definition rejected_with (variant : KtlsError → option io_error) (errno : Z)
    (r : result unit KtlsError) : bool :=
  match r with
  | Err k => match variant k with
             | Some e => bool_decide (raw_os_error e = Some errno)
             | None => false
             end
  | Ok _ => false
  end.

Definition rx_rejection_is_safe_and_never_attempts_tx : M (list Z) unit :=
  for_each [EINVAL; EOPNOTSUPP; ENOPROTOOPT; ENOMEM] (λ errno,
    do* put_state [] ;
    let* result := install_rx_then_tx (λ direction,
      do* push direction ;
      do* assert_eq direction TLS_RX ;
      mret (Err (Os errno))) in
    let* directions := get_state in
    do* assert_eq directions [TLS_RX] ;
    assert_that (rejected_with
      (λ k, match k with CryptoUnavailable e => Some e | _ => None end) errno result)).

Definition tx_rejection_after_rx_success_is_fatal : M (list Z) unit :=
  do* put_state [] ;
  let* result := install_rx_then_tx (λ direction,
    do* push direction ;
    if direction =? TLS_TX then mret (Err (Os EINVAL)) else mret (Ok tt)) in
  let* directions := get_state in
  do* assert_eq directions [TLS_RX; TLS_TX] ;
  assert_that (rejected_with
    (λ k, match k with SetSockOpt e => Some e | _ => None end) EINVAL result).

Definition is_ulp_unavailable (k : KtlsError) : bool :=
  match k with TlsUlpUnavailable _ => true | _ => false end.
Definition is_unattachable (k : KtlsError) : bool :=
  match k with SocketUnattachable _ => true | _ => false end.
Definition is_setsockopt (k : KtlsError) : bool :=
  match k with SetSockOpt _ => true | _ => false end.

Definition classify_enoent_is_ulp_unavailable : M unit unit :=
  assert_that (is_ulp_unavailable (classify_ulp_error (Os ENOENT))).
Definition classify_enoprotoopt_is_ulp_unavailable : M unit unit :=
  assert_that (is_ulp_unavailable (classify_ulp_error (Os ENOPROTOOPT))).
Definition classify_enotconn_is_socket_unattachable : M unit unit :=
  assert_that (is_unattachable (classify_ulp_error (Os ENOTCONN))).
Definition classify_eisconn_is_socket_unattachable : M unit unit :=
  assert_that (is_unattachable (classify_ulp_error (Os EISCONN))).
Definition classify_ebusy_is_socket_unattachable : M unit unit :=
  assert_that (is_unattachable (classify_ulp_error (Os EBUSY))).
Definition classify_other_errno_stays_generic : M unit unit :=
  assert_that (is_setsockopt (classify_ulp_error (Os EACCES))).

Section host.
Context {W : Type} (exists_path : string → W → bool).

Definition host_ktls_available_is_false_on_non_linux : M W unit :=
  let* r := gets (host_ktls_available false exists_path) in
  assert_that (negb r).

Definition host_ktls_available_matches_proc_file : M W unit :=
  let* direct := gets (exists_path "/proc/net/tls_stat") in
  let* r := gets (host_ktls_available true exists_path) in
  assert_eq r direct.

Definition host_ktls_available_is_stable (linux : bool) : M W unit :=
  let* a := gets (host_ktls_available linux exists_path) in
  let* b := gets (host_ktls_available linux exists_path) in
  assert_eq a b.

Lemma host_tests_pass linux w :
  passes host_ktls_available_is_false_on_non_linux w
  && passes host_ktls_available_matches_proc_file w
  && passes (host_ktls_available_is_stable linux) w = true.
Proof.
  unfold passes, host_ktls_available_matches_proc_file, host_ktls_available_is_stable,
    mbind, M_bind, gets. cbn. by rewrite !assert_eq_refl.
Qed.
End host.

(** ** stream.rs

    [ERR_put_error] appends a packed code; the reason of a bad MAC is the header's. *)

Definition ERR_put_error (library reason : Z) (w : Sim) : Sim :=
  with_errs (λ q, q ++ [Z.lor (Z.shiftl library 24) reason]) w.

Definition ssl_io_error_classifies_and_drains_queue (bad_record_mac : Z) : M Sim unit :=
  do* for_each [(ERR_LIB_SSL, SSL_R_UNEXPECTED_EOF_WHILE_READING, UnexpectedEof);
                (ERR_LIB_SSL, bad_record_mac, Other);
                (ERR_LIB_PEM, SSL_R_UNEXPECTED_EOF_WHILE_READING, Other)]
    (λ '(library, reason, expected),
      do* modify ERR_clear_error ;
      do* modify (ERR_put_error library reason) ;
      do* modify (ERR_put_error ERR_LIB_SSL bad_record_mac) ;
      let* error := ssl_io_error "SSL_read" SSL_ERROR_SSL in
      do* assert_eq (kind error) expected ;
      do* (if bool_decide (expected = Other)
           then assert_that (String.prefix "SSL_read: ssl_error=" (io_to_string error))
           else mret tt) ;
      let* packed := gets ERR_peek_error in
      assert_eq packed 0) ;
  let* error := ssl_io_error "SSL_read" SSL_ERROR_SSL in
  do* assert_eq (kind error) Other ;
  assert_that (str_contains "(no error queued)" (io_to_string error)).

(** ** They pass *)

Definition ktls_tests : list (M unit unit) := [
  tls13_aead_suites_recognised; tls12_aead_suites_recognised; non_aead_tls12_rejected;
  tls13_with_tls12_cipher_rejected; pre_tls12_rejected;
  aes_gcm_128_size; aes_gcm_256_size; chacha20_poly1305_size; version_constants_match_aws_lc;
  split_tls12_key_block_server_perspective; split_tls12_key_block_client_perspective;
  classify_enoent_is_ulp_unavailable; classify_enoprotoopt_is_ulp_unavailable;
  classify_enotconn_is_socket_unattachable; classify_eisconn_is_socket_unattachable;
  classify_ebusy_is_socket_unattachable; classify_other_errno_stays_generic ].

Lemma ktls_tests_pass : forallb (λ t, passes t tt) ktls_tests && crypto_info_asserts = true.
Proof. vm_compute. reflexivity. Qed.

Definition install_tests : list (M (list Z) unit) := [
  crypto_install_is_rx_then_tx; rx_rejection_is_safe_and_never_attempts_tx;
  tx_rejection_after_rx_success_is_fatal ].

Lemma install_tests_pass ds : forallb (λ t, passes t ds) install_tests = true.
Proof. vm_compute. reflexivity. Qed.

(** The installation in [rejected_rx_leaves_ulp_forwarding_raw_tcp], with the keys of the
    test; whether the test goes on to the raw bytes, which only pass the kernel. *)
Definition rejected_rx_install {W} `{ErrQueue W, Syscalls W} : M W bool :=
  let* tx := build_aes_gcm_128 TLS_1_2_VERSION (repeat x00 16) (repeat x00 4) (repeat x00 8) 0 in
  let rx := {| g128_info := {| ci_version := 0; ci_cipher_type := ci_cipher_type (g128_info tx) |};
               g128_iv := g128_iv tx; g128_key := g128_key tx; g128_salt := g128_salt tx;
               g128_rec_seq := g128_rec_seq tx |} in
  let info := AesGcm128 tx rx in
  let* r := install info in
  match r with
  | Err (CryptoUnavailable e) =>
      do* assert_eq (raw_os_error e) (Some EINVAL) ;
      mret true
  | Err (TlsUlpUnavailable e) => mret false
  | _ => panic "expected initial RX rejection"
  end.

(** A kernel that refuses the version, and one without the [tls] protocol. *)
Lemma rejected_rx_install_passes :
  (∃ w', rejected_rx_install (sim0 [EvOpt 0 0; EvOpt (-1) EINVAL]) = Done (true, w')) ∧
  (∃ w', rejected_rx_install (sim0 [EvOpt (-1) ENOENT]) = Done (false, w')).
Proof. split; eexists; vm_compute; reflexivity. Qed.

Definition derive_tests `{Kdf Sim} : list (M Sim unit) := [
  hkdf_expand_label_sha256_known_answer_key; hkdf_expand_label_sha384_known_answer_key;
  hkdf_expand_label_truncates ].

(** The known answers of derive.rs: with HKDF-Expand as RFC 5869 defines it
    over SHA-256 and SHA-384 behind the parameter, [hkdf_expand_label] derives, from
    an all-zero secret, byte for byte the key that the crate's tests expect, for
    either hash; the encoding of the label is that of TLS 1.3. *)
Theorem hkdf_known_answers :
  forallb (λ t, passes t (sim0 [])) (@derive_tests rfc5869_kdf) = true.
Proof. vm_compute. reflexivity. Qed.

Lemma stream_test_passes : passes (ssl_io_error_classifies_and_drains_queue 130) (sim0 []) = true.
Proof. vm_compute. reflexivity. Qed.
