(* ===== verification/TestsConfig.v ===== *)
(** * The unit tests of src/config/ and of error.rs

    The certificate and key files that the tests include are arguments of their
    translations; the tests run on the encodings of the simulated library.  The
    tests that read PEM files from disk, where libssl opens the file, are left
    out. *)

From S2P Require Import Prelude Std Env Objects Sim Errors Ownership Alpn Suites Loaders ServerConfig ClientConfig ConfigProps Testing.

Local Open Scope Z_scope.

#[export] Instance AlpnEncodeError_eq_dec : EqDecision AlpnEncodeError.
Proof. solve_decision. Defined.

(** ** mod.rs: the ALPN wire format *)

Definition alpn_wire_round_trip : M unit unit :=
  let* encoded := unwrap (encode_alpn_wire [bytes_of "h2"; bytes_of "http/1.1"]) in
  do* assert_eq encoded (x02 :: bytes_of "h2" ++ x08 :: bytes_of "http/1.1") ;
  assert_eq (iter_alpn_wire encoded) [bytes_of "h2"; bytes_of "http/1.1"].

Definition alpn_wire_empty_proto_rejected : M unit unit :=
  assert_eq (encode_alpn_wire [[]]) (Err Empty).

Definition alpn_wire_too_long_rejected : M unit unit :=
  let too_long := repeat x78 256 in
  assert_eq (encode_alpn_wire [too_long]) (Err TooLong).

Definition alpn_encode_error_display : M unit unit :=
  do* assert_eq (fmt_AlpnEncodeError Empty) "ALPN protocol identifier must be non-empty"%string ;
  assert_eq (fmt_AlpnEncodeError TooLong) "ALPN protocol identifier exceeds 255 bytes"%string.

Definition alpn_wire_truncated_is_silently_dropped : M unit unit :=
  assert_eq (iter_alpn_wire (x05 :: bytes_of "ab")) [].

Definition protocol_version_raw_matches_bindings `{AwsLcConsts} : M unit unit :=
  do* assert_eq (ProtocolVersion_raw Tls12) (Some TLS1_2_VERSION) ;
  assert_eq (ProtocolVersion_raw Tls13) (Some TLS1_3_VERSION).

(** ** cipher_suite.rs *)

(** [CipherSuite::name] and [CipherSuite::id] *)
Definition suite_name (s : CipherSuite) : string := iana_name s.
Definition suite_id (s : CipherSuite) : Z := iana_id s.
Definition suite_version (s : CipherSuite) : ProtocolVersion := version s.
Definition suite_openssl_name (s : CipherSuite) : string := openssl_name s.

Definition metadata_round_trip : M unit unit :=
  do* assert_eq (suite_name TLS13_AES_128_GCM_SHA256) "TLS_AES_128_GCM_SHA256"%string ;
  do* assert_eq (suite_id TLS13_AES_128_GCM_SHA256) 0x1301 ;
  do* assert_eq (suite_version TLS13_AES_128_GCM_SHA256) Tls13 ;
  do* assert_eq (suite_openssl_name TLS_ECDHE_ECDSA_WITH_AES_128_GCM_SHA256)
        "ECDHE-ECDSA-AES128-GCM-SHA256"%string ;
  do* assert_eq (suite_id TLS_ECDHE_ECDSA_WITH_AES_128_GCM_SHA256) 0xC02B ;
  assert_eq (suite_version TLS_ECDHE_ECDSA_WITH_AES_128_GCM_SHA256) Tls12.

Definition split_groups_by_version : M unit unit :=
  let suites := [TLS13_AES_128_GCM_SHA256; TLS_ECDHE_ECDSA_WITH_AES_128_GCM_SHA256;
                 TLS13_CHACHA20_POLY1305_SHA256; TLS_ECDHE_RSA_WITH_AES_256_GCM_SHA384] in
  let '(tls12, tls13) := split_for_aws_lc suites in
  do* assert_eq tls12
        (Some "ECDHE-ECDSA-AES128-GCM-SHA256:ECDHE-RSA-AES256-GCM-SHA384"%string) ;
  assert_eq tls13 (Some "TLS_AES_128_GCM_SHA256:TLS_CHACHA20_POLY1305_SHA256"%string).

Definition split_empty_input_yields_none : M unit unit :=
  let '(tls12, tls13) := split_for_aws_lc [] in
  do* assert_eq tls12 None ;
  assert_eq tls13 None.

Definition split_tls13_only : M unit unit :=
  let '(tls12, tls13) := split_for_aws_lc [TLS13_AES_256_GCM_SHA384] in
  do* assert_eq tls12 None ;
  assert_eq tls13 (Some "TLS_AES_256_GCM_SHA384"%string).

(** The same static list. *)
Definition default_matches_all_for_now : M unit unit :=
  assert_eq DEFAULT_CIPHER_SUITES ALL_CIPHER_SUITES.

Definition all_constant_lists_every_suite : M unit unit :=
  do* assert_eq (len ALL_CIPHER_SUITES) 9 ;
  for_each ALL_CIPHER_SUITES (λ s,
    do* assert_that (bool_decide (version s = Tls12) || bool_decide (version s = Tls13)) ;
    assert_ne (suite_name s) ""%string).

(** A getter of a context is a field of its ghost state. *)
Definition ctx_get {A} (f : CtxState → A) (ctx : nat) : M Sim (option A) :=
  gets (λ w, f <$> g_ctx (ghost w) !! ctx).

(** [SSL_CTX_new(TLS_method())]: the role makes no difference to the test. *)
Definition test_ctx (server : bool) : M Sim nat :=
  let* raw := ext (SSL_CTX_new server) in
  unwrap_opt raw.

Definition apply_case (server : bool) (suites : list CipherSuite) (disabled : Z)
    (min max : ProtocolVersion) : M Sim unit :=
  let* ctx := test_ctx server in
  let* min_raw := raw_or_panic min in
  let* max_raw := raw_or_panic max in
  let* ok := ext (SSL_CTX_set_min_proto_version ctx min_raw) in
  do* assert_eq ok 1 ;
  let* ok := ext (SSL_CTX_set_max_proto_version ctx max_raw) in
  do* assert_eq ok 1 ;
  let* no_ticket := unwrap_opt (try_from_i32_u32 SSL_OP_NO_TICKET) in
  do* modify (SSL_CTX_set_options ctx no_ticket) ;
  let* options := ctx_get cs_options ctx in
  let* r := apply_suites_to_ctx ctx suites in
  do* unwrap r ;
  let* got := ctx_get cs_min_version ctx in
  do* assert_eq got (Some min_raw) ;
  let* got := ctx_get cs_max_version ctx in
  do* assert_eq got (Some max_raw) ;
  let* disabled := unwrap_opt (try_from_i32_u32 disabled) in
  let* got := ctx_get cs_options ctx in
  do* assert_eq got ((λ o, Z.lor o disabled) <$> options) ;
  let* _ := ext (SSL_CTX_free ctx) in
  mret tt.

Definition apply_preserves_bounds_and_existing_options (server : bool) : M Sim unit :=
  for_each [([], 0);
            ([TLS_ECDHE_ECDSA_WITH_AES_128_GCM_SHA256], SSL_OP_NO_TLSv1_3);
            ([TLS13_AES_128_GCM_SHA256], SSL_OP_NO_TLSv1_2);
            ([TLS_ECDHE_ECDSA_WITH_AES_128_GCM_SHA256; TLS13_AES_128_GCM_SHA256], 0)]
    (λ '(suites, disabled),
      for_each [Tls12; Tls13] (λ min,
        for_each [Tls12; Tls13] (λ max, apply_case server suites disabled min max))).

(** ** named_group.rs *)

Definition nids_match_bindings `{AwsLcConsts} : M unit unit :=
  do* assert_eq (nid X25519) NID_X25519 ;
  do* assert_eq (nid Secp256r1) NID_X9_62_prime256v1 ;
  do* assert_eq (nid Secp384r1) NID_secp384r1 ;
  do* assert_eq (nid Secp521r1) NID_secp521r1 ;
  do* assert_eq (nid X25519MLKEM768) NID_X25519MLKEM768 ;
  do* assert_eq (nid SecP256r1MLKEM768) NID_SecP256r1MLKEM768 ;
  assert_eq (nid SecP384r1MLKEM1024) NID_SecP384r1MLKEM1024.

Definition apply_to_ctx_accepts_known_groups : M Sim unit :=
  let* ctx := test_ctx false in
  let* r := apply_groups_to_ctx ctx [X25519; Secp256r1; X25519MLKEM768] in
  do* unwrap r ;
  let* _ := ext (SSL_CTX_free ctx) in
  mret tt.

(** ** der.rs *)

(** [matches!(r, Err(Error::Init(message)) if message.contains("trailing data"))] *)
Definition trailing_data {A} (r : Result A) : bool :=
  match r with Err (Init message) => str_contains "trailing data" message | _ => false end.

Section der.
Context {W : Type} `{ErrQueue W, LibCrypto W}.
Context (CERT_DER KEY_DER : list byte).

Definition valid_certificate_is_accepted : M W unit :=
  let* r := parse_x509 CERT_DER in
  let* cert := unwrap r in
  modify (X509_free cert).

Definition valid_private_key_is_accepted : M W unit :=
  let* r := parse_private_key KEY_DER in
  let* key := unwrap r in
  modify (EVP_PKEY_free key).

Definition certificate_trailing_garbage_is_rejected : M W unit :=
  for_each [[x00]; bytes_of "garbage"] (λ suffix,
    let* r := parse_x509 (CERT_DER ++ suffix) in
    assert_that (trailing_data r)).

Definition private_key_trailing_garbage_is_rejected : M W unit :=
  for_each [[x00]; bytes_of "garbage"] (λ suffix,
    let* r := parse_private_key (KEY_DER ++ suffix) in
    assert_that (trailing_data r)).

Definition concatenated_certificates_are_rejected : M W unit :=
  let* r := parse_x509 (CERT_DER ++ CERT_DER) in
  assert_that (trailing_data r).

Definition concatenated_private_keys_are_rejected : M W unit :=
  let* r := parse_private_key (KEY_DER ++ KEY_DER) in
  assert_that (trailing_data r).

Definition empty_and_truncated_objects_are_rejected : M W unit :=
  let* r := parse_x509 [] in
  do* assert_that (is_err r) ;
  let* r := parse_private_key [] in
  do* assert_that (is_err r) ;
  let* r := parse_x509 (prefix (len CERT_DER - 1) CERT_DER) in
  do* assert_that (is_err r) ;
  let* r := parse_private_key (prefix (len KEY_DER - 1) KEY_DER) in
  assert_that (is_err r).

Definition der_tests : list (M W unit) := [
  valid_certificate_is_accepted; valid_private_key_is_accepted;
  certificate_trailing_garbage_is_rejected; private_key_trailing_garbage_is_rejected;
  concatenated_certificates_are_rejected; concatenated_private_keys_are_rejected;
  empty_and_truncated_objects_are_rejected ].
End der.

(** ** server.rs and client.rs *)

Section config.
Context {W : Type} `{Strerror, AwsLcConsts, ErrQueue W, LibSslCtx W, LibCrypto W}.
Context (TEST_CERT_PEM TEST_KEY_PEM TEST_CERT_DER TEST_KEY_DER : list byte).

(** [cfg.ctx_ptr()]; a pointer that may be null is an [option]. *)
Definition server_ctx_ptr (cfg : ServerConfig) : option nat := Some (sc_ctx cfg).
Definition client_ctx_ptr (cfg : ClientConfig) : option nat := Some (cc_ctx cfg).

(** [let cfg = r.expect(..); assert!(!cfg.ctx_ptr().is_null())], and the drop of
    [cfg]. *)
Definition server_builds (r : M (Proc * W) (Result ServerConfig)) : M (Proc * W) unit :=
  let* r := r in
  let* cfg := unwrap r in
  do* assert_ne (server_ctx_ptr cfg) None ;
  drop_ctx (sc_ctx cfg).

Definition client_builds (r : M (Proc * W) (Result ClientConfig)) : M (Proc * W) unit :=
  let* r := r in
  let* cfg := unwrap r in
  do* assert_ne (client_ctx_ptr cfg) None ;
  drop_ctx (cc_ctx cfg).

(** [let err = r.expect_err(..); assert!(matches!(err, Error::Init(_)))] *)
Definition fails_init {A} (r : M (Proc * W) (Result A)) : M (Proc * W) unit :=
  let* r := r in
  let* err := unwrap_err r in
  assert_that (match err with Init _ => true | _ => false end).

Definition builds_from_valid_pem_bytes : M (Proc * W) unit :=
  server_builds (with_pem_bytes TEST_CERT_PEM TEST_KEY_PEM server_builder).

Definition builds_from_valid_der_bytes : M (Proc * W) unit :=
  server_builds (with_der_bytes [TEST_CERT_DER] TEST_KEY_DER server_builder).

Definition der_empty_chain_rejected : M (Proc * W) unit :=
  fails_init (with_der_bytes [] TEST_KEY_DER server_builder).

Definition der_garbage_cert_rejected : M (Proc * W) unit :=
  fails_init (with_der_bytes [bytes_of "not a real DER cert"] TEST_KEY_DER server_builder).

Definition der_garbage_key_rejected : M (Proc * W) unit :=
  fails_init (with_der_bytes [TEST_CERT_DER] (bytes_of "not a real DER key") server_builder).

Definition mismatched_cert_and_key_rejected : M (Proc * W) unit :=
  fails_init (with_pem_bytes TEST_CERT_PEM (bytes_of "not a real key") server_builder).

Definition builder_chains_setters : M (Proc * W) unit :=
  server_builds
    (with_pem_bytes TEST_CERT_PEM TEST_KEY_PEM
      (server_set_ktls_aead_only true
        (server_max_protocol_version Tls13
          (server_min_protocol_version Tls12
            (server_set_alpn_protocols [bytes_of "h2"; bytes_of "http/1.1"] server_builder))))).

Definition path_to_cstring_rejects_embedded_nul : M (Proc * W) unit :=
  let* err := unwrap_err (path_to_cstring (bytes_of "foo" ++ [x00] ++ bytes_of "bar.pem")) in
  do* assert_that (str_contains "embedded NUL byte" (fmt_Error err)) ;
  let* _ := unwrap (path_to_cstring (bytes_of "normal.pem")) in
  mret tt.

Definition pem_chain_with_trailing_garbage_is_rejected : M (Proc * W) unit :=
  let nl := [x0a] in
  let polluted := TEST_CERT_PEM ++ nl ++ bytes_of "-----BEGIN CERTIFICATE-----" ++ nl
    ++ bytes_of "not-base64-at-all" ++ nl ++ bytes_of "-----END CERTIFICATE-----" ++ nl in
  fails_init (with_pem_bytes polluted TEST_KEY_PEM server_builder).

Definition builds_with_system_roots : M (Proc * W) unit :=
  client_builds (client_build
    (client_set_alpn_protocols [bytes_of "h2"] (with_system_root_certs client_builder))).

Definition builds_with_pem_roots : M (Proc * W) unit :=
  client_builds (client_build (with_root_certs_pem_bytes TEST_CERT_PEM client_builder)).

Definition builds_with_der_roots : M (Proc * W) unit :=
  client_builds (client_build (with_root_certs_der_bytes [TEST_CERT_DER] client_builder)).

Definition empty_root_pem_rejected : M (Proc * W) unit :=
  fails_init (client_build (with_root_certs_pem_bytes [] client_builder)).

Definition empty_root_der_list_rejected : M (Proc * W) unit :=
  fails_init (client_build (with_root_certs_der_bytes [] client_builder)).

Definition builds_with_mtls_material : M (Proc * W) unit :=
  client_builds (client_build
    (with_client_auth_pem_bytes TEST_CERT_PEM TEST_KEY_PEM
      (with_root_certs_pem_bytes TEST_CERT_PEM client_builder))).

Definition builds_with_mtls_der_material : M (Proc * W) unit :=
  client_builds (client_build
    (with_client_auth_der_bytes [TEST_CERT_DER] TEST_KEY_DER
      (with_root_certs_der_bytes [TEST_CERT_DER] client_builder))).

Definition mtls_der_garbage_cert_rejected : M (Proc * W) unit :=
  fails_init (client_build
    (with_client_auth_der_bytes [bytes_of "not a real DER cert"] TEST_KEY_DER
      (with_root_certs_der_bytes [TEST_CERT_DER] client_builder))).

Definition config_tests : list (M (Proc * W) unit) := [
  builds_from_valid_pem_bytes; builds_from_valid_der_bytes; der_empty_chain_rejected;
  der_garbage_cert_rejected; der_garbage_key_rejected; mismatched_cert_and_key_rejected;
  builder_chains_setters; path_to_cstring_rejects_embedded_nul;
  pem_chain_with_trailing_garbage_is_rejected; builds_with_system_roots; builds_with_pem_roots;
  builds_with_der_roots; empty_root_pem_rejected; empty_root_der_list_rejected;
  builds_with_mtls_material; builds_with_mtls_der_material; mtls_der_garbage_cert_rejected ].
End config.

(** ** They pass *)

Definition alpn_tests : list (M unit unit) := [
  alpn_wire_round_trip; alpn_wire_empty_proto_rejected; alpn_wire_too_long_rejected;
  alpn_encode_error_display; alpn_wire_truncated_is_silently_dropped;
  protocol_version_raw_matches_bindings; metadata_round_trip; split_groups_by_version;
  split_empty_input_yields_none; split_tls13_only; default_matches_all_for_now;
  all_constant_lists_every_suite; nids_match_bindings ].

Lemma alpn_tests_pass : forallb (λ t, passes t tt) alpn_tests = true.
Proof. vm_compute. reflexivity. Qed.

Definition ctx_tests : list (M Sim unit) :=
  [apply_preserves_bounds_and_existing_options true;
   apply_preserves_bounds_and_existing_options false; apply_to_ctx_accepts_known_groups]
  ++ der_tests [x30; x01] [x31; x01].

Lemma ctx_tests_pass : forallb (λ t, passes t (sim0 [])) ctx_tests = true.
Proof. vm_compute. reflexivity. Qed.

Lemma config_tests_pass :
  forallb (λ t, passes t (proc0, sim0 []))
    (config_tests [x30; x01] [x31; x01] [x30; x01] [x31; x01]) = true.
Proof. vm_compute. reflexivity. Qed.
