(* ===== verification/TestsError.v ===== *)
(** * The unit tests of error.rs

    For any [strerror] and, where the queue is used, any world whose queue is
    one. *)

From S2P Require Import Prelude Std Env Sim Errors Testing.

Local Open Scope Z_scope.

Definition is_some {A} (o : option A) : bool := match o with Some _ => true | None => false end.
Definition is_none {A} (o : option A) : bool := negb (is_some o).

Section queue.
Context {W : Type} `{AwsLcConsts, ErrQueue W}.

Definition empty_queue_returns_sentinel : M W unit :=
  do* modify ERR_clear_error ;
  let* text := last_error in
  assert_eq text "(no error queued)"%string.

Lemma empty_queue_passes `{!ErrQueueLaws W} w : passes empty_queue_returns_sentinel w = true.
Proof.
  unfold passes, empty_queue_returns_sentinel, modify, mbind, M_bind.
  destruct (last_error_run (ERR_clear_error w)) as (text & w' & -> & _ & ->).
  by rewrite ERR_clear_error_spec, assert_eq_refl.
Qed.
End queue.

Section display.
Context `{Strerror}.

Definition display_includes_inner_message : M unit unit :=
  assert_that (str_contains "bad cert" (fmt_Error (Init "bad cert"))).

Definition ktls_unsupported_display : M unit unit :=
  let s := fmt_Error (Ktls KUnsupported) in
  do* assert_that (str_contains "ktls" s) ;
  assert_that (str_contains "not supported" s).

Definition io_error_round_trip_via_from : M unit unit :=
  let e := Error_from_io (Custom ConnectionReset "reset") in
  assert_that (match e with Io _ => true | _ => false end).

Definition handshake_display : M unit unit :=
  let s := fmt_Error (Handshake "bad alert") in
  do* assert_that (String.prefix "tls handshake:" s) ;
  assert_that (str_contains "bad alert" s).

Definition io_display_wraps_inner : M unit unit :=
  let s := fmt_Error (Io (Custom ConnectionReset "boom")) in
  do* assert_that (String.prefix "tls io:" s) ;
  assert_that (str_contains "boom" s).

Definition ktls_ineligible_cipher_display : M unit unit :=
  let s := fmt_Error (Ktls (IneligibleCipher "TLSv1.2" "ECDHE-ECDSA-AES128-SHA")) in
  do* assert_that (str_contains "TLSv1.2" s) ;
  assert_that (str_contains "ECDHE-ECDSA-AES128-SHA" s).

Definition ktls_buffered_plaintext_display : M unit unit :=
  assert_that (str_contains "17" (fmt_KtlsError (BufferedPlaintext 17))).

Definition ktls_setsockopt_display_and_source : M unit unit :=
  let ke := SetSockOpt (Os 13) in
  let s := fmt_KtlsError ke in
  do* assert_that (String.prefix "setsockopt failed:" s) ;
  do* assert_that (str_contains "unrecoverable" s) ;
  do* assert_that (str_contains "close the connection" s) ;
  do* assert_that (is_some (KtlsError_source ke)) ;
  assert_that (is_some (Error_source (Ktls (SetSockOpt (Os 13))))).

Definition ktls_crypto_unavailable_display_and_source : M unit unit :=
  let ke := CryptoUnavailable (Custom InvalidInput "unsupported crypto") in
  let s := fmt_KtlsError ke in
  do* assert_that (str_contains "unsupported crypto" s) ;
  do* assert_that (str_contains "neither direction is active" s) ;
  do* assert_that (str_contains "fallback is safe" s) ;
  let* source := unwrap_opt (KtlsError_source ke) in
  do* assert_eq (kind source) InvalidInput ;
  assert_eq (io_to_string source) "unsupported crypto"%string.

Definition ktls_tls_ulp_unavailable_display_mentions_modprobe : M unit unit :=
  let ke := TlsUlpUnavailable (Os 2) in
  let s := fmt_KtlsError ke in
  do* assert_that (str_contains "modprobe tls" s) ;
  do* assert_that (str_contains "CONFIG_TLS" s) ;
  assert_that (is_some (KtlsError_source ke)).

Definition error_source_io_some_init_none : M unit unit :=
  do* assert_that (is_some (Error_source (Io (Custom Other "x")))) ;
  do* assert_that (is_none (Error_source (Init "x"))) ;
  assert_that (is_none (Error_source (Handshake "x"))).

Definition ktls_error_source_only_for_setsockopt : M unit unit :=
  do* assert_that (is_none (KtlsError_source KUnsupported)) ;
  do* assert_that (is_none (KtlsError_source (BufferedPlaintext 1))) ;
  do* assert_that (is_none (KtlsError_source (IneligibleCipher "x" "y"))) ;
  assert_that (is_some (KtlsError_source (TlsUlpUnavailable (Os 2)))).

Definition error_tests : list (M unit unit) := [
  display_includes_inner_message; ktls_unsupported_display; io_error_round_trip_via_from;
  handshake_display; io_display_wraps_inner; ktls_ineligible_cipher_display;
  ktls_buffered_plaintext_display; ktls_setsockopt_display_and_source;
  ktls_crypto_unavailable_display_and_source;
  ktls_tls_ulp_unavailable_display_mentions_modprobe; error_source_io_some_init_none;
  ktls_error_source_only_for_setsockopt ].

(** The two tests whose texts contain that of the operating system. *)
Lemma setsockopt_display_passes : passes ktls_setsockopt_display_and_source tt = true.
Proof.
  unfold passes, ktls_setsockopt_display_and_source. cbn [fmt_KtlsError].
  rewrite (assert_that_true (str_contains "unrecoverable" _))
    by (do 2 apply str_contains_app_r; reflexivity).
  rewrite (assert_that_true (str_contains "close the connection" _))
    by (do 2 apply str_contains_app_r; reflexivity).
  reflexivity.
Qed.

Lemma ulp_unavailable_display_passes :
  passes ktls_tls_ulp_unavailable_display_mentions_modprobe tt = true.
Proof.
  unfold passes, ktls_tls_ulp_unavailable_display_mentions_modprobe. cbn [fmt_KtlsError].
  rewrite (assert_that_true (str_contains "modprobe tls" _))
    by (do 2 apply str_contains_app_r; reflexivity).
  rewrite (assert_that_true (str_contains "CONFIG_TLS" _))
    by (do 2 apply str_contains_app_r; reflexivity).
  reflexivity.
Qed.

Lemma error_tests_pass : forallb (λ t, passes t tt) error_tests = true.
Proof.
  unfold error_tests. cbn [forallb].
  rewrite setsockopt_display_passes, ulp_unavailable_display_passes. reflexivity.
Qed.
End display.
